(* ===== verification/_CoqProject ===== *)
-Q . S2P
Prelude.v
Monad.v
LinkedList.v
HashList.v
ByteOrder.v
Ring.v
ResPool.v
Cmdline.v
Registry.v
HostMem.v
Topology.v
Uart16550a.v
Virtqueue.v
Virtio.v
VirtioServe.v
Block.v
VirtioBlk.v
VirtioNet.v
VirtioLife.v
VirtioMmio.v
Pci.v
VirtioPci.v
VirtioTransports.v
PioBridge.v
MpTable.v
IoCtx.v
Backends.v
Device.v
PcBoard.v
Host.v
Log.v
Service.v
PosixStdio.v
KvmRegs.v
KvmRun.v
KvmAccel.v
Kick.v
VmInit.v
VmRun.v
Lines.v
LinuxFile.v
LinuxTap.v
LinuxLoader.v
Boot.v
Main.v
