(* ===== verification/Prelude.v ===== *)
(** * modvm: a verification development of the virtual machine monitor

    modvm runs a guest on KVM and emulates the devices of a PC for it: a serial
    port, a PCI bus behind a host bridge, and VirtIO block and network devices
    on a PCI or a memory-mapped transport.  Everything the guest writes is
    hostile: register accesses reach the devices through the I/O map, and the
    rings and buffers of VirtIO queues lie in guest memory that the guest may
    change while the host reads it.  On the other side host threads deliver
    input, a thread runs each processor, and any of them may ask the machine to
    stop.  This library translates the C sources into Rocq functions and proves
    what they promise.

    ** How the code is translated

    A structure is a record, an enumeration an inductive type, and a function
    a Rocq function with the same name that takes the state it works on and
    returns the new one.  [r <| f := v |>] is the assignment to a field.
    Unsigned integers are [Z]; where an operation can leave the width of its
    type the reduction is written out ([u8] to [u64]).  An error code is the
    negative number the C function returns; a pointer that may be NULL is an
    [option], one that may be an error pointer an [err_ptr].  Allocations and
    system calls take their outcome as an argument, so that every failure path
    is covered.  Calls that other code answers (the kernel, the C library's
    files, a console, a disk, a network) are classes of operations, with the
    documented behaviour as a class of laws where a theorem needs it, and an
    instance that satisfies them in the witnesses.  Construction code that may
    give up at each call is a program of the monad of [Monad].

    Operations that the source runs under the VM's I/O lock are atomic.  Where
    threads interfere the model is a step system: a state, events, [enabled],
    [exec] and the reachable states, with one step for each section under a
    lock or each call; the theorems quantify over all interleavings.  A fault
    (memory used after it was freed, a failed assertion) is [None] or a flag
    that the theorems show is never raised.

    Loops whose bound is data are run by [loop] with a budget of 2^65 rounds.
    A 64-bit quantity decreases in each of them, so the budget is never used
    up; this is proved for each loop, with [loop_total], as part of what is
    said of it, and is not an assumption.  Popping, copying and serving a
    request would give [HANG], which is no C int, if a loop did not end, and
    what is said of them excludes it.  Recursions with a [fuel] argument
    (device teardown, walks of linked lists) come with a bound on
    the fuel that is enough.

    ** Files: foundations

    - [Prelude]: record update, machine integers and bits, bounded loops,
      byte arrays, error codes (include/modvm/errno.h, util/err.h) and the
      tactics and hints the other files use.  [Monad] has programs with state
      and errors and their triples, [Ring] circular buffers as queues,
      [HostMem] host memory as a map of bytes.
    - [LinkedList], module [Links], and [HashList] (util/list.h): the intrusive
      lists on a heap of nodes refine lists, which is why the other files use
      lists.  [ByteOrder] (util/byteorder.h): little-endian fields have the
      bytes that [put_le] and [get_le] say on a host of either byte order.
    - [ResPool] (src/util/res_pool.c): pools of cleanup obligations.  Release
      terminates, runs each obligation once and in reverse order; additions,
      transfers and cancellations neither lose nor duplicate one.
    - [Cmdline] (src/util/cmdline.c): option strings, with a printer as
      inverse.  [Log] (src/util/log.c): every message stays in its buffers.
      [Registry]: the tables of implementations by name.

    ** Files: the guest's side

    - [Topology], module [Space] (src/core/memory.c, src/core/io_map.c): guest
      RAM and the two I/O spaces.  No reachable machine has overlapping
      regions; translation is exact, injective and never leaves a region;
      adding RAM and moving a region are all or nothing; an access reaches
      exactly the region that contains it.
    - [Uart16550a] (src/hw/char/uart_16550a.c): the serial port.  No sequence
      of guest and console actions breaks its invariant; input arrives in
      order without loss; the interrupt line always agrees with the registers.
    - [Virtqueue], module [Vq] (src/hw/virtio/virtqueue.c): rings in memory
      the guest writes at will.  [virtqueue_pop] reads its memory through a
      function of the number of the access, so that the guest may change any
      byte between two of them; what it accepts lies in guest RAM, and copying
      is byte-exact across regions.
    - [Virtio] (src/hw/virtio/virtio.c) and [VirtioServe]: life cycle, the
      status and feature protocol against any driver, and the loop that serves
      a queue, which the device models share.  The class [VirtioOps] is what a
      device model provides and [VirtioLaws] what it promises; the transports
      are verified against them, and [VirtioBlk] and [VirtioNet] discharge
      them.  [VirtioLife]: a device and its queues are freed once, by whichever
      pool owns it.
    - [Block], [VirtioBlk] (src/hw/virtio/virtio_blk.c): requests against a
      disk that may fail.  Each request has exactly its effect, and a doorbell
      completes all of them.
    - [VirtioNet] (src/hw/virtio/virtio_net.c): frames arrive whole or not at
      all; the control queue sets the address the guest then reads.
    - [VirtioMmio], [VirtioPci] (src/hw/virtio/virtio_mmio.c, virtio_pci.c):
      the two transports.  Registers, device and interrupt line never
      disagree; [VirtioTransports] shows that a driver gets the same device
      through either.
    - [Pci] (src/hw/pci/pci.c) and [PioBridge], module [Bridge]
      (src/hw/pci/pio_bridge.c): configuration space, BARs as I/O regions, and
      interrupt lines as the OR of the functions routed to them.
    - [MpTable], module [Mp], and [PcBoard], module [Pc]
      (src/hw/board/x86_64/mptable.c, pc.c): the table that describes the
      processors and interrupts, read back by a parser of its format; where RAM
      goes, which devices there are and what each is told, and that a failed
      construction returns the error of the step that failed; the routing of
      interrupts.  [Lines] (src/core/irq.c, accel.c, src/hw/misc/debug_exit.c):
      the levels devices set become the kernel's calls, in order, an error of
      one of them stops the machine, and so does the power-off port.
    - [Device], module [Dev] (src/core/device.c): devices are torn down
      completely, children before their parents.

    ** Files: the host's side

    - [Host] (src/host/posix): errno and its translation, complete writes.
      [Service] (src/host/linux/service.c): the thread that polls descriptors
      never acts on a registration that was replaced or stopped.
    - [IoCtx], module [Io] (src/io/ctx.c, receiver.c), and [Backends]
      (src/io/char.c, net.c): input is delivered in order, to a device that is
      still bound; no binding is used after it was freed.
    - [PosixStdio], module [Stdio], [LinuxFile], module [File], [LinuxTap],
      module [Tap] (src/backend): the console, disk images and tap interfaces.
      Until the exit key input reaches the device as typed, output the terminal
      in order;
      transfers are complete whatever short counts the kernel returns, so that
      the disk satisfies the laws [VirtioBlk] relies on; at most one received
      frame is on its way to the guest.
    - [KvmRegs], [KvmRun], [KvmAccel], [Kick] (src/accel/kvm,
      src/core/vcpu.c): registers, exits, memory slots and the signal that
      interrupts a processor.  The slots of the kernel are the machine's RAM; a
      port exit does the accesses the guest made; a kick is not lost, wherever
      in its loop the processor is.
    - [VmInit], [VmRun] (src/core/vm.c): building a machine succeeds if nothing
      is refused, and otherwise undoes what it did, what the board added to the
      machine's pool included; running one uses no thread handle after it was
      destroyed, and a shutdown wakes all who wait.
    - [LinuxLoader], module [Linux] (src/loader/linux_x86.c), and [Boot]
      (src/core/loader.c, src/loader/raw_x86.c): from the loader's name to the
      memory, every byte of the boot parameters included, and the registers a
      kernel starts with.
    - [Main] (src/main.c): the command line, and that the program gives back
      whatever it acquired, whichever call fails.

    ** Behaviour that is not intended

    [uart_stale_timeout] and [virtio_mmio_truncated_reset] show behaviour
    that is not what the code means to do; so do [stdio_unbind_discards] of
    [PosixStdio] and [parse_mac_lenient] of [LinuxTap].

    ** What is not modelled

    - The kernel, the C library, the compiler's built-ins and the table of
      error numbers that the build generates: parameters with laws.
    - Mutexes, conditions, threads and pages (src/host/posix/mutex.c, thread.c,
      page.c): each function is one call of the host, and enters the models as
      the outcome of that call or as a step of its own; memory orderings weaker
      than sequential consistency.
    - [vcpu_init], [vcpu_run] and [vcpu_destroy] of src/core/vcpu.c and the
      wrappers of src/accel/kvm/vcpu.c, which call through a table.
    - Attributes and annotations for the compiler (the compiler headers of
      include/modvm/util), and the ACPI structures, which no source file uses.
    - In the parts that are modelled: the wording of log and usage messages, and
      [free] where nothing depends on it.  A hook of a board, as [VmInit] sees
      it, is the objects it adds to the machine's pool and takes from it, in any
      order, and its return value; [PcBoard] has the hook of the PC. *)

From stdpp Require Export prelude list gmap strings list_numbers.
From Stdlib Require Export ZArith Lia Bool Btauto.

#[global] Open Scope Z_scope.

(** ** Record update

    C code assigns the fields of a structure one at a time; the models do the
    same on records.  [r <| field := v |>] is [r] with one field replaced. *)

Class Setter {R T : Type} (p : R → T) := update : (T → T) → R → R.
Arguments update {R T} p {_} _ _.

Declare Scope modvm_scope.
Delimit Scope modvm_scope with modvm.
#[global] Open Scope modvm_scope.

Notation "r <| p := v |>" := (update p (fun _ => v) r)
  (at level 12, left associativity, p at next level) : modvm_scope.

(** [derive_setter eta] builds the setter of a projection from the eta
    expansion [eta r = Build (f1 r) .. (fn r)] of its record. *)
Ltac derive_setter eta :=
  lazymatch goal with
  | |- @Setter ?R ?T ?p =>
      let body := eval cbv beta delta [eta] in eta in
      let abs := eval pattern p in body in
      lazymatch abs with
      | ?g _ =>
          let s := eval cbv beta in (fun f : T → T => g (fun r => f (p r))) in
          exact s
      end
  end.

(** [fields] computes the projections of updated records everywhere. *)
Ltac fields := cbn in *.

(** ** Machine integers

    A w-bit unsigned integer is a [Z] in [0, 2^w); arithmetic that can leave
    the range is wrapped explicitly, as the C conversion does. *)

Definition u8 (x : Z) : Z := x mod 2 ^ 8.
Definition u16 (x : Z) : Z := x mod 2 ^ 16.
Definition u32 (x : Z) : Z := x mod 2 ^ 32.
Definition u64 (x : Z) : Z := x mod 2 ^ 64.

Definition UINT16_MAX : Z := 2 ^ 16 - 1.
Definition UINT32_MAX : Z := 2 ^ 32 - 1.
Definition UINT64_MAX : Z := 2 ^ 64 - 1.
Definition SIZE_MAX : Z := 2 ^ 64 - 1.

(** Values of w-bit variables. *)
Definition is_u8 (x : Z) : Prop := 0 ≤ x < 2 ^ 8.
Definition is_u16 (x : Z) : Prop := 0 ≤ x < 2 ^ 16.
Definition is_u32 (x : Z) : Prop := 0 ≤ x < 2 ^ 32.
Definition is_u64 (x : Z) : Prop := 0 ≤ x < 2 ^ 64.

(** The C idioms [x & m] used as a condition, [x |= m] and [x &= ~m]. *)
Definition has (x m : Z) : bool := negb (Z.land x m =? 0).
Definition set_bits (x m : Z) : Z := Z.lor x m.
Definition clr_bits (x m : Z) : Z := Z.land x (Z.lnot m).

(** [is_pow2 x] is the C test [x && !(x & (x - 1))]. *)
Definition is_pow2 (x : Z) : bool := negb (x =? 0) && (Z.land x (x - 1) =? 0).

#[global] Arguments Z.testbit : simpl never.
#[global] Arguments u8 : simpl never.
#[global] Arguments u16 : simpl never.
#[global] Arguments u32 : simpl never.
#[global] Arguments u64 : simpl never.
#[global] Arguments has : simpl never.
#[global] Arguments set_bits : simpl never.
#[global] Arguments clr_bits : simpl never.

Lemma u8_range x : is_u8 (u8 x).
Proof. apply Z.mod_pos_bound. lia. Qed.
Lemma u16_range x : is_u16 (u16 x).
Proof. apply Z.mod_pos_bound. lia. Qed.
Lemma u32_range x : is_u32 (u32 x).
Proof. apply Z.mod_pos_bound. lia. Qed.
Lemma u64_range x : is_u64 (u64 x).
Proof. apply Z.mod_pos_bound. lia. Qed.

Lemma u8_small x : is_u8 x → u8 x = x.
Proof. apply Z.mod_small. Qed.
Lemma u16_small x : is_u16 x → u16 x = x.
Proof. apply Z.mod_small. Qed.
Lemma u32_small x : is_u32 x → u32 x = x.
Proof. apply Z.mod_small. Qed.
Lemma u64_small x : is_u64 x → u64 x = x.
Proof. apply Z.mod_small. Qed.

Create HintDb modvm.
#[export] Hint Resolve u8_range u16_range u32_range u64_range : modvm.

(** [word] is [lia] with the ranges of the machine integers unfolded. *)
Ltac word :=
  unfold is_u8, is_u16, is_u32, is_u64, UINT16_MAX, UINT32_MAX, UINT64_MAX,
    SIZE_MAX in *;
  lia.

(** *** Bits *)

Lemma testbit_u8 x i : Z.testbit (u8 x) i = Z.testbit x i && (i <? 8).
Proof.
  unfold u8. destruct (Z.ltb_spec i 8).
  - rewrite Z.mod_pow2_bits_low, andb_true_r by lia. done.
  - rewrite Z.mod_pow2_bits_high, andb_false_r by lia. done.
Qed.

Lemma testbit_set_bits x m i :
  Z.testbit (set_bits x m) i = Z.testbit x i || Z.testbit m i.
Proof. apply Z.lor_spec. Qed.

Lemma testbit_clr_bits x m i :
  0 ≤ i → Z.testbit (clr_bits x m) i = Z.testbit x i && negb (Z.testbit m i).
Proof. intros. unfold clr_bits. by rewrite Z.land_spec, Z.lnot_spec. Qed.

(** A mask with one bit tests that bit. *)
Lemma has_lor x a b : has x (Z.lor a b) = has x a || has x b.
Proof.
  unfold has. rewrite Z.land_lor_distr_r. generalize (Z.land x a) (Z.land x b). intros y z.
  destruct (Z.eqb_spec (Z.lor y z) 0) as [E|E]; rewrite Z.lor_eq_0_iff in E;
    destruct (Z.eqb_spec y 0), (Z.eqb_spec z 0); cbn [negb orb]; tauto.
Qed.

Lemma has_pow2 x k : 0 ≤ k → has x (2 ^ k) = Z.testbit x k.
Proof.
  intros Hk. unfold has. destruct (Z.testbit x k) eqn:E.
  - destruct (Z.eqb_spec (Z.land x (2 ^ k)) 0) as [H0|]; [|done].
    apply (f_equal (fun z => Z.testbit z k)) in H0.
    rewrite Z.land_spec, E, Z.pow2_bits_true, Z.bits_0 in H0 by lia. done.
  - replace (Z.land x (2 ^ k)) with 0; [done|].
    symmetry. apply Z.bits_inj'. intros n Hn. rewrite Z.land_spec, Z.bits_0.
    destruct (decide (n = k)) as [->|].
    + by rewrite E.
    + rewrite Z.pow2_bits_false by lia. by rewrite andb_false_r.
Qed.

(** [has x m] with a one-bit literal [m] becomes [Z.testbit x k]. *)
Ltac one_bit m :=
  let b := eval vm_compute in ((0 <? m) && (2 ^ Z.log2 m =? m))%bool in
  lazymatch b with true => idtac end.

Ltac has_to_testbit :=
  repeat match goal with
  | |- context [has ?x ?m] =>
      one_bit m;
      let k := eval vm_compute in (Z.log2 m) in
      replace (has x m) with (Z.testbit x k) by (symmetry; exact (has_pow2 x k ltac:(lia)))
  | H : context [has ?x ?m] |- _ =>
      one_bit m;
      let k := eval vm_compute in (Z.log2 m) in
      replace (has x m) with (Z.testbit x k) in H by (symmetry; exact (has_pow2 x k ltac:(lia)))
  end.

Lemma testbit_if (c : bool) x y i :
  Z.testbit (if c then x else y) i = if c then Z.testbit x i else Z.testbit y i.
Proof. by destruct c. Qed.

(** [if (!(x & bit k)) x &= ~m]: the bits [m] depend on bit [k]. *)
Lemma testbit_gate (b : bool) x m i :
  0 ≤ i →
  Z.testbit (if negb b then clr_bits x m else x) i = Z.testbit x i && (b || negb (Z.testbit m i)).
Proof.
  intros. destruct b; simpl; [by rewrite andb_true_r|]. by apply testbit_clr_bits.
Qed.

(** An n-bit integer has no bit from [n] on. *)
Lemma range_bits x n : 0 ≤ n → 0 ≤ x → (x < 2 ^ n ↔ ∀ i, n ≤ i → Z.testbit x i = false).
Proof.
  intros Hn Hx. split.
  - intros H i Hi. destruct (decide (x = 0)) as [->|]; [apply Z.bits_0|].
    apply Z.bits_above_log2; [done|]. apply Z.log2_lt_pow2 in H; lia.
  - intros H. destruct (Z.lt_ge_cases x (2 ^ n)) as [|Hge]; [done|].
    assert (0 < 2 ^ n) by (by apply Z.pow_pos_nonneg).
    pose proof (Z.bit_log2 x ltac:(lia)) as B.
    rewrite H in B; [done|]. apply Z.log2_le_pow2; lia.
Qed.

Lemma lor_range x y n : 0 ≤ n → 0 ≤ x < 2 ^ n → 0 ≤ y < 2 ^ n → 0 ≤ Z.lor x y < 2 ^ n.
Proof.
  intros Hn [Hx Hx'] [Hy Hy']. assert (0 ≤ Z.lor x y) by (by apply Z.lor_nonneg).
  split; [done|]. apply range_bits; [done..|]. intros i Hi. rewrite Z.lor_spec.
  rewrite (proj1 (range_bits x n Hn Hx) Hx' i Hi), (proj1 (range_bits y n Hn Hy) Hy' i Hi). done.
Qed.

Lemma clr_bits_range x m n : 0 ≤ n → 0 ≤ x < 2 ^ n → 0 ≤ clr_bits x m < 2 ^ n.
Proof.
  intros Hn [Hx Hx']. assert (0 ≤ clr_bits x m) by (unfold clr_bits; apply Z.land_nonneg; auto).
  split; [done|]. apply range_bits; [done..|]. intros i Hi. rewrite testbit_clr_bits by lia.
  by rewrite (proj1 (range_bits x n Hn Hx) Hx' i Hi).
Qed.

Lemma land_range a m k : 0 ≤ k → 0 ≤ m < 2 ^ k → 0 ≤ Z.land a m < 2 ^ k.
Proof.
  intros Hk Hm. split; [apply Z.land_nonneg; lia|].
  rewrite <- (Z.mod_small m (2 ^ k)), <- Z.land_ones, Z.land_assoc, Z.land_ones by lia.
  apply Z.mod_pos_bound. lia.
Qed.

(** The test [x & (x - 1)] for a power of two, and the mask of its multiples. *)
Lemma pow2_test x : 0 < x → Z.land x (x - 1) = 0 → ∃ k, 0 ≤ k ∧ x = 2 ^ k.
Proof.
  intros Hx E. exists (Z.log2 x). split; [apply Z.log2_nonneg|].
  destruct (Z.log2_spec x Hx) as [H1 H2]. destruct (decide (x = 2 ^ Z.log2 x)) as [|Hne]; [done|].
  assert (0 < 2 ^ Z.log2 x) by (apply Z.pow_pos_nonneg; [lia|apply Z.log2_nonneg]).
  assert (L : Z.log2 (x - 1) = Z.log2 x) by (apply Z.log2_unique; [apply Z.log2_nonneg|lia]).
  apply (f_equal (fun z => Z.testbit z (Z.log2 x))) in E. rewrite Z.land_spec, Z.bits_0 in E.
  rewrite Z.bit_log2 in E by done. rewrite <- L, Z.bit_log2 in E by lia. done.
Qed.

Lemma clr_low_bits x k : 0 ≤ k → clr_bits x (2 ^ k - 1) = x - x mod 2 ^ k.
Proof.
  intros Hk. unfold clr_bits. rewrite <- Z.ldiff_land.
  replace (2 ^ k - 1) with (Z.ones k) by (rewrite Z.ones_equiv; lia).
  rewrite Z.ldiff_ones_r, Z.shiftl_mul_pow2, Z.shiftr_div_pow2 by lia.
  pose proof (Z.div_mod x (2 ^ k) ltac:(lia)). lia.
Qed.

(** Rounding up to a multiple of [s]. *)
Lemma round_up x s :
  0 < s → let y := x + s - 1 in let b := y - y mod s in
  b mod s = 0 ∧ x ≤ b < x + s ∧ ∀ b', b' mod s = 0 → x ≤ b' → b ≤ b'.
Proof.
  intros Hs y b. assert (Hb : b = s * (y / s)) by (unfold b; rewrite (Z.mod_eq y s) by lia; lia).
  pose proof (Z.mod_pos_bound y s Hs). split_and!; [|unfold b, y in *; lia..|].
  - rewrite Hb, Z.mul_comm. apply Z.mod_mul. lia.
  - intros b' Hb' Hx. rewrite Hb. apply Z.mod_divide in Hb' as [q ->]; [|lia].
    assert (y / s ≤ q); [|nia]. apply Z.lt_succ_r, Z.div_lt_upper_bound; [lia|]. unfold y. nia.
Qed.

(** [bits] pushes [Z.testbit] through the register updates of the goal and
    evaluates the bits of the literal masks. *)
Ltac bits :=
  has_to_testbit;
  repeat first
    [ rewrite testbit_u8 | rewrite testbit_gate by lia | rewrite testbit_set_bits | rewrite testbit_clr_bits by lia
    | rewrite Z.land_spec | rewrite Z.lor_spec | rewrite testbit_if ];
  repeat match goal with
  | |- context [Z.testbit ?m ?k] =>
      let b := eval vm_compute in (Z.testbit m k) in
      lazymatch b with
      | true => change (Z.testbit m k) with true
      | false => change (Z.testbit m k) with false
      end
  | |- context [?x <? ?y] =>
      let b := eval vm_compute in (x <? y) in
      lazymatch b with
      | true => change (x <? y) with true
      | false => change (x <? y) with false
      end
  end;
  rewrite ?andb_true_r, ?andb_false_r, ?orb_false_r, ?orb_true_r; simpl negb;
  rewrite ?andb_true_r, ?andb_false_r, ?orb_false_r, ?orb_true_r.

(** [bit_cases] finishes a goal about bits of registers by cases on them. *)
Ltac bit_cases :=
  repeat match goal with
  | |- context [Z.testbit ?x ?i] => generalize (Z.testbit x i); intros []
  end; try done.

(** ** Loops

    A C loop body is a function from the loop variables to either the next
    loop variables ([inl], the loop goes round) or a result ([inr], the loop
    is left).  [loop] runs it under a budget given in binary, so that a budget
    of 2^64 iterations costs nothing when the loop stops early; the
    termination theorems show that the budget is never used up. *)

Section Loop.
Context {A B : Type}.

Fixpoint loop_upto (budget : positive) (body : A → A + B) (a : A) : A + B :=
  match budget with
  | xH => body a
  | xO p =>
      match loop_upto p body a with
      | inl a' => loop_upto p body a'
      | inr b => inr b
      end
  | xI p =>
      match body a with
      | inl a1 =>
          match loop_upto p body a1 with
          | inl a2 => loop_upto p body a2
          | inr b => inr b
          end
      | inr b => inr b
      end
  end.

Variable body : A → A + B.
Variable Inv : A → Prop.
Variable measure : A → Z.
Variable Post : B → Prop.
Hypothesis step :
  ∀ a, Inv a →
    match body a with
    | inl a' => Inv a' ∧ 0 ≤ measure a' < measure a
    | inr b => Post b
    end.

Lemma loop_upto_progress p a :
  Inv a →
  match loop_upto p body a with
  | inl a' => Inv a' ∧ 0 ≤ measure a' ∧ measure a' + Zpos p ≤ measure a
  | inr b => Post b
  end.
Proof.
  revert a. induction p as [p IH|p IH|]; intros a Ha; simpl.
  - pose proof (step a Ha) as H1. destruct (body a) as [a1|b]; [|done].
    destruct H1 as [I1 M1]. pose proof (IH a1 I1) as H2.
    destruct (loop_upto p body a1) as [a2|b]; [|done].
    destruct H2 as (I2 & M2 & M2'). pose proof (IH a2 I2) as H3.
    destruct (loop_upto p body a2) as [a3|b]; [|done].
    destruct H3 as (I3 & M3 & M3'). split_and!; [done|lia|lia].
  - pose proof (IH a Ha) as H2.
    destruct (loop_upto p body a) as [a2|b]; [|done].
    destruct H2 as (I2 & M2 & M2'). pose proof (IH a2 I2) as H3.
    destruct (loop_upto p body a2) as [a3|b]; [|done].
    destruct H3 as (I3 & M3 & M3'). split_and!; [done|lia|lia].
  - pose proof (step a Ha) as H1. destruct (body a) as [a1|b]; [|done].
    destruct H1 as [I1 M1]. split_and!; [done|lia|lia].
Qed.

(** Total correctness of a loop: an invariant, a measure that decreases and
    starts below the budget. *)
Lemma loop_upto_total p a :
  Inv a → measure a < Zpos p →
  ∃ b, loop_upto p body a = inr b ∧ Post b.
Proof.
  intros Ha Hm. pose proof (loop_upto_progress p a Ha) as H.
  destruct (loop_upto p body a) as [a'|b]; [|by exists b].
  destruct H as (_ & H0 & H1). lia.
Qed.
End Loop.

(** The budget of every loop of the models: more iterations than a 64-bit
    counter has values. *)
Definition loop_budget : positive := 2 ^ 65.

Definition loop {A B : Type} (body : A → A + B) (a : A) : A + B :=
  loop_upto loop_budget body a.

(** What the model of a function returns when one of its loops uses up the
    budget.  No C int has this value, so that a theorem which lists the values a
    function returns says that it does return; such theorems are what callers
    rely on, and their models have no case for it. *)
Definition HANG : Z := 2 ^ 31.

(** The value a loop is left with. *)
Definition run_loop {A : Type} (body : A → A + A) (a : A) : A :=
  match loop body a with inl a' => a' | inr a' => a' end.

Lemma loop_total {A B} (body : A → A + B) (Inv : A → Prop) (measure : A → Z)
    (Post : B → Prop) a :
  (∀ a, Inv a →
     match body a with
     | inl a' => Inv a' ∧ 0 ≤ measure a' < measure a
     | inr b => Post b
     end) →
  Inv a → measure a ≤ 2 ^ 64 →
  ∃ b, loop body a = inr b ∧ Post b.
Proof.
  intros Hs Ha Hm. apply (loop_upto_total _ Inv measure); [done..|].
  unfold loop_budget. lia.
Qed.

Lemma run_loop_total {A} (body : A → A + A) (Inv : A → Prop) (measure : A → Z)
    (Post : A → Prop) a :
  (∀ a, Inv a →
     match body a with
     | inl a' => Inv a' ∧ 0 ≤ measure a' < measure a
     | inr b => Post b
     end) →
  Inv a → measure a ≤ 2 ^ 64 → Post (run_loop body a).
Proof.
  intros Hs Ha Hm. unfold run_loop.
  destruct (loop_total body Inv measure Post a) as (b & -> & Hb); done.
Qed.

(** An invariant of a loop that may not end within the budget. *)
Lemma loop_inv {A B} (body : A → A + B) (Inv : A → Prop) (Post : B → Prop) a :
  (∀ a, Inv a → match body a with inl a' => Inv a' | inr b => Post b end) →
  Inv a → match loop body a with inl a' => Inv a' | inr b => Post b end.
Proof.
  intros Hs. unfold loop. revert a. induction loop_budget as [p IH|p IH|]; intros a Ha; simpl.
  - pose proof (Hs a Ha) as H1. destruct (body a) as [a1|]; [|done].
    pose proof (IH a1 H1) as H2. destruct (loop_upto p body a1) as [a2|]; [|done]. by apply IH.
  - pose proof (IH a Ha) as H2. destruct (loop_upto p body a) as [a2|]; [|done]. by apply IH.
  - by apply Hs.
Qed.

(** Two bodies that agree on the states a loop goes through. *)
Lemma loop_upto_ext {A B} p (body body' : A → A + B) (Inv : A → Prop) a :
  (∀ a, Inv a → body a = body' a ∧ ∀ a', body a = inl a' → Inv a') →
  Inv a → loop_upto p body a = loop_upto p body' a ∧ ∀ a', loop_upto p body a = inl a' → Inv a'.
Proof.
  intros Hs. revert a. induction p as [p IH|p IH|]; intros a Ha; simpl; [..|by apply Hs].
  - destruct (Hs a Ha) as [<- H1]. destruct (body a) as [a1|]; [|done].
    destruct (IH a1 (H1 a1 eq_refl)) as [<- H2]. destruct (loop_upto p body a1) as [a2|]; [|done].
    by apply IH, H2.
  - destruct (IH a Ha) as [<- H2]. destruct (loop_upto p body a) as [a2|]; [|done].
    by apply IH, H2.
Qed.

Lemma loop_ext {A B} (body body' : A → A + B) (Inv : A → Prop) a :
  (∀ a, Inv a → body a = body' a ∧ ∀ a', body a = inl a' → Inv a') →
  Inv a → loop body a = loop body' a.
Proof. intros Hs Ha. apply (loop_upto_ext _ _ _ Inv); done. Qed.

(** A loop whose body stops at once. *)
Lemma loop_upto_stop {A B} p (body : A → A + B) a b :
  body a = inr b → loop_upto p body a = inr b.
Proof. intros E. induction p as [p IH|p IH|]; simpl; by rewrite ?E, ?IH. Qed.

Lemma run_loop_stop {A} (body : A → A + A) a b : body a = inr b → run_loop body a = b.
Proof. intros E. unfold run_loop, loop. by rewrite (loop_upto_stop _ _ _ _ E). Qed.

(** Tactics never run a loop; a witness does, with [vm_compute]. *)
#[global] Opaque loop_budget.

(** ** Error codes (include/modvm/errno.h)

    Functions that return [int] in C return a [Z]: zero (or a count) on
    success, the negative of a [VM_E*] code on failure. *)

Definition VM_ENOENT : Z := 2.
Definition VM_EIO : Z := 5.
Definition VM_E2BIG : Z := 7.
Definition VM_EAGAIN : Z := 11.
Definition VM_ENOMEM : Z := 12.
Definition VM_EFAULT : Z := 14.
Definition VM_EBUSY : Z := 16.
Definition VM_EEXIST : Z := 17.
Definition VM_EINVAL : Z := 22.
Definition VM_ENOSPC : Z := 28.
Definition VM_EROFS : Z := 30.
Definition VM_ENAMETOOLONG : Z := 36.
Definition VM_ELOOP : Z := 40.
Definition VM_EOVERFLOW : Z := 75.
Definition VM_ENOTSUP : Z := 95.
Definition VM_ENOBUFS : Z := 105.
Definition VM_ENOTCONN : Z := 107.
Definition VM_ESHUTDOWN : Z := 108.
Definition VM_EALREADY : Z := 114.

(** A pointer that may carry an error code ([ERR_PTR], include/modvm/util/err.h):
    the pointer is represented by what it points to. *)
Inductive err_ptr (A : Type) : Type :=
| Ptr (a : A)
| ERR_PTR (error : Z).
Arguments Ptr {A} a.
Arguments ERR_PTR {A} error.

(** ** Lists *)

Lemma sublist_Forall {A} (P : A → Prop) l k : sublist l k → Forall P k → Forall P l.
Proof. rewrite !Forall_forall. intros S H x Hx. by eapply H, elem_of_sublist. Qed.

Lemma existsb_false_elem {A} (f : A → bool) l x :
  existsb f l = false → x ∈ l → f x = false.
Proof.
  intros E Hx. apply not_true_iff_false in E. apply not_true_iff_false. contradict E.
  apply existsb_exists. exists x. by rewrite <- list_elem_of_In.
Qed.

Lemma ForallOrdPairs_snoc {A} (R : A → A → Prop) l x :
  ForallOrdPairs R l → Forall (fun y => R y x) l → ForallOrdPairs R (l ++ [x]).
Proof.
  induction 1 as [|y l Hy Hl IH]; intros Hx; simpl.
  - constructor; constructor.
  - apply Forall_cons in Hx as [? ?]. constructor; [|auto].
    apply Forall_app. by rewrite Forall_singleton.
Qed.

Lemma ForallOrdPairs_sublist {A} (R : A → A → Prop) l k :
  sublist l k → ForallOrdPairs R k → ForallOrdPairs R l.
Proof.
  induction 1 as [|x l k S IH|x l k S IH]; intros H; [done|..].
  - inversion H; subst. constructor; [by eapply sublist_Forall|auto].
  - inversion H; subst. auto.
Qed.

Lemma ForallOrdPairs_lookup {A} (R : A → A → Prop) (l : list A) i j x y :
  ForallOrdPairs R l → l !! i = Some x → l !! j = Some y → (i < j)%nat → R x y.
Proof.
  intros H. revert i j. induction H as [|a l Ha D IH]; intros i j Hi Hj Hlt; [done|].
  destruct i as [|i], j as [|j]; simpl in *; try lia; [simplify_eq|apply (IH i j); [done..|lia]].
  rewrite Forall_forall in Ha. apply Ha. by eapply list_elem_of_lookup_2.
Qed.

Lemma ForallOrdPairs_elem {A} (R : A → A → Prop) l x y :
  (∀ a b, R a b → R b a) → ForallOrdPairs R l → x ∈ l → y ∈ l → x = y ∨ R x y.
Proof.
  intros Hs. induction 1 as [|z l Hz Hl IH]; intros Hx Hy; [by apply elem_of_nil in Hx|].
  rewrite Forall_forall in Hz. apply elem_of_cons in Hx, Hy.
  destruct Hx as [->|Hx], Hy as [->|Hy]; auto.
Qed.

Lemma find_Some_elem {A} (f : A → bool) l x : find f l = Some x → x ∈ l ∧ f x = true.
Proof. intros H%find_some. by rewrite list_elem_of_In. Qed.

(** [find] gives the one element that satisfies the test. *)
Lemma find_unique {A} (f : A → bool) l x :
  x ∈ l → f x = true → (∀ y, y ∈ l → f y = true → y = x) → find f l = Some x.
Proof.
  intros Hx Fx U. destruct (find f l) as [y|] eqn:E.
  - apply find_Some_elem in E as [? ?]. f_equal. auto.
  - eapply find_none in E; [|by apply list_elem_of_In]. congruence.
Qed.

Lemma find_all_false {A} (f : A → bool) l : (∀ y, y ∈ l → f y = false) → find f l = None.
Proof.
  intros H. destruct (find f l) as [y|] eqn:E; [|done].
  apply find_Some_elem in E as [Hy Fy]. by rewrite H in Fy.
Qed.

(** ** Arrays

    A C array of [n] elements is a list of length [n] indexed by [Z].  The
    models read and write through [aget] and [aset]; the invariants of the
    components keep every index in range, where these are the C accesses. *)

Definition aget (l : list Z) (i : Z) : Z := default 0 (l !! Z.to_nat i).
Definition aset (l : list Z) (i v : Z) : list Z := <[Z.to_nat i := v]> l.

#[global] Arguments aget : simpl never.
#[global] Arguments aset : simpl never.

Lemma length_aset l i v : length (aset l i v) = length l.
Proof. apply length_insert. Qed.

Lemma aget_aset_eq l i v : 0 ≤ i < Z.of_nat (length l) → aget (aset l i v) i = v.
Proof.
  intros. unfold aget, aset. rewrite list_lookup_insert_eq by lia. done.
Qed.

Lemma aget_aset_ne l i j v : 0 ≤ i → 0 ≤ j → i ≠ j → aget (aset l i v) j = aget l j.
Proof.
  intros. unfold aget, aset. rewrite list_lookup_insert_ne by lia. done.
Qed.

Lemma Forall_aset (P : Z → Prop) l i v : Forall P l → P v → Forall P (aset l i v).
Proof. intros Hl Hv. unfold aset. by apply Forall_insert. Qed.

Lemma aget_range (P : Z → Prop) l i : P 0 → Forall P l → P (aget l i).
Proof.
  intros H0 Hl. unfold aget. destruct (l !! Z.to_nat i) eqn:E; [|done].
  by apply (Forall_lookup_1 _ _ _ _ Hl E).
Qed.

(** Little-endian fields of a structure kept as its bytes. *)
Definition get_le (l : list Z) (off n : Z) : Z :=
  foldl (fun val i => Z.lor val (Z.shiftl (aget l (off + i)) (8 * i))) 0 (seqZ 0 n).
Definition put_le (l : list Z) (off n v : Z) : list Z :=
  foldl (fun l i => aset l (off + i) (u8 (Z.shiftr v (8 * i)))) l (seqZ 0 n).

Lemma get_le_S l off n :
  get_le l off (Z.of_nat (S n)) =
  Z.lor (get_le l off (Z.of_nat n)) (Z.shiftl (aget l (off + Z.of_nat n)) (8 * Z.of_nat n)).
Proof. unfold get_le. by rewrite seqZ_S, foldl_app, Z.add_0_l by lia. Qed.

Lemma put_le_S l off n v :
  put_le l off (Z.of_nat (S n)) v =
  aset (put_le l off (Z.of_nat n) v) (off + Z.of_nat n) (u8 (Z.shiftr v (8 * Z.of_nat n))).
Proof. unfold put_le. by rewrite seqZ_S, foldl_app, Z.add_0_l by lia. Qed.

(** [by_bytes n] is induction on a number of bytes. *)
Local Ltac by_bytes n :=
  rewrite <- (Z2Nat.id n) by lia; induction (Z.to_nat n) as [|k IHk];
  [change (Z.of_nat 0) with 0|rewrite ?get_le_S, ?put_le_S].

Lemma length_put_le l off n v : 0 ≤ n → length (put_le l off n v) = length l.
Proof. intros Hn. by_bytes n; [done|]. by rewrite length_aset. Qed.

Lemma put_le_u8 l off n v : 0 ≤ n → Forall is_u8 l → Forall is_u8 (put_le l off n v).
Proof. intros Hn Hl. by_bytes n; [done|]. apply Forall_aset; [done|apply u8_range]. Qed.

Lemma aget_put_le_ne l off n v j :
  0 ≤ n → 0 ≤ off → 0 ≤ j → j < off ∨ off + n ≤ j → aget (put_le l off n v) j = aget l j.
Proof.
  intros Hn Ho Hj. by_bytes n; [done|]. intros Hd. rewrite aget_aset_ne by lia. apply IHk. lia.
Qed.

Lemma get_le_ext l l' off n :
  0 ≤ n → (∀ j, off ≤ j < off + n → aget l' j = aget l j) → get_le l' off n = get_le l off n.
Proof.
  intros Hn. by_bytes n; [done|]. intros E. rewrite E by lia. f_equal. apply IHk. intros. apply E. lia.
Qed.

Lemma get_le_put_ne l off n v off' n' :
  0 ≤ n → 0 ≤ off → 0 ≤ n' → 0 ≤ off' → off' + n' ≤ off ∨ off + n ≤ off' →
  get_le (put_le l off n v) off' n' = get_le l off' n'.
Proof. intros. apply get_le_ext; [done|]. intros j Hj. apply aget_put_le_ne; lia. Qed.

Lemma get_le_range l off n : 0 ≤ n → Forall is_u8 l → 0 ≤ get_le l off n < 2 ^ (8 * n).
Proof.
  intros Hn Hl. by_bytes n; [done|]. apply lor_range; [lia| |].
  - pose proof (Z.pow_le_mono_r 2 (8 * Z.of_nat k) (8 * Z.of_nat (S k))). lia.
  - pose proof (aget_range is_u8 l (off + Z.of_nat k) ltac:(unfold is_u8; lia) Hl) as Hb.
    rewrite Z.shiftl_mul_pow2 by lia. replace (8 * Z.of_nat (S k)) with (8 + 8 * Z.of_nat k) by lia.
    rewrite Z.pow_add_r by lia. unfold is_u8 in Hb.
    pose proof (Z.pow_pos_nonneg 2 (8 * Z.of_nat k)). nia.
Qed.

Lemma get_le_put l off n v :
  0 ≤ n → 0 ≤ off → off + n ≤ Z.of_nat (length l) → get_le (put_le l off n v) off n = v mod 2 ^ (8 * n).
Proof.
  intros Hn Ho. by_bytes n; [by rewrite Z.mod_1_r|]. intros Hl.
  rewrite aget_aset_eq by (rewrite length_put_le by lia; lia).
  rewrite (get_le_ext (put_le l off (Z.of_nat k) v)) by (try intros; rewrite ?aget_aset_ne by lia; done || lia).
  rewrite IHk by lia. apply Z.bits_inj'. intros i Hi. rewrite Z.lor_spec, Z.shiftl_spec by lia.
  replace (8 * Z.of_nat (S k)) with (8 * Z.of_nat k + 8) by lia.
  destruct (Z.lt_ge_cases i (8 * Z.of_nat k)) as [H1|H1].
  - rewrite !Z.mod_pow2_bits_low, (Z.testbit_neg_r _ (i - _)) by lia. by rewrite orb_false_r.
  - rewrite (Z.mod_pow2_bits_high _ (8 * Z.of_nat k)) by lia. cbn [orb].
    rewrite testbit_u8, Z.shiftr_spec, Z.sub_add by lia. destruct (Z.ltb_spec (i - 8 * Z.of_nat k) 8).
    + rewrite Z.mod_pow2_bits_low by lia. apply andb_true_r.
    + rewrite Z.mod_pow2_bits_high by lia. apply andb_false_r.
Qed.
