(* ===== verification/Monad.v ===== *)
(** * Programs with state and errors

    Construction code is a sequence of calls, each of which may make the
    function return an error at once.  A program threads a state and ends with
    an error code or a value; a triple gives the states it may start from, what
    holds of a value it returns, and what holds when it gives up. *)

From S2P Require Import Prelude.

Module Prog.

Definition prog (S A : Type) : Type := S → S * (Z + A).

Definition mret {S A} (a : A) : prog S A := fun s => (s, inr a).
Definition fail {S A} (e : Z) : prog S A := fun s => (s, inl e).
Definition bind {S A B} (m : prog S A) (f : A → prog S B) : prog S B := fun s =>
  match m s with
  | (s, inl e) => (s, inl e)
  | (s, inr a) => f a s
  end.

Declare Scope prog_scope.
Delimit Scope prog_scope with prog.
Notation "'let*' x := m 'in' f" := (bind m (fun x => f))
  (at level 10, x binder, m at level 100, f at level 200) : prog_scope.
Notation "m ;; f" := (bind m (fun _ => f)) (at level 100, right associativity) : prog_scope.

(** [if (c) return e;]. *)
Definition refuse {S} (c : bool) (e : Z) : prog S unit := if c then fail e else mret tt.

(** [if (ret < 0) return ret;]. *)
Definition check {S} (ret : Z) : prog S unit := refuse (ret <? 0) ret.

(** What the caller gets: 0 or the error. *)
Definition returned {S} (r : S * (Z + unit)) : S * Z :=
  (r.1, match r.2 with inl e => e | inr _ => 0 end).

(** ** Triples *)

Section Triples.
Context {S : Type} (F : S → Prop).

(** From [P], the program gives up with a negative code in a state of [F], or
    returns a value with [Q]. *)
Definition triple {A} (P : S → Prop) (m : prog S A) (Q : A → S → Prop) : Prop :=
  ∀ s, P s → match m s with (s', inl e) => e < 0 ∧ F s' | (s', inr a) => Q a s' end.

Lemma triple_bind {A B} P (m : prog S A) Q (f : A → prog S B) R :
  triple P m Q → (∀ a, triple (Q a) (f a) R) → triple P (bind m f) R.
Proof.
  intros Hm Hf s Hs. unfold bind. specialize (Hm s Hs). destruct (m s) as [s' [e|a]]; [done|]. by apply Hf.
Qed.

Lemma triple_ret {A} (P : S → Prop) (a : A) (Q : A → S → Prop) : (∀ s, P s → Q a s) → triple P (mret a) Q.
Proof. intros H s Hs. by apply H. Qed.

Lemma triple_fail {A} (P : S → Prop) e (Q : A → S → Prop) : e < 0 → (∀ s, P s → F s) → triple P (fail e) Q.
Proof. intros He H s Hs. simpl. auto. Qed.

Lemma triple_refuse (P : S → Prop) c e : (c = true → e < 0) → (∀ s, P s → F s) → triple P (refuse c e) (fun _ => P).
Proof. intros He H. destruct c; [apply triple_fail; auto|by apply triple_ret]. Qed.

Lemma triple_guard (P : S → Prop) c e :
  (c = true → e < 0) → (∀ s, P s → F s) → triple P (refuse c e) (fun _ s => c = false ∧ P s).
Proof. intros He H s Hs. destruct c; simpl; auto. Qed.

Lemma triple_check (P : S → Prop) ret : (∀ s, P s → F s) → triple P (check ret) (fun _ s => 0 ≤ ret ∧ P s).
Proof. intros H s Hs. unfold check, refuse. destruct (Z.ltb_spec ret 0); simpl; auto. Qed.

Lemma triple_consequence {A} (P P' : S → Prop) (m : prog S A) (Q Q' : A → S → Prop) :
  triple P' m Q' → (∀ s, P s → P' s) → (∀ a s, Q' a s → Q a s) → triple P m Q.
Proof. intros H HP HQ s Hs. specialize (H s (HP s Hs)). destruct (m s) as [s' [e|a]]; auto. Qed.

Lemma triple_assume {A} (φ : Prop) (P : S → Prop) (m : prog S A) (Q : A → S → Prop) :
  (φ → triple P m Q) → triple (fun s => φ ∧ P s) m Q.
Proof. intros H s [Hp Hs]. by apply H. Qed.

Lemma triple_exists {A X} (P : X → S → Prop) (m : prog S A) Q :
  (∀ x, triple (P x) m Q) → triple (fun s => ∃ x, P x s) m Q.
Proof. intros H s [x Hs]. by apply (H x). Qed.

End Triples.
End Prog.
