(* ===== verification/LinkedList.v ===== *)
(** * Linked lists (include/modvm/util/list.h)

    The intrusive circular lists that hold the devices, regions, resources and
    queued work of the program.  The operations run on a heap of nodes, with the
    pointer assignments of the source in their order; the other files use lists
    where the source uses these, and the refinement theorem here says why they
    may: whatever is done with the operations, the heap holds the lists that the
    same operations on lists give, and no pointer outside them is followed. *)

From S2P Require Import Prelude.

Module Links.

(** ** The heap *)

(** The two fields of every struct list_head there is. *)
Record heap : Type := mk_heap { next : gmap Z Z; prev : gmap Z Z }.

(** Reading through a pointer that is not a node faults, and so does writing. *)
Definition set_next (h : heap) (p v : Z) : option heap :=
  _ ← next h !! p; Some (mk_heap (<[p := v]> (next h)) (prev h)).
Definition set_prev (h : heap) (p v : Z) : option heap :=
  _ ← prev h !! p; Some (mk_heap (next h) (<[p := v]> (prev h))).

Definition LIST_POISON1 : Z := 0x0100100.
Definition LIST_POISON2 : Z := 0x0200200.

(** ** Operations *)

Definition INIT_LIST_HEAD (h : heap) (list : Z) : option heap :=
  h ← set_next h list list;
  set_prev h list list.

Definition __list_add (h : heap) (new prev next : Z) : option heap :=
  h ← set_prev h next new;
  h ← set_next h new next;
  h ← set_prev h new prev;
  set_next h prev new.

Definition list_add (h : heap) (new head : Z) : option heap :=
  n ← next h !! head;
  __list_add h new head n.

Definition list_add_tail (h : heap) (new head : Z) : option heap :=
  p ← prev h !! head;
  __list_add h new p head.

Definition __list_del (h : heap) (prev next : Z) : option heap :=
  h ← set_prev h next prev;
  set_next h prev next.

(** [__list_del(entry->prev, entry->next)]. *)
Definition unlink (h : heap) (entry : Z) : option heap :=
  p ← prev h !! entry;
  n ← next h !! entry;
  __list_del h p n.

Definition list_del (h : heap) (entry : Z) : option heap :=
  h ← unlink h entry;
  h ← set_next h entry LIST_POISON1;
  set_prev h entry LIST_POISON2.

Definition list_replace (h : heap) (old new : Z) : option heap :=
  n ← next h !! old;
  h ← set_next h new n;
  n ← next h !! new;
  h ← set_prev h n new;
  p ← prev h !! old;
  h ← set_prev h new p;
  p ← prev h !! new;
  set_next h p new.

Definition list_replace_init (h : heap) (old new : Z) : option heap :=
  h ← list_replace h old new;
  INIT_LIST_HEAD h old.

Definition list_del_init (h : heap) (entry : Z) : option heap :=
  h ← unlink h entry;
  INIT_LIST_HEAD h entry.

Definition list_move (h : heap) (list head : Z) : option heap :=
  h ← unlink h list;
  list_add h list head.

Definition list_move_tail (h : heap) (list head : Z) : option heap :=
  h ← unlink h list;
  list_add_tail h list head.

Definition list_is_first (h : heap) (list head : Z) : option bool := p ← prev h !! list; Some (p =? head).
Definition list_is_last (h : heap) (list head : Z) : option bool := n ← next h !! list; Some (n =? head).
Definition list_empty (h : heap) (head : Z) : option bool := n ← next h !! head; Some (n =? head).

Definition list_is_singular (h : heap) (head : Z) : option bool :=
  e ← list_empty h head;
  n ← next h !! head;
  p ← prev h !! head;
  Some (negb e && (n =? p)).

Definition __list_splice (h : heap) (list prev0 next0 : Z) : option heap :=
  first ← next h !! list;
  last ← prev h !! list;
  h ← set_prev h first prev0;
  h ← set_next h prev0 first;
  h ← set_next h last next0;
  set_prev h next0 last.

Definition list_splice (h : heap) (list head : Z) : option heap :=
  e ← list_empty h list;
  if (e : bool) then Some h
  else
    n ← next h !! head;
    __list_splice h list head n.

Definition list_splice_init (h : heap) (list head : Z) : option heap :=
  e ← list_empty h list;
  if (e : bool) then Some h
  else
    n ← next h !! head;
    h ← __list_splice h list head n;
    INIT_LIST_HEAD h list.

(** [list_first_entry] and [list_last_entry], and their forms for a list that
    may be empty; an entry is known by its node. *)
Definition list_first_entry (h : heap) (ptr : Z) : option Z := next h !! ptr.
Definition list_last_entry (h : heap) (ptr : Z) : option Z := prev h !! ptr.
Definition list_first_entry_or_null (h : heap) (ptr : Z) : option (option Z) :=
  pos ← next h !! ptr; Some (if negb (pos =? ptr) then Some pos else None).
Definition list_last_entry_or_null (h : heap) (ptr : Z) : option (option Z) :=
  pos ← prev h !! ptr; Some (if negb (pos =? ptr) then Some pos else None).

(** ** Traversals

    [body] runs on each node and may change the heap and its own state; [fuel]
    bounds the rounds. *)
Section Walk.
Context {S : Type} (body : heap → S → Z → option (heap * S)).

Fixpoint walk (fuel : nat) (h : heap) (st : S) (pos head : Z) : option (heap * S) :=
  match fuel with
  | O => None
  | Datatypes.S fuel =>
      if pos =? head then Some (h, st)
      else
        '(h, st) ← body h st pos;
        pos ← next h !! pos;
        walk fuel h st pos head
  end.

Definition list_for_each (fuel : nat) (h : heap) (st : S) (head : Z) : option (heap * S) :=
  pos ← next h !! head;
  walk fuel h st pos head.

Fixpoint walk_prev (fuel : nat) (h : heap) (st : S) (pos head : Z) : option (heap * S) :=
  match fuel with
  | O => None
  | Datatypes.S fuel =>
      if pos =? head then Some (h, st)
      else
        '(h, st) ← body h st pos;
        pos ← prev h !! pos;
        walk_prev fuel h st pos head
  end.

Definition list_for_each_prev (fuel : nat) (h : heap) (st : S) (head : Z) : option (heap * S) :=
  pos ← prev h !! head;
  walk_prev fuel h st pos head.

(** The safe form reads the next node before the body runs. *)
Fixpoint walk_safe (fuel : nat) (h : heap) (st : S) (pos n head : Z) : option (heap * S) :=
  match fuel with
  | O => None
  | Datatypes.S fuel =>
      if pos =? head then Some (h, st)
      else
        '(h, st) ← body h st pos;
        n' ← next h !! n;
        walk_safe fuel h st n n' head
  end.

Definition list_for_each_safe (fuel : nat) (h : heap) (st : S) (head : Z) : option (heap * S) :=
  pos ← next h !! head;
  n ← next h !! pos;
  walk_safe fuel h st pos n head.

End Walk.

(** ** What a heap holds *)

Definition link (h : heap) (a b : Z) : Prop := next h !! a = Some b ∧ prev h !! b = Some a.

(** From [x] along [l], link by link. *)
Fixpoint path (h : heap) (x : Z) (l : list Z) : Prop :=
  match l with
  | [] => True
  | y :: l => link h x y ∧ path h y l
  end.

(** From [x] around and back. *)
Definition ring (h : heap) (x : Z) (l : list Z) : Prop := path h x (l ++ [x]).

(** Both fields of the nodes [N] are there. *)
Definition nodes (h : heap) (N : gset Z) : Prop := dom (next h) = N ∧ dom (prev h) = N.

(** Nodes outside [T] are as before. *)
Definition same_outside (T : list Z) (h h' : heap) : Prop :=
  ∀ p, p ∉ T → next h' !! p = next h !! p ∧ prev h' !! p = prev h !! p.

(** The heap [h] of the nodes [N] holds the lists [A], known by their heads. *)
Record repr (h : heap) (N : gset Z) (A : gmap Z (list Z)) : Prop := {
  r_nodes : nodes h N;
  r_ring : ∀ head l, A !! head = Some l → ring h head l;
  r_nodup : ∀ head l, A !! head = Some l → NoDup (head :: l);
  r_apart : ∀ h1 l1 h2 l2 p, A !! h1 = Some l1 → A !! h2 = Some l2 → h1 ≠ h2 → p ∈ h1 :: l1 → p ∉ h2 :: l2;
}.

(** A node in no list. *)
Definition free (A : gmap Z (list Z)) (p : Z) : Prop := ∀ head l, A !! head = Some l → p ∉ head :: l.

(** ** The same operations on lists *)

Inductive op : Type :=
| Init (list : Z)
| Add (new head : Z) | AddTail (new head : Z)
| Del (entry : Z) | DelInit (entry : Z)
| Replace (old new : Z) | ReplaceInit (old new : Z)
| Move (list head : Z) | MoveTail (list head : Z)
| Splice (list head : Z) | SpliceInit (list head : Z).

Definition exec (h : heap) (o : op) : option heap :=
  match o with
  | Init p => INIT_LIST_HEAD h p
  | Add new head => list_add h new head
  | AddTail new head => list_add_tail h new head
  | Del e => list_del h e
  | DelInit e => list_del_init h e
  | Replace old new => list_replace h old new
  | ReplaceInit old new => list_replace_init h old new
  | Move e head => list_move h e head
  | MoveTail e head => list_move_tail h e head
  | Splice list head => list_splice h list head
  | SpliceInit list head => list_splice_init h list head
  end.

(** What each operation is for, and when it may be used.  [list_replace] also
    replaces the head of a list, which is how a list is taken over. *)
Inductive spec (N : gset Z) (A : gmap Z (list Z)) : op → gmap Z (list Z) → Prop :=
| spec_init p : p ∈ N → free A p → spec N A (Init p) (<[p := []]> A)
| spec_add new head l :
    A !! head = Some l → new ∈ N → free A new → spec N A (Add new head) (<[head := new :: l]> A)
| spec_add_tail new head l :
    A !! head = Some l → new ∈ N → free A new → spec N A (AddTail new head) (<[head := l ++ [new]]> A)
| spec_del e head l1 l2 :
    A !! head = Some (l1 ++ e :: l2) → spec N A (Del e) (<[head := l1 ++ l2]> A)
| spec_del_init e head l1 l2 :
    A !! head = Some (l1 ++ e :: l2) → spec N A (DelInit e) (<[e := []]> (<[head := l1 ++ l2]> A))
| spec_replace old new head l1 l2 :
    A !! head = Some (l1 ++ old :: l2) → new ∈ N → free A new →
    spec N A (Replace old new) (<[head := l1 ++ new :: l2]> A)
| spec_replace_head old new l :
    A !! old = Some l → new ∈ N → free A new → spec N A (Replace old new) (<[new := l]> (delete old A))
| spec_replace_init old new head l1 l2 :
    A !! head = Some (l1 ++ old :: l2) → new ∈ N → free A new →
    spec N A (ReplaceInit old new) (<[old := []]> (<[head := l1 ++ new :: l2]> A))
| spec_replace_head_init old new l :
    A !! old = Some l → new ∈ N → free A new →
    spec N A (ReplaceInit old new) (<[old := []]> (<[new := l]> (delete old A)))
| spec_move e head0 l1 l2 head l :
    A !! head0 = Some (l1 ++ e :: l2) → <[head0 := l1 ++ l2]> A !! head = Some l →
    spec N A (Move e head) (<[head := e :: l]> (<[head0 := l1 ++ l2]> A))
| spec_move_tail e head0 l1 l2 head l :
    A !! head0 = Some (l1 ++ e :: l2) → <[head0 := l1 ++ l2]> A !! head = Some l →
    spec N A (MoveTail e head) (<[head := l ++ [e]]> (<[head0 := l1 ++ l2]> A))
| spec_splice_empty list head : A !! list = Some [] → spec N A (Splice list head) A
| spec_splice list head l1 l2 :
    A !! list = Some l1 → l1 ≠ [] → A !! head = Some l2 → list ≠ head →
    spec N A (Splice list head) (<[head := l1 ++ l2]> (delete list A))
| spec_splice_init list head l1 l2 :
    A !! list = Some l1 → A !! head = Some l2 → list ≠ head →
    spec N A (SpliceInit list head) (<[list := []]> (<[head := l1 ++ l2]> (delete list A))).

(** ** Lemmas: paths and rings *)

Lemma path_app h x l1 y l2 : path h x (l1 ++ y :: l2) ↔ path h x (l1 ++ [y]) ∧ path h y l2.
Proof. revert x. induction l1 as [|z l1 IH]; intros x; simpl; [tauto|]. rewrite IH. tauto. Qed.

Lemma path_frame h h' x l y :
  (∀ a, a ∈ x :: l → next h' !! a = next h !! a) → (∀ b, b ∈ l ++ [y] → prev h' !! b = prev h !! b) →
  path h x (l ++ [y]) → path h' x (l ++ [y]).
Proof.
  revert x. induction l as [|z l IH]; intros x Hn Hp; simpl.
  - intros [[H1 H2] _]. split; [|done]. split; [rewrite Hn by left; done|rewrite Hp by left; done].
  - intros [[H1 H2] H]. split; [split; [rewrite Hn by left; done|rewrite Hp by left; done]|].
    apply IH; [intros a Ha; apply Hn; by right|intros b Hb; apply Hp; by right|done].
Qed.

Lemma ring_rotate h x l1 y l2 : ring h x (l1 ++ y :: l2) ↔ ring h y (l2 ++ x :: l1).
Proof.
  unfold ring. rewrite <- !app_assoc. simpl. rewrite path_app, (path_app h y l2 x (l1 ++ [y])). tauto.
Qed.

Lemma nodup_rotate {X} (x : X) l1 y l2 : NoDup (x :: l1 ++ y :: l2) → NoDup (y :: l2 ++ x :: l1).
Proof.
  assert (P : x :: l1 ++ y :: l2 ≡ₚ y :: l2 ++ x :: l1) by by rewrite !app_comm_cons, (Permutation_app_comm (x :: l1)).
  by rewrite P.
Qed.

Lemma ring_frame h h' x l :
  (∀ p, p ∈ x :: l → next h' !! p = next h !! p ∧ prev h' !! p = prev h !! p) → ring h x l → ring h' x l.
Proof.
  intros H. apply path_frame; [intros a Ha; by apply H|]. intros b [Hb|Hb%list_elem_of_singleton]%elem_of_app.
  - apply H. by right.
  - apply H. subst. by left.
Qed.

(** The neighbours of the first node. *)
Lemma ring_next h x l : ring h x l → ∃ n, next h !! x = Some n ∧ hd_error (l ++ [x]) = Some n ∧ prev h !! n = Some x.
Proof. unfold ring. destruct l as [|n l]; simpl; intros [[? ?] _]; eauto. Qed.

Lemma ring_prev h x l : ring h x l → ∃ p, prev h !! x = Some p ∧ last (x :: l) = Some p ∧ next h !! p = Some x.
Proof.
  destruct (exists_last (l := x :: l)) as (q & p & E); [done|]. intros R. exists p.
  assert (L : link h p x).
  { unfold ring in R. destruct q as [|x' q]; simplify_eq/=; [by destruct R as [? _]|].
    rewrite <- app_assoc in R. apply path_app in R as [_ R]. by destruct R as [? _]. }
  rewrite E, last_snoc. by destruct L.
Qed.

(** ** Lemmas: assignments *)

Lemma set_next_ok h N p v :
  nodes h N → p ∈ N →
  set_next h p v = Some (mk_heap (<[p := v]> (next h)) (prev h)) ∧ nodes (mk_heap (<[p := v]> (next h)) (prev h)) N.
Proof.
  intros [H1 H2] Hp. unfold set_next. rewrite <- H1 in Hp. apply elem_of_dom in Hp as [x Hx]. rewrite Hx.
  split; [done|]. split; simpl; [rewrite dom_insert_lookup_L by eauto|]; done.
Qed.

Lemma set_prev_ok h N p v :
  nodes h N → p ∈ N →
  set_prev h p v = Some (mk_heap (next h) (<[p := v]> (prev h))) ∧ nodes (mk_heap (next h) (<[p := v]> (prev h))) N.
Proof.
  intros [H1 H2] Hp. unfold set_prev. rewrite <- H2 in Hp. apply elem_of_dom in Hp as [x Hx]. rewrite Hx.
  split; [done|]. split; simpl; [|rewrite dom_insert_lookup_L by eauto]; done.
Qed.

(** Run the next assignment. *)
Ltac assign :=
  match goal with
  | N : nodes ?h ?ns |- context [set_next ?h ?p ?v] =>
      let E := fresh "E" in let N' := fresh "N" in
      destruct (set_next_ok h ns p v N ltac:(assumption)) as [E N']; rewrite E; clear E; cbn [mbind option_bind next prev] in N' |- *
  | N : nodes ?h ?ns |- context [set_prev ?h ?p ?v] =>
      let E := fresh "E" in let N' := fresh "N" in
      destruct (set_prev_ok h ns p v N ltac:(assumption)) as [E N']; rewrite E; clear E; cbn [mbind option_bind next prev] in N' |- *
  end.

Lemma nodes_next h N p v : nodes h N → next h !! p = Some v → p ∈ N.
Proof. intros [<- _] H. apply elem_of_dom. eauto. Qed.

Lemma nodes_prev h N p v : nodes h N → prev h !! p = Some v → p ∈ N.
Proof. intros [_ <-] H. apply elem_of_dom. eauto. Qed.

(** Decide what a heap after assignments holds at a node. *)
Ltac look :=
  repeat first
    [ rewrite lookup_insert_eq
    | rewrite lookup_insert_ne by congruence ].

Lemma init_ok h N p :
  nodes h N → p ∈ N →
  ∃ h', INIT_LIST_HEAD h p = Some h' ∧ nodes h' N ∧ ring h' p [] ∧ same_outside [p] h h'.
Proof.
  intros Nd Hp. unfold INIT_LIST_HEAD. do 2 assign. eexists. split; [reflexivity|]. split; [done|]. split.
  - split; [|done]. split; simpl; by look.
  - intros q Hq. rewrite list_elem_of_singleton in Hq. split; simpl; by look.
Qed.

(** A node goes in after [x]. *)
Lemma insert_ok h N x l new n :
  nodes h N → ring h x l → NoDup (x :: l) → new ∈ N → new ∉ x :: l → next h !! x = Some n →
  ∃ h', __list_add h new x n = Some h' ∧ nodes h' N ∧ ring h' x (new :: l) ∧ same_outside (new :: x :: l) h h'.
Proof.
  intros Nd R D Hnew Hn Ex. destruct (ring_next _ _ _ R) as (n' & Ex' & Hh & Ep). simplify_eq.
  assert (Hx : x ∈ N) by (by eapply nodes_next). assert (HnN : n ∈ N) by (by eapply nodes_prev).
  apply not_elem_of_cons in Hn as [Hnx Hnl]. apply NoDup_cons in D as [Hxl Dl].
  unfold __list_add. do 4 assign. eexists. split; [reflexivity|]. split; [done|]. split.
  - unfold ring in *. destruct l as [|n' l]; simpl in *; simplify_eq.
    + split_and!; try done; split; simpl; by look.
    + apply NoDup_cons in Dl as [Hnl' Dl]. apply not_elem_of_cons in Hnl as [? ?], Hxl as [? ?].
      split_and!; [split; simpl; by look..|]. destruct R as [_ R]. revert R. apply path_frame; simpl.
      * intros a Ha. by rewrite !lookup_insert_ne by (intros ->; apply elem_of_cons in Ha as [?|?]; congruence).
      * intros b Hb. apply elem_of_app in Hb as [Hb|Hb%list_elem_of_singleton];
          rewrite !lookup_insert_ne; try done; intros ->; congruence.
  - intros q Hq. rewrite !not_elem_of_cons in Hq. destruct Hq as (? & ? & Hq). split; simpl; look; try done.
    rewrite !lookup_insert_ne; try done. intros ->. destruct l; simpl in Hh; simplify_eq. apply Hq. by left.
Qed.

(** The node after [x] comes out. *)
Lemma unlink_ok h N x e l :
  nodes h N → ring h x (e :: l) → NoDup (x :: e :: l) →
  ∃ h', unlink h e = Some h' ∧ nodes h' N ∧ ring h' x l ∧ same_outside (x :: l) h h'.
Proof.
  intros Nd R D. assert (R' : ring h e (l ++ [x])) by (by apply (ring_rotate h x [] e l)).
  destruct (ring_next _ _ _ R') as (n & En & Hh & Ep). destruct R as [[L1 L2] R].
  assert (Hx : x ∈ N) by (by eapply nodes_next). assert (HnN : n ∈ N) by (by eapply nodes_prev).
  apply NoDup_cons in D as [Hxe D]. apply NoDup_cons in D as [He D]. apply not_elem_of_cons in Hxe as [? Hxl].
  unfold unlink, __list_del. rewrite L2, En. cbn [mbind option_bind]. do 2 assign. eexists. split; [reflexivity|].
  split; [done|]. split.
  - unfold ring in *. destruct l as [|n' l]; simpl in *; simplify_eq.
    + split; [|done]. split; simpl; by look.
    + apply NoDup_cons in D as [Hn D]. apply not_elem_of_cons in Hxl as [? ?].
      split; [split; simpl; by look|]. destruct R as [_ R]. revert R. apply path_frame; simpl.
      * intros a Ha. by rewrite !lookup_insert_ne by (intros ->; apply elem_of_cons in Ha as [?|?]; congruence).
      * intros b Hb. apply elem_of_app in Hb as [Hb|Hb%list_elem_of_singleton];
          rewrite !lookup_insert_ne; try done; intros ->; congruence.
  - intros q Hq. rewrite !not_elem_of_cons in Hq. destruct Hq as (? & Hq). split; simpl; look; try done.
    rewrite !lookup_insert_ne; try done. intros ->. destruct l; simpl in Hh; simplify_eq. apply Hq. by left.
Qed.

(** Membership side conditions of a lookup past an assignment. *)
Ltac past :=
  rewrite !lookup_insert_ne; try done; intros ->;
  repeat match goal with
  | H : _ ∈ _ ++ _ |- _ => apply elem_of_app in H as [H|H]
  | H : _ ∈ _ :: _ |- _ => apply elem_of_cons in H as [H|H]
  | H : _ ∈ [] |- _ => by apply elem_of_nil in H
  end; congruence.

(** [new] takes the place of [old]. *)
Lemma replace_ok h N old l new :
  nodes h N → ring h old l → NoDup (old :: l) → new ∈ N → new ∉ old :: l →
  ∃ h', list_replace h old new = Some h' ∧ nodes h' N ∧ ring h' new l ∧ same_outside (new :: old :: l) h h'.
Proof.
  intros Nd R D Hnew Hn. apply not_elem_of_cons in Hn as [Hno Hnl]. apply NoDup_cons in D as [Hol Dl].
  destruct (ring_next _ _ _ R) as (n & En & Hh & Enp). destruct (ring_prev _ _ _ R) as (p & Ep & Hl & Epn).
  assert (Ho : old ∈ N) by (by eapply nodes_next). assert (HnN : n ∈ N) by (by eapply nodes_prev).
  assert (HpN : p ∈ N) by (by eapply nodes_next).
  unfold list_replace. rewrite En. cbn [mbind option_bind]. assign. cbn [next]. rewrite lookup_insert_eq.
  cbn [mbind option_bind]. assign. cbn [prev next]. destruct l as [|n' l]; simpl in Hh; simplify_eq.
  - rewrite lookup_insert_eq. cbn [mbind option_bind]. assign. cbn [prev next]. rewrite lookup_insert_eq.
    cbn [mbind option_bind]. assign. eexists. split; [reflexivity|]. split; [done|]. split.
    + split; [|done]. split; simpl; by look.
    + intros q Hq. rewrite !not_elem_of_cons in Hq. destruct Hq as (? & ? & _). split; simpl; by look.
  - assert (new ≠ n) by (intros ->; apply Hnl; left). assert (old ≠ n) by (intros ->; apply Hol; left).
    rewrite lookup_insert_ne, Ep by congruence. cbn [mbind option_bind]. assign.
    rewrite lookup_insert_eq. cbn [mbind option_bind]. assign. eexists. split; [reflexivity|]. split; [done|].
    destruct (exists_last (l := n :: l)) as (q & p' & E); [done|]. rewrite E, last_cons, last_snoc in Hl.
    injection Hl as ->. split.
    + unfold ring in *. rewrite E in R, Dl, Hnl |- *. rewrite <- app_assoc in R |- *. simpl in R |- *.
      apply path_app in R as [R _]. apply path_app. apply NoDup_app in Dl as (Dq & Dp & _).
      assert (Hp : p ∉ q) by (intros Hq; apply (Dp p Hq); left). apply not_elem_of_app in Hnl as [Hnq Hnp].
      assert (p ≠ new) by (intros ->; apply Hnp; left).
      split; [|split; [|done]; split; simpl; by look]. destruct q as [|n' q]; simplify_eq/=.
      * split; [|done]. split; simpl; by look.
      * apply NoDup_cons in Dq as [Hnq' Dq]. apply not_elem_of_cons in Hnq as [_ Hnq], Hp as [Hpn Hp].
        destruct R as [_ R]. split; [split; simpl; by look|]. revert R.
        apply path_frame; simpl; [intros a Ha|intros b Hb]; past.
    + intros x Hx. rewrite !not_elem_of_cons in Hx. destruct Hx as (? & ? & ? & Hx).
      assert (Hp : p ∈ n :: l) by (rewrite E; apply elem_of_app; right; by left).
      split; simpl; past.
Qed.

(** The nodes of one list go in after the head of another. *)
Lemma splice_ok h N list l1 head l2 n :
  nodes h N → ring h list l1 → l1 ≠ [] → ring h head l2 → NoDup ((list :: l1) ++ head :: l2) →
  next h !! head = Some n →
  ∃ h', __list_splice h list head n = Some h' ∧ nodes h' N ∧ ring h' head (l1 ++ l2) ∧
    same_outside (l1 ++ head :: l2) h h'.
Proof.
  intros Nd R1 H1 R2 D En. apply NoDup_app in D as (D1 & Dx & D2). apply NoDup_cons in D1 as [Hl1 D1], D2 as [Hl2 D2].
  destruct (ring_next _ _ _ R1) as (f & Ef & Hf & Efp). destruct (ring_prev _ _ _ R1) as (t & Et & Ht & Etn).
  destruct (ring_next _ _ _ R2) as (n' & En' & Hn & Enp). simplify_eq.
  assert (HfN : f ∈ N) by (by eapply nodes_prev). assert (HtN : t ∈ N) by (by eapply nodes_next).
  assert (HhN : head ∈ N) by (by eapply nodes_next). assert (HnN : n ∈ N) by (by eapply nodes_prev).
  destruct (exists_last H1) as (q & t' & ->). rewrite last_cons, last_snoc in Ht. injection Ht as ->.
  assert (Dq : ∀ x, x ∈ q ++ [t] → x ∉ head :: l2) by (intros x Hx; apply Dx; by right).
  unfold __list_splice. rewrite Ef, Et. cbn [mbind option_bind]. do 4 assign. eexists. split; [reflexivity|]. split; [done|].
  assert (Htq : t ∈ q ++ [t]) by (apply elem_of_app; right; left).
  assert (Hfq : f ∈ q ++ [t]).
  { destruct q; simplify_eq/=; [by left|]. left. }
  assert (Hnl : n ∈ head :: l2) by (destruct l2; simplify_eq/=; [left|right; left]).
  assert (head ≠ t) by (intros ->; apply (Dq t Htq); left). assert (head ≠ f) by (intros ->; apply (Dq f Hfq); left).
  assert (n ≠ f) by (intros ->; by apply (Dq f Hfq)). assert (n ≠ t) by (intros ->; by apply (Dq t Htq)).
  apply NoDup_app in D1 as (Dq1 & Dt & _).
  assert (Ht' : t ∉ q) by (intros Hq; apply (Dt t Hq); left). split.
  - unfold ring in *. rewrite <- !app_assoc. simpl. apply path_app. rewrite <- app_assoc in R1. simpl in R1.
    apply path_app in R1 as [R1 _]. split.
    + destruct q as [|f' q]; simplify_eq/=; [split; [|done]; split; simpl; by look|].
      split; [split; simpl; by look|]. destruct R1 as [_ R1]. apply NoDup_cons in Dq1 as [Hfq' Dq1].
      revert R1. apply path_frame; simpl; [intros a Ha|intros b Hb]; rewrite !lookup_insert_ne; try done; intros ->.
      * eapply Dq; [|left]. rewrite app_comm_cons. apply elem_of_app. by left.
      * done.
      * apply elem_of_app in Hb as [?|Hb%list_elem_of_singleton]; [done|]. subst. apply Ht'. left.
      * eapply Dq; [right; exact Hb|done].
    + destruct l2 as [|n' l2]; simplify_eq/=; [split; [|done]; split; simpl; by look|].
      split; [split; simpl; by look|]. destruct R2 as [_ R2]. apply NoDup_cons in D2 as [Hn2 D2].
      revert R2. apply path_frame; simpl; [intros a Ha|intros b Hb]; rewrite !lookup_insert_ne; try done; intros <-.
      * done.
      * by apply (Dq t Htq); right.
      * apply (Dq f Hfq). apply elem_of_app in Hb as [?|Hb%list_elem_of_singleton]; [by right; right|done].
      * apply elem_of_app in Hb as [?|Hb%list_elem_of_singleton]; [done|]. subst. apply Hl2. left.
  - intros x Hx. apply not_elem_of_app in Hx as [Hx1 Hx2].
    split; simpl; rewrite !lookup_insert_ne; try done; intros ->; try done. apply Hx2. left.
Qed.

Lemma same_outside_sub T T' h h' : same_outside T h h' → (∀ p, p ∈ T → p ∈ T') → same_outside T' h h'.
Proof. intros H Sub p Hp. apply H. auto. Qed.

(** Membership in lists built from others. *)
Ltac elems := intros; rewrite ?elem_of_cons, ?elem_of_app, ?elem_of_cons, ?elem_of_app, ?elem_of_cons, ?elem_of_nil in *; tauto.

(** ** Lemmas: operations anywhere in a list *)

Lemma add_ok h N head l new :
  nodes h N → ring h head l → NoDup (head :: l) → new ∈ N → new ∉ head :: l →
  ∃ h', list_add h new head = Some h' ∧ nodes h' N ∧ ring h' head (new :: l) ∧ same_outside (new :: head :: l) h h'.
Proof.
  intros Nd R D Hn Hf. unfold list_add. destruct (ring_next _ _ _ R) as (n & En & _). rewrite En.
  by apply insert_ok.
Qed.

Lemma add_tail_ok h N head l new :
  nodes h N → ring h head l → NoDup (head :: l) → new ∈ N → new ∉ head :: l →
  ∃ h', list_add_tail h new head = Some h' ∧ nodes h' N ∧ ring h' head (l ++ [new]) ∧ same_outside (new :: head :: l) h h'.
Proof.
  intros Nd R D Hn Hf. unfold list_add_tail. destruct (ring_prev _ _ _ R) as (p & Ep & Hl & Epn). rewrite Ep.
  cbn [mbind option_bind]. destruct l as [|x l _] using rev_ind.
  - simplify_eq/=. by apply insert_ok.
  - rewrite last_cons, last_snoc in Hl. injection Hl as ->.
    destruct (insert_ok h N p (head :: l) new head) as (h' & E & Nd' & R' & S); try done.
    + by apply ring_rotate in R.
    + by apply nodup_rotate in D.
    + elems.
    + exists h'. split_and!; [done|done| |].
      * rewrite <- app_assoc. simpl. apply ring_rotate. done.
      * eapply same_outside_sub; [exact S|]. elems.
Qed.

Lemma remove_ok h N head l1 e l2 :
  nodes h N → ring h head (l1 ++ e :: l2) → NoDup (head :: l1 ++ e :: l2) →
  ∃ h', unlink h e = Some h' ∧ nodes h' N ∧ ring h' head (l1 ++ l2) ∧ same_outside (head :: l1 ++ l2) h h'.
Proof.
  intros Nd R D. destruct l1 as [|x l1 _] using rev_ind; [by apply unlink_ok|].
  rewrite <- app_assoc in *. simpl in *.
  destruct (unlink_ok h N x e (l2 ++ head :: l1)) as (h' & E & Nd' & R' & S); try done.
  - by apply ring_rotate in R.
  - by apply (nodup_rotate head l1 x (e :: l2)).
  - exists h'. split_and!; [done|done| |].
    + apply ring_rotate. done.
    + eapply same_outside_sub; [exact S|]. elems.
Qed.

Lemma replace_in_ok h N head l1 old l2 new :
  nodes h N → ring h head (l1 ++ old :: l2) → NoDup (head :: l1 ++ old :: l2) → new ∈ N →
  new ∉ head :: l1 ++ old :: l2 →
  ∃ h', list_replace h old new = Some h' ∧ nodes h' N ∧ ring h' head (l1 ++ new :: l2) ∧
    same_outside (new :: head :: l1 ++ old :: l2) h h'.
Proof.
  intros Nd R D Hn Hf. destruct (replace_ok h N old (l2 ++ head :: l1) new) as (h' & E & Nd' & R' & S); try done.
  - by apply ring_rotate in R.
  - by apply nodup_rotate.
  - elems.
  - exists h'. split_and!; [done|done| |].
    + by apply ring_rotate.
    + eapply same_outside_sub; [exact S|]. elems.
Qed.

(** ** Lemmas: the lists of a heap *)

(** The list of [head] becomes [l'] by changes to the nodes [T], which no other
    list uses. *)
Lemma repr_set h N A h' head l' T :
  repr h N A → nodes h' N → ring h' head l' → same_outside T h h' → NoDup (head :: l') →
  (∀ p, p ∈ head :: l' → p ∈ T) →
  (∀ head2 l2 p, A !! head2 = Some l2 → head2 ≠ head → p ∈ T → p ∉ head2 :: l2) →
  repr h' N (<[head := l']> A).
Proof.
  intros [_ Rr Rn Ra] Nd R S D Sub Ap. split; [done|..].
  - intros h1 l1 E. destruct (decide (h1 = head)) as [->|Hne].
    + rewrite lookup_insert_eq in E. by simplify_eq.
    + rewrite lookup_insert_ne in E by done. apply (ring_frame h); [|by apply Rr].
      intros p Hp. apply S. intros HT. by apply (Ap h1 l1 p).
  - intros h1 l1 E. destruct (decide (h1 = head)) as [->|Hne].
    + rewrite lookup_insert_eq in E. by simplify_eq.
    + rewrite lookup_insert_ne in E by done. by apply Rn.
  - intros h1 l1 h2 l2 p E1 E2 Hne Hp.
    apply lookup_insert_Some in E1 as [[<- <-]|[H1 E1]], E2 as [[<- <-]|[H2 E2]].
    + done.
    + apply (Ap h2 l2 p); auto.
    + intros Hp'. apply (Ap h1 l1 p); auto.
    + by apply (Ra h1 l1 h2 l2 p).
Qed.

Lemma repr_delete h N A head : repr h N A → repr h N (delete head A).
Proof.
  intros [Nd Rr Rn Ra]. split; [done|..].
  - intros h1 l1 [_ E]%lookup_delete_Some. by apply Rr.
  - intros h1 l1 [_ E]%lookup_delete_Some. by apply Rn.
  - intros h1 l1 h2 l2 p [_ E1]%lookup_delete_Some [_ E2]%lookup_delete_Some. by apply Ra.
Qed.

(** A node that just left its list is in none. *)
Lemma free_removed h N A head l1 e l2 :
  repr h N A → A !! head = Some (l1 ++ e :: l2) → free (<[head := l1 ++ l2]> A) e.
Proof.
  intros [_ _ Rn Ra] E h1 l E1. destruct (decide (h1 = head)) as [->|Hne].
  - rewrite lookup_insert_eq in E1. simplify_eq. pose proof (Rn _ _ E) as D. intros Hin.
    apply NoDup_cons in D as [Hh D]. apply NoDup_app in D as (_ & D1 & D2). apply NoDup_cons in D2 as [D2 _].
    apply elem_of_cons in Hin as [->|[Hin|Hin]%elem_of_app]; [apply Hh; elems|apply (D1 e Hin); left|done].
  - rewrite lookup_insert_ne in E1 by done. apply (Ra head _ h1 l e E E1); [done|]. elems.
Qed.

(** What the specification of an operation on the list of [head] needs of the
    other lists. *)
Lemma others_apart h N A head l (T : list Z) :
  repr h N A → A !! head = Some l → (∀ p, p ∈ T → p ∈ head :: l ∨ free A p) →
  ∀ head2 l2 p, A !! head2 = Some l2 → head2 ≠ head → p ∈ T → p ∉ head2 :: l2.
Proof.
  intros I E HT h2 l2 p E2 Hne Hp. destruct (HT p Hp) as [Hl|Hf]; [|by apply (Hf h2)].
  apply (r_apart _ _ _ I head l h2 l2); congruence.
Qed.

Lemma step_init h N A p :
  repr h N A → p ∈ N → free A p → ∃ h', INIT_LIST_HEAD h p = Some h' ∧ repr h' N (<[p := []]> A).
Proof.
  intros I Hp Hf. destruct (init_ok h N p (r_nodes _ _ _ I) Hp) as (h' & E & Nd & R & S).
  exists h'. split; [done|]. apply (repr_set h N A h' p [] [p]); try done; [apply NoDup_singleton|].
  intros h2 l2 q E2 Hne ->%list_elem_of_singleton. by apply (Hf h2).
Qed.

Lemma step_add h N A new head l :
  repr h N A → A !! head = Some l → new ∈ N → free A new →
  ∃ h', list_add h new head = Some h' ∧ repr h' N (<[head := new :: l]> A).
Proof.
  intros I E Hn Hf. pose proof (r_nodup _ _ _ I _ _ E) as D.
  destruct (add_ok h N head l new) as (h' & Ex & Nd & R & S); [apply I|by apply I|done|done|by apply (Hf head)|].
  exists h'. split; [done|]. apply (repr_set h N A h' head _ _ I Nd R S).
  - pose proof (Hf _ _ E). assert (P : head :: new :: l ≡ₚ new :: head :: l) by constructor. rewrite P. by constructor.
  - elems.
  - apply (others_apart h N A head l); [done..|]. intros p [->|Hp]%elem_of_cons; auto.
Qed.

Lemma step_add_tail h N A new head l :
  repr h N A → A !! head = Some l → new ∈ N → free A new →
  ∃ h', list_add_tail h new head = Some h' ∧ repr h' N (<[head := l ++ [new]]> A).
Proof.
  intros I E Hn Hf. pose proof (r_nodup _ _ _ I _ _ E) as D.
  destruct (add_tail_ok h N head l new) as (h' & Ex & Nd & R & S); [apply I|by apply I|done|done|by apply (Hf head)|].
  exists h'. split; [done|]. apply (repr_set h N A h' head _ _ I Nd R S).
  - pose proof (Hf _ _ E). assert (P : head :: l ++ [new] ≡ₚ new :: head :: l) by solve_Permutation.
    rewrite P. by constructor.
  - elems.
  - apply (others_apart h N A head l); [done..|]. intros p [->|Hp]%elem_of_cons; auto.
Qed.

Lemma step_unlink h N A head l1 e l2 :
  repr h N A → A !! head = Some (l1 ++ e :: l2) →
  e ∈ N ∧ ∃ h', unlink h e = Some h' ∧ repr h' N (<[head := l1 ++ l2]> A).
Proof.
  intros I E. pose proof (r_nodup _ _ _ I _ _ E) as D. pose proof (r_ring _ _ _ I _ _ E) as R0.
  split. { apply ring_rotate in R0. destruct (ring_next _ _ _ R0) as (n & En & _). by eapply nodes_next, En; apply I. }
  destruct (remove_ok h N head l1 e l2) as (h' & Ex & Nd & R & S); [apply I|done|done|].
  exists h'. split; [done|]. apply (repr_set h N A h' head _ _ I Nd R S).
  - assert (P : head :: l1 ++ e :: l2 ≡ₚ e :: head :: l1 ++ l2) by solve_Permutation. rewrite P in D.
    by apply NoDup_cons in D as [_ D].
  - elems.
  - apply (others_apart h N A head (l1 ++ e :: l2)); [done..|]. intros p Hp. left. elems.
Qed.

(** A node in no list may be overwritten. *)
Lemma repr_loose h N A h' p :
  repr h N A → free A p → nodes h' N → same_outside [p] h h' → repr h' N A.
Proof.
  intros [_ Rr Rn Ra] Hf Nd S. split; try done. intros head l E. apply (ring_frame h); [|by apply Rr].
  intros q Hq. apply S. intros ->%list_elem_of_singleton. by apply (Hf head l).
Qed.

Lemma step_del h N A head l1 e l2 :
  repr h N A → A !! head = Some (l1 ++ e :: l2) →
  ∃ h', list_del h e = Some h' ∧ repr h' N (<[head := l1 ++ l2]> A).
Proof.
  intros I E. destruct (step_unlink h N A head l1 e l2 I E) as (He & h1 & E1 & I1).
  unfold list_del. rewrite E1. cbn [mbind option_bind]. pose proof (r_nodes _ _ _ I1) as Nd. do 2 assign.
  eexists. split; [reflexivity|]. eapply repr_loose; [exact I1|by eapply free_removed|done|].
  intros q Hq. rewrite list_elem_of_singleton in Hq. split; simpl; by look.
Qed.

Lemma step_replace h N A head l1 old l2 new :
  repr h N A → A !! head = Some (l1 ++ old :: l2) → new ∈ N → free A new →
  ∃ h', list_replace h old new = Some h' ∧ repr h' N (<[head := l1 ++ new :: l2]> A).
Proof.
  intros I E Hn Hf. pose proof (r_nodup _ _ _ I _ _ E) as D. pose proof (Hf _ _ E) as Hnew.
  destruct (replace_in_ok h N head l1 old l2 new) as (h' & Ex & Nd & R & S); [apply I|by apply I|done..|].
  exists h'. split; [done|]. apply (repr_set h N A h' head _ _ I Nd R S).
  - assert (P : head :: l1 ++ old :: l2 ≡ₚ old :: head :: l1 ++ l2) by solve_Permutation. rewrite P in D.
    apply NoDup_cons in D as [_ D].
    assert (P' : head :: l1 ++ new :: l2 ≡ₚ new :: head :: l1 ++ l2) by solve_Permutation. rewrite P'.
    apply NoDup_cons. split; [elems|done].
  - elems.
  - apply (others_apart h N A head (l1 ++ old :: l2)); [done..|]. intros p [->|Hp]%elem_of_cons; auto.
Qed.

Lemma step_replace_head h N A old l new :
  repr h N A → A !! old = Some l → new ∈ N → free A new →
  ∃ h', list_replace h old new = Some h' ∧ repr h' N (<[new := l]> (delete old A)).
Proof.
  intros I E Hn Hf. pose proof (r_nodup _ _ _ I _ _ E) as D. pose proof (Hf _ _ E) as Hnew.
  destruct (replace_ok h N old l new) as (h' & Ex & Nd & R & S); [apply I|by apply I|done..|].
  exists h'. split; [done|]. apply (repr_set h N (delete old A) h' new _ _ (repr_delete _ _ _ _ I) Nd R S).
  - apply NoDup_cons in D as [_ D]. apply NoDup_cons. split; [elems|done].
  - elems.
  - intros h2 l2 p [Hne E2]%lookup_delete_Some _ [->|Hp]%elem_of_cons; [by apply (Hf h2)|].
    by apply (r_apart _ _ _ I old l h2 l2).
Qed.

Lemma step_splice h N A list l1 head l2 :
  repr h N A → A !! list = Some l1 → l1 ≠ [] → A !! head = Some l2 → list ≠ head →
  ∃ n h', next h !! head = Some n ∧ __list_splice h list head n = Some h' ∧
    repr h' N (<[head := l1 ++ l2]> (delete list A)).
Proof.
  intros I E1 Hl1 E2 Hne. pose proof (r_nodup _ _ _ I _ _ E1) as D1. pose proof (r_nodup _ _ _ I _ _ E2) as D2.
  assert (D : NoDup ((list :: l1) ++ head :: l2)).
  { apply NoDup_app. split_and!; [done| |done]. intros p Hp. by apply (r_apart _ _ _ I list l1 head l2). }
  destruct (ring_next _ _ _ (r_ring _ _ _ I _ _ E2)) as (n & En & _).
  destruct (splice_ok h N list l1 head l2 n) as (h' & Ex & Nd & R & S); [apply I|by apply I|done|by apply I|done..|].
  exists n, h'. split_and!; [done..|].
  apply (repr_set h N (delete list A) h' head _ _ (repr_delete _ _ _ _ I) Nd R S).
  - apply NoDup_cons in D as [_ D]. assert (P : head :: l1 ++ l2 ≡ₚ l1 ++ head :: l2) by solve_Permutation. by rewrite P.
  - elems.
  - intros h2 l3 p [Hn2 E3]%lookup_delete_Some Hh2 [Hp|Hp]%elem_of_app.
    + apply (r_apart _ _ _ I list l1 h2 l3); [done..|]. by right.
    + apply (r_apart _ _ _ I head l2 h2 l3); [done..|congruence|done].
Qed.

(** The head of a list that was taken over is in no list. *)
Lemma free_head h N A old l head' l' :
  repr h N A → A !! old = Some l → old ∉ head' :: l' → free (<[head' := l']> (delete old A)) old.
Proof.
  intros I E Hn h2 l2 [[<- <-]|[_ [Hne E2]%lookup_delete_Some]]%lookup_insert_Some; [done|].
  apply (r_apart _ _ _ I old l h2 l2); [done..|left].
Qed.

Lemma head_node h N A head l : repr h N A → A !! head = Some l → head ∈ N.
Proof.
  intros I E. destruct (ring_next _ _ _ (r_ring _ _ _ I _ _ E)) as (n & En & _). by eapply nodes_next, En; apply I.
Qed.

Lemma list_empty_ok h N A head l :
  repr h N A → A !! head = Some l → list_empty h head = Some (bool_decide (l = [])).
Proof.
  intros I E. destruct (ring_next _ _ _ (r_ring _ _ _ I _ _ E)) as (n & En & Hh & _). unfold list_empty. rewrite En.
  cbn [mbind option_bind]. f_equal. pose proof (r_nodup _ _ _ I _ _ E) as [D _]%NoDup_cons.
  destruct l as [|x l]; simplify_eq/=; [by rewrite Z.eqb_refl|]. apply Z.eqb_neq. intros ->. apply D. left.
Qed.

(** One operation. *)
Lemma list_step_ok h N A o A' : repr h N A → spec N A o A' → ∃ h', exec h o = Some h' ∧ repr h' N A'.
Proof.
  intros I S. destruct S as [p Hp Hf|new head l E Hn Hf|new head l E Hn Hf|e head l1 l2 E|e head l1 l2 E
    |old new head l1 l2 E Hn Hf|old new l E Hn Hf|old new head l1 l2 E Hn Hf|old new l E Hn Hf
    |e head0 l1 l2 head l E E'|e head0 l1 l2 head l E E'|list head E|list head l1 l2 E1 Hl1 E2 Hne|list head l1 l2 E1 E2 Hne];
    simpl.
  - by apply step_init.
  - by apply step_add.
  - by apply step_add_tail.
  - by apply step_del.
  - destruct (step_unlink h N A head l1 e l2 I E) as (He & h1 & E1 & I1). unfold list_del_init. rewrite E1.
    apply step_init; [done|done|by eapply free_removed].
  - by apply step_replace.
  - by apply step_replace_head.
  - destruct (step_replace h N A head l1 old l2 new I E Hn Hf) as (h1 & E1 & I1). unfold list_replace_init. rewrite E1.
    destruct (step_unlink h N A head l1 old l2 I E) as [Ho _]. apply step_init; [done|done|].
    pose proof (free_removed h N A head l1 old l2 I E) as F. pose proof (Hf _ _ E) as Hnew.
    intros h2 l3 [[<- <-]|[Hne E3]]%lookup_insert_Some.
    + specialize (F head (l1 ++ l2) (lookup_insert_eq _ _ _)). assert (old ≠ new) by (intros ->; elems). elems.
    + apply (F h2). by rewrite lookup_insert_ne.
  - destruct (step_replace_head h N A old l new I E Hn Hf) as (h1 & E1 & I1). unfold list_replace_init. rewrite E1.
    apply step_init; [done|by apply (head_node h N A old l)|]. apply (free_head h N A old l); [done..|].
    pose proof (Hf _ _ E) as Hnew. pose proof (r_nodup _ _ _ I _ _ E) as [D _]%NoDup_cons.
    intros [->|?]%elem_of_cons; [|done]. apply Hnew. left.
  - destruct (step_unlink h N A head0 l1 e l2 I E) as (He & h1 & E1 & I1). unfold list_move. rewrite E1.
    apply step_add; [done..|by eapply free_removed].
  - destruct (step_unlink h N A head0 l1 e l2 I E) as (He & h1 & E1 & I1). unfold list_move_tail. rewrite E1.
    apply step_add_tail; [done..|by eapply free_removed].
  - unfold list_splice. rewrite (list_empty_ok h N A list [] I E). eauto.
  - unfold list_splice. rewrite (list_empty_ok h N A list l1 I E1), bool_decide_eq_false_2 by done.
    destruct (step_splice h N A list l1 head l2 I E1 Hl1 E2 Hne) as (n & h' & En & Ex & I'). cbn [mbind option_bind].
    rewrite En. eauto.
  - unfold list_splice_init. rewrite (list_empty_ok h N A list l1 I E1). destruct (decide (l1 = [])) as [->|Hl1].
    + exists h. split; [done|]. replace (<[list := []]> _) with A; [done|]. apply map_eq. intros k.
      destruct (decide (k = list)) as [->|]; [by look|]. look. destruct (decide (k = head)) as [->|]; look; [done|].
      by rewrite lookup_delete_ne.
    + rewrite bool_decide_eq_false_2 by done. cbn [mbind option_bind].
      destruct (step_splice h N A list l1 head l2 I E1 Hl1 E2 Hne) as (n & h' & En & Ex & I'). rewrite En.
      cbn [mbind option_bind]. rewrite Ex. apply step_init; [done|by apply (head_node h N A list l1)|].
      apply (free_head h N A list l1); [done..|]. pose proof (r_nodup _ _ _ I _ _ E1) as [D _]%NoDup_cons.
      assert (list ∉ head :: l2) by (apply (r_apart _ _ _ I list l1 head l2); [done..|left]). elems.
Qed.

(** ** Lemmas: reading a list *)

Lemma first_ok h N A head l :
  repr h N A → A !! head = Some l → list_first_entry_or_null h head = Some (hd_error l).
Proof.
  intros I E. destruct (ring_next _ _ _ (r_ring _ _ _ I _ _ E)) as (n & En & Hh & _).
  unfold list_first_entry_or_null. rewrite En. cbn [mbind option_bind]. pose proof (r_nodup _ _ _ I _ _ E) as [D _]%NoDup_cons.
  destruct l as [|x l]; simplify_eq/=; [by rewrite Z.eqb_refl|].
  rewrite (proj2 (Z.eqb_neq _ _)); [done|]. intros ->. apply D. left.
Qed.

Lemma last_ok h N A head l :
  repr h N A → A !! head = Some l → list_last_entry_or_null h head = Some (last l).
Proof.
  intros I E. destruct (ring_prev _ _ _ (r_ring _ _ _ I _ _ E)) as (p & Ep & Hl & _).
  unfold list_last_entry_or_null. rewrite Ep. cbn [mbind option_bind]. pose proof (r_nodup _ _ _ I _ _ E) as [D _]%NoDup_cons.
  destruct l as [|x l _] using rev_ind; simplify_eq/=; [by rewrite Z.eqb_refl|].
  rewrite last_snoc. rewrite last_cons, last_snoc in Hl. injection Hl as ->.
  rewrite (proj2 (Z.eqb_neq _ _)); [done|]. intros ->. apply D. elems.
Qed.

Section Walks.
Context {S : Type} (run : S → Z → S).

(** A body that leaves the heap alone. *)
Definition look_at (h : heap) (st : S) (p : Z) : option (heap * S) := Some (h, run st p).

Lemma walk_ok h head l : ∀ x st fuel,
  path h x (l ++ [head]) → head ∉ l → (length l < fuel)%nat →
  ∃ pos, next h !! x = Some pos ∧ walk look_at fuel h st pos head = Some (h, foldl run st l).
Proof.
  induction l as [|y l IH]; intros x st fuel P Hh Hf; simpl in P.
  - destruct P as [[En _] _]. exists head. split; [done|]. destruct fuel; [simpl in Hf; lia|]. cbn [walk]. by rewrite Z.eqb_refl.
  - destruct P as [[En _] P]. apply not_elem_of_cons in Hh as [Hh Hl]. exists y. split; [done|].
    destruct fuel; simpl in Hf; [lia|]. cbn [walk]. rewrite (proj2 (Z.eqb_neq _ _)) by done.
    destruct (IH y (run st y) fuel P Hl ltac:(lia)) as (pos & Ep & W).
    change (look_at h st y) with (Some (h, run st y)). cbn [mbind option_bind].
    by rewrite Ep.
Qed.

Lemma for_each_ok h N A head l st fuel :
  repr h N A → A !! head = Some l → (length l < fuel)%nat →
  list_for_each look_at fuel h st head = Some (h, foldl run st l).
Proof.
  intros I E Hf. pose proof (r_nodup _ _ _ I _ _ E) as [D _]%NoDup_cons.
  destruct (walk_ok h head l head st fuel (r_ring _ _ _ I _ _ E) D Hf) as (pos & Ep & W).
  unfold list_for_each. by rewrite Ep.
Qed.

Lemma walk_prev_ok h head l : ∀ fuel st,
  path h head l → head ∉ l → (length l < fuel)%nat → ∀ p, last (head :: l) = Some p →
  walk_prev look_at fuel h st p head = Some (h, foldl run st (reverse l)).
Proof.
  induction l as [|x l IH] using rev_ind; intros fuel st P Hh Hf p Hp.
  - simplify_eq/=. destruct fuel; [lia|]. cbn [walk_prev]. by rewrite Z.eqb_refl.
  - rewrite last_cons, last_snoc in Hp. injection Hp as ->. rewrite length_app in Hf. simpl in Hf.
    apply not_elem_of_app in Hh as [Hl Hx]. destruct fuel; [lia|]. cbn [walk_prev].
    rewrite (proj2 (Z.eqb_neq _ _)) by (intros ->; apply Hx; left). change (look_at h st p) with (Some (h, run st p)). cbn [mbind option_bind].
    destruct (exists_last (l := head :: l)) as (q & y & Eq); [done|].
    assert (L : link h y p ∧ path h head l).
    { destruct l as [|z l _] using rev_ind; [destruct q as [|? [|]]; simplify_eq/=; by destruct P|].
      rewrite app_comm_cons in Eq. apply app_inj_tail in Eq as [_ <-]. rewrite <- app_assoc in P. simpl in P.
      apply path_app in P as [P [L _]]. done. }
    destruct L as [[_ Ly] P']. rewrite Ly. cbn [mbind option_bind]. rewrite reverse_snoc. simpl.
    apply IH; [done|done|lia|]. by rewrite Eq, last_snoc.
Qed.

Lemma for_each_prev_ok h N A head l st fuel :
  repr h N A → A !! head = Some l → (length l < fuel)%nat →
  list_for_each_prev look_at fuel h st head = Some (h, foldl run st (reverse l)).
Proof.
  intros I E Hf. pose proof (r_nodup _ _ _ I _ _ E) as [D _]%NoDup_cons. pose proof (r_ring _ _ _ I _ _ E) as R.
  destruct (ring_prev _ _ _ R) as (p & Ep & Hl & _). unfold list_for_each_prev. rewrite Ep. cbn [mbind option_bind].
  apply walk_prev_ok; [|done..]. unfold ring in R. clear - R. destruct l as [|y l _] using rev_ind; [done|].
  rewrite <- app_assoc in R. by apply path_app in R as [R _].
Qed.

(** A body that takes some of the nodes out. *)
Definition prune (drop : Z → bool) (h : heap) (st : S) (p : Z) : option (heap * S) :=
  if drop p then h ← list_del h p; Some (h, run st p) else Some (h, run st p).

Definition kept (drop : Z → bool) (l : list Z) : list Z := filter (fun p => drop p = false) l.

Lemma walk_safe_ok drop N A head l0 : A !! head = Some l0 → ∀ r k h st pos n fuel,
  repr h N (<[head := k ++ r]> A) → hd_error (r ++ [head]) = Some pos → next h !! pos = Some n →
  (length r < fuel)%nat →
  ∃ h', walk_safe (prune drop) fuel h st pos n head = Some (h', foldl run st r) ∧
    repr h' N (<[head := k ++ kept drop r]> A).
Proof.
  intros E0. induction r as [|x r IH]; intros k h st pos n fuel I Hpos En Hf; simplify_eq/=.
  { exists h. destruct fuel; [lia|]. cbn [walk_safe]. rewrite Z.eqb_refl. done. }
  pose proof (r_ring _ _ _ I head _ (lookup_insert_eq _ _ _)) as R.
  pose proof (r_nodup _ _ _ I head _ (lookup_insert_eq _ _ _)) as [D _]%NoDup_cons.
  destruct fuel; [lia|]. cbn [walk_safe]. rewrite (proj2 (Z.eqb_neq pos head)) by (intros ->; apply D; elems).
  assert (Hn : hd_error (r ++ [head]) = Some n).
  { unfold ring in R. rewrite <- app_assoc in R. simpl in R. apply path_app in R as [_ R].
    destruct (r ++ [head]) as [|y l] eqn:Er; [by destruct r|]. destruct R as [[En' _] _]. simpl. congruence. }
  (* after the body, whatever it did, the rest of the list is still there *)
  assert (Next : ∀ h1 k', repr h1 N (<[head := k' ++ r]> A) →
    ∃ n', next h1 !! n = Some n' ∧ ∃ h', walk_safe (prune drop) fuel h1 (run st pos) n n' head = Some (h', foldl run (run st pos) r) ∧
      repr h' N (<[head := k' ++ kept drop r]> A)).
  { intros h1 k' I1.
    assert (∃ n', next h1 !! n = Some n') as [n' En'].
    { assert (Hin : n ∈ N); [|rewrite <- (proj1 (r_nodes _ _ _ I1)) in Hin; by apply elem_of_dom in Hin].
      rewrite <- (proj1 (r_nodes _ _ _ I)).
      destruct (decide (n = head)) as [->|]; [apply elem_of_dom|].
      - destruct (ring_next _ _ _ R) as (? & ? & _). eauto.
      - destruct r as [|y r]; simplify_eq/=. rewrite cons_middle, app_assoc in R. apply ring_rotate in R.
        destruct (ring_next _ _ _ R) as (? & ? & _). apply elem_of_dom. eauto. }
    exists n'. split; [done|]. apply IH; [done|done|done|lia]. }
  match goal with |- context [prune drop h st pos] => change (prune drop h st pos) with
    (if drop pos then h ← list_del h pos; Some (h, run st pos) else Some (h, run st pos)) end.
  destruct (drop pos) eqn:Ed.
  - destruct (step_del h N _ head k pos r I (lookup_insert_eq _ _ _)) as (h1 & E1 & I1).
    rewrite insert_insert_eq in I1. destruct (Next h1 k I1) as (n' & En' & h' & W & I').
    rewrite E1. cbn [mbind option_bind]. rewrite En'. cbn [mbind option_bind]. exists h'. split; [done|].
    unfold kept. rewrite filter_cons_False by congruence. done.
  - destruct (Next h (k ++ [pos])) as (n' & En' & h' & W & I'); [by rewrite <- app_assoc|].
    cbn [mbind option_bind]. rewrite En'. cbn [mbind option_bind]. exists h'. split; [done|].
    unfold kept. rewrite filter_cons_True by done. by rewrite <- app_assoc in I'.
Qed.

End Walks.

(** ** Properties *)

Fixpoint exec_all (h : heap) (ops : list op) : option heap :=
  match ops with
  | [] => Some h
  | o :: ops => h ← exec h o; exec_all h ops
  end.

Inductive specs (N : gset Z) : gmap Z (list Z) → list op → gmap Z (list Z) → Prop :=
| specs_nil A : specs N A [] A
| specs_cons A o A1 ops A2 : spec N A o A1 → specs N A1 ops A2 → specs N A (o :: ops) A2.

Lemma run_ok h N A ops A' : repr h N A → specs N A ops A' → ∃ h', exec_all h ops = Some h' ∧ repr h' N A'.
Proof.
  intros I S. revert h I. induction S as [A|A o A1 ops A2 S _ IH]; intros h I; simpl; [eauto|].
  destruct (list_step_ok h N A o A1 I S) as (h1 & E1 & I1). rewrite E1. by apply IH.
Qed.

Lemma foldl_snoc (l : list Z) : ∀ k, foldl (fun st p => st ++ [p]) k l = k ++ l.
Proof. induction l as [|x l IH]; intros k; simpl; [by rewrite app_nil_r|]. by rewrite IH, <- app_assoc. Qed.

(** C10. The list operations implement lists.  Take any number of lists that share
    no node, and any sequence of operations on them, each used within its rules:
    every operation runs without following a pointer that is not a node, and
    afterwards the heap holds exactly the lists that the same operations give on
    plain lists.  That is what a program sees: whether a list is empty, its first
    and last entry, and its entries in order in both directions, each once. *)
Theorem list_refines h N A ops A' :
  repr h N A → specs N A ops A' →
  ∃ h', exec_all h ops = Some h' ∧ repr h' N A' ∧
    ∀ head l, A' !! head = Some l →
      list_empty h' head = Some (bool_decide (l = [])) ∧
      list_first_entry_or_null h' head = Some (hd_error l) ∧
      list_last_entry_or_null h' head = Some (last l) ∧
      (∀ fuel, (length l < fuel)%nat →
        list_for_each (look_at (fun st p => st ++ [p])) fuel h' [] head = Some (h', l) ∧
        list_for_each_prev (look_at (fun st p => st ++ [p])) fuel h' [] head = Some (h', reverse l)).
Proof.
  intros I S. destruct (run_ok h N A ops A' I S) as (h' & E' & I'). exists h'. split; [done|]. split; [done|].
  intros head l E. split_and!; [by eapply list_empty_ok|by eapply first_ok|by eapply last_ok|]. intros fuel Hf.
  rewrite (for_each_ok _ h' N A' head l [] fuel I' E Hf), (for_each_prev_ok _ h' N A' head l [] fuel I' E Hf).
  by rewrite !foldl_snoc.
Qed.

(** The safe traversal may delete the entries it visits.  Walking a list with
    a body that takes any choice of the visited nodes out of it still visits every
    entry once and in order, ends, and leaves the entries that were not chosen, in
    their order, with every other list as it was. *)
Theorem list_for_each_safe_spec {S} (run : S → Z → S) drop h N A head l st fuel :
  repr h N A → A !! head = Some l → (length l < fuel)%nat →
  ∃ h', list_for_each_safe (prune run drop) fuel h st head = Some (h', foldl run st l) ∧
    repr h' N (<[head := filter (fun p => drop p = false) l]> A).
Proof.
  intros I E Hf. pose proof (r_ring _ _ _ I _ _ E) as R. destruct (ring_next _ _ _ R) as (pos & Ep & Hh & Epp).
  unfold list_for_each_safe. rewrite Ep. cbn [mbind option_bind].
  assert (∃ n, next h !! pos = Some n) as [n En].
  { apply nodes_prev with (N := N) in Epp; [|apply I]. rewrite <- (proj1 (r_nodes _ _ _ I)) in Epp. by apply elem_of_dom in Epp. }
  rewrite En. cbn [mbind option_bind].
  apply (walk_safe_ok run drop N A head l E l [] h st pos n fuel); [|done..]. by rewrite insert_id.
Qed.

(** ** Examples *)

(** Five nodes; 10 and 20 will be heads. *)
Definition example_fields : gmap Z Z := list_to_map ((fun p => (p, 0)) <$> [1; 2; 3; 10; 20]).
Definition example_heap : heap := mk_heap example_fields example_fields.
Definition example_nodes : gset Z := dom example_fields.

Definition example_lists : gmap Z (list Z) := <[20 := [1; 3]]> (<[10 := [2]]> ∅).
Definition example_ops : list op := [Init 10; Init 20; AddTail 1 10; AddTail 2 10; Add 3 20; Move 1 20].

Lemma example_repr : repr example_heap example_nodes ∅.
Proof. by split. Qed.

(** A node is in none of the lists of a map that is given. *)
Local Ltac is_free :=
  intros ? ? E; repeat (apply lookup_insert_Some in E as [[<- <-]|[_ E]]; [by apply (bool_decide_unpack _)|]); by apply lookup_empty_Some in E.

Lemma example_specs : specs example_nodes ∅ example_ops example_lists.
Proof.
  assert (Nd : ∀ p, p ∈ [1; 2; 3; 10; 20] → p ∈ example_nodes).
  { intros p Hp. unfold example_nodes, example_fields. rewrite dom_list_to_map_L, <- list_fmap_compose, elem_of_list_to_set.
    apply list_elem_of_fmap. by exists p. }
  eapply specs_cons; [apply spec_init; [apply Nd; apply (bool_decide_unpack _); done|is_free]|].
  eapply specs_cons; [apply spec_init; [apply Nd; apply (bool_decide_unpack _); done|is_free]|].
  eapply specs_cons; [eapply spec_add_tail; [done|apply Nd; apply (bool_decide_unpack _); done|is_free]|].
  eapply specs_cons; [eapply spec_add_tail; [done|apply Nd; apply (bool_decide_unpack _); done|is_free]|].
  eapply specs_cons; [eapply spec_add; [done|apply Nd; apply (bool_decide_unpack _); done|is_free]|].
  eapply specs_cons; [eapply (spec_move _ _ 1 10 [] [2]); done|].
  replace (<[20 := _]> _) with example_lists by (vm_compute; reflexivity). apply specs_nil.
Qed.

Lemma list_refines_witness :
  ∃ h', exec_all example_heap example_ops = Some h' ∧
    list_for_each (look_at (fun st p => st ++ [p])) 3 h' [] 20 = Some (h', [1; 3]).
Proof.
  destruct (list_refines example_heap example_nodes ∅ example_ops example_lists example_repr example_specs)
    as (h' & E & _ & H).
  exists h'. split; [exact E|]. destruct (H 20 [1; 3] eq_refl) as (_ & _ & _ & W). apply (W 3%nat). simpl. lia.
Defined.

Lemma example_ring_filled : repr (default example_heap (exec_all example_heap example_ops)) example_nodes example_lists.
Proof.
  destruct (run_ok example_heap example_nodes ∅ example_ops example_lists example_repr example_specs) as (h' & E & I).
  by rewrite E.
Qed.

Lemma list_for_each_safe_spec_witness :
  ∃ h', list_for_each_safe (prune (fun st p => st + p) (fun p => p =? 1)) 3
      (default example_heap (exec_all example_heap example_ops)) 0 20 = Some (h', 4) ∧
    repr h' example_nodes (<[20 := [3]]> example_lists).
Proof.
  apply (list_for_each_safe_spec (fun st p => st + p) (fun p => p =? 1) _ example_nodes example_lists 20 [1; 3] 0 3).
  - exact example_ring_filled.
  - reflexivity.
  - simpl. lia.
Defined.

End Links.
