(* ===== verification/HashList.v ===== *)
(** * Hash lists (include/modvm/util/list.h)

    The lists with a head of one pointer.  A node keeps the address of the
    pointer that points to it, which is the head or the next field of the node
    before it, so that it can be removed without knowing its list.  As in
    [LinkedList] the operations run on a heap, with the source's assignments in
    their order, and are shown to refine the same operations on lists. *)

From S2P Require Import Prelude.

Module HashList.

(** ** The heap *)

(** What the pprev field of a node holds: nothing, the address of the first
    field of a head or of the next field of a node, or the poison. *)
Inductive slot : Type := Null | First (head : Z) | Next (node : Z) | Poison.

(** The fields of every struct hlist_head and hlist_node there is; no node is at
    address 0. *)
Record heap : Type := mk_heap { first : gmap Z Z; next : gmap Z Z; pprev : gmap Z slot }.

Definition LIST_POISON1 : Z := 0x0100100.

(** Reading and writing through the address of a pointer; [None] is a fault. *)
Definition get (h : heap) (s : slot) : option Z :=
  match s with First p => first h !! p | Next n => next h !! n | _ => None end.
Definition put (h : heap) (s : slot) (v : Z) : option heap :=
  match s with
  | First p => _ ← first h !! p; Some (mk_heap (<[p := v]> (first h)) (next h) (pprev h))
  | Next n => _ ← next h !! n; Some (mk_heap (first h) (<[n := v]> (next h)) (pprev h))
  | _ => None
  end.
Definition set_pprev (h : heap) (n : Z) (s : slot) : option heap :=
  _ ← pprev h !! n; Some (mk_heap (first h) (next h) (<[n := s]> (pprev h))).

(** ** Operations *)

Definition INIT_HLIST_HEAD (h : heap) (ptr : Z) : option heap := put h (First ptr) 0.

Definition INIT_HLIST_NODE (h : heap) (n : Z) : option heap :=
  h ← put h (Next n) 0;
  set_pprev h n Null.

Definition hlist_unhashed (h : heap) (n : Z) : option bool :=
  s ← pprev h !! n; Some (match s with Null => true | _ => false end).

Definition hlist_empty (h : heap) (head : Z) : option bool := f ← get h (First head); Some (f =? 0).

Definition __hlist_del (h : heap) (n : Z) : option heap :=
  nx ← get h (Next n);
  pp ← pprev h !! n;
  h ← put h pp nx;
  if nx =? 0 then Some h else set_pprev h nx pp.

Definition hlist_del (h : heap) (n : Z) : option heap :=
  h ← __hlist_del h n;
  h ← put h (Next n) LIST_POISON1;
  set_pprev h n Poison.

Definition hlist_del_init (h : heap) (n : Z) : option heap :=
  u ← hlist_unhashed h n;
  if (u : bool) then Some h
  else
    h ← __hlist_del h n;
    INIT_HLIST_NODE h n.

Definition hlist_add_head (h : heap) (n head : Z) : option heap :=
  f ← get h (First head);
  h ← put h (Next n) f;
  h ← (if f =? 0 then Some h else set_pprev h f (Next n));
  h ← put h (First head) n;
  set_pprev h n (First head).

(** Traversals, with a [body] that may change the heap and its own state. *)
Section Walk.
Context {S : Type} (body : heap → S → Z → option (heap * S)).

Fixpoint walk (fuel : nat) (h : heap) (st : S) (pos : Z) : option (heap * S) :=
  match fuel with
  | O => None
  | Datatypes.S fuel =>
      if pos =? 0 then Some (h, st)
      else
        '(h, st) ← body h st pos;
        pos ← get h (Next pos);
        walk fuel h st pos
  end.
Definition hlist_for_each (fuel : nat) (h : heap) (st : S) (head : Z) : option (heap * S) :=
  pos ← get h (First head); walk fuel h st pos.

Fixpoint walk_safe (fuel : nat) (h : heap) (st : S) (pos : Z) : option (heap * S) :=
  match fuel with
  | O => None
  | Datatypes.S fuel =>
      if pos =? 0 then Some (h, st)
      else
        n ← get h (Next pos);
        '(h, st) ← body h st pos;
        walk_safe fuel h st n
  end.
Definition hlist_for_each_safe (fuel : nat) (h : heap) (st : S) (head : Z) : option (heap * S) :=
  pos ← get h (First head); walk_safe fuel h st pos.
End Walk.

(** ** Lists in the heap *)

(** From pointer [s] the nodes [l] follow, each knowing what points to it. *)
Fixpoint path (h : heap) (s : slot) (l : list Z) : Prop :=
  match l with
  | [] => get h s = Some 0
  | n :: l => n ≠ 0 ∧ get h s = Some n ∧ pprev h !! n = Some s ∧ path h (Next n) l
  end.

(** The same for a beginning of a list, and the pointer after it. *)
Fixpoint links (h : heap) (s : slot) (l : list Z) : Prop :=
  match l with
  | [] => True
  | n :: l => n ≠ 0 ∧ get h s = Some n ∧ pprev h !! n = Some s ∧ links h (Next n) l
  end.
Fixpoint tail_slot (s : slot) (l : list Z) : slot :=
  match l with [] => s | n :: l => tail_slot (Next n) l end.

(** The heap of the heads [H] and the nodes [N] holds the lists [A], by their
    heads, and the nodes [U] are initialised and in no list. *)
Record repr (h : heap) (H N : gset Z) (A : gmap Z (list Z)) (U : gset Z) : Prop := {
  r_first : dom (first h) = H;
  r_next : dom (next h) = N;
  r_pprev : dom (pprev h) = N;
  r_null : 0 ∉ N;
  r_path : ∀ head l, A !! head = Some l → path h (First head) l;
  r_nodup : ∀ head l, A !! head = Some l → NoDup l;
  r_apart : ∀ h1 l1 h2 l2 p, A !! h1 = Some l1 → A !! h2 = Some l2 → p ∈ l1 → p ∈ l2 → h1 = h2;
  r_loose : ∀ n, n ∈ U → pprev h !! n = Some Null;
}.

Definition free (A : gmap Z (list Z)) (n : Z) : Prop := ∀ head l, A !! head = Some l → n ∉ l.

Inductive op : Type :=
| InitHead (head : Z) | InitNode (n : Z) | AddHead (n head : Z) | Del (n : Z) | DelInit (n : Z).

Definition exec (h : heap) (o : op) : option heap :=
  match o with
  | InitHead p => INIT_HLIST_HEAD h p
  | InitNode n => INIT_HLIST_NODE h n
  | AddHead n p => hlist_add_head h n p
  | Del n => hlist_del h n
  | DelInit n => hlist_del_init h n
  end.

(** The same on lists, and when each may be used.  Initialising a head again
    forgets its list; [hlist_del_init] may be used on a node in no list. *)
Inductive spec (H N : gset Z) (A : gmap Z (list Z)) (U : gset Z) : op → gmap Z (list Z) → gset Z → Prop :=
| spec_init_head p : p ∈ H → spec H N A U (InitHead p) (<[p := []]> A) U
| spec_init_node n : n ∈ N → free A n → spec H N A U (InitNode n) A ({[n]} ∪ U)
| spec_add n p l : A !! p = Some l → n ∈ N → free A n → spec H N A U (AddHead n p) (<[p := n :: l]> A) (U ∖ {[n]})
| spec_del n p l1 l2 : A !! p = Some (l1 ++ n :: l2) → spec H N A U (Del n) (<[p := l1 ++ l2]> A) U
| spec_del_init n p l1 l2 :
    A !! p = Some (l1 ++ n :: l2) → spec H N A U (DelInit n) (<[p := l1 ++ l2]> A) ({[n]} ∪ U)
| spec_del_loose n : n ∈ U → spec H N A U (DelInit n) A U.

Fixpoint exec_all (h : heap) (ops : list op) : option heap :=
  match ops with [] => Some h | o :: ops => h ← exec h o; exec_all h ops end.

Inductive specs (H N : gset Z) : gmap Z (list Z) → gset Z → list op → gmap Z (list Z) → gset Z → Prop :=
| specs_nil A U : specs H N A U [] A U
| specs_cons A U o A1 U1 ops A2 U2 :
    spec H N A U o A1 U1 → specs H N A1 U1 ops A2 U2 → specs H N A U (o :: ops) A2 U2.

(** ** Writes *)

#[local] Instance slot_eq_dec : EqDecision slot.
Proof. solve_decision. Defined.

(** What a write leaves when it does not fault. *)
Definition upd (h : heap) (s : slot) (v : Z) : heap :=
  match s with
  | First p => mk_heap (<[p := v]> (first h)) (next h) (pprev h)
  | Next n => mk_heap (first h) (<[n := v]> (next h)) (pprev h)
  | _ => h
  end.
Definition updp (h : heap) (n : Z) (s : slot) : heap := mk_heap (first h) (next h) (<[n := s]> (pprev h)).

Lemma put_upd h s v w : get h s = Some w → put h s v = Some (upd h s v).
Proof. destruct s; cbn; intros E; by rewrite ?E. Qed.

Lemma set_pprev_updp h n s w : pprev h !! n = Some w → set_pprev h n s = Some (updp h n s).
Proof. intros E. unfold set_pprev. by rewrite E. Qed.

Lemma slot_upd h s v w s' : get h s = Some w → get (upd h s v) s' = if decide (s' = s) then Some v else get h s'.
Proof.
  intros E. destruct (decide (s' = s)) as [->|Hne].
  - destruct s; cbn in *; try done; apply lookup_insert_eq.
  - destruct s, s'; cbn; try done; apply lookup_insert_ne; congruence.
Qed.

Lemma get_updp h n s s' : get (updp h n s) s' = get h s'.
Proof. by destruct s'. Qed.

Lemma pprev_upd h s v : pprev (upd h s v) = pprev h.
Proof. by destruct s. Qed.

Lemma dom_upd h s v w :
  get h s = Some w → dom (first (upd h s v)) = dom (first h) ∧ dom (next (upd h s v)) = dom (next h).
Proof.
  intros E. destruct s; cbn in *; try done; split; try done; apply dom_insert_lookup_L; by rewrite E.
Qed.

Lemma dom_updp h n s w : pprev h !! n = Some w → dom (pprev (updp h n s)) = dom (pprev h).
Proof. intros E. apply dom_insert_lookup_L. by rewrite E. Qed.

(** The fields there are. *)
Definition same_dom (h h' : heap) : Prop :=
  dom (first h') = dom (first h) ∧ dom (next h') = dom (next h) ∧ dom (pprev h') = dom (pprev h).

(** [if (f) f->pprev = s]. *)
Lemma back_effect h f s :
  (f ≠ 0 → is_Some (pprev h !! f)) →
  ∃ h', (if f =? 0 then Some h else set_pprev h f s) = Some h' ∧ same_dom h h' ∧ (∀ s', get h' s' = get h s') ∧
    (∀ n, pprev h' !! n = if decide (f ≠ 0 ∧ n = f) then Some s else pprev h !! n).
Proof.
  intros Hf. destruct (Z.eqb_spec f 0) as [->|Hne].
  - exists h. by repeat split.
  - destruct (Hf Hne) as [w Hw]. exists (updp h f s). split; [by eapply set_pprev_updp|].
    split; [split; [done|]; split; [done|]; by eapply dom_updp|]. split; [intros; apply get_updp|].
    intros n. case_decide as Hd; [destruct Hd as [_ ->]; apply lookup_insert_eq|]. apply lookup_insert_ne. intros ->. by apply Hd.
Qed.

Lemma add_effect h n p f w q :
  get h (First p) = Some f → get h (Next n) = Some w → pprev h !! n = Some q →
  (f ≠ 0 → is_Some (pprev h !! f) ∧ f ≠ n) →
  ∃ h', hlist_add_head h n p = Some h' ∧ same_dom h h' ∧
    (∀ s, get h' s = if decide (s = First p) then Some n else if decide (s = Next n) then Some f else get h s) ∧
    (∀ m, pprev h' !! m = if decide (m = n) then Some (First p)
                          else if decide (f ≠ 0 ∧ m = f) then Some (Next n) else pprev h !! m).
Proof.
  intros Hf Hw Hq Hfp. destruct (dom_upd h (Next n) f _ Hw) as [D1 D1'].
  destruct (back_effect (upd h (Next n) f) f (Next n)) as (h2 & E2 & (D2 & D2' & D2'') & G2 & P2).
  { rewrite pprev_upd. intros Hne. by apply Hfp. }
  rewrite pprev_upd in D2'', P2.
  assert (Gp : get h2 (First p) = Some f) by (by rewrite G2, (slot_upd _ _ _ _ _ Hw), decide_False).
  destruct (dom_upd h2 (First p) n _ Gp) as [D3 D3'].
  assert (Hq2 : is_Some (pprev h2 !! n)).
  { rewrite P2. destruct (decide (f ≠ 0 ∧ n = f)); rewrite ?Hq; eauto. }
  destruct Hq2 as [q2 Hq2]. exists (updp (upd h2 (First p) n) n (First p)). split; [|split; [|split]].
  - unfold hlist_add_head. rewrite Hf. cbn [mbind option_bind]. rewrite (put_upd _ _ _ _ Hw). cbn [mbind option_bind].
    rewrite E2. cbn [mbind option_bind]. rewrite (put_upd _ _ _ _ Gp). cbn [mbind option_bind].
    eapply set_pprev_updp. rewrite pprev_upd. exact Hq2.
  - repeat split; [exact (eq_trans D3 (eq_trans D2 D1))|exact (eq_trans D3' (eq_trans D2' D1'))|].
    erewrite dom_updp by (rewrite pprev_upd; exact Hq2). by rewrite pprev_upd.
  - intros s. rewrite get_updp, (slot_upd _ _ _ _ _ Gp), G2, (slot_upd _ _ _ _ _ Hw). done.
  - intros m. cbn. destruct (decide (m = n)) as [->|Hm]; [ apply lookup_insert_eq|]. rewrite lookup_insert_ne by done. apply P2.
Qed.

Lemma del_effect h n x pp w :
  get h (Next n) = Some x → pprev h !! n = Some pp → get h pp = Some w → (x ≠ 0 → is_Some (pprev h !! x)) →
  ∃ h', __hlist_del h n = Some h' ∧ same_dom h h' ∧
    (∀ s, get h' s = if decide (s = pp) then Some x else get h s) ∧
    (∀ m, pprev h' !! m = if decide (x ≠ 0 ∧ m = x) then Some pp else pprev h !! m).
Proof.
  intros Hx Hq Hw Hb. destruct (dom_upd h pp x _ Hw) as [D1 D1'].
  destruct (back_effect (upd h pp x) x pp) as (h2 & E2 & (D2 & D2' & D2'') & G2 & P2); [by rewrite pprev_upd|].
  rewrite pprev_upd in D2'', P2. exists h2. split; [|split; [|split]].
  - unfold __hlist_del. rewrite Hx. cbn [mbind option_bind]. rewrite Hq. cbn [mbind option_bind].
    rewrite (put_upd _ _ _ _ Hw). exact E2.
  - unfold same_dom; rewrite <- D1, <- D1'; done.
  - intros s. by rewrite G2, (slot_upd _ _ _ _ _ Hw).
  - done.
Qed.

(** ** Paths *)

Lemma hash_path_app h s l1 l2 : path h s (l1 ++ l2) ↔ links h s l1 ∧ path h (tail_slot s l1) l2.
Proof. revert s. induction l1 as [|n l1 IH]; intros s; cbn; [tauto|]. rewrite IH. tauto. Qed.

Lemma hash_path_frame h h' s l :
  path h s l → get h' s = get h s →
  (∀ n, n ∈ l → get h' (Next n) = get h (Next n) ∧ pprev h' !! n = pprev h !! n) → path h' s l.
Proof.
  revert s. induction l as [|n l IH]; cbn; intros s Hp Hs Hl; [by rewrite Hs|].
  destruct Hp as (H0 & H1 & H2 & H3). destruct (Hl n) as [G1 G2]; [constructor|].
  rewrite Hs, G2. repeat split; try done. apply IH; [done|done|]. intros m Hm. apply Hl. by constructor.
Qed.

Lemma tail_in s l : tail_slot s l = s ∨ ∃ n, n ∈ l ∧ tail_slot s l = Next n.
Proof.
  revert s. induction l as [|n l IH]; intros s; cbn; [by left|]. right.
  destruct (IH (Next n)) as [->|(m & Hm & ->)]; [exists n|exists m]; split; try done; constructor; done.
Qed.

Lemma tail_not_inner s n l : s ≠ Next n → (∀ m, m ∈ l → s ≠ Next m) → tail_slot (Next n) l ≠ s.
Proof.
  intros H1 H2 E. destruct (tail_in (Next n) l) as [E'|(m & Hm & E')]; rewrite E in E'; [done|]. by apply (H2 m).
Qed.

Lemma links_frame h h' s l :
  NoDup l → (∀ m, m ∈ l → s ≠ Next m) → links h s l →
  (∀ s', s' = s ∨ (∃ n, n ∈ l ∧ s' = Next n) → s' ≠ tail_slot s l → get h' s' = get h s') →
  (∀ n, n ∈ l → pprev h' !! n = pprev h !! n) → links h' s l.
Proof.
  revert s. induction l as [|n l IH]; intros s Hnd Hs Hk Hg Hp; cbn in *; [done|].
  destruct Hk as (H0 & H1 & H2 & H3). inversion Hnd as [|?? Hn Hnd']; subst.
  rewrite Hg, Hp; [|constructor|by left|].
  - repeat split; try done. apply IH; try done.
    + intros m Hm [= ->]. done.
    + intros s' [->|(m & Hm & ->)] Hne; apply Hg; try done; right; eexists; split; try done; by constructor.
    + intros m Hm. apply Hp. by constructor.
  - intros E. symmetry in E. revert E. apply tail_not_inner; intros; apply Hs; by constructor.
Qed.

(** ** Steps *)

Section Steps.
Context (H N : gset Z).

Lemma node_next h A U n : repr h H N A U → n ∈ N → ∃ w, get h (Next n) = Some w.
Proof. intros R Hn. apply elem_of_dom. cbn. by rewrite (r_next _ _ _ _ _ R). Qed.

Lemma node_pprev h A U n : repr h H N A U → n ∈ N → ∃ w, pprev h !! n = Some w.
Proof. intros R Hn. apply elem_of_dom. by rewrite (r_pprev _ _ _ _ _ R). Qed.

Lemma pprev_node h A U n w : repr h H N A U → pprev h !! n = Some w → n ∈ N.
Proof. intros R E. rewrite <- (r_pprev _ _ _ _ _ R). apply elem_of_dom. by rewrite E. Qed.

Lemma member_node h A U p l n : repr h H N A U → A !! p = Some l → n ∈ l → ∃ s, pprev h !! n = Some s ∧ s ≠ Null ∧ n ∈ N.
Proof.
  intros R Hl Hn. apply list_elem_of_split in Hn as (l1 & l2 & ->).
  pose proof (r_path _ _ _ _ _ R _ _ Hl) as Hp. apply hash_path_app in Hp as [_ Hp]. cbn in Hp.
  destruct Hp as (_ & _ & E & _). exists (tail_slot (First p) l1). split; [done|]. split; [|by eapply pprev_node].
  destruct (tail_in (First p) l1) as [->|(m & _ & ->)]; done.
Qed.

(** Writing the fields of a node in no list. *)
Lemma hash_repr_loose h A U n v s U' :
  repr h H N A U → n ∈ N → free A n → (∀ m, m ∈ U' → m = n ∧ s = Null ∨ m ≠ n ∧ m ∈ U) →
  ∃ h', (h ← put h (Next n) v; set_pprev h n s) = Some h' ∧ repr h' H N A U'.
Proof.
  intros R Hn Hf HU. destruct (node_next _ _ _ _ R Hn) as [w Hw]. destruct (node_pprev _ _ _ _ R Hn) as [q Hq].
  exists (updp (upd h (Next n) v) n s). rewrite (put_upd _ _ _ _ Hw). cbn [mbind option_bind].
  split; [eapply set_pprev_updp; rewrite pprev_upd; exact Hq|].
  destruct (dom_upd h (Next n) v _ Hw) as [D1 D2]. destruct R. constructor; try done; [exact (eq_trans D2 r_next0)| | |].
  - erewrite dom_updp, pprev_upd; [done|]. rewrite pprev_upd. exact Hq.
  - intros p l Hl. eapply hash_path_frame; [by eapply r_path0| |].
    + rewrite get_updp. apply (slot_upd _ _ _ _ (First p) Hw).
    + intros m Hm. assert (m ≠ n) by (intros ->; by eapply Hf). cbn. rewrite !lookup_insert_ne by done. done.
  - intros m Hm. cbn. destruct (HU m Hm) as [[-> ->]|[Hne Hm']]; [apply lookup_insert_eq|].
    rewrite lookup_insert_ne by done. by apply r_loose0.
Qed.

Lemma hash_step_init_head h A U p :
  repr h H N A U → p ∈ H → ∃ h', INIT_HLIST_HEAD h p = Some h' ∧ repr h' H N (<[p := []]> A) U.
Proof.
  intros R Hp. destruct (first h !! p) as [w|] eqn:Hw.
  2: { apply not_elem_of_dom in Hw. by rewrite (r_first _ _ _ _ _ R) in Hw. }
  exists (upd h (First p) 0). unfold INIT_HLIST_HEAD. rewrite (put_upd _ (First p) _ w Hw). split; [done|].
  destruct (dom_upd h (First p) 0 _ Hw) as [D1 D2]. destruct R. constructor; try done; [exact (eq_trans D1 r_first0)| | |].
  - intros q l [[<- <-]|[Hne Hl]]%lookup_insert_Some; [apply lookup_insert_eq|].
    eapply hash_path_frame; [by eapply r_path0| |done]. cbn. apply lookup_insert_ne. congruence.
  - intros q l [[<- <-]|[Hne Hl]]%lookup_insert_Some; [constructor|by eapply r_nodup0].
  - intros h1 l1 h2 l2 n [[<- <-]|[_ E1]]%lookup_insert_Some [[<- <-]|[_ E2]]%lookup_insert_Some H1 H2;
      [done|by apply elem_of_nil in H1|by apply elem_of_nil in H2|by eapply r_apart0].
Qed.

(** A list of the heap is changed: what is left to show of the others. *)
Lemma hash_repr_set h h' A U U' p l l' :
  repr h H N A U → A !! p = Some l →
  dom (first h') = H → dom (next h') = N → dom (pprev h') = N →
  path h' (First p) l' → NoDup l' →
  (∀ n, n ∈ l' → n ∈ l ∨ free A n) →
  (∀ s', s' ≠ First p → (∀ n, s' = Next n → ¬ (n ∈ l ∨ free A n)) → get h' s' = get h s') →
  (∀ n, ¬ (n ∈ l ∨ free A n) → pprev h' !! n = pprev h !! n) →
  (∀ n, n ∈ U' → pprev h' !! n = Some Null) →
  repr h' H N (<[p := l']> A) U'.
Proof.
  intros R Hl D1 D2 D3 Hp Hnd Hin Hget Hpp HU. destruct R.
  assert (Hother : ∀ q l1 n, q ≠ p → A !! q = Some l1 → n ∈ l1 → ¬ (n ∈ l ∨ free A n)).
  { intros q l1 n Hne Hq Hn [Hn'|Hf]; [apply Hne; by eapply r_apart0|by eapply Hf]. }
  constructor; try done.
  - intros q l1 [[<- <-]|[Hne Hq]]%lookup_insert_Some; [done|]. apply (hash_path_frame h); [by apply r_path0| |].
    + apply Hget; [congruence|done].
    + intros n Hn. assert (Hn' := Hother q l1 n ltac:(done) Hq Hn). split; [|by apply Hpp].
      apply Hget; [done|by intros ? [= <-]].
  - intros q l1 [[<- <-]|[Hne Hq]]%lookup_insert_Some; [done|by eapply r_nodup0].
  - intros h1 l1 h2 l2 n [[<- <-]|[N1 E1]]%lookup_insert_Some [[<- <-]|[N2 E2]]%lookup_insert_Some H1 H2;
      [done| | |by eapply r_apart0].
    + exfalso. apply (Hother h2 l2 n); try done. by apply Hin.
    + exfalso. apply (Hother h1 l1 n); try done. by apply Hin.
Qed.

(** The node after a pointer of a path. *)
Lemma hash_path_head h s l : path h s l → ∃ f, get h s = Some f ∧ f = default 0 (head l) ∧ (f ≠ 0 → pprev h !! f = Some s ∧ f ∈ l).
Proof.
  destruct l as [|n l]; cbn; [intros E; by exists 0|]. intros (H0 & H1 & H2 & _). exists n.
  repeat split; try done. constructor.
Qed.

(** The rest of a list after the node before it is unlinked. *)
Lemma splice_path h h' n x pp l :
  NoDup l → n ∉ l → path h (Next n) l → x = default 0 (head l) → (∀ k, k ∈ l → pp ≠ Next k) →
  (∀ s, get h' s = if decide (s = pp) then Some x else get h s) →
  (∀ m, pprev h' !! m = if decide (x ≠ 0 ∧ m = x) then Some pp else pprev h !! m) → path h' pp l.
Proof.
  intros Hnd Hn Hp Ex Hpp G P. destruct l as [|m l]; cbn [path] in *; cbn in Ex; subst x.
  - by rewrite G, decide_True.
  - destruct Hp as (M0 & M1 & M2 & M3). rewrite G, P, !decide_True by done.
    split; [done|]. split; [done|]. split; [done|]. apply NoDup_cons in Hnd as [Hml _]. apply (hash_path_frame h); [done| |].
    + rewrite G, decide_False; [done|]. intros E. by apply (Hpp m); [constructor|].
    + intros k Hk. rewrite G, P, !decide_False; [done| |].
      * intros [_ ->]. done.
      * intros E. by apply (Hpp k); [constructor|].
Qed.

Lemma hash_step_add h A U n p l :
  repr h H N A U → A !! p = Some l → n ∈ N → free A n →
  ∃ h', hlist_add_head h n p = Some h' ∧ repr h' H N (<[p := n :: l]> A) (U ∖ {[n]}).
Proof.
  intros R Hl Hn Hf. pose proof (r_path _ _ _ _ _ R _ _ Hl) as Hp.
  destruct (hash_path_head _ _ _ Hp) as (f & Hf0 & Ef & Hfp).
  destruct (node_next _ _ _ _ R Hn) as [w Hw]. destruct (node_pprev _ _ _ _ R Hn) as [q Hq].
  assert (Hnl : n ∉ l) by (by eapply Hf). assert (Hn0 : n ≠ 0) by (intros ->; by apply (r_null _ _ _ _ _ R)).
  destruct (add_effect h n p f w q) as (h' & E & (D1 & D2 & D3) & G & P); [done|done|done| |].
  { intros Hne. destruct (Hfp Hne) as [Hfp1 Hfl]. split; [by eexists|]. by intros ->. }
  exists h'. split; [done|]. destruct (R) as [].
  apply (hash_repr_set h h' A U _ p l); try done; try congruence.
  - cbn [path]. rewrite G, P, !decide_True by done. split; [done|]. split; [done|]. split; [done|].
    destruct l as [|m l]; cbn [path] in *; cbn in Ef; [by rewrite G, decide_False, decide_True by done; subst f|].
    destruct Hp as (M0 & M1 & M2 & M3). subst f. apply not_elem_of_cons in Hnl as [Hnm Hnl].
    rewrite G, P, (decide_False (P := Next n = First p)), decide_True, decide_False, decide_True by done.
    split; [done|]. split; [done|]. split; [done|]. pose proof (r_nodup0 _ _ Hl) as Hnd. apply NoDup_cons in Hnd as [Hml _].
    apply (hash_path_frame h); [done| |].
    + rewrite G, !decide_False; [done|congruence|done].
    + intros k Hk. assert (k ≠ n ∧ k ≠ m) as [K1 K2] by (split; intros ->; done).
      rewrite G, P, !decide_False; try done; try congruence. by intros [_ ?].
  - apply NoDup_cons. split; [done|by eapply r_nodup0].
  - intros m [->|Hm]%elem_of_cons; [by right|by left].
  - intros s' Hs' Hns. rewrite G, !decide_False; try done. intros ->. by apply (Hns n); [|right].
  - intros m Hm. rewrite P, !decide_False; [done| |].
    + intros [Hf1 ->]. apply Hm. left. by apply Hfp.
    + intros ->. apply Hm. by right.
  - intros m [Hm Hne]%elem_of_difference. rewrite P, !decide_False; [by apply r_loose0| |set_solver].
    intros [Hf1 ->]. apply r_loose0 in Hm. destruct (Hfp Hf1) as [E1 _]. by rewrite Hm in E1.
Qed.

Lemma hash_step_unlink h A U p l1 n l2 :
  repr h H N A U → A !! p = Some (l1 ++ n :: l2) →
  ∃ h', __hlist_del h n = Some h' ∧ repr h' H N (<[p := l1 ++ l2]> A) U ∧ n ∈ N ∧ free (<[p := l1 ++ l2]> A) n.
Proof.
  intros R Hl. pose proof (r_path _ _ _ _ _ R _ _ Hl) as Hp. pose proof (r_nodup _ _ _ _ _ R _ _ Hl) as Hnd.
  apply hash_path_app in Hp as [Hk Hp]. cbn [path] in Hp. destruct Hp as (N0 & N1 & N2 & N3).
  destruct (hash_path_head _ _ _ N3) as (x & Hx & Ex & Hxp). set (pp := tail_slot (First p) l1) in *.
  apply NoDup_app in Hnd as (ND1 & ND12 & ND2). apply NoDup_cons in ND2 as [Hn2 ND2].
  assert (Hn1 : n ∉ l1) by (intros Hn; apply (ND12 n Hn); constructor).
  assert (HNin : n ∈ N) by (by eapply pprev_node).
  destruct (del_effect h n x pp n) as (h' & E & (D1 & D2 & D3) & G & P); [done|done|done| |].
  { intros Hne. destruct (Hxp Hne) as [? _]. by eexists. }
  assert (Hpp : pp = First p ∨ ∃ k, k ∈ l1 ∧ pp = Next k) by apply tail_in.
  exists h'. split; [done|]. destruct (R) as []. split; [|split; [done|]].
  - apply (hash_repr_set h h' A U _ p (l1 ++ n :: l2)); try done; try congruence.
    + apply hash_path_app. fold pp. split.
      * apply (links_frame h); try done.
        -- intros s' _ Hs'. by rewrite G, decide_False.
        -- intros m Hm. rewrite P, decide_False; [done|]. intros [Hx0 ->]. apply (ND12 x Hm). constructor. by apply Hxp.
      * apply (splice_path h h' n x pp l2); try done.
        intros k Hk2 Ek. destruct Hpp as [Ep|(j & Hj & Ej)]; [congruence|]. assert (j = k) as -> by congruence.
        apply (ND12 k Hj). by constructor.
    + apply NoDup_app. split; [done|]. split; [|done]. intros m H1 H2. apply (ND12 m H1). by constructor.
    + intros m Hm. left. rewrite elem_of_app, elem_of_cons in *. tauto.
    + intros s' Hs' Hns. rewrite G, decide_False; [done|]. intros ->.
      destruct Hpp as [?|(k & Hk1 & Ek)]; [done|]. apply (Hns k Ek). left. rewrite elem_of_app. by left.
    + intros m Hm. rewrite P, decide_False; [done|]. intros [Hx0 ->]. apply Hm. left.
      rewrite elem_of_app, elem_of_cons. right; right. by apply Hxp.
    + intros m Hm. rewrite P, decide_False; [by apply r_loose0|]. intros [Hx0 ->]. apply r_loose0 in Hm.
      destruct (Hxp Hx0) as [E1 _]. congruence.
  - intros q l [[<- <-]|[Hne Hq]]%lookup_insert_Some; [rewrite elem_of_app; tauto|].
    intros Hn. apply Hne. eapply r_apart0; [exact Hl|exact Hq| |exact Hn]. rewrite elem_of_app. right. constructor.
Qed.

Lemma hash_list_step_ok h A U o A' U' :
  repr h H N A U → spec H N A U o A' U' → ∃ h', exec h o = Some h' ∧ repr h' H N A' U'.
Proof.
  intros R Hs. destruct Hs as [p Hp|n Hn Hf|n p l Hl Hn Hf|n p l1 l2 Hl|n p l1 l2 Hl|n Hn]; cbn [exec].
  - by apply (hash_step_init_head h A U).
  - apply (hash_repr_loose h A U); try done. intros m [?|?]%elem_of_union; destruct (decide (m = n)); [by left|set_solver|by left|by right].
  - by apply (hash_step_add h A U).
  - destruct (hash_step_unlink _ _ _ _ _ _ _ R Hl) as (h1 & E1 & R1 & Hn & Hf). unfold hlist_del. rewrite E1. cbn [mbind option_bind].
    eapply hash_repr_loose; [exact R1|done|done|]. intros m Hm. right. split; [|done]. intros ->.
    destruct (member_node _ _ _ _ _ n R Hl) as (s & Es & Hne & _); [rewrite elem_of_app; right; constructor|].
    apply (r_loose _ _ _ _ _ R) in Hm. congruence.
  - destruct (hash_step_unlink _ _ _ _ _ _ _ R Hl) as (h1 & E1 & R1 & Hn & Hf).
    destruct (member_node _ _ _ _ _ n R Hl) as (s & Es & Hne & _); [rewrite elem_of_app; right; constructor|].
    unfold hlist_del_init, hlist_unhashed. rewrite Es. cbn [mbind option_bind].
    destruct s; try done; rewrite E1; cbn [mbind option_bind];
      (eapply hash_repr_loose; [exact R1|done|done|]; intros m [?|?]%elem_of_union; destruct (decide (m = n)); [by left|set_solver|by left|by right]).
  - exists h. unfold hlist_del_init, hlist_unhashed. by rewrite (r_loose _ _ _ _ _ R _ Hn).
Qed.

(** ** Traversals *)

Lemma walk_path {S} (run : S → Z → S) h : ∀ l s st fuel pos,
  path h s l → get h s = Some pos → (length l < fuel)%nat →
  walk (fun h st n => Some (h, run st n)) fuel h st pos = Some (h, foldl run st l).
Proof.
  induction l as [|n l IH]; intros s st fuel pos Hp Hs Hf; (destruct fuel as [|fuel]; [cbn in Hf; lia|]).
  - cbn [path] in Hp. rewrite Hs in Hp. by injection Hp as ->.
  - cbn [path] in Hp. destruct Hp as (N0 & N1 & _ & N3). rewrite Hs in N1. injection N1 as ->.
    destruct (hash_path_head _ _ _ N3) as (x & Hx & _). cbn [walk]. rewrite (proj2 (Z.eqb_neq _ _) N0).
    cbn [mbind option_bind]. rewrite Hx. cbn [mbind option_bind]. apply (IH (Next n)); [done|done|cbn in Hf; lia].
Qed.

(** A traversal that removes the nodes [drop] chooses. *)
Definition prune {S} (run : S → Z → S) (drop : Z → bool) (h : heap) (st : S) (n : Z) : option (heap * S) :=
  h ← (if drop n then hlist_del_init h n else Some h); Some (h, run st n).

Definition kept (drop : Z → bool) (l : list Z) : list Z := filter (fun n => drop n = false) l.

Lemma walk_safe_prune {S} (run : S → Z → S) drop p : ∀ r k h A U st fuel pos,
  repr h H N A U → A !! p = Some (k ++ r) → pos = default 0 (head r) → (length r < fuel)%nat →
  ∃ h', walk_safe (prune run drop) fuel h st pos = Some (h', foldl run st r) ∧
    repr h' H N (<[p := k ++ kept drop r]> A) (U ∪ list_to_set (filter (fun n => drop n = true) r)).
Proof.
  induction r as [|n r IH]; intros k h A U st fuel pos R Hl -> Hf; (destruct fuel as [|fuel]; [cbn in Hf; lia|]).
  - exists h. split; [done|]. cbn. rewrite insert_id by done. by rewrite union_empty_r_L.
  - pose proof (r_path _ _ _ _ _ R _ _ Hl) as Hp. apply hash_path_app in Hp as [_ Hp]. cbn [path] in Hp.
    destruct Hp as (N0 & _ & _ & N3). destruct (hash_path_head _ _ _ N3) as (x & Hx & Ex & _).
    cbn [walk_safe head default from_option id]. rewrite (proj2 (Z.eqb_neq _ _) N0), Hx. cbn [mbind option_bind].
    assert (Hb : prune run drop h st n = (h ← (if drop n then hlist_del_init h n else Some h); Some (h, run st n))) by done.
    rewrite Hb. clear Hb. unfold kept. rewrite !filter_cons. cbn in Hf. destruct (drop n) eqn:Hd.
    + destruct (hash_list_step_ok h A U (DelInit n) _ _ R (spec_del_init _ _ _ _ _ _ _ _ Hl)) as (h1 & E1 & R1).
      cbn [exec] in E1. rewrite E1. cbn [mbind option_bind].
      destruct (IH k h1 _ _ (run st n) fuel x R1) as (h' & E & R'); [apply lookup_insert_eq|done|lia|].
      exists h'. split; [exact E|]. rewrite insert_insert_eq in R'.
      rewrite decide_False, decide_True by done. rewrite list_to_set_cons.
      by rewrite (assoc_L (∪)), (comm_L (∪) U).
    + cbn [mbind option_bind]. destruct (IH (k ++ [n]) h A U (run st n) fuel x R) as (h' & E & R');
        [by rewrite <- app_assoc|done|lia|].
      exists h'. split; [exact E|]. rewrite decide_True, decide_False by done. by rewrite <- app_assoc in R'.
Qed.

Lemma hash_run_ok ops : ∀ h A U A' U',
  repr h H N A U → specs H N A U ops A' U' → ∃ h', exec_all h ops = Some h' ∧ repr h' H N A' U'.
Proof.
  intros h A U A' U' R Hs. revert h R. induction Hs as [|A U o A1 U1 ops A2 U2 H1 _ IH]; intros h R; [by exists h|].
  destruct (hash_list_step_ok _ _ _ _ _ _ R H1) as (h1 & E1 & R1). cbn. rewrite E1. by apply IH.
Qed.

End Steps.

(** The hash lists hold the lists they should.  Starting from a heap that holds
    the lists [A] and the loose nodes [U], any sequence of operations used as
    they may be runs without a fault and leaves a heap that holds what the same
    operations on lists leave; a head is empty exactly when its list is,
    a node is unhashed when it is loose and not while it is in a list, a
    traversal meets the nodes of the list in order, and one that removes
    nodes as it goes leaves exactly the others. *)
Theorem hash_list_refines {S} (run : S → Z → S) drop st fuel h H N A U ops A' U'
    (R : repr h H N A U) (Hs : specs H N A U ops A' U') :
  ∃ h', exec_all h ops = Some h' ∧ repr h' H N A' U' ∧
    (∀ n, n ∈ U' → hlist_unhashed h' n = Some true) ∧
    ∀ p l, A' !! p = Some l →
      hlist_empty h' p = Some (bool_decide (l = [])) ∧
      (∀ n, n ∈ l → hlist_unhashed h' n = Some false) ∧
      ((length l < fuel)%nat →
       hlist_for_each (fun h st n => Some (h, run st n)) fuel h' st p = Some (h', foldl run st l) ∧
       ∃ h'', hlist_for_each_safe (prune run drop) fuel h' st p = Some (h'', foldl run st l) ∧
         repr h'' H N (<[p := kept drop l]> A') (U' ∪ list_to_set (filter (fun n => drop n = true) l))).
Proof.
  destruct (hash_run_ok _ _ _ _ _ _ _ _ R Hs) as (h' & E & R'). exists h'. split; [done|]. split; [done|]. split.
  { intros n Hn. unfold hlist_unhashed. by rewrite (r_loose _ _ _ _ _ R' _ Hn). }
  intros p l Hl. pose proof (r_path _ _ _ _ _ R' _ _ Hl) as Hp. destruct (hash_path_head _ _ _ Hp) as (f & Hf & Ef & _).
  split; [|split].
  - unfold hlist_empty. rewrite Hf. cbn [mbind option_bind]. f_equal. subst f. destruct l as [|n l]; [done|].
    cbn [path] in Hp. rewrite bool_decide_false by done. apply Z.eqb_neq. apply Hp.
  - intros n Hn. destruct (member_node _ _ _ _ _ _ _ _ R' Hl Hn) as (s & Es & Hne & _).
    unfold hlist_unhashed. rewrite Es. by destruct s.
  - intros Hfu. unfold hlist_for_each, hlist_for_each_safe. rewrite Hf. cbn [mbind option_bind].
    split; [by apply (walk_path run h' l (First p))|]. by apply (walk_safe_prune H N run drop p l []).
Qed.

(** Two nodes go into a list and one of them is taken out again. *)
Definition example_heap : heap :=
  mk_heap {[10 := 7]} {[1 := 7; 2 := 7]} {[1 := Poison; 2 := Poison]}.

Lemma example_hash_repr : repr example_heap {[10]} {[1; 2]} ∅ ∅.
Proof. by constructor; vm_compute. Qed.

Lemma example_free n p l : n ∉ l → free (<[p := l]> ∅) n.
Proof. intros Hn q l' [[_ <-]|[_ Hq]]%lookup_insert_Some; done. Qed.

Lemma hash_list_refines_witness :
  ∃ h', exec_all example_heap [InitHead 10; InitNode 1; AddHead 1 10; AddHead 2 10; DelInit 1] = Some h' ∧
    hlist_for_each (fun h st n => Some (h, st ++ [n])) 5 h' [] 10 = Some (h', [2]).
Proof.
  destruct (hash_list_refines (fun st n => st ++ [n]) (fun _ => false) [] 5 example_heap {[10]} {[1; 2]} ∅ ∅
    [InitHead 10; InitNode 1; AddHead 1 10; AddHead 2 10; DelInit 1] {[10 := [2]]} {[1]} example_hash_repr)
    as (h' & E & _ & _ & Q).
  - eapply specs_cons; [by apply spec_init_head, elem_of_singleton_2|].
    eapply specs_cons; [apply spec_init_node; [set_solver|apply example_free, not_elem_of_nil]|].
    eapply specs_cons; [eapply spec_add; [apply lookup_insert_eq|set_solver|apply example_free, not_elem_of_nil]|].
    eapply specs_cons; [eapply spec_add; [apply lookup_insert_eq|set_solver|rewrite insert_insert_eq; apply example_free; by rewrite list_elem_of_singleton]|].
    eapply specs_cons; [apply (spec_del_init _ _ _ _ 1 10 [2] []); apply lookup_insert_eq|].
    rewrite !insert_insert_eq. assert (EU : {[1]} ∪ (({[1]} ∪ ∅) ∖ {[1]} ∖ {[2]}) = ({[1]} : gset Z)) by by vm_compute.
    rewrite EU. constructor.
  - exists h'. split; [done|]. destruct (Q 10 [2]) as (_ & _ & Q'); [done|]. apply Q'. cbn. lia.
Defined.

End HashList.
