(* ===== verification/ByteOrder.v ===== *)
(** * Byte order (include/modvm/util/byteorder.h)

    Fields of structures that the guest reads are declared little- or
    big-endian and converted when they are assigned and used.  The models of the
    devices write such a field with [put_le] and read it with [get_le]; here the
    conversions are related to these, for a host of either byte order. *)

From S2P Require Import Prelude.

Module ByteOrder.

(** [__BYTE_ORDER__] *)
Inductive order : Type := Little | Big.

(** The [n] bytes of a number, the lowest first, and back. *)
Fixpoint le_bytes (n : nat) (x : Z) : list Z :=
  match n with
  | O => []
  | S n => x mod 256 :: le_bytes n (x / 256)
  end.

Fixpoint of_bytes (l : list Z) : Z :=
  match l with
  | [] => 0
  | b :: l => b + 256 * of_bytes l
  end.

(** [__builtin_bswap16] and so on, for [n] bytes. *)
Definition swab (n : nat) (x : Z) : Z := of_bytes (reverse (le_bytes n x)).

(** The conversion of an operand to the unsigned type of [n] bytes. *)
Definition trunc (n : nat) (x : Z) : Z := x mod 256 ^ Z.of_nat n.

(** [cpu_to_le16] to [cpu_to_be64] by the width in bytes: the [__val] of the
    result. *)
Definition cpu_to_le (o : order) (n : nat) (x : Z) : Z :=
  match o with Little => trunc n x | Big => swab n (trunc n x) end.
Definition le_to_cpu (o : order) (n : nat) (v : Z) : Z :=
  match o with Little => trunc n v | Big => swab n (trunc n v) end.
Definition cpu_to_be (o : order) (n : nat) (x : Z) : Z :=
  match o with Little => swab n (trunc n x) | Big => trunc n x end.
Definition be_to_cpu (o : order) (n : nat) (v : Z) : Z :=
  match o with Little => swab n (trunc n v) | Big => trunc n v end.

Definition le_add_cpu (o : order) (n : nat) (var val : Z) : Z := cpu_to_le o n (le_to_cpu o n var + val).
Definition be_add_cpu (o : order) (n : nat) (var val : Z) : Z := cpu_to_be o n (be_to_cpu o n var + val).

(** The loops over arrays of 32-bit words. *)
Definition convert_array (convert : Z → Z) (dst src : list Z) (words : nat) : list Z :=
  foldl (fun dst i => <[i := convert (default 0 (src !! i))]> dst) dst (seq 0 words).
Definition le32_to_cpu_array (o : order) := convert_array (le_to_cpu o 4).
Definition cpu_to_le32_array (o : order) := convert_array (cpu_to_le o 4).
Definition be32_to_cpu_array (o : order) := convert_array (be_to_cpu o 4).
Definition cpu_to_be32_array (o : order) := convert_array (cpu_to_be o 4).

(** How a host keeps an unsigned number in memory. *)
Definition native (o : order) (n : nat) (x : Z) : list Z :=
  match o with Little => le_bytes n x | Big => reverse (le_bytes n x) end.
Definition load (o : order) (l : list Z) : Z :=
  of_bytes (match o with Little => l | Big => reverse l end).

(** Assigning and reading a field of [n] bytes of a structure. *)
Definition write_field (o : order) (l : list Z) (off n : nat) (v : Z) : list Z :=
  take off l ++ native o n v ++ drop (off + n) l.
Definition read_field (o : order) (l : list Z) (off n : nat) : Z := load o (take n (drop off l)).

(** ** Numbers and bytes *)

Lemma length_le_bytes n x : length (le_bytes n x) = n.
Proof. revert x. induction n as [|n IH]; intros x; cbn; [done|]. by rewrite IH. Qed.

Lemma le_bytes_u8 n x : Forall is_u8 (le_bytes n x).
Proof.
  revert x. induction n as [|n IH]; intros x; cbn; constructor; [|done]. apply Z.mod_pos_bound. lia.
Qed.

Lemma pow256_S n : 256 ^ Z.of_nat (S n) = 256 * 256 ^ Z.of_nat n.
Proof. rewrite Nat2Z.inj_succ. apply Z.pow_succ_r. lia. Qed.

Lemma pow256_pos n : 0 < 256 ^ Z.of_nat n.
Proof. apply Z.pow_pos_nonneg; lia. Qed.

Lemma of_le_bytes n x : of_bytes (le_bytes n x) = trunc n x.
Proof.
  unfold trunc. revert x. induction n as [|n IH]; intros x; cbn [le_bytes of_bytes]; [by rewrite Z.mod_1_r|].
  rewrite IH, pow256_S. pose proof (pow256_pos n). rewrite Z.rem_mul_r by lia. done.
Qed.

Lemma le_bytes_of l : Forall is_u8 l → le_bytes (length l) (of_bytes l) = l.
Proof.
  induction 1 as [|b l Hb Hl IH]; [done|]. cbn [length le_bytes of_bytes]. unfold is_u8 in Hb.
  rewrite Z.mul_comm, Z_mod_plus_full, Z.div_add, (Z.mod_small b), (Z.div_small b), Z.add_0_l by lia. by rewrite IH.
Qed.

Lemma le_bytes_trunc n x : le_bytes n (trunc n x) = le_bytes n x.
Proof.
  rewrite <- of_le_bytes. pose proof (le_bytes_of (le_bytes n x) (le_bytes_u8 n x)) as E. by rewrite length_le_bytes in E.
Qed.

Lemma trunc_trunc n x : trunc n (trunc n x) = trunc n x.
Proof. unfold trunc. apply Z.mod_mod. pose proof (pow256_pos n). lia. Qed.

Lemma bytes_swab n x : le_bytes n (swab n x) = reverse (le_bytes n x).
Proof.
  unfold swab. pose proof (le_bytes_of (reverse (le_bytes n x)) ltac:(apply Forall_reverse, le_bytes_u8)) as E.
  by rewrite length_reverse, length_le_bytes in E.
Qed.

Lemma trunc_swab n x : trunc n (swab n x) = swab n x.
Proof. rewrite <- of_le_bytes, bytes_swab. done. Qed.

Lemma swab_swab n x : swab n (swab n x) = trunc n x.
Proof. unfold swab at 1. by rewrite bytes_swab, reverse_involutive, of_le_bytes. Qed.

(** ** What the conversions do *)

Lemma native_le o n x : native o n (cpu_to_le o n x) = le_bytes n x.
Proof. destruct o; cbn; [by rewrite le_bytes_trunc|]. by rewrite bytes_swab, reverse_involutive, le_bytes_trunc. Qed.

Lemma native_be o n x : native o n (cpu_to_be o n x) = reverse (le_bytes n x).
Proof. destruct o; cbn; [by rewrite bytes_swab, le_bytes_trunc|by rewrite le_bytes_trunc]. Qed.

Lemma le_roundtrip o n x : le_to_cpu o n (cpu_to_le o n x) = trunc n x.
Proof. destruct o; cbn; [apply trunc_trunc|]. by rewrite trunc_swab, swab_swab, trunc_trunc. Qed.

Lemma be_roundtrip o n x : be_to_cpu o n (cpu_to_be o n x) = trunc n x.
Proof. destruct o; cbn; [|apply trunc_trunc]. by rewrite trunc_swab, swab_swab, trunc_trunc. Qed.

(** ** Fields *)

Lemma le_bytes_snoc n x : le_bytes (S n) x = le_bytes n x ++ [u8 (Z.shiftr x (8 * Z.of_nat n))].
Proof.
  revert x. induction n as [|n IH]; intros x; [done|].
  change (le_bytes (S (S n)) x) with (x mod 256 :: le_bytes (S n) (x / 256)). rewrite IH.
  cbn [le_bytes app]. do 3 f_equal. f_equal. rewrite !Z.shiftr_div_pow2 by lia.
  replace (8 * Z.of_nat (S n)) with (8 + 8 * Z.of_nat n) by lia. rewrite Z.pow_add_r, Z.div_div by lia. done.
Qed.

(** Writing one more byte of a run. *)
Lemma insert_next (l m : list Z) off k b :
  length m = k → (off + S k ≤ length l)%nat →
  <[(off + k)%nat := b]> (take off l ++ m ++ drop (off + k) l) = take off l ++ (m ++ [b]) ++ drop (off + S k) l.
Proof.
  intros <- Hl. rewrite insert_app_r_alt by (rewrite length_take; lia).
  rewrite insert_app_r_alt by (rewrite length_take; lia). rewrite <- app_assoc. do 2 f_equal.
  replace (off + length m - length (take off l) - length m)%nat with 0%nat by (rewrite length_take; lia).
  destruct (lookup_lt_is_Some_2 l (off + length m)) as [x Hx]; [lia|].
  rewrite (drop_S _ _ _ Hx), Nat.add_succ_r. done.
Qed.

(** [put_le] and [get_le] by the bytes. *)
Lemma put_le_at l off n v :
  (off + n ≤ length l)%nat → put_le l (Z.of_nat off) (Z.of_nat n) v = take off l ++ le_bytes n v ++ drop (off + n) l.
Proof.
  induction n as [|n IH]; intros Hl.
  - cbn [le_bytes app]. rewrite Nat.add_0_r, take_drop. done.
  - rewrite put_le_S, IH, le_bytes_snoc by lia. unfold aset.
    rewrite <- Nat2Z.inj_add, Nat2Z.id. apply insert_next; [apply length_le_bytes|done].
Qed.

Lemma get_le_at l off n :
  Forall is_u8 l → (off + n ≤ length l)%nat → get_le l (Z.of_nat off) (Z.of_nat n) = of_bytes (take n (drop off l)).
Proof.
  intros Hu Hl. set (x := of_bytes (take n (drop off l))).
  assert (Hx : le_bytes n x = take n (drop off l)).
  { subst x. rewrite <- (le_bytes_of (take n (drop off l))) at 2 by (by apply Forall_take, Forall_drop).
    rewrite length_take, length_drop. f_equal. lia. }
  assert (E : put_le l (Z.of_nat off) (Z.of_nat n) x = l).
  { rewrite put_le_at, Hx by done. rewrite <- drop_drop, take_drop, take_drop. done. }
  rewrite <- E at 1. rewrite get_le_put by lia. rewrite Z.pow_mul_r by lia. change (2 ^ 8) with 256.
  change (x mod _) with (trunc n x). rewrite <- of_le_bytes, Hx. done.
Qed.

Lemma load_le o l : Forall is_u8 l → le_to_cpu o (length l) (load o l) = of_bytes l.
Proof.
  intros Hl. assert (E : trunc (length l) (of_bytes l) = of_bytes l) by (by rewrite <- of_le_bytes, le_bytes_of).
  destruct o; cbn; [done|]. set (r := reverse l).
  assert (Hr : le_bytes (length l) (of_bytes r) = r).
  { subst r. rewrite <- (length_reverse l). by apply le_bytes_of, Forall_reverse. }
  unfold swab. rewrite le_bytes_trunc, Hr. subst r. by rewrite reverse_involutive.
Qed.

(** A little-endian field means the same on every host.  Whatever the byte
    order of the machine the monitor is built for, assigning [cpu_to_leN(v)] to
    a field leaves the bytes that [put_le] leaves, reading a field through
    [leN_to_cpu] gives what [get_le] gives, a big-endian field holds the same
    bytes backwards, and adding to a field in place adds to its value modulo
    its width.  The models of the queues, of the virtio devices and of the
    MP table, which read and write fields with [get_le] and [put_le], hence
    describe the structures the guest sees on either kind of host. *)
Theorem byteorder_portable o l off n v
    (Hu : Forall is_u8 l) (Hl : (off + n ≤ length l)%nat) :
  write_field o l off n (cpu_to_le o n v) = put_le l (Z.of_nat off) (Z.of_nat n) v ∧
  le_to_cpu o n (read_field o l off n) = get_le l (Z.of_nat off) (Z.of_nat n) ∧
  write_field o l off n (cpu_to_be o n v) = take off l ++ reverse (le_bytes n v) ++ drop (off + n) l ∧
  (let var := read_field o l off n in
   write_field o l off n (le_add_cpu o n var v) =
   put_le l (Z.of_nat off) (Z.of_nat n) (get_le l (Z.of_nat off) (Z.of_nat n) + v)).
Proof.
  assert (R : le_to_cpu o n (read_field o l off n) = get_le l (Z.of_nat off) (Z.of_nat n)).
  { rewrite get_le_at by done. unfold read_field.
    rewrite <- (load_le o) by (by apply Forall_take, Forall_drop). rewrite length_take, length_drop. f_equal. lia. }
  unfold write_field, le_add_cpu. rewrite !native_le, native_be, !put_le_at by done. rewrite R. done.
Qed.

(** [bytes_u8] shows that the members of a literal list are bytes. *)
Local Ltac bytes_u8 := unfold is_u8; repeat (constructor; [lia|]); constructor.

Lemma byteorder_portable_witness :
  write_field Big [1; 2; 3; 4; 5; 6] 1 4 (le_add_cpu Big 4 (read_field Big [1; 2; 3; 4; 5; 6] 1 4) 255) = [1; 1; 4; 4; 5; 6] ∧
  write_field Big [0; 0; 0] 1 2 (cpu_to_le Big 2 0x1234) = put_le [0; 0; 0] 1 2 0x1234.
Proof.
  split.
  - rewrite (proj2 (proj2 (proj2 (byteorder_portable Big [1; 2; 3; 4; 5; 6] 1 4 255
      ltac:(bytes_u8) ltac:(cbn; lia))))). reflexivity.
  - exact (proj1 (byteorder_portable Big [0; 0; 0] 1 2 0x1234 ltac:(bytes_u8) ltac:(cbn; lia))).
Defined.

(** The array forms convert the first [words] elements and no others. *)
Theorem convert_array_spec convert dst src words
    (Hd : (words ≤ length dst)%nat) (Hs : (words ≤ length src)%nat) :
  convert_array convert dst src words = (convert <$> take words src) ++ drop words dst.
Proof.
  unfold convert_array. induction words as [|w IH]; [done|].
  rewrite seq_S, foldl_app, IH by lia. cbn [foldl]. rewrite Nat.add_0_l.
  destruct (lookup_lt_is_Some_2 src w) as [x Hx]; [lia|].
  rewrite (take_S_r _ _ _ Hx), fmap_app, Hx. cbn [default].
  pose proof (insert_next dst (convert <$> take w src) 0 w (convert x)) as E.
  cbn [take Nat.add app] in E. apply E; [rewrite length_fmap, length_take; lia|lia].
Qed.

End ByteOrder.
