(* ===== verification/Ring.v ===== *)
(** * Ring buffers

    The UART keeps three byte rings, each as an array with a head (write)
    index, a tail (read) index and a count.  This file gives the abstract
    queue a ring stands for and shows that the index arithmetic of the code
    implements the queue operations. *)

From S2P Require Import Prelude.

(** A well-formed ring: indices in range, head [cnt] places after tail. *)
Record ring_ok (cap : Z) (buf : list Z) (head tail cnt : Z) : Prop := {
  ring_length : Z.of_nat (length buf) = cap;
  ring_head : 0 ≤ head < cap;
  ring_tail : 0 ≤ tail < cap;
  ring_cnt : 0 ≤ cnt ≤ cap;
  ring_sync : head = (tail + cnt) mod cap;
}.

(** The queue a ring stands for, oldest byte first. *)
Definition ring_list (cap : Z) (buf : list Z) (tail cnt : Z) : list Z :=
  (fun i => aget buf ((tail + i) mod cap)) <$> seqZ 0 cnt.

Lemma ring_list_length cap buf tail cnt :
  length (ring_list cap buf tail cnt) = Z.to_nat cnt.
Proof. unfold ring_list. rewrite length_fmap, length_seqZ. done. Qed.

Lemma ring_list_empty cap buf tail : ring_list cap buf tail 0 = [].
Proof. done. Qed.

(** Two offsets below the capacity fall on the same slot only if equal. *)
Lemma ring_slot_inj cap t i j :
  0 ≤ i < cap → 0 ≤ j < cap → (t + i) mod cap = (t + j) mod cap → i = j.
Proof.
  intros Hi Hj E. assert (Hd : (i - j) mod cap = 0).
  { replace (i - j) with ((t + i) - (t + j)) by lia.
    rewrite Zminus_mod, E, Z.sub_diag. apply Z.mod_0_l. lia. }
  apply Z.mod_divide in Hd as [k Hk]; [|lia].
  assert (k = 0 ∨ 1 ≤ k ∨ k ≤ -1) as [->|[?|?]] by lia; nia.
Qed.

(** Writing at the head and advancing it enqueues at the back. *)
Lemma ring_push cap buf head tail cnt b :
  ring_ok cap buf head tail cnt → cnt < cap →
  ring_ok cap (aset buf head b) ((head + 1) mod cap) tail (cnt + 1) ∧
  ring_list cap (aset buf head b) tail (cnt + 1) = ring_list cap buf tail cnt ++ [b].
Proof.
  intros [Hl Hh Ht Hc Hs] Hlt. split.
  - split; rewrite ?length_aset; [done| |done|lia|].
    + apply Z.mod_pos_bound. lia.
    + rewrite Hs, Zplus_mod_idemp_l. f_equal. lia.
  - unfold ring_list. rewrite seqZ_app by lia. rewrite fmap_app. f_equal.
    + apply list_fmap_ext. intros k x Hx. apply lookup_seqZ in Hx as [-> Hk].
      rewrite aget_aset_ne; [done|lia|apply Z.mod_pos_bound; lia|].
      rewrite Hs. intros E. apply ring_slot_inj in E; lia.
    + replace (seqZ (0 + cnt) 1) with [cnt] by (rewrite Z.add_0_l; done).
      simpl. rewrite <- Hs, aget_aset_eq by lia. done.
Qed.

(** Advancing the tail dequeues from the front. *)
Lemma ring_pop cap buf head tail cnt :
  ring_ok cap buf head tail cnt → 0 < cnt →
  ring_ok cap buf head ((tail + 1) mod cap) (cnt - 1) ∧
  ring_list cap buf tail cnt =
    aget buf tail :: ring_list cap buf ((tail + 1) mod cap) (cnt - 1).
Proof.
  intros [Hl Hh Ht Hc Hs] Hlt. split.
  - split; [done|done|apply Z.mod_pos_bound; lia|lia|].
    rewrite Hs, Zplus_mod_idemp_l. f_equal. lia.
  - unfold ring_list. rewrite seqZ_cons by lia. simpl. f_equal.
    + rewrite Z.add_0_r, Z.mod_small by lia. done.
    + replace (Z.pred cnt) with (cnt - 1) by lia.
      change (Z.succ 0) with 1.
      rewrite <- (fmap_add_seqZ 1 0), <- list_fmap_compose.
      apply list_fmap_ext. intros k x _. unfold compose.
      rewrite Zplus_mod_idemp_l. f_equal. f_equal. lia.
Qed.

(** A ring reset to empty. *)
Lemma ring_reset cap buf :
  Z.of_nat (length buf) = cap → 0 < cap → ring_ok cap buf 0 0 0.
Proof. intros. split; [done|lia..|]. rewrite Z.mod_0_l; lia. Qed.
