(* ===== verification/ResPool.v ===== *)
(** * Resource pools (src/util/res_pool.c)

    A pool records allocations and cleanup obligations in the order they were
    made and discharges them in the reverse order.  Devices, backends and the
    machine itself own one each. *)

From S2P Require Import Prelude.

Module ResPool.

Section ResPool.
(** [Fn] is the type of cleanup functions; two of them are equal when the
    function pointers are. *)
Context {Fn : Type} `{EqDecision Fn}.

(** ** State

    A node is either storage handed out by [res_zalloc] (no action) or a
    cleanup obligation.  [node_addr] is its address, [node_pool] the identity
    of the pool it says it belongs to (zero for NULL). *)
Record res_node : Type := mk_node {
  node_addr : Z;
  node_pool : Z;
  action : option Fn;
  action_data : Z;
}.

Record res_pool : Type := mk_pool {
  pool_id : Z;
  resources : list res_node;
  releasing : bool;
}.

Definition eta_pool (p : res_pool) : res_pool := mk_pool (pool_id p) (resources p) (releasing p).
#[export] Instance set_resources : Setter resources := ltac:(derive_setter eta_pool).
#[export] Instance set_releasing : Setter releasing := ltac:(derive_setter eta_pool).

Definition sizeof_res_node : Z := 48.

(** [node->data], the storage behind a node. *)
Definition node_data (addr : Z) : Z := addr + sizeof_res_node.

(** The condition [node->action == fn && node->action_data == data]. *)
Definition node_is (fn : Fn) (data : Z) (n : res_node) : bool :=
  bool_decide (action n = Some fn) && (action_data n =? data).

(** ** Operations

    A pool argument is [None] for a NULL pointer.  [calloc] is the address the
    allocator returns to the call, [None] for NULL. *)

Definition res_pool_init (id : Z) : res_pool := mk_pool id [] false.

Definition res_zalloc (pool : option res_pool) (size : Z) (calloc : option Z) :
    option res_pool * option Z :=
  match pool with
  | None => (None, None)
  | Some p =>
      if releasing p || (size =? 0) || (SIZE_MAX - sizeof_res_node <? size) then (Some p, None)
      else
        match calloc with
        | None => (Some p, None)
        | Some addr =>
            (Some (p <| resources := resources p ++ [mk_node addr (pool_id p) None 0] |>),
             Some (node_data addr))
        end
  end.

Definition res_add_action (pool : option res_pool) (fn : option Fn) (data : Z)
    (calloc : option Z) : option res_pool * Z :=
  match pool, fn with
  | Some p, Some f =>
      if releasing p then (pool, - VM_ESHUTDOWN)
      else if existsb (node_is f data) (resources p) then (pool, - VM_EEXIST)
      else
        match calloc with
        | None => (pool, - VM_ENOMEM)
        | Some addr =>
            (Some (p <| resources := resources p ++ [mk_node addr (pool_id p) (Some f) data] |>), 0)
        end
  | _, _ => (pool, - VM_EINVAL)
  end.

(** The third component is the immediate call [fn(data)], if there is one. *)
Definition res_add_action_or_reset (pool : option res_pool) (fn : option Fn) (data : Z)
    (calloc : option Z) : option res_pool * Z * option (Fn * Z) :=
  let '(pool, ret) := res_add_action pool fn data calloc in
  let reset :=
    match fn with
    | Some f => if (ret <? 0) && negb (ret =? - VM_EEXIST) then Some (f, data) else None
    | None => None
    end in
  (pool, ret, reset).

(** The first matching node of a list, with what surrounds it. *)
Fixpoint split_node (fn : Fn) (data : Z) (l : list res_node) :
    option (list res_node * res_node * list res_node) :=
  match l with
  | [] => None
  | n :: l =>
      if node_is fn data n then Some ([], n, l)
      else
        match split_node fn data l with
        | Some (l1, m, l2) => Some (n :: l1, m, l2)
        | None => None
        end
  end.

(** [from] and [to] are the pools before the call; when the two pointers are
    equal the caller passes the same pool twice. *)
Definition res_transfer_action (from to : option res_pool) (fn : option Fn) (data : Z) :
    option res_pool * option res_pool * Z :=
  match from, to, fn with
  | Some pf, Some pt, Some f =>
      if releasing pf || releasing pt then (from, to, - VM_ESHUTDOWN)
      else
        match split_node f data (resources pf) with
        | None => (from, to, - VM_ENOENT)
        | Some (l1, found, l2) =>
            if negb (node_pool found =? pool_id pf) then (from, to, - VM_EINVAL)
            else if pool_id pf =? pool_id pt then (from, to, 0)
            else if existsb (node_is f data) (resources pt) then (from, to, - VM_EEXIST)
            else
              (Some (pf <| resources := l1 ++ l2 |>),
               Some (pt <| resources := resources pt ++
                             [mk_node (node_addr found) (pool_id pt) (action found)
                                (action_data found)] |>),
               0)
        end
  | _, _, _ => (from, to, - VM_EINVAL)
  end.

Definition res_cancel_action (pool : option res_pool) (fn : option Fn) (data : Z) :
    option res_pool * Z :=
  match pool, fn with
  | Some p, Some f =>
      match split_node f data (resources p) with
      | None => (pool, - VM_ENOENT)
      | Some (l1, node, l2) =>
          if negb (node_pool node =? pool_id p) then (pool, - VM_EINVAL)
          else (Some (p <| resources := l1 ++ l2 |>), 0)
      end
  | _, _ => (pool, - VM_EINVAL)
  end.

(** [res_release_all] calls the cleanup functions, which may change the rest
    of the program and the pool itself (an action may cancel another one).
    [call f data (pool, w)] is the effect of [f(data)]; [log] collects the
    calls made.  [Bug] is the failed [BUG_ON]. *)
Inductive release_result (W : Type) : Type :=
| Released (pool : res_pool) (w : W) (log : list (Fn * Z))
| Bug.
Arguments Released {W} pool w log.
Arguments Bug {W}.

Definition release_body {W : Type} (call : Fn → Z → res_pool * W → res_pool * W)
    (st : res_pool * W * list (Fn * Z)) :
    (res_pool * W * list (Fn * Z)) + release_result W :=
  let '(p, w, log) := st in
  match last (resources p) with
  | None => inr (Released p w log)
  | Some node =>
      if negb (node_pool node =? pool_id p) then inr Bug
      else
        let p := p <| resources := removelast (resources p) |> in
        match action node with
        | Some f => inl (call f (action_data node) (p, w), log ++ [(f, action_data node)])
        | None => inl (p, w, log)
        end
  end.

Definition res_release_all {W : Type} (call : Fn → Z → res_pool * W → res_pool * W)
    (pool : option res_pool) (w : W) : option (release_result W) :=
  match pool with
  | None => None
  | Some p =>
      if releasing p then Some (Released p w [])
      else
        match loop (release_body call) (p <| releasing := true |>, w, []) with
        | inr (Released p w log) => Some (Released (p <| releasing := false |>) w log)
        | inr Bug => Some Bug
        | inl _ => None
        end
  end.

(** ** Invariant *)

(** The obligations of a pool, oldest first. *)
Definition obligation (n : res_node) : option (Fn * Z) :=
  (fun f => (f, action_data n)) <$> action n.
Definition obligations (p : res_pool) : list (Fn * Z) := omap obligation (resources p).

Record pool_inv (p : res_pool) : Prop := {
  pool_nodup : NoDup (obligations p);
  pool_owned : Forall (fun n => node_pool n = pool_id p) (resources p);
}.

(** A callback that keeps to the contract of the header: it does not add
    resources to the pool being released, though it may remove some. *)
Definition only_removes {W : Type} (call : Fn → Z → res_pool * W → res_pool * W) : Prop :=
  ∀ f data p w, let p' := (call f data (p, w)).1 in
    pool_id p' = pool_id p ∧ sublist (resources p') (resources p).

(** ** Lemmas *)

Lemma node_is_spec fn data n : node_is fn data n = true ↔ obligation n = Some (fn, data).
Proof.
  unfold node_is, obligation. rewrite andb_true_iff, bool_decide_eq_true, Z.eqb_eq.
  destruct (action n); simpl; split; try (intros [? ?]; congruence); intros [=]; by subst.
Qed.

Lemma existsb_obligations fn data p :
  existsb (node_is fn data) (resources p) = false → (fn, data) ∉ obligations p.
Proof.
  intros E. unfold obligations. rewrite list_elem_of_omap. intros (n & Hn & Ho).
  apply node_is_spec in Ho. apply not_true_iff_false in E. apply E, existsb_exists.
  exists n. split; [|done]. by apply list_elem_of_In.
Qed.

Lemma split_node_spec fn data l :
  match split_node fn data l with
  | Some (l1, n, l2) => l = l1 ++ n :: l2 ∧ obligation n = Some (fn, data)
  | None => (fn, data) ∉ omap obligation l
  end.
Proof.
  induction l as [|n l IH]; simpl; [apply not_elem_of_nil|].
  destruct (node_is fn data n) eqn:E; [by rewrite <- node_is_spec|].
  destruct (split_node fn data l) as [[[l1 m] l2]|].
  - by destruct IH as [-> ?].
  - destruct (obligation n) as [[f d]|] eqn:O; [|done].
    rewrite elem_of_cons. intros [[= -> ->]|?]; [|done].
    apply node_is_spec in O. congruence.
Qed.

Lemma split_last {A} (l : list A) x : last l = Some x → l = removelast l ++ [x].
Proof. intros [l' ->]%last_Some. by rewrite removelast_last. Qed.

Lemma obligations_snoc p l n :
  obligations (p <| resources := l ++ [n] |>) =
  omap obligation l ++ match obligation n with Some o => [o] | None => [] end.
Proof. unfold obligations. simpl. rewrite omap_app. simpl. by destruct (obligation n). Qed.

Lemma sublist_omap {A B} (f : A → option B) l k : sublist l k → sublist (omap f l) (omap f k).
Proof.
  induction 1; simpl; [constructor|destruct (f x); [by constructor|done]|].
  destruct (f x); [by constructor|done].
Qed.

Lemma release_body_step {W} (call : Fn → Z → res_pool * W → res_pool * W) p w log l n :
  resources p = l ++ [n] → node_pool n = pool_id p →
  release_body call (p, w, log) =
  match obligation n with
  | Some (f, d) => inl (call f d (p <| resources := l |>, w), log ++ [(f, d)])
  | None => inl (p <| resources := l |>, w, log)
  end.
Proof.
  intros E O. unfold release_body, obligation. rewrite E, last_snoc, O, Z.eqb_refl, removelast_last.
  simpl. by destruct (action n).
Qed.

(** The state of a release between two rounds, for well-behaved callbacks. *)
Definition releasing_inv {W : Type} (p0 : res_pool) (st : res_pool * W * list (Fn * Z)) : Prop :=
  let '(p, w, log) := st in
  pool_inv p ∧ pool_id p = pool_id p0 ∧ NoDup log ∧
  (∀ o, o ∈ log → o ∈ obligations p0 ∧ o ∉ obligations p) ∧
  sublist (resources p) (resources p0).

Lemma releasing_inv_step {W} (call : Fn → Z → res_pool * W → res_pool * W) p0 st :
  only_removes call → releasing_inv p0 st →
  match release_body call st with
  | inl st' => releasing_inv p0 st' ∧
      0 ≤ Z.of_nat (length (resources st'.1.1)) < Z.of_nat (length (resources st.1.1))
  | inr r => ∃ p w log, r = Released p w log ∧ resources p = [] ∧ releasing_inv p0 (p, w, log)
  end.
Proof.
  intros Hc. destruct st as [[p w] log]. intros ([Nd Ow] & Id & Nl & Sub & Sl).
  destruct (last (resources p)) as [n|] eqn:L.
  2: { unfold release_body. rewrite L. apply last_None in L. by exists p, w, log. }
  apply split_last in L. set (l := removelast (resources p)) in L. clearbody l.
  pose proof Ow as Ow'. rewrite L, Forall_app, Forall_singleton in Ow'. destruct Ow' as [Ol On].
  rewrite (release_body_step call p w log l n L On).
  unfold obligations in Nd. rewrite L, omap_app in Nd. apply NoDup_app in Nd as (N1 & N2 & N3).
  assert (Sp : sublist l (resources p0)).
  { etrans; [|exact Sl]. rewrite L. by apply sublist_inserts_r. }
  assert (Hlog : ∀ o, o ∈ log → o ∈ obligations p0 ∧ o ∉ omap obligation l).
  { intros o Ho. destruct (Sub o Ho) as [Ha Hb]. split; [done|]. contradict Hb.
    unfold obligations. rewrite L, omap_app. apply elem_of_app. by left. }
  destruct (obligation n) as [[f d]|] eqn:O.
  - specialize (Hc f d (p <| resources := l |>) w). cbv zeta in Hc.
    destruct (call f d (p <| resources := l |>, w)) as [p' w']. simpl in Hc.
    destruct Hc as [Id' S']. pose proof (sublist_length _ _ S').
    assert (Hfd : (f, d) ∉ omap obligation l).
    { intros Hin. apply (N2 _ Hin). simpl. rewrite O. by left. }
    assert (So : ∀ o, o ∈ obligations p' → o ∈ omap obligation l).
    { intros o Ho. by eapply elem_of_sublist, sublist_omap. }
    simpl. rewrite L, length_app. simpl. split; [|lia]. split_and!.
    + split; [apply (sublist_NoDup _ _ N1); by apply sublist_omap|].
      rewrite Id'. by eapply sublist_Forall.
    + congruence.
    + apply NoDup_app. split_and!; [done| |apply NoDup_singleton].
      intros o Ho ->%list_elem_of_singleton. destruct (Sub _ Ho) as [_ Hb]. apply Hb.
      unfold obligations. rewrite L, omap_app. apply elem_of_app. right. simpl. rewrite O. by left.
    + intros o. rewrite elem_of_app, list_elem_of_singleton. intros [Ho| ->].
      * destruct (Hlog o Ho). auto.
      * split; [|auto]. eapply elem_of_sublist; [|apply sublist_omap, Sl].
        rewrite L, omap_app. apply elem_of_app. right. simpl. rewrite O. by left.
    + by etrans.
  - simpl. rewrite L, length_app. simpl. split; [|lia]. by split_and!.
Qed.

(** Releasing a pool terminates and leaves it empty, whatever the cleanup
    functions do to the rest of the program and whichever obligations they
    cancel, provided they add none: no cleanup function is called twice with
    the same argument, every call made was an obligation of the pool, and the
    ownership check never fails. *)
Theorem res_release_all_total {W} (call : Fn → Z → res_pool * W → res_pool * W) p w :
  pool_inv p → releasing p = false → only_removes call →
  Z.of_nat (length (resources p)) ≤ 2 ^ 64 →
  ∃ p' w' log, res_release_all call (Some p) w = Some (Released p' w' log) ∧
    resources p' = [] ∧ releasing p' = false ∧ NoDup log ∧ (∀ o, o ∈ log → o ∈ obligations p).
Proof.
  intros [Nd Ow] R Hc Hn. unfold res_release_all. rewrite R.
  destruct (loop_total (release_body call) (releasing_inv p)
    (fun st => Z.of_nat (length (resources st.1.1)))
    (fun r => ∃ p' w' log, r = Released p' w' log ∧ resources p' = [] ∧
                releasing_inv p (p', w', log))
    (p <| releasing := true |>, w, [])) as (r & -> & p' & w' & log & -> & E & (_ & _ & Nl & Sub & _)).
  - intros st. by apply releasing_inv_step.
  - split_and!; try done; [constructor|]. intros o Ho. by apply not_elem_of_nil in Ho.
  - done.
  - eexists _, _, _. split; [done|]. split_and!; try done. intros o Ho. by apply Sub.
Qed.

(** What a release does when the cleanup functions leave the pool alone. *)
Lemma release_order {W} (effect : Fn → Z → W → W) p w :
  pool_inv p → releasing p = false → Z.of_nat (length (resources p)) ≤ 2 ^ 64 →
  res_release_all (fun f d '(p, w) => (p, effect f d w)) (Some p) w =
  Some (Released (p <| resources := [] |>)
          (foldl (fun w '(f, d) => effect f d w) w (reverse (obligations p)))
          (reverse (obligations p))).
Proof.
  intros [_ Ow] R Hn. unfold res_release_all. rewrite R. set (call := fun f d _ => _).
  destruct (loop_total (release_body call)
    (fun '(p', w', log) =>
       releasing p' = true ∧ pool_id p' = pool_id p ∧
       Forall (fun n => node_pool n = pool_id p') (resources p') ∧
       log ++ reverse (obligations p') = reverse (obligations p) ∧
       w' = foldl (fun w '(f, d) => effect f d w) w log)
    (fun st => Z.of_nat (length (resources st.1.1)))
    (fun r => r = Released (mk_pool (pool_id p) [] true)
          (foldl (fun w '(f, d) => effect f d w) w (reverse (obligations p)))
          (reverse (obligations p)))
    (p <| releasing := true |>, w, [])) as (r & -> & ->); [|done|done|].
  - intros [[p' w'] log] (R' & I' & O' & E & ->).
    destruct (last (resources p')) as [n|] eqn:L.
    + apply split_last in L. set (l := removelast _) in L. clearbody l. pose proof O' as O1.
      rewrite L, Forall_app, Forall_singleton in O1. destruct O1 as [Ol On].
      rewrite (release_body_step call p' _ log l n L On).
      unfold obligations in E at 1. rewrite L, omap_app, reverse_app in E. simpl in E.
      destruct (obligation n) as [[f d]|]; simpl; rewrite L, length_app; simpl; (split; [|lia]);
        split_and!; try done.
      * by rewrite <- app_assoc.
      * by rewrite foldl_app.
    + unfold release_body. rewrite L. apply last_None in L. destruct p'. simpl in *. subst.
      by rewrite <- E, app_nil_r.
  - unfold update. simpl. destruct p; simpl in *. by subst.
Qed.

(** When the cleanup functions leave the pool alone, releasing it runs
    every obligation exactly once, in the reverse of the order in which they
    were registered, threading their effects in that order. *)
Theorem res_release_all_order {W} (effect : Fn → Z → W → W) p w :
  pool_inv p → releasing p = false → Z.of_nat (length (resources p)) ≤ 2 ^ 64 →
  res_release_all (fun f d '(p, w) => (p, effect f d w)) (Some p) w =
  Some (Released (p <| resources := [] |>)
          (foldl (fun w '(f, d) => effect f d w) w (reverse (obligations p)))
          (reverse (obligations p))).
Proof. apply release_order. Qed.

Lemma pool_inv_snoc p n :
  pool_inv p → node_pool n = pool_id p →
  (∀ o, obligation n = Some o → o ∉ obligations p) →
  pool_inv (p <| resources := resources p ++ [n] |>).
Proof.
  intros [Nd Ow] On Ho. split.
  - rewrite obligations_snoc. destruct (obligation n) as [o|]; [|by rewrite app_nil_r].
    apply NoDup_app. split_and!; [done| |apply NoDup_singleton].
    intros x Hx ->%list_elem_of_singleton. by apply (Ho o).
  - simpl. apply Forall_app. by rewrite Forall_singleton.
Qed.

(** [res_add_action] keeps a pool free of duplicate obligations, and its
    result says what happened: on success the obligation is the newest one, on
    any error the pool is unchanged, and EEXIST is returned exactly when the
    obligation was already there.  [res_add_action_or_reset] runs the cleanup
    at once exactly when the obligation is owned by nobody. *)
Theorem res_add_action_or_reset_spec p fn data calloc :
  pool_inv p → releasing p = false →
  match res_add_action_or_reset (Some p) (Some fn) data calloc with
  | (Some p', ret, reset) =>
      pool_inv p' ∧
      (if ret =? 0 then obligations p' = obligations p ++ [(fn, data)] else p' = p) ∧
      (ret = - VM_EEXIST ↔ (fn, data) ∈ obligations p) ∧
      reset = (if bool_decide ((fn, data) ∈ obligations p') then None else Some (fn, data))
  | _ => False
  end.
Proof.
  intros I R. unfold res_add_action_or_reset, res_add_action. rewrite R.
  destruct (existsb (node_is fn data) (resources p)) eqn:E.
  - assert (Hin : (fn, data) ∈ obligations p).
    { apply existsb_exists in E as (n & Hn & Ho%node_is_spec). unfold obligations.
      rewrite list_elem_of_omap. exists n. split; [by apply list_elem_of_In|done]. }
    split_and!; try done. simpl. by rewrite bool_decide_true.
  - apply existsb_obligations in E. destruct calloc as [addr|]; simpl.
    + assert (Eo : obligations (p <| resources := resources p ++
                [mk_node addr (pool_id p) (Some fn) data] |>) = obligations p ++ [(fn, data)])
        by (by rewrite obligations_snoc).
      rewrite Eo. split; [apply pool_inv_snoc; [done..|]|].
      { intros o [= <-]. done. }
      split_and!; try done. rewrite bool_decide_true; [done|]. apply elem_of_app. right. by left.
    + split_and!; try done. by rewrite bool_decide_false.
Qed.

(** Moving an obligation between two pools neither loses nor duplicates
    any: both pools stay well formed, the obligations of the two together are
    the same before and after, and on success the moved one is the newest of
    its new pool and gone from the old one; on an error nothing changes. *)
Theorem res_transfer_action_conserves from to fn data :
  pool_inv from → pool_inv to → pool_id from ≠ pool_id to →
  match res_transfer_action (Some from) (Some to) (Some fn) data with
  | (Some from', Some to', ret) =>
      pool_inv from' ∧ pool_inv to' ∧
      obligations from' ++ obligations to' ≡ₚ obligations from ++ obligations to ∧
      (if ret =? 0
       then obligations to' = obligations to ++ [(fn, data)] ∧ (fn, data) ∉ obligations from'
       else from' = from ∧ to' = to)
  | _ => False
  end.
Proof.
  intros If It Hne. unfold res_transfer_action.
  destruct (releasing from || releasing to); [by split_and!|].
  pose proof (split_node_spec fn data (resources from)) as S.
  destruct (split_node fn data (resources from)) as [[[l1 n] l2]|]; [|by split_and!].
  destruct S as [S O]. pose proof If as [Nd Ow].
  destruct (node_pool n =? pool_id from); [|by split_and!]. simpl.
  destruct (Z.eqb_spec (pool_id from) (pool_id to)); [done|].
  destruct (existsb (node_is fn data) (resources to)) eqn:E; [by split_and!|].
  apply existsb_obligations in E. cbv iota zeta.
  set (m := mk_node _ _ _ _). assert (Om : obligation m = Some (fn, data)) by (by rewrite <- O).
  assert (Hto : obligations (to <| resources := resources to ++ [m] |>) =
                obligations to ++ [(fn, data)]) by (rewrite obligations_snoc, Om; done).
  assert (Hfrom : obligations from ≡ₚ (fn, data) :: omap obligation (l1 ++ l2)).
  { unfold obligations. rewrite S, omap_app. simpl. rewrite O, omap_app.
    symmetry. apply Permutation_middle. }
  rewrite Hto. rewrite Hfrom in Nd. apply NoDup_cons in Nd as [Nin Nd].
  split; [split; [done|]|split].
  - simpl. rewrite S in Ow. apply Forall_app in Ow as [? [? ?]%Forall_cons]. by apply Forall_app.
  - apply pool_inv_snoc; [done..|]. rewrite Om. intros o [= <-]. done.
  - split; [|done]. rewrite Hfrom. unfold obligations at 1. simpl resources.
    rewrite (Permutation_app_comm (obligations to)). simpl. symmetry. apply Permutation_middle.
Qed.

(** Cancelling removes the one obligation, which must be there. *)
Theorem res_cancel_action_spec p fn data :
  pool_inv p →
  match res_cancel_action (Some p) (Some fn) data with
  | (Some p', ret) =>
      pool_inv p' ∧ pool_id p' = pool_id p ∧ releasing p' = releasing p ∧
      if bool_decide ((fn, data) ∈ obligations p)
      then ret = 0 ∧ obligations p ≡ₚ (fn, data) :: obligations p'
      else ret = - VM_ENOENT ∧ p' = p
  | _ => False
  end.
Proof.
  intros I. unfold res_cancel_action. pose proof (split_node_spec fn data (resources p)) as S.
  destruct (split_node fn data (resources p)) as [[[l1 n] l2]|]; [|by rewrite bool_decide_false].
  destruct S as [S O]. destruct I as [Nd Ow]. unfold obligations in *. rewrite S, omap_app in *. cbn in *. rewrite O in *.
  apply Forall_app in Ow as [Ow1 [On Ow2]%Forall_cons]. rewrite On, Z.eqb_refl. cbn [negb].
  rewrite <- Permutation_middle in Nd. apply NoDup_cons in Nd as [Nin Nd].
  split; [split; cbn; [unfold obligations; cbn; by rewrite omap_app|by apply Forall_app]|]. split; [done|]. split; [done|].
  rewrite bool_decide_true by (rewrite elem_of_app; right; by left). split; [done|]. cbn. rewrite omap_app.
  symmetry. apply Permutation_middle.
Qed.

Lemma add_action_keeps p fn data calloc :
  match (res_add_action (Some p) fn data calloc).1 with
  | Some p' => pool_id p' = pool_id p ∧ releasing p' = releasing p
  | None => False
  end.
Proof. unfold res_add_action. destruct fn; [|done]. destruct (releasing p) eqn:R; [done|]. by destruct (existsb _ _), calloc. Qed.

Lemma transfer_keeps from to fn data from' to' ret :
  res_transfer_action (Some from) (Some to) fn data = (Some from', Some to', ret) →
  pool_id from' = pool_id from ∧ releasing from' = releasing from ∧
  pool_id to' = pool_id to ∧ releasing to' = releasing to.
Proof.
  unfold res_transfer_action. destruct fn; [|by intros [= <- <- _]].
  destruct (releasing from || releasing to); [by intros [= <- <- _]|].
  destruct (split_node _ _ _) as [[[l1 n] l2]|]; [|by intros [= <- <- _]].
  destruct (negb _); [by intros [= <- <- _]|]. destruct (pool_id from =? pool_id to); [by intros [= <- <- _]|].
  destruct (existsb _ _); by intros [= <- <- _].
Qed.
End ResPool.
Arguments Released {Fn W} pool w log.
Arguments Bug {Fn W}.

(** ** Examples *)

(** A pool with two allocations and two obligations, registered as 7 then 9. *)
Definition example_pool : res_pool (Fn := Z) :=
  mk_pool 1 [mk_node 100 1 None 0; mk_node 200 1 (Some 7) 148; mk_node 300 1 None 0;
             mk_node 400 1 (Some 9) 348] false.

Lemma example_pool_inv : pool_inv example_pool.
Proof. split; [|by repeat constructor]. by apply (bool_decide_unpack _). Qed.

(** The newer cleanup cancels the older one while the pool is released. *)
Definition cancelling (f data : Z) (st : res_pool (Fn := Z) * unit) : res_pool (Fn := Z) * unit :=
  if f =? 9 then (default st.1 (res_cancel_action (Some st.1) (Some 7) 148).1, st.2) else st.

Lemma cancelling_only_removes : only_removes cancelling.
Proof.
  intros f data p w. unfold cancelling. destruct (f =? 9); [|done]. simpl.
  pose proof (split_node_spec 7 148 (resources p)) as S.
  destruct (split_node 7 148 (resources p)) as [[[l1 n] l2]|]; [|done].
  destruct S as [S _]. destruct (negb _); [done|]. simpl. split; [done|].
  rewrite S. apply sublist_app; [done|]. by apply sublist_cons.
Qed.

Lemma res_release_all_total_witness :
  ∃ p' w' log, res_release_all cancelling (Some example_pool) tt = Some (Released p' w' log) ∧
    resources p' = [] ∧ releasing p' = false ∧ NoDup log ∧
    (∀ o, o ∈ log → o ∈ obligations example_pool).
Proof.
  apply (res_release_all_total cancelling example_pool tt).
  - apply example_pool_inv.
  - reflexivity.
  - apply cancelling_only_removes.
  - simpl. lia.
Defined.

Lemma res_release_all_order_witness :
  res_release_all (fun f d '(p, w) => (p, w ++ [f])) (Some example_pool) [] =
  Some (Released (example_pool <| resources := [] |>) [9; 7] [(9, 348); (7, 148)]).
Proof.
  apply (res_release_all_order (fun f _ w => w ++ [f]) example_pool []).
  - apply example_pool_inv.
  - reflexivity.
  - simpl. lia.
Defined.

Lemma res_add_action_or_reset_witness :
  match res_add_action_or_reset (Some example_pool) (Some 5) 1 None with
  | (Some p', ret, reset) =>
      pool_inv p' ∧
      (if ret =? 0 then obligations p' = obligations example_pool ++ [(5, 1)]
       else p' = example_pool) ∧
      (ret = - VM_EEXIST ↔ (5, 1) ∈ obligations example_pool) ∧
      reset = (if bool_decide ((5, 1) ∈ obligations p') then None else Some (5, 1))
  | _ => False
  end.
Proof.
  apply (res_add_action_or_reset_spec example_pool 5 1 None).
  - apply example_pool_inv.
  - reflexivity.
Defined.

Lemma res_transfer_action_witness :
  match res_transfer_action (Some example_pool) (Some (res_pool_init 2)) (Some 7) 148 with
  | (Some from', Some to', ret) =>
      pool_inv from' ∧ pool_inv to' ∧
      obligations from' ++ obligations to' ≡ₚ
        obligations example_pool ++ obligations (res_pool_init 2) ∧
      (if ret =? 0
       then obligations to' = obligations (res_pool_init 2) ++ [(7, 148)] ∧
            (7, 148) ∉ obligations from'
       else from' = example_pool ∧ to' = res_pool_init 2)
  | _ => False
  end.
Proof.
  apply (res_transfer_action_conserves example_pool (res_pool_init 2) 7 148).
  - apply example_pool_inv.
  - split; constructor.
  - simpl. lia.
Defined.
End ResPool.
