(* ===== verification/Cmdline.v ===== *)
(** * Option strings (src/util/cmdline.c)

    Comma-separated key=value fields.  A C string is the list of its
    characters, without the terminating NUL. *)

From S2P Require Import Prelude.

Module Cmdline.

Abbreviation str := (list Z).

Definition COMMA : Z := 44.
Definition EQUALS : Z := 61.

(** [strchr]: the rest of the string from the character on. *)
Fixpoint strchr (s : str) (c : Z) : option str :=
  match s with
  | [] => None
  | x :: s' => if x =? c then Some s else strchr s' c
  end.

(** [!strncmp(s, key, strlen(key))]. *)
Definition has_prefix (s key : str) : bool := bool_decide (take (length key) s = key).

(** The loop condition: is this the field? *)
Definition is_field (start key : str) : bool :=
  has_prefix start key && bool_decide (start !! length key = Some EQUALS).

Definition field_body (key start : str) : str + option str :=
  if is_field start key then inr (Some start)
  else
    match strchr start COMMA with
    | None => inr None
    | Some s => inl (drop 1 s)
    end.

(** [alloc] says whether the allocator finds memory; the result is [None] for
    NULL. *)
Definition cmdline_extract_opt (opts key : option str) (alloc : bool) : option (err_ptr str) :=
  match opts, key with
  | Some opts, Some (k :: key') =>
      let key := k :: key' in
      match loop (field_body key) opts with
      | inr (Some start) =>
          let start := drop (length key + 1) start in
          let len := match strchr start COMMA with
                     | Some e => (length start - length e)%nat
                     | None => length start
                     end in
          Some (if alloc then Ptr (take len start) else ERR_PTR (- VM_ENOMEM))
      | _ => None
      end
  | _, _ => None
  end.

(** ** Printing options *)

Definition field (kv : str * str) : str := kv.1 ++ EQUALS :: kv.2.

(** The fields, separated by commas. *)
Fixpoint render (l : list (str * str)) : str :=
  match l with
  | [] => []
  | [kv] => field kv
  | kv :: l => field kv ++ COMMA :: render l
  end.

(** Values and keys without commas, keys without an equals sign. *)
Definition field_ok (kv : str * str) : Prop := (COMMA ∉ kv.1) ∧ (EQUALS ∉ kv.1) ∧ (COMMA ∉ kv.2).

Definition first_value (l : list (str * str)) (key : str) : option str :=
  snd <$> find (fun kv => bool_decide (kv.1 = key)) l.

(** ** Lemmas *)

Lemma strchr_app s c s' : c ∉ s → strchr (s ++ s') c = strchr s' c.
Proof.
  induction s as [|x s IH]; intros Hc; [done|]. simpl. apply not_elem_of_cons in Hc as [Hx Hc].
  destruct (Z.eqb_spec x c); [congruence|]. by apply IH.
Qed.

Lemma strchr_None s c : c ∉ s → strchr s c = None.
Proof. intros Hc. rewrite <- (app_nil_r s). by rewrite strchr_app. Qed.

Lemma render_cons kv l : render (kv :: l) = field kv ++ match l with [] => [] | _ => COMMA :: render l end.
Proof. destruct l; simpl; [by rewrite app_nil_r|done]. Qed.

(** A field is recognised by its key, and by nothing else. *)
Lemma is_field_spec k v s key :
  EQUALS ∉ k → EQUALS ∉ key → is_field (k ++ EQUALS :: v ++ s) key = bool_decide (k = key).
Proof.
  intros Hk Hkey. unfold is_field, has_prefix. apply eq_true_iff_eq.
  rewrite andb_true_iff, !bool_decide_eq_true. split.
  - intros [Ht Hl]. destruct (Nat.lt_trichotomy (length k) (length key)) as [Hlt|[Heq|Hgt]].
    + destruct Hkey. rewrite <- Ht, take_app_ge by lia. apply elem_of_app. right.
      destruct (length key - length k)%nat eqn:E; [lia|]. simpl. by left.
    + rewrite <- Heq, take_app_length in Ht. done.
    + destruct Hk. rewrite lookup_app_l in Hl by lia. by eapply list_elem_of_lookup_2.
  - intros ->. rewrite take_app_length. split; [done|]. by rewrite list_lookup_middle.
Qed.

Lemma is_field_nil key : key ≠ [] → is_field [] key = false.
Proof. intros. unfold is_field, has_prefix. rewrite take_nil, bool_decide_false by congruence. done. Qed.

(** Where the next field starts. *)
Lemma next_field kv l :
  field_ok kv → strchr (render (kv :: l)) COMMA = match l with [] => None | _ => Some (COMMA :: render l) end.
Proof.
  intros (H1 & _ & H2). rewrite render_cons, strchr_app.
  - destruct l; [done|]. simpl. done.
  - unfold field. rewrite elem_of_app, elem_of_cons. unfold COMMA, EQUALS in *. intros [?|[?|?]]; done.
Qed.

(** The value of the field found. *)
Lemma field_value kv l :
  field_ok kv →
  let start := drop (length kv.1 + 1) (render (kv :: l)) in
  take (match strchr start COMMA with Some e => (length start - length e)%nat | None => length start end) start = kv.2.
Proof.
  intros (_ & _ & H2). cbv zeta. rewrite render_cons. unfold field. rewrite <- app_assoc.
  rewrite drop_app_ge by lia. replace (length kv.1 + 1 - length kv.1)%nat with 1%nat by lia.
  simpl drop. set (tail := match l with [] => [] | _ => _ end).
  assert (E : strchr (kv.2 ++ tail) COMMA = match l with [] => None | _ => Some tail end).
  { rewrite strchr_app by done. unfold tail. by destruct l. }
  rewrite drop_0, E. unfold tail. destruct l as [|kv' l].
  - rewrite app_nil_r. by rewrite firstn_all.
  - rewrite length_app. rewrite Nat.add_sub. by rewrite take_app_length.
Qed.

(** The only error of the parser. *)
Lemma extract_error opts key alloc e : cmdline_extract_opt opts key alloc = Some (ERR_PTR e) → e = - VM_ENOMEM.
Proof. unfold cmdline_extract_opt. repeat case_match; intros; by simplify_eq. Qed.

Lemma extract_negative opts key alloc e : cmdline_extract_opt opts key alloc = Some (ERR_PTR e) → e < 0.
Proof. by intros ->%extract_error. Qed.

(** Parsing undoes printing.  Extracting a key from any printed list of
    key=value fields (keys and values without commas, keys without equals
    signs) terminates and yields the value of the first field with exactly
    that key, whatever text the other keys and values have in common with
    it, and NULL if there is no such field. *)
Theorem cmdline_roundtrip l key :
  key ≠ [] → EQUALS ∉ key → Forall field_ok l → Z.of_nat (length (render l)) ≤ SIZE_MAX →
  cmdline_extract_opt (Some (render l)) (Some key) true = Ptr <$> first_value l key.
Proof.
  intros Hn Hk F Hs. unfold cmdline_extract_opt. destruct key as [|k0 key']; [done|].
  set (key := k0 :: key') in *. cbv zeta.
  destruct (loop_total (field_body key)
    (fun s => ∃ l', s = render l' ∧ Forall field_ok l' ∧ first_value l' key = first_value l key)
    (fun s => Z.of_nat (length s))
    (fun r => match r with
       | Some s => ∃ kv l', s = render (kv :: l') ∧ field_ok kv ∧ kv.1 = key ∧ first_value l key = Some kv.2
       | None => first_value l key = None end) (render l)) as (r & -> & P).
  - intros s (l' & -> & F' & <-). unfold field_body. destruct l' as [|kv l'].
    { simpl render. rewrite is_field_nil by done. done. }
    apply Forall_cons in F' as [Hkv F']. pose proof Hkv as (H1 & H2 & H3).
    assert (Ef : is_field (render (kv :: l')) key = bool_decide (kv.1 = key)).
    { rewrite render_cons. unfold field. rewrite <- app_assoc. by apply is_field_spec. }
    rewrite Ef. unfold first_value. simpl find. destruct (bool_decide_reflect (kv.1 = key)) as [E|E].
    + by exists kv, l'.
    + rewrite next_field by done. destruct l' as [|kv' l']; [done|]. simpl drop. rewrite drop_0. split.
      * exists (kv' :: l'). split; [done|]. split; [done|]. done.
      * rewrite (render_cons kv), length_app. simpl. lia.
  - by exists l.
  - unfold SIZE_MAX in Hs. lia.
  - destruct r as [s|]; [|by rewrite P]. destruct P as (kv & l' & -> & Hkv & E & ->).
    pose proof (field_value kv l' Hkv) as V. cbv zeta in V. rewrite E in V. by rewrite V.
Qed.

(** ** Witness *)

(** "kernel=a=b,initrd=c" *)
Definition example_opts : list (str * str) :=
  [([107; 101; 114; 110; 101; 108], [97; 61; 98]); ([105; 110; 105; 116; 114; 100], [99])].

Lemma cmdline_roundtrip_witness :
  cmdline_extract_opt (Some (render example_opts)) (Some [105; 110; 105; 116; 114; 100]) true = Some (Ptr [99]).
Proof.
  rewrite (cmdline_roundtrip example_opts [105; 110; 105; 116; 114; 100]).
  - reflexivity.
  - congruence.
  - apply (bool_decide_unpack _). vm_compute. exact I.
  - repeat constructor; apply (bool_decide_unpack _); vm_compute; exact I.
  - vm_compute. congruence.
Defined.

End Cmdline.
