(* ===== verification/Registry.v ===== *)
(** * Registries (src/core/device.c, board.c, accel.c, loader.c, src/io/char.c,
    net.c, block.c)

    Implementations register themselves by name before [main] runs, in one table
    per kind; the tables are searched when a machine is configured.  A call that
    would break a table's rules does not return: it panics.  The backends made
    from a table belong to a resource pool. *)

From S2P Require Import Prelude ResPool Cmdline.

Module Reg.
Import Cmdline.

(** A description: its name, and the operations it comes with. *)
Record desc (X : Type) : Type := mk_desc { d_name : option str; d_ops : X }.
Arguments mk_desc {X} _ _.
Arguments d_name {X} _.
Arguments d_ops {X} _.

Section Table.
Context {X : Type}.
Implicit Types (l : list (desc X)) (d : desc X).

(** [desc && desc->name && *desc->name]. *)
Definition named (d : option (desc X)) : bool :=
  match d with
  | Some d => match d_name d with Some (_ :: _) => true | _ => false end
  | None => false
  end.

(** [!strcmp(desc->name, name)]. *)
Definition has_name (n : str) (d : desc X) : bool :=
  match d_name d with Some n' => bool_decide (n' = n) | None => false end.

(** The table after the call, or [None] if it panics. *)
Definition register (max : Z) (complete : X → bool) (l : list (desc X)) (d : option (desc X)) : option (list (desc X)) :=
  match d with
  | None => None
  | Some d =>
      if negb (named (Some d) && complete (d_ops d)) then None
      else if existsb (has_name (default [] (d_name d))) l then None
      else if Z.of_nat (length l) =? max then None
      else Some (l ++ [d])
  end.

Definition lookup (l : list (desc X)) (name : option str) : option (desc X) :=
  match name with
  | Some n => find (has_name n) l
  | None => None
  end.
End Table.

(** ** The tables *)

Definition MAX_DEVICE_DESCS : Z := 64.
Definition MAX_BOARD_DESCS : Z := 16.
Definition MAX_ACCEL_DESCS : Z := 8.
Definition MAX_LOADER_DESCS : Z := 8.
Definition MAX_CHAR_DESCS : Z := 16.
Definition MAX_NET_DESCS : Z := 16.
Definition MAX_BLOCK_DESCS : Z := 16.

(** The operations are known by whether their pointers are set. *)
Definition device_register := register (X := bool) MAX_DEVICE_DESCS (fun _ => true).
Definition board_register := register (X := bool) MAX_BOARD_DESCS (fun _ => true).
Definition board_find := lookup (X := bool).

(** struct accel_desc: [init] and [destroy] of the engine, [init] and [run] of
    its processors; [None] for a table that is not there. *)
Definition accel_complete (ops : option (bool * bool) * option (bool * bool)) : bool :=
  match ops with
  | (Some (init, destroy), Some (vcpu_init, run)) => init && destroy && vcpu_init && run
  | _ => false
  end.
Definition accel_register := register MAX_ACCEL_DESCS accel_complete.
Definition accel_find := lookup (X := option (bool * bool) * option (bool * bool)).

(** struct loader_desc: [load] and [setup_bsp]. *)
Definition loader_complete (ops : bool * bool) : bool := ops.1 && ops.2.
Definition loader_register := register MAX_LOADER_DESCS loader_complete.

(** A backend constructor: options to an object or an error. *)
Definition constructor : Type := option str → err_ptr Z.
Definition has_create (create : option constructor) : bool := match create with Some _ => true | None => false end.
Definition char_register := register MAX_CHAR_DESCS has_create.
Definition net_register := register MAX_NET_DESCS has_create.
Definition block_register := register MAX_BLOCK_DESCS has_create.

(** ** Backends *)

(** [backend_cleanup] destroys the backend it is registered for. *)
Inductive cleanup : Type := backend_cleanup.
#[export] Instance cleanup_eq : EqDecision cleanup.
Proof. solve_decision. Defined.

Inductive event : Type := Created (b : Z) | Destroyed (b : Z).

(** The pool, the result, and what happened to the backend.  [create] is called
    through the description that was found; every description has one. *)
Definition create_backend (l : list (desc (option constructor))) (owner : option (ResPool.res_pool (Fn := cleanup)))
    (name opts : option str) (alloc : option Z) :
    option (ResPool.res_pool (Fn := cleanup)) * err_ptr Z * list event :=
  match owner, name with
  | Some pool, Some n =>
      match find (has_name n) l with
      | Some d =>
          match d_ops d with
          | Some create =>
              match create opts with
              | ERR_PTR e => (owner, ERR_PTR e, [])
              | Ptr backend =>
                  let '(owner, ret, reset) := ResPool.res_add_action_or_reset owner (Some backend_cleanup) backend alloc in
                  let t := match reset with Some (_, b) => [Created backend; Destroyed b] | None => [Created backend] end in
                  if ret <? 0 then (owner, ERR_PTR ret, t) else (owner, Ptr backend, t)
              end
          | None => (owner, ERR_PTR (- VM_EINVAL), [])
          end
      | None => (owner, ERR_PTR (- VM_ENOENT), [])
      end
  | _, _ => (owner, ERR_PTR (- VM_EINVAL), [])
  end.

Definition char_create := create_backend.
Definition net_create := create_backend.
Definition block_create := create_backend.

(** ** Properties *)

(** Every table is the result of calls that returned. *)
Inductive filled {X} (max : Z) (complete : X → bool) : list (desc X) → Prop :=
| filled_nil : filled max complete []
| filled_add l d l' : filled max complete l → register max complete l d = Some l' → filled max complete l'.

Lemma has_name_spec {X} n (d : desc X) : has_name n d = true ↔ d_name d = Some n.
Proof.
  unfold has_name. destruct (d_name d) as [n'|]; [|done]. rewrite bool_decide_eq_true. split; [by intros ->|by intros [= ->]].
Qed.

Lemma register_Some {X} max complete l (d : option (desc X)) l' :
  register max complete l d = Some l' →
  ∃ d' n, d = Some d' ∧ l' = l ++ [d'] ∧ d_name d' = Some n ∧ n ≠ [] ∧ complete (d_ops d') = true ∧
    Z.of_nat (length l) ≠ max ∧ ∀ x, x ∈ l → d_name x ≠ Some n.
Proof.
  destruct d as [d|]; [|done]. simpl. destruct (d_name d) as [[|c n]|] eqn:En; try done.
  destruct (complete (d_ops d)) eqn:Ec; [|done]. cbn [negb andb default].
  destruct (existsb _ l) eqn:Ex; [done|]. destruct (Z.eqb_spec (Z.of_nat (length l)) max) as [|Hm]; [done|].
  intros [= <-]. exists d, (c :: n). split_and!; try done. intros x Hx Hn.
  pose proof (existsb_false_elem _ _ _ Ex Hx) as H. apply has_name_spec in Hn. simpl in H. congruence.
Qed.

Lemma filled_inv {X} max complete l :
  0 ≤ max → filled (X := X) max complete l →
  NoDup (d_name <$> l) ∧ Z.of_nat (length l) ≤ max ∧
  Forall (fun d => (∃ n, d_name d = Some n ∧ n ≠ []) ∧ complete (d_ops d) = true) l.
Proof.
  intros Hm. induction 1 as [|l d l' F (N & L & C) E]; [split_and!; [constructor|simpl; lia|constructor]|].
  apply register_Some in E as (d' & n & -> & -> & En & Hn & Hc & Hl & Hx). split_and!.
  - rewrite fmap_app. apply NoDup_app. split_and!; [done| |apply NoDup_singleton].
    intros x (y & -> & Hy)%list_elem_of_fmap Hs. simpl in Hs. apply list_elem_of_singleton in Hs.
    rewrite En in Hs. by apply (Hx y Hy).
  - rewrite length_app. simpl. lia.
  - apply Forall_app. split; [done|]. apply Forall_singleton. eauto.
Qed.

Lemma lookup_spec {X} (l : list (desc X)) n d :
  NoDup (d_name <$> l) → lookup l (Some n) = Some d ↔ d ∈ l ∧ d_name d = Some n.
Proof.
  intros N. simpl. split.
  - intros [Hd Hn]%find_Some_elem. split; [done|by apply has_name_spec].
  - intros [Hd Hn]. apply find_unique; [done|by apply has_name_spec|]. intros y Hy Hny%has_name_spec.
    apply list_elem_of_lookup in Hd as [i Hi], Hy as [j Hj]. assert (i = j) as ->; [|congruence].
    apply (NoDup_lookup (d_name <$> l) i j (Some n) N); rewrite list_lookup_fmap, ?Hi, ?Hj; simpl; congruence.
Qed.

(** The pool takes a backend it does not have, or the backend is destroyed. *)
Lemma add_fresh pool b alloc :
  ResPool.pool_inv pool → ResPool.releasing pool = false → (backend_cleanup, b) ∉ ResPool.obligations pool →
  let '(owner, ret, reset) := ResPool.res_add_action_or_reset (Some pool) (Some backend_cleanup) b alloc in
  (ret = 0 ∧ reset = None ∧ ∃ p, owner = Some p ∧ ResPool.pool_inv p ∧
     ResPool.obligations p = ResPool.obligations pool ++ [(backend_cleanup, b)]) ∨
  (ret < 0 ∧ owner = Some pool ∧ reset = Some (backend_cleanup, b)).
Proof.
  intros I R Hn. unfold ResPool.res_add_action_or_reset, ResPool.res_add_action. rewrite R.
  destruct (existsb (ResPool.node_is backend_cleanup b) (ResPool.resources pool)) eqn:E.
  - destruct Hn. apply existsb_exists in E as (nd & Hin & Ho%ResPool.node_is_spec). unfold ResPool.obligations.
    rewrite list_elem_of_omap. exists nd. split; [by apply list_elem_of_In|done].
  - destruct alloc as [addr|]; simpl; [left|by right]. split_and!; [done..|]. eexists. split; [reflexivity|].
    apply ResPool.existsb_obligations in E.
    split; [apply ResPool.pool_inv_snoc; [done..|]; by intros o [= <-]|by rewrite ResPool.obligations_snoc].
Qed.

(** A registry finds what was registered.  After any sequence of calls to a
    [*_register] function that all returned, the table has at most as many
    entries as there is room for, each complete and with a name of its own; and
    looking up a name finds the one description registered under it, or nothing
    if there is none.  The call that returns is the one that registers a new
    name. *)
Theorem registry_spec {X} max (complete : X → bool) l name :
  0 ≤ max → filled max complete l →
  NoDup (d_name <$> l) ∧ Z.of_nat (length l) ≤ max ∧
  (∀ d, lookup l (Some name) = Some d ↔ d ∈ l ∧ d_name d = Some name) ∧
  (∀ d, lookup l (Some name) = Some d → complete (d_ops d) = true) ∧
  (∀ d l', register max complete l (Some d) = Some l' →
     lookup l (d_name d) = None ∧ lookup l' (d_name d) = Some d ∧
     (∀ n, d_name d ≠ Some n → lookup l' (Some n) = lookup l (Some n))).
Proof.
  intros Hm F. destruct (filled_inv max complete l Hm F) as (N & L & C). rewrite Forall_forall in C.
  split_and!; [done|done| | |].
  - intros d. by apply lookup_spec.
  - intros d [Hd _]%lookup_spec; [|done]. by apply C.
  - intros d l' E. pose proof (filled_inv max complete l' Hm (filled_add _ _ _ _ _ F E)) as (N' & _).
    apply register_Some in E as (d' & n & [= <-] & -> & En & _ & _ & _ & Hx). rewrite En. split_and!.
    + apply find_all_false. intros x Hxl. apply not_true_is_false. intros Hn%has_name_spec. by apply (Hx x).
    + apply lookup_spec; [done|]. split; [apply elem_of_app; right; by left|done].
    + intros n' Hn'. apply option_eq. intros x. rewrite !lookup_spec by done. rewrite elem_of_app, list_elem_of_singleton.
      split; [|by intros [? ?]; split; [left|]]. intros [[?| ->] ?]; [done|congruence].
Qed.

(** A backend is never lost.  Creating one from a table fills in exactly one
    of these: nothing is created, because the arguments are bad, no description
    has the name or its constructor failed, and the pool is as before; or it is
    created, the caller gets it and the pool has one more cleanup, which destroys
    it; or it is created and, since the pool could not take it, destroyed at once
    and the caller gets the error. *)
Theorem backend_create_spec max l pool name opts alloc :
  0 ≤ max → filled max has_create l → ResPool.pool_inv pool → ResPool.releasing pool = false →
  (∀ d create o b, d ∈ l → d_ops d = Some create → create o = Ptr b → (backend_cleanup, b) ∉ ResPool.obligations pool) →
  let '(owner, result, t) := create_backend l (Some pool) name opts alloc in
  match result with
  | Ptr b => t = [Created b] ∧ ∃ p, owner = Some p ∧ ResPool.pool_inv p ∧
      ResPool.obligations p = ResPool.obligations pool ++ [(backend_cleanup, b)]
  | ERR_PTR e => owner = Some pool ∧ (t = [] ∨ ∃ b, t = [Created b; Destroyed b])
  end ∧
  (lookup l name = None → result = ERR_PTR (match name with Some _ => - VM_ENOENT | None => - VM_EINVAL end)).
Proof.
  intros Hm F I R Fresh. destruct (filled_inv _ _ l Hm F) as (_ & _ & C). rewrite Forall_forall in C.
  unfold create_backend. destruct name as [n|]; [|split; [split; [reflexivity|by left]|done]]. simpl.
  destruct (find (has_name n) l) as [d|] eqn:Ef; [|split; [split; [reflexivity|by left]|done]].
  pose proof (find_Some_elem _ _ _ Ef) as [Hd _]. destruct (C d Hd) as [_ Hc]. unfold has_create in Hc.
  destruct (d_ops d) as [create|] eqn:Ed; [|done]. destruct (create opts) as [b|e] eqn:Eb; [|split; [split; [reflexivity|by left]|done]].
  pose proof (Fresh d create opts b Hd Ed Eb) as Hnew.
  pose proof (add_fresh pool b alloc I R Hnew) as A. destruct (ResPool.res_add_action_or_reset _ _ _ _) as [[owner ret] reset].
  destruct A as [(-> & -> & p & -> & A)|(Hr & -> & ->)]; simpl.
  - split; [|done]. split; [done|]. by exists p.
  - rewrite (proj2 (Z.ltb_lt _ _) Hr). split; [|done]. split; [done|]. right. by exists b.
Qed.

(** ** Examples *)

(** "linux-file" and "ram"; the second constructor fails without options. *)
Definition example_desc1 : desc (option constructor) :=
  mk_desc (Some [108; 105; 110; 117; 120; 45; 102; 105; 108; 101]) (Some (fun _ => Ptr 0x6000)).
Definition example_desc2 : desc (option constructor) :=
  mk_desc (Some [114; 97; 109]) (Some (fun o => match o with Some _ => Ptr 0x7000 | None => ERR_PTR (- VM_EINVAL) end)).
Definition example_table : list (desc (option constructor)) := [example_desc1; example_desc2].

Lemma example_filled : filled MAX_BLOCK_DESCS has_create example_table.
Proof.
  eapply filled_add; [eapply filled_add; [constructor|]|].
  - instantiate (2 := Some example_desc1). reflexivity.
  - instantiate (1 := Some example_desc2). reflexivity.
Qed.

Lemma registry_spec_witness :
  lookup example_table (Some [114; 97; 109]) = Some example_desc2 ∧ Z.of_nat (length example_table) ≤ MAX_BLOCK_DESCS.
Proof.
  destruct (registry_spec MAX_BLOCK_DESCS has_create example_table [114; 97; 109]) as (_ & L & H & _).
  - vm_compute. congruence.
  - exact example_filled.
  - split; [|exact L]. apply H. split; [right; left|reflexivity].
Defined.

Lemma backend_create_spec_witness :
  ∃ p, create_backend example_table (Some (ResPool.mk_pool 1 [] false)) (Some [114; 97; 109]) (Some []) (Some 0x9000) =
    (Some p, Ptr 0x7000, [Created 0x7000]) ∧ ResPool.obligations p = [(backend_cleanup, 0x7000)].
Proof.
  pose proof (backend_create_spec MAX_BLOCK_DESCS example_table (ResPool.mk_pool 1 [] false) (Some [114; 97; 109]) (Some [])
    (Some 0x9000) ltac:(vm_compute; congruence) example_filled) as H.
  destruct H as [H _].
  - split; constructor.
  - reflexivity.
  - intros d create o b _ _ _. apply not_elem_of_nil.
  - simpl in H. destruct H as (_ & p & E & _ & Ho). injection E as <-. eexists. split; [reflexivity|exact Ho].
Defined.

End Reg.
