(* ===== verification/HostMem.v ===== *)
(** * Host memory

    The bytes behind guest RAM, addressed by host address.  Device models read
    and write guest memory through pointers returned by [mem_map_range] and
    [mem_map_chunk]; here those pointers are host addresses into a byte map. *)

From S2P Require Import Prelude.

Abbreviation hmem := (gmap Z Z).

(** One byte; untouched memory is zero. *)
Definition hm_get (m : hmem) (a : Z) : Z := u8 (default 0 (m !! a)).

(** [memcpy] out of and into memory. *)
Definition hm_read (m : hmem) (a n : Z) : list Z := (fun i => hm_get m (a + i)) <$> seqZ 0 n.

Fixpoint hm_write (m : hmem) (a : Z) (bs : list Z) : hmem :=
  match bs with
  | [] => m
  | b :: bs => hm_write (<[a := b]> m) (a + 1) bs
  end.

(** Little-endian integers of [n] bytes (include/modvm/util/byteorder.h). *)
Definition le_get (m : hmem) (a n : Z) : Z := little_endian_to_Z 8 (hm_read m a n).
Definition le_put (n v : Z) : list Z := Z_to_little_endian n 8 v.

#[global] Arguments hm_read : simpl never.
#[global] Arguments le_get : simpl never.
#[global] Arguments le_put : simpl never.

Lemma hm_get_range m a : is_u8 (hm_get m a).
Proof. apply u8_range. Qed.

Lemma length_hm_read m a n : length (hm_read m a n) = Z.to_nat n.
Proof. unfold hm_read. by rewrite length_fmap, length_seqZ. Qed.

Lemma hm_read_app m a n k :
  0 ≤ n → 0 ≤ k → hm_read m a (n + k) = hm_read m a n ++ hm_read m (a + n) k.
Proof.
  intros. unfold hm_read. rewrite seqZ_app, fmap_app by lia. f_equal.
  rewrite Z.add_comm, <- (fmap_add_seqZ n 0), <- list_fmap_compose. apply list_fmap_ext.
  intros _ i _. unfold compose. f_equal. lia.
Qed.

Lemma hm_read_cons m a n :
  0 < n → hm_read m a n = hm_get m a :: hm_read m (a + 1) (n - 1).
Proof.
  intros. replace n with (1 + (n - 1)) at 1 by lia. rewrite hm_read_app by lia.
  unfold hm_read at 1. simpl. by rewrite Z.add_0_r.
Qed.

Lemma hm_write_app m a bs bs' :
  hm_write m a (bs ++ bs') = hm_write (hm_write m a bs) (a + Z.of_nat (length bs)) bs'.
Proof.
  revert m a. induction bs as [|b bs IH]; intros m a; simpl.
  - by rewrite Z.add_0_r.
  - rewrite IH. f_equal. lia.
Qed.

(** Writing reaches the bytes written and no other. *)
Lemma hm_get_write_out m a bs x :
  x < a ∨ a + Z.of_nat (length bs) ≤ x → hm_get (hm_write m a bs) x = hm_get m x.
Proof.
  revert m a. induction bs as [|b bs IH]; intros m a Hx; [done|]. simpl in *.
  rewrite IH by lia. unfold hm_get. rewrite lookup_insert_ne by lia. done.
Qed.

Lemma hm_read_write_out m a bs x n :
  0 ≤ n → x + n ≤ a ∨ a + Z.of_nat (length bs) ≤ x →
  hm_read (hm_write m a bs) x n = hm_read m x n.
Proof.
  intros Hn Hx. apply list_fmap_ext. intros k i Hi. apply lookup_seqZ in Hi as [-> Hi].
  apply hm_get_write_out. lia.
Qed.

Lemma hm_read_write m a bs :
  Forall is_u8 bs → hm_read (hm_write m a bs) a (Z.of_nat (length bs)) = bs.
Proof.
  revert m a. induction bs as [|b bs IH]; intros m a Hb; [done|].
  apply Forall_cons in Hb as [Hb Hbs]. rewrite hm_read_cons by (simpl; lia). simpl hm_write.
  rewrite hm_get_write_out by lia. f_equal.
  - unfold hm_get. rewrite lookup_insert_eq. by apply u8_small.
  - replace (Z.of_nat (length (b :: bs)) - 1) with (Z.of_nat (length bs)) by (simpl; lia). auto.
Qed.

Lemma hm_get_zeros m a n x :
  a ≤ x < a + Z.of_nat n → hm_get (hm_write m a (replicate n 0)) x = 0.
Proof.
  revert m a. induction n as [|n IH]; intros m a Hx; [lia|]. cbn [replicate hm_write].
  destruct (decide (x = a)) as [->|]; [|apply IH; lia].
  rewrite hm_get_write_out by lia. unfold hm_get. by rewrite lookup_insert_eq.
Qed.

Lemma le_put_bytes n v : 0 ≤ n → Forall is_u8 (le_put n v).
Proof. intros. apply (Z_to_little_endian_bound n 8 v); lia. Qed.

Lemma length_le_put n v : 0 ≤ n → Z.of_nat (length (le_put n v)) = n.
Proof. intros. unfold le_put. rewrite length_Z_to_little_endian; lia. Qed.

Lemma le_get_range m a n : 0 ≤ n → 0 ≤ le_get m a n < 2 ^ (n * 8).
Proof.
  intros Hn. unfold le_get.
  pose proof (little_endian_to_Z_bound 8 (hm_read m a n) ltac:(lia)) as H.
  rewrite length_hm_read, Z2Nat.id in H by lia. apply H.
  apply Forall_forall. intros b. unfold hm_read. rewrite list_elem_of_fmap.
  intros (i & -> & _). pose proof (hm_get_range m (a + i)). word.
Qed.

Lemma le_get_put m a n v : 0 ≤ n → le_get (hm_write m a (le_put n v)) a n = v mod 2 ^ (n * 8).
Proof.
  intros Hn. unfold le_get. rewrite <- (length_le_put n v) at 2 by done.
  rewrite hm_read_write by (by apply le_put_bytes). apply little_endian_to_Z_to_little_endian; lia.
Qed.

Lemma le_get_write_out m a bs x n :
  0 ≤ n → x + n ≤ a ∨ a + Z.of_nat (length bs) ≤ x →
  le_get (hm_write m a bs) x n = le_get m x n.
Proof. intros. unfold le_get. by rewrite hm_read_write_out. Qed.

(** Two memories that hold the same bytes in a range. *)
Definition agree (m m' : hmem) (a n : Z) : Prop := ∀ x, a ≤ x < a + n → hm_get m x = hm_get m' x.

Lemma le_get_agree m m' a n x k :
  agree m m' a n → 0 ≤ k → a ≤ x → x + k ≤ a + n → le_get m x k = le_get m' x k.
Proof.
  intros H Hk Hx He. unfold le_get, hm_read. f_equal. apply list_fmap_ext.
  intros j i Hi. apply lookup_seqZ in Hi as [-> Hi]. apply H. lia.
Qed.
