(* ===== verification/Topology.v ===== *)
(** * Guest address spaces (src/core/memory.c, src/core/io_map.c)

    Guest RAM and the port and memory-mapped I/O regions of a machine.  The
    two components check against each other: RAM must not overlap an MMIO
    region, whichever is added second.  The invariant [topology_inv] is what
    both keep, and what the translation of guest addresses and the dispatch of
    I/O accesses rest on. *)

From S2P Require Import Prelude ResPool.

Module Space.

(** ** State (include/modvm/core/memory.h, io_map.h, vm.h) *)

Definition MEM_READONLY : Z := 1.
Definition MEM_EXEC : Z := 2.
Definition MEM_RESERVED : Z := 4.

Record mem_region : Type := mk_ram { ram_gpa : Z; ram_size : Z; hva : Z; flags : Z }.

Record mem_space : Type := mk_space {
  regions : list mem_region;
  total_ram : Z;
  host_page_size : Z;
}.

Inductive io_space : Type := IO_PIO | IO_MMIO.

#[export] Instance io_space_eq : EqDecision io_space.
Proof. solve_decision. Defined.

(** [reg_addr] is the address of the structure, its identity. *)
Record io_region : Type := mk_io {
  reg_addr : Z;
  dev : Z;
  base : Z;
  io_size : Z;
  type : io_space;
  enabled : bool;
}.

Definition eta_io (r : io_region) : io_region :=
  mk_io (reg_addr r) (dev r) (base r) (io_size r) (type r) (enabled r).
#[export] Instance set_base : Setter base := ltac:(derive_setter eta_io).
#[export] Instance set_enabled : Setter enabled := ltac:(derive_setter eta_io).

Record io_map : Type := mk_map { pio_regions : list io_region; mmio_regions : list io_region }.

Inductive vm_state : Type := VM_BUILDING | VM_READY | VM_RUNNING | VM_STOPPED.
#[export] Instance vm_state_eq : EqDecision vm_state.
Proof. solve_decision. Defined.

(** The part of [struct vm_ctx] the address spaces use.  [accel_ready] is
    [ctx->accel.desc != NULL]. *)
Record vm_ctx : Type := mk_vm {
  state : vm_state;
  stop_requested : bool;
  accel_ready : bool;
  mem : mem_space;
  io : io_map;
}.

Definition eta_vm (c : vm_ctx) : vm_ctx :=
  mk_vm (state c) (stop_requested c) (accel_ready c) (mem c) (io c).
#[export] Instance set_state : Setter state := ltac:(derive_setter eta_vm).
#[export] Instance set_stop_requested : Setter stop_requested := ltac:(derive_setter eta_vm).
#[export] Instance set_mem : Setter mem := ltac:(derive_setter eta_vm).
#[export] Instance set_io : Setter io := ltac:(derive_setter eta_vm).

(** Address arithmetic of include/modvm/util/types.h. *)
Definition gpa_add (base offset : Z) : Z := u64 (base + offset).
Definition gpa_offset (high low : Z) : Z := u64 (high - low).

(** ** Guest memory (src/core/memory.c) *)

(** [page_size] is what [host_page_size()] returns. *)
Definition mem_space_init (page_size : Z) : mem_space * Z :=
  (mk_space [] 0 page_size, if page_size =? 0 then - VM_EIO else 0).

Definition mem_region_is_overlap (base1 size1 base2 size2 : Z) : bool :=
  (base1 <? gpa_add base2 size2) && (base2 <? gpa_add base1 size1).

(** Calls that acquire and release host storage, in order. *)
Inductive storage : Type :=
| AllocNode | FreeNode
| AllocPages (hva size : Z) | FreePages (hva size : Z).

(** The parameters are the code outside: the outcome of [calloc] and of
    [host_page_alloc], and the accelerator's [map_ram] ([None] when the
    operation is not provided). *)
Definition vm_add_ram (ctx : vm_ctx) (gpa size flags : Z)
    (calloc : bool) (host_page_alloc : err_ptr Z) (map_ram : option (mem_region → Z)) :
    vm_ctx * Z * list storage :=
  if size =? 0 then (ctx, - VM_EINVAL, [])
  else if negb (bool_decide (state ctx = VM_BUILDING)) || stop_requested ctx
  then (ctx, - VM_EBUSY, [])
  else
    let space := mem ctx in
    if (host_page_size space =? 0) || negb (accel_ready ctx) then (ctx, - VM_EINVAL, [])
    else
      match map_ram with
      | None => (ctx, - VM_ENOTSUP, [])
      | Some map_ram =>
          if SIZE_MAX - total_ram space <? size then (ctx, - VM_EOVERFLOW, [])
          else if UINT64_MAX - gpa <? size then (ctx, - VM_EOVERFLOW, [])
          else if negb (gpa mod host_page_size space =? 0)
                  || negb (size mod host_page_size space =? 0) then (ctx, - VM_EINVAL, [])
          else if existsb (fun pos => mem_region_is_overlap gpa size (ram_gpa pos)
                                        (ram_size pos)) (regions space)
          then (ctx, - VM_EBUSY, [])
          else if existsb (fun r => mem_region_is_overlap gpa size (base r) (io_size r))
                    (mmio_regions (io ctx))
          then (ctx, - VM_EBUSY, [])
          else if negb calloc then (ctx, - VM_ENOMEM, [])
          else
            match host_page_alloc with
            | ERR_PTR e => (ctx, e, [AllocNode; FreeNode])
            | Ptr hva =>
                let reg := mk_ram gpa size hva flags in
                let ret := map_ram reg in
                if ret <? 0
                then (ctx, ret, [AllocNode; AllocPages hva size; FreePages hva size; FreeNode])
                else
                  (ctx <| mem := mk_space (regions space ++ [reg]) (u64 (total_ram space + size))
                                   (host_page_size space) |>, 0,
                   [AllocNode; AllocPages hva size])
            end
      end.

Definition find_region (space : mem_space) (gpa : Z) : option mem_region :=
  find (fun reg => (ram_gpa reg <=? gpa) && (gpa - ram_gpa reg <? ram_size reg)) (regions space).

Definition mem_space_destroy (space : mem_space) : mem_space * list storage :=
  (mk_space [] 0 (host_page_size space),
   flat_map (fun pos => [FreePages (hva pos) (ram_size pos); FreeNode]) (regions space)).

(** The host address ([None] for NULL) and [*out_len]. *)
Definition mem_map_chunk (space : mem_space) (gpa len : Z) (write : bool) : option Z * Z :=
  if (len =? 0) || (UINT64_MAX - gpa <? len) then (None, 0)
  else
    match find_region space gpa with
    | None => (None, 0)
    | Some reg =>
        if write && has (flags reg) MEM_READONLY then (None, 0)
        else
          let offset := gpa_offset gpa (ram_gpa reg) in
          let available := ram_size reg - offset in
          (Some (hva reg + offset), if len <? available then len else available)
    end.

Definition mem_map_range (space : mem_space) (gpa len : Z) (write : bool) : option Z :=
  let '(hva, available) := mem_map_chunk space gpa len write in
  if available =? len then hva else None.

(** ** I/O regions (src/core/io_map.c) *)

Definition io_list (m : io_map) (type : io_space) : list io_region :=
  match type with IO_PIO => pio_regions m | IO_MMIO => mmio_regions m end.

Definition set_io_list (m : io_map) (type : io_space) (l : list io_region) : io_map :=
  match type with
  | IO_PIO => mk_map l (mmio_regions m)
  | IO_MMIO => mk_map (pio_regions m) l
  end.

(** Removing one region structure from a list, by its address ([list_del]). *)
Definition io_list_del (addr : Z) (l : list io_region) : list io_region :=
  filter (fun r => reg_addr r ≠ addr) l.

Definition io_region_unregister (ctx : vm_ctx) (reg : io_region) : vm_ctx :=
  ctx <| io := set_io_list (io ctx) (type reg)
                 (io_list_del (reg_addr reg) (io_list (io ctx) (type reg))) |>.

(** The cleanup functions registered with the pools of the machine:
    [io_region_unregister], [virtio_cleanup], [pci_unregister] and the
    [backend_cleanup] of block, network and character backends. *)
Inductive cleanup : Type :=
| CleanupIoRegion | CleanupVirtio | CleanupPciDevice | CleanupBlock | CleanupNet | CleanupChar.
#[global] Instance cleanup_eq : EqDecision cleanup.
Proof. solve_decision. Defined.

Definition sizeof_io_region : Z := 56.

(** [owner] is the device and its resource pool; [valid] is the first guard,
    [dev && dev->ctx && dev->ops].  [alloc1] and [alloc2] are what the
    allocator returns to [res_zalloc] and to [res_add_action]. *)
Definition io_map_register_region_locked (ctx : vm_ctx) (type : io_space) (base size : Z)
    (owner : Z) (pool : ResPool.res_pool (Fn := cleanup)) (valid : bool)
    (alloc1 alloc2 : option Z) :
    vm_ctx * ResPool.res_pool (Fn := cleanup) * err_ptr io_region :=
  if negb valid || (size =? 0) then (ctx, pool, ERR_PTR (- VM_EINVAL))
  else if UINT64_MAX - size <? base then (ctx, pool, ERR_PTR (- VM_EOVERFLOW))
  else
    let l := io_list (io ctx) type in
    if existsb (fun pos => (base <? gpa_add (Space.base pos) (io_size pos))
                           && (Space.base pos <? gpa_add base size)) l
    then (ctx, pool, ERR_PTR (- VM_EBUSY))
    else if bool_decide (type = IO_MMIO) &&
            existsb (fun ram => (base <? u64 (ram_gpa ram + ram_size ram))
                                && (ram_gpa ram <? u64 (base + size))) (regions (mem ctx))
    then (ctx, pool, ERR_PTR (- VM_EBUSY))
    else
      match ResPool.res_zalloc (Some pool) sizeof_io_region alloc1 with
      | (Some pool, Some addr) =>
          let reg := mk_io addr owner base size type true in
          let ctx1 := ctx <| io := set_io_list (io ctx) type (l ++ [reg]) |> in
          match ResPool.res_add_action (Some pool) (Some CleanupIoRegion) addr alloc2 with
          | (Some pool, ret) =>
              if ret <? 0
              then (io_region_unregister ctx1 reg, pool, ERR_PTR ret)
              else (ctx1, pool, Ptr reg)
          | (None, ret) => (ctx1, pool, ERR_PTR ret)
          end
      | (Some pool, None) => (ctx, pool, ERR_PTR (- VM_ENOMEM))
      | (None, _) => (ctx, pool, ERR_PTR (- VM_ENOMEM))
      end.

(** ~0ULL, what a floating bus reads. *)
Definition all_ones : Z := UINT64_MAX.

(** The test of the dispatch loops: is the address in this enabled region? *)
Definition claims (addr : Z) (pos : io_region) : bool :=
  enabled pos && (base pos <=? addr) && (addr <? gpa_add (base pos) (io_size pos)).

(** The size test of [io_map_read] and [io_map_write]. *)
Definition io_size_valid (size : Z) : bool :=
  (size =? 1) || (size =? 2) || (size =? 4) || (size =? 8).

Section Dispatch.
(** [W] is the state of the devices; a device (named by the [dev] field of its
    regions) may provide a read and a write operation. *)
Context {W : Type}.
Variable dev_read : Z → option (io_region → Z → Z → W → W * Z).
Variable dev_write : Z → option (io_region → Z → Z → Z → W → W).

Definition io_map_read_locked (m : io_map) (type : io_space) (addr size : Z) (w : W) : W * Z :=
  match find (claims addr) (io_list m type) with
  | None => (w, all_ones)
  | Some pos =>
      let offset := gpa_offset addr (base pos) in
      if io_size pos - offset <? size then (w, all_ones)
      else
        match dev_read (dev pos) with
        | Some read => read pos offset size w
        | None => (w, all_ones)
        end
  end.

Definition io_map_write_locked (m : io_map) (type : io_space) (addr val size : Z) (w : W) : W :=
  match find (claims addr) (io_list m type) with
  | None => w
  | Some pos =>
      let offset := gpa_offset addr (base pos) in
      if io_size pos - offset <? size then w
      else
        match dev_write (dev pos) with
        | Some write => write pos offset val size w
        | None => w
        end
  end.

Definition io_map_read (m : io_map) (type : io_space) (addr size : Z) (w : W) : W * Z :=
  if negb (io_size_valid size) then (w, all_ones) else io_map_read_locked m type addr size w.

Definition io_map_write (m : io_map) (type : io_space) (addr val size : Z) (w : W) : W :=
  if negb (io_size_valid size) then w else io_map_write_locked m type addr val size w.
End Dispatch.

(** Assigning a field of the region structure at an address. *)
Definition io_list_update (addr : Z) (f : io_region → io_region) (l : list io_region) :
    list io_region :=
  (fun r => if reg_addr r =? addr then f r else r) <$> l.

Definition io_map_relocate_region_locked (ctx : vm_ctx) (target : io_region) (new_base : Z) :
    vm_ctx * Z :=
  if UINT64_MAX - io_size target <? new_base then (ctx, - VM_EOVERFLOW)
  else
    let head := io_list (io ctx) (type target) in
    if existsb (fun reg => negb (reg_addr reg =? reg_addr target)
                           && (new_base <? u64 (base reg + io_size reg))
                           && (base reg <? u64 (new_base + io_size target))) head
    then (ctx, - VM_EBUSY)
    else if bool_decide (type target = IO_MMIO) &&
            existsb (fun ram => (new_base <? u64 (ram_gpa ram + ram_size ram))
                                && (ram_gpa ram <? u64 (new_base + io_size target)))
              (regions (mem ctx))
    then (ctx, - VM_EBUSY)
    else
      (ctx <| io := set_io_list (io ctx) (type target)
                      (io_list_update (reg_addr target) (fun r => r <| base := new_base |>) head) |>,
       0).

(** [region->enabled = on], as the PCI code does. *)
Definition io_region_set_enabled (ctx : vm_ctx) (target : io_region) (on : bool) : vm_ctx :=
  ctx <| io := set_io_list (io ctx) (type target)
                 (io_list_update (reg_addr target) (fun r => r <| enabled := on |>)
                    (io_list (io ctx) (type target))) |>.

(** ** Invariant *)

(** Intervals [b, b+s) of the 64-bit address space. *)
Definition span_ok (b s : Z) : Prop := 0 ≤ b ∧ 0 < s ∧ b + s ≤ UINT64_MAX.
Definition apart (b1 s1 b2 s2 : Z) : Prop := b1 + s1 ≤ b2 ∨ b2 + s2 ≤ b1.

Definition ram_apart (r1 r2 : mem_region) : Prop :=
  apart (ram_gpa r1) (ram_size r1) (ram_gpa r2) (ram_size r2).
Definition io_apart (r1 r2 : io_region) : Prop :=
  apart (base r1) (io_size r1) (base r2) (io_size r2).

Definition io_list_inv (t : io_space) (l : list io_region) : Prop :=
  Forall (fun r => span_ok (base r) (io_size r) ∧ type r = t) l ∧
  ForallOrdPairs io_apart l ∧ NoDup (reg_addr <$> l).

(** Guest RAM on its own. *)
Record mem_inv (ms : mem_space) : Prop := {
  mem_span : Forall (fun r => span_ok (ram_gpa r) (ram_size r)) (regions ms);
  mem_align :
    Forall (fun r => ram_gpa r mod host_page_size ms = 0 ∧ ram_size r mod host_page_size ms = 0)
      (regions ms);
  mem_apart : ForallOrdPairs ram_apart (regions ms);
  mem_total : total_ram ms = foldr (fun r acc => ram_size r + acc) 0 (regions ms);
  mem_total_max : total_ram ms ≤ SIZE_MAX;
}.

Record topology_inv (ctx : vm_ctx) : Prop := {
  topo_mem : mem_inv (mem ctx);
  topo_pio : io_list_inv IO_PIO (pio_regions (io ctx));
  topo_mmio : io_list_inv IO_MMIO (mmio_regions (io ctx));
  topo_ram_mmio :
    Forall (fun r => Forall (fun m => apart (ram_gpa r) (ram_size r) (base m) (io_size m))
                       (mmio_regions (io ctx))) (regions (mem ctx));
}.

(** ** Lemmas *)

(** A tactic for goals on spans and 64-bit sums that do not wrap. *)
Ltac spans :=
  unfold span_ok, apart, gpa_add, gpa_offset in *;
  repeat match goal with H : _ ∧ _ |- _ => destruct H end;
  rewrite ?u64_small in * by word; word.

Lemma overlap_apart b1 s1 b2 s2 :
  span_ok b1 s1 → span_ok b2 s2 →
  (b1 <? u64 (b2 + s2)) && (b2 <? u64 (b1 + s1)) = false → apart b1 s1 b2 s2.
Proof.
  intros H1 H2. unfold span_ok in *. rewrite !u64_small by word.
  rewrite andb_false_iff, !Z.ltb_ge. unfold apart. lia.
Qed.

Lemma apart_overlap b1 s1 b2 s2 :
  span_ok b1 s1 → span_ok b2 s2 → apart b1 s1 b2 s2 →
  (b1 <? u64 (b2 + s2)) && (b2 <? u64 (b1 + s1)) = false.
Proof.
  intros H1 H2. unfold span_ok in *. rewrite !u64_small by word.
  rewrite andb_false_iff, !Z.ltb_ge. unfold apart. lia.
Qed.

Lemma apart_sym b1 s1 b2 s2 : apart b1 s1 b2 s2 → apart b2 s2 b1 s1.
Proof. unfold apart. lia. Qed.

Lemma io_apart_sym r1 r2 : io_apart r1 r2 → io_apart r2 r1.
Proof. apply apart_sym. Qed.
Lemma ram_apart_sym r1 r2 : ram_apart r1 r2 → ram_apart r2 r1.
Proof. apply apart_sym. Qed.

Lemma io_list_set m t l : io_list (set_io_list m t l) t = l.
Proof. by destruct t. Qed.
Lemma io_list_set_ne m t t' l : t ≠ t' → io_list (set_io_list m t l) t' = io_list m t'.
Proof. by destruct t, t'. Qed.

Lemma topo_io ctx t : topology_inv ctx → io_list_inv t (io_list (io ctx) t).
Proof. intros I. destruct t; [apply (topo_pio _ I)|apply (topo_mmio _ I)]. Qed.

(** Replacing one I/O list by another that is well formed, and apart from RAM
    when it is the MMIO one, keeps the invariant. *)
Lemma set_io_list_inv ctx t l :
  topology_inv ctx → io_list_inv t l →
  (t = IO_MMIO → Forall (fun m => Forall (fun r =>
     apart (ram_gpa r) (ram_size r) (base m) (io_size m)) (regions (mem ctx))) l) →
  topology_inv (ctx <| io := set_io_list (io ctx) t l |>).
Proof.
  intros [] Hl Hm. destruct t; split; simpl; try done.
  specialize (Hm eq_refl). apply Forall_forall. intros r Hr. apply Forall_forall. intros m Hin.
  rewrite Forall_forall in Hm. specialize (Hm m Hin). rewrite Forall_forall in Hm. auto.
Qed.

Lemma ram_mmio_swap ctx m r :
  topology_inv ctx → m ∈ mmio_regions (io ctx) → r ∈ regions (mem ctx) →
  apart (ram_gpa r) (ram_size r) (base m) (io_size m).
Proof.
  intros I Hm Hr. pose proof (topo_ram_mmio _ I) as H. rewrite Forall_forall in H.
  specialize (H r Hr). rewrite Forall_forall in H. auto.
Qed.

Lemma foldr_ram_app l r :
  foldr (fun r acc => ram_size r + acc) 0 (l ++ [r]) =
  foldr (fun r acc => ram_size r + acc) 0 l + ram_size r.
Proof. induction l as [|x l IH]; simpl; [lia|]. rewrite IH. lia. Qed.

Lemma foldr_ram_nonneg l :
  Forall (fun r => span_ok (ram_gpa r) (ram_size r)) l →
  0 ≤ foldr (fun r acc => ram_size r + acc) 0 l.
Proof. induction 1 as [|r l [? [? ?]] _ IH]; simpl; lia. Qed.

(** What a successful or failed [vm_add_ram] did. *)
Lemma vm_add_ram_cases ctx gpa size flags calloc pages map_ram :
  topology_inv ctx → is_u64 gpa → is_u64 size →
  let '(ctx', ret, ev) := vm_add_ram ctx gpa size flags calloc pages map_ram in
  (ctx' = ctx ∧ (ret < 0 ∨ ∃ e, pages = ERR_PTR e ∧ ret = e)) ∨
  (∃ hva f, ret = 0 ∧ pages = Ptr hva ∧ map_ram = Some f ∧ 0 ≤ f (mk_ram gpa size hva flags) ∧
    ev = [AllocNode; AllocPages hva size] ∧
    ctx' = ctx <| mem := mk_space (regions (mem ctx) ++ [mk_ram gpa size hva flags])
                    (total_ram (mem ctx) + size) (host_page_size (mem ctx)) |> ∧
    state ctx = VM_BUILDING ∧
    total_ram (mem ctx) + size ≤ SIZE_MAX ∧ span_ok gpa size ∧
    gpa mod host_page_size (mem ctx) = 0 ∧ size mod host_page_size (mem ctx) = 0 ∧
    Forall (fun r => apart gpa size (ram_gpa r) (ram_size r)) (regions (mem ctx)) ∧
    Forall (fun r => apart gpa size (base r) (io_size r)) (mmio_regions (io ctx))).
Proof.
  intros I Hg Hs. unfold vm_add_ram.
  destruct (Z.eqb_spec size 0); [left; split; [done|by left]|].
  destruct (bool_decide_reflect (state ctx = VM_BUILDING)), (stop_requested ctx); simpl;
    try (left; split; [done|by left]).
  destruct (_ || _); [left; split; [done|by left]|].
  destruct map_ram as [f|]; [|left; split; [done|by left]].
  destruct (Z.ltb_spec (SIZE_MAX - total_ram (mem ctx)) size); [left; split; [done|by left]|].
  destruct (Z.ltb_spec (UINT64_MAX - gpa) size); [left; split; [done|by left]|].
  destruct (Z.eqb_spec (gpa mod host_page_size (mem ctx)) 0),
    (Z.eqb_spec (size mod host_page_size (mem ctx)) 0); simpl; try (left; split; [done|by left]).
  destruct (existsb _ (regions (mem ctx))) eqn:E1; [left; split; [done|by left]|].
  destruct (existsb _ (mmio_regions (io ctx))) eqn:E2; [left; split; [done|by left]|].
  destruct calloc; simpl; [|left; split; [done|by left]].
  destruct pages as [hva|err]; [|left; split; [done|right; by exists err]].
  destruct (Z.ltb_spec (f (mk_ram gpa size hva flags)) 0); [left; split; [done|by left]|].
  assert (Sp : span_ok gpa size) by (unfold span_ok; word).
  assert (0 ≤ total_ram (mem ctx)).
  { rewrite (mem_total _ (topo_mem _ I)). apply foldr_ram_nonneg, (mem_span _ (topo_mem _ I)). }
  right. exists hva, f. rewrite u64_small by word. split_and!; try done; [lia|..].
  - apply Forall_forall. intros r Hr. apply overlap_apart; [done| |by apply (existsb_false_elem _ _ _ E1)].
    pose proof (mem_span _ (topo_mem _ I)) as S. rewrite Forall_forall in S. auto.
  - apply Forall_forall. intros r Hr. apply overlap_apart; [done| |by apply (existsb_false_elem _ _ _ E2)].
    pose proof (topo_mmio _ I) as [S _]. rewrite Forall_forall in S. by apply S.
Qed.

Lemma vm_add_ram_inv ctx gpa size flags calloc pages map_ram :
  topology_inv ctx → is_u64 gpa → is_u64 size →
  topology_inv (vm_add_ram ctx gpa size flags calloc pages map_ram).1.1.
Proof.
  intros I Hg Hs. pose proof (vm_add_ram_cases ctx gpa size flags calloc pages map_ram I Hg Hs) as C.
  destruct (vm_add_ram _ _ _ _ _ _ _) as [[ctx' ret] ev]. simpl.
  destruct C as [[-> _]|(hva & f & _ & _ & _ & _ & _ & -> & _ & Tm & Sp & A1 & A2 & F1 & F2)]; [done|].
  destruct I as [[] ? ? ?]. split; simpl; try done; [split; simpl; try done|].
  - apply Forall_app. by rewrite Forall_singleton.
  - apply Forall_app. by rewrite Forall_singleton.
  - apply ForallOrdPairs_snoc; [done|]. eapply Forall_impl; [exact F1|]. intros r. apply apart_sym.
  - rewrite foldr_ram_app. simpl. lia.
  - apply Forall_app. rewrite Forall_singleton. by split.
Qed.

Lemma io_list_snoc_inv t l r :
  io_list_inv t l → span_ok (base r) (io_size r) → type r = t →
  Forall (fun x => io_apart x r) l → reg_addr r ∉ (reg_addr <$> l) → io_list_inv t (l ++ [r]).
Proof.
  intros (F & P & N) Hs Ht Ha Hn. split_and!.
  - apply Forall_app. by rewrite Forall_singleton.
  - by apply ForallOrdPairs_snoc.
  - rewrite fmap_app. apply NoDup_app. split_and!; [done| |apply NoDup_singleton].
    intros x Hx ->%list_elem_of_singleton. done.
Qed.

Lemma io_list_del_sublist addr l : sublist (io_list_del addr l) l.
Proof. apply sublist_filter. Qed.

Lemma io_list_del_inv t addr l : io_list_inv t l → io_list_inv t (io_list_del addr l).
Proof.
  intros (F & P & N). pose proof (io_list_del_sublist addr l) as S. split_and!.
  - by eapply sublist_Forall.
  - by eapply ForallOrdPairs_sublist.
  - eapply sublist_NoDup; [exact N|]. by apply fmap_sublist.
Qed.

Lemma io_list_del_fresh r l :
  reg_addr r ∉ (reg_addr <$> l) → io_list_del (reg_addr r) (l ++ [r]) = l.
Proof.
  intros Hn. unfold io_list_del. rewrite filter_app. rewrite filter_cons_False by (simpl; tauto).
  rewrite filter_nil, app_nil_r. induction l as [|x l IH]; [done|].
  rewrite fmap_cons, not_elem_of_cons in Hn. destruct Hn as [Hx Hn].
  rewrite filter_cons_True by auto. f_equal. auto.
Qed.

Lemma set_io_list_same m t : set_io_list m t (io_list m t) = m.
Proof. by destruct m, t. Qed.
Lemma set_io_list_twice m t l l' : set_io_list (set_io_list m t l) t l' = set_io_list m t l'.
Proof. by destruct t. Qed.
Lemma set_io_same ctx : ctx <| io := io ctx |> = ctx.
Proof. by destruct ctx. Qed.

(** The address the allocator hands out is not that of a live region. *)
Definition fresh_alloc (ctx : vm_ctx) (alloc : option Z) : Prop :=
  ∀ a t, alloc = Some a → ResPool.node_data a ∉ (reg_addr <$> io_list (io ctx) t).

(** What a registration did: nothing, or one region at the end of its list,
    apart from all others. *)
Lemma register_cases ctx t b s owner pool valid a1 a2 :
  topology_inv ctx → is_u64 b → is_u64 s → fresh_alloc ctx a1 →
  let '(ctx', _, r) := io_map_register_region_locked ctx t b s owner pool valid a1 a2 in
  match r with
  | ERR_PTR e => e < 0 ∧ ctx' = ctx
  | Ptr reg =>
      ctx' = ctx <| io := set_io_list (io ctx) t (io_list (io ctx) t ++ [reg]) |> ∧
      (∃ addr, reg = mk_io addr owner b s t true ∧ addr ∉ (reg_addr <$> io_list (io ctx) t)) ∧
      span_ok b s ∧ Forall (fun x => io_apart x reg) (io_list (io ctx) t) ∧
      (t = IO_MMIO → Forall (fun r => apart (ram_gpa r) (ram_size r) b s) (regions (mem ctx)))
  end.
Proof.
  intros I Hb Hs Hf. unfold io_map_register_region_locked.
  destruct valid; simpl; [|done]. destruct (Z.eqb_spec s 0); [done|].
  destruct (Z.ltb_spec (UINT64_MAX - s) b); [done|].
  destruct (existsb _ (io_list (io ctx) t)) eqn:E1; [done|].
  destruct (bool_decide (t = IO_MMIO) && _) eqn:E2; [done|].
  assert (Sp : span_ok b s) by (unfold span_ok; word).
  unfold ResPool.res_zalloc. destruct (ResPool.releasing pool) eqn:R; simpl; [done|].
  destruct a1 as [a|]; [|done]. pose proof (Hf a t eq_refl) as Hfr.
  set (reg := mk_io _ _ _ _ _ _). unfold ResPool.res_add_action.
  assert (Undo : io_region_unregister
      (ctx <| io := set_io_list (io ctx) t (io_list (io ctx) t ++ [reg]) |>) reg = ctx).
  { unfold io_region_unregister. simpl. rewrite io_list_set, set_io_list_twice.
    change (ResPool.node_data a) with (reg_addr reg). rewrite io_list_del_fresh by done.
    destruct ctx. simpl. unfold update. simpl. by rewrite set_io_list_same. }
  cbn [ResPool.releasing]. fields. rewrite R.
  destruct (existsb (ResPool.node_is _ _) _); [simpl; by rewrite Undo|].
  destruct a2 as [a'|]; [|simpl; by rewrite Undo]. simpl.
  split_and!; [done|by exists (ResPool.node_data a)|done|..].
  - apply Forall_forall. intros x Hx. apply apart_sym, overlap_apart; [done| |].
    + destruct (topo_io ctx t I) as [F _]. rewrite Forall_forall in F. by apply F.
    + by apply (existsb_false_elem _ _ _ E1).
  - intros ->. rewrite bool_decide_true in E2 by done. simpl in E2.
    apply Forall_forall. intros x Hx. apply apart_sym, overlap_apart; [done| |].
    + pose proof (mem_span _ (topo_mem _ I)) as F. rewrite Forall_forall in F. by apply F.
    + by apply (existsb_false_elem _ _ _ E2).
Qed.

Lemma register_inv ctx t b s owner pool valid a1 a2 :
  topology_inv ctx → is_u64 b → is_u64 s → fresh_alloc ctx a1 →
  topology_inv (io_map_register_region_locked ctx t b s owner pool valid a1 a2).1.1.
Proof.
  intros I Hb Hs Hf. pose proof (register_cases ctx t b s owner pool valid a1 a2 I Hb Hs Hf) as C.
  destruct (io_map_register_region_locked _ _ _ _ _ _ _ _ _) as [[ctx' p'] [reg|e]]; simpl;
    [|by destruct C as [_ ->]].
  destruct C as (-> & (addr & -> & Hn) & Sp & Ha & Hm).
  apply set_io_list_inv; [done| |].
  - apply io_list_snoc_inv; try done. by apply topo_io.
  - intros ->. apply Forall_app. rewrite Forall_singleton. split; [|by apply Hm].
    apply Forall_forall. intros m Hin. apply Forall_forall. intros r Hr. by eapply ram_mmio_swap.
Qed.

Lemma unregister_inv ctx reg : topology_inv ctx → topology_inv (io_region_unregister ctx reg).
Proof.
  intros I. apply set_io_list_inv; [done|by apply io_list_del_inv, topo_io|].
  intros ->. eapply sublist_Forall; [apply io_list_del_sublist|].
  apply Forall_forall. intros m Hin. apply Forall_forall. intros r Hr. by eapply ram_mmio_swap.
Qed.

Lemma io_list_update_addrs addr f l :
  (∀ r, reg_addr (f r) = reg_addr r) → reg_addr <$> io_list_update addr f l = reg_addr <$> l.
Proof.
  intros Hf. unfold io_list_update. rewrite <- list_fmap_compose. apply list_fmap_ext.
  intros _ r _. simpl. by destruct (_ =? _).
Qed.

Lemma elem_of_io_list_update addr f l x :
  x ∈ io_list_update addr f l →
  ∃ r, r ∈ l ∧ x = (if reg_addr r =? addr then f r else r).
Proof. unfold io_list_update. rewrite list_elem_of_fmap. intros (r & -> & Hr). by exists r. Qed.

(** Two regions with one address are one region. *)
Lemma reg_addr_inj l r r' :
  NoDup (reg_addr <$> l) → r ∈ l → r' ∈ l → reg_addr r = reg_addr r' → r = r'.
Proof.
  induction l as [|x l IH]; [intros _ ? ?%elem_of_nil; done|].
  rewrite fmap_cons, NoDup_cons, !elem_of_cons. intros [Hx N] [->|H1] [->|H2] E; auto.
  - contradict Hx. rewrite E. by apply list_elem_of_fmap_2.
  - contradict Hx. rewrite <- E. by apply list_elem_of_fmap_2.
Qed.

Lemma io_list_update_apart addr f l :
  NoDup (reg_addr <$> l) → ForallOrdPairs io_apart l →
  (∀ r x, r ∈ l → x ∈ l → reg_addr r = addr → reg_addr x ≠ addr → io_apart (f r) x) →
  ForallOrdPairs io_apart (io_list_update addr f l).
Proof.
  intros N P H. induction P as [|y l Hy P IH]; [constructor|]. simpl.
  rewrite fmap_cons, NoDup_cons in N. destruct N as [Hny N].
  constructor.
  2: { apply IH; [done|]. intros r x Hr Hx. apply H; by right. }
  apply Forall_forall. intros x (r & Hr & ->)%elem_of_io_list_update.
  assert (Hne : reg_addr r ≠ reg_addr y).
  { intros E. apply Hny. rewrite <- E. by apply list_elem_of_fmap_2. }
  rewrite Forall_forall in Hy.
  destruct (Z.eqb_spec (reg_addr y) addr), (Z.eqb_spec (reg_addr r) addr); try lia.
  - apply H; [by left|by right|done..].
  - apply apart_sym, H; [by right|by left|done..].
  - auto.
Qed.

Lemma io_list_update_inv t addr f l :
  io_list_inv t l →
  (∀ r, reg_addr (f r) = reg_addr r ∧ type (f r) = type r) →
  (∀ r, r ∈ l → reg_addr r = addr → span_ok (base (f r)) (io_size (f r))) →
  (∀ r x, r ∈ l → x ∈ l → reg_addr r = addr → reg_addr x ≠ addr → io_apart (f r) x) →
  io_list_inv t (io_list_update addr f l).
Proof.
  intros (F & P & N) Hf Hs Ha. split_and!.
  - rewrite Forall_forall in *. intros x (r & Hr & ->)%elem_of_io_list_update.
    destruct (F r Hr). destruct (Z.eqb_spec (reg_addr r) addr); [|done].
    rewrite (proj2 (Hf r)). auto.
  - by apply io_list_update_apart.
  - rewrite io_list_update_addrs; [done|]. apply Hf.
Qed.

(** What a relocation did: nothing, or the one region moved to a free place. *)
Lemma relocate_cases ctx target nb :
  topology_inv ctx → is_u64 nb → target ∈ io_list (io ctx) (type target) →
  let '(ctx', ret) := io_map_relocate_region_locked ctx target nb in
  (ret < 0 ∧ ctx' = ctx) ∨
  (ret = 0 ∧
   ctx' = ctx <| io := set_io_list (io ctx) (type target)
            (io_list_update (reg_addr target) (fun r => r <| base := nb |>)
               (io_list (io ctx) (type target))) |> ∧
   span_ok nb (io_size target) ∧
   (∀ x, x ∈ io_list (io ctx) (type target) → reg_addr x ≠ reg_addr target →
      apart nb (io_size target) (base x) (io_size x)) ∧
   (type target = IO_MMIO →
      ∀ r, r ∈ regions (mem ctx) → apart nb (io_size target) (ram_gpa r) (ram_size r))).
Proof.
  intros I Hb Ht. unfold io_map_relocate_region_locked.
  destruct (topo_io ctx (type target) I) as [F _]. rewrite Forall_forall in F.
  destruct (F target Ht) as [St _]. pose proof (mem_span _ (topo_mem _ I)) as R. rewrite Forall_forall in R.
  destruct (Z.ltb_spec (UINT64_MAX - io_size target) nb); [by left|].
  destruct (existsb _ (io_list _ _)) eqn:E1; [by left|].
  destruct (bool_decide _ && _) eqn:E2; [by left|]. right.
  assert (Sp : span_ok nb (io_size target)) by (unfold span_ok in *; word).
  split_and!; try done.
  - intros x Hx Hne. apply overlap_apart; [done|by apply F|].
    pose proof (existsb_false_elem _ _ _ E1 Hx) as E. simpl in E.
    destruct (Z.eqb_spec (reg_addr x) (reg_addr target)); done.
  - intros Hm r Hr. rewrite bool_decide_true in E2 by done. simpl in E2.
    apply overlap_apart; [done|by apply R|]. apply (existsb_false_elem _ _ _ E2 Hr).
Qed.

Lemma relocate_inv ctx target nb :
  topology_inv ctx → is_u64 nb → target ∈ io_list (io ctx) (type target) →
  topology_inv (io_map_relocate_region_locked ctx target nb).1.
Proof.
  intros I Hb Ht. pose proof (relocate_cases ctx target nb I Hb Ht) as C.
  destruct (io_map_relocate_region_locked _ _ _) as [ctx' ret]. simpl.
  destruct C as [[_ ->]|(_ & -> & Sp & A1 & A2)]; [done|].
  pose proof (topo_io ctx (type target) I) as L. pose proof L as (_ & _ & N).
  assert (U : ∀ r, r ∈ io_list (io ctx) (type target) → reg_addr r = reg_addr target → r = target)
    by (intros; by eapply reg_addr_inj).
  apply set_io_list_inv; [done| |].
  - apply io_list_update_inv; [done|done|intros r Hr E; by rewrite (U r Hr E)|].
    intros r x Hr Hx E Hne. rewrite (U r Hr E). by apply A1.
  - intros Hm. apply Forall_forall. intros x (r & Hr & ->)%elem_of_io_list_update.
    apply Forall_forall. intros ram Hram. destruct (Z.eqb_spec (reg_addr r) (reg_addr target)) as [E|E].
    + rewrite (U r Hr E). simpl. apply apart_sym. by apply A2.
    + rewrite Hm in Hr. by eapply ram_mmio_swap.
Qed.

Lemma set_enabled_inv ctx target on :
  topology_inv ctx → topology_inv (io_region_set_enabled ctx target on).
Proof.
  intros I. pose proof (topo_io ctx (type target) I) as L. pose proof L as (F & P & N).
  rewrite Forall_forall in F. apply set_io_list_inv; [done| |].
  - apply io_list_update_inv; [done|done|intros r Hr _; exact (proj1 (F r Hr))|].
    intros r x Hr Hx E Hne. destruct (ForallOrdPairs_elem io_apart _ r x io_apart_sym P Hr Hx); [congruence|done].
  - intros Hm. apply Forall_forall. intros x (r & Hr & ->)%elem_of_io_list_update.
    apply Forall_forall. intros ram Hram. rewrite Hm in Hr.
    pose proof (ram_mmio_swap _ _ _ I Hr Hram). by destruct (_ =? _).
Qed.

(** ** The address spaces of a machine, over its life *)

(** One change of the address spaces.  The allocator hands out fresh
    addresses; relocation and enabling name a live region. *)
Inductive topology_step : vm_ctx → vm_ctx → Prop :=
| step_add_ram ctx gpa size flags calloc pages map_ram :
    is_u64 gpa → is_u64 size →
    topology_step ctx (vm_add_ram ctx gpa size flags calloc pages map_ram).1.1
| step_register ctx t b s owner pool valid a1 a2 :
    is_u64 b → is_u64 s → fresh_alloc ctx a1 →
    topology_step ctx (io_map_register_region_locked ctx t b s owner pool valid a1 a2).1.1
| step_unregister ctx reg :
    topology_step ctx (io_region_unregister ctx reg)
| step_relocate ctx target nb :
    is_u64 nb → target ∈ io_list (io ctx) (type target) →
    topology_step ctx (io_map_relocate_region_locked ctx target nb).1
| step_enable ctx target on :
    topology_step ctx (io_region_set_enabled ctx target on)
| step_state ctx s stop :
    topology_step ctx (ctx <| state := s |> <| stop_requested := stop |>).

(** A machine before anything is mapped. *)
Definition empty_machine (accel : bool) (page_size : Z) : vm_ctx :=
  mk_vm VM_BUILDING false accel (mem_space_init page_size).1 (mk_map [] []).

Lemma empty_machine_inv accel page_size : topology_inv (empty_machine accel page_size).
Proof.
  split; simpl; [split; simpl; first [word | by constructor]|by repeat constructor..].
Qed.

Lemma topology_step_inv ctx ctx' : topology_step ctx ctx' → topology_inv ctx → topology_inv ctx'.
Proof.
  intros S I. destruct S.
  - by apply vm_add_ram_inv.
  - by apply register_inv.
  - by apply unregister_inv.
  - by apply relocate_inv.
  - by apply set_enabled_inv.
  - destruct I. by split.
Qed.

(** C7. Whatever RAM banks are added, and whatever regions are registered,
    moved, switched and withdrawn, in whatever order and with whatever
    failures, the address spaces stay consistent: no span wraps, RAM banks are
    page-aligned and pairwise apart, I/O regions of one space are pairwise
    apart, RAM and MMIO are apart, and [total_ram] is the sum of the banks. *)
Theorem topology_reachable_inv accel page_size ctx :
  rtc topology_step (empty_machine accel page_size) ctx → topology_inv ctx.
Proof.
  intros R. assert (I : topology_inv (empty_machine accel page_size)) by apply empty_machine_inv.
  induction R as [|x y z S _ IH]; [done|]. apply IH. by apply (topology_step_inv _ _ S).
Qed.

(** ** Translation of guest addresses *)

Definition in_ram (r : mem_region) (a : Z) : Prop := ram_gpa r ≤ a < ram_gpa r + ram_size r.

Lemma find_region_spec ms a r :
  mem_inv ms → (find_region ms a = Some r ↔ r ∈ regions ms ∧ in_ram r a).
Proof.
  intros I. unfold find_region, in_ram. split.
  - intros [Hr E]%find_Some_elem. apply andb_true_iff in E as [?%Z.leb_le ?%Z.ltb_lt].
    split; [done|lia].
  - intros [Hr Ha]. apply find_unique; [done|apply andb_true_iff; rewrite Z.leb_le, Z.ltb_lt; lia|].
    intros y Hy E. apply andb_true_iff in E as [?%Z.leb_le ?%Z.ltb_lt].
    destruct (ForallOrdPairs_elem _ _ y r ram_apart_sym (mem_apart _ I) Hy Hr) as [->|A]; [done|].
    unfold ram_apart, apart in A. lia.
Qed.

Lemma ram_span ms r :
  mem_inv ms → r ∈ regions ms → span_ok (ram_gpa r) (ram_size r).
Proof. intros I. pose proof (mem_span _ I) as F. rewrite Forall_forall in F. auto. Qed.

(** Whether a span can be used for reading, or for writing. *)
Definition ram_allows (r : mem_region) (write : bool) : bool :=
  negb (write && has (flags r) MEM_READONLY).

Lemma mem_map_chunk_spec ms a len write h n :
  mem_inv ms → is_u64 a → is_u64 len → 0 < len → a + len ≤ UINT64_MAX →
  (mem_map_chunk ms a len write = (Some h, n) ↔
   ∃ r, r ∈ regions ms ∧ in_ram r a ∧ ram_allows r write = true ∧
     h = hva r + (a - ram_gpa r) ∧ n = len `min` (ram_gpa r + ram_size r - a)).
Proof.
  intros I Ha Hl Hp Hw. unfold mem_map_chunk, ram_allows.
  destruct (Z.eqb_spec len 0); [lia|]. destruct (Z.ltb_spec (UINT64_MAX - a) len); [lia|]. simpl.
  assert (V : ∀ r, r ∈ regions ms → in_ram r a →
      (if len <? ram_size r - gpa_offset a (ram_gpa r) then len
       else ram_size r - gpa_offset a (ram_gpa r)) = len `min` (ram_gpa r + ram_size r - a) ∧
      gpa_offset a (ram_gpa r) = a - ram_gpa r).
  { intros r Hr Hin. pose proof (ram_span _ _ I Hr) as (? & ? & ?). unfold in_ram, gpa_offset in *.
    rewrite u64_small by word. split; [|done].
    destruct (Z.ltb_spec len (ram_size r - (a - ram_gpa r))); lia. }
  split.
  - destruct (find_region ms a) as [r|] eqn:E; [|done].
    apply (find_region_spec _ _ _ I) in E as [Hr Hin]. destruct (V r Hr Hin) as [-> ->].
    destruct (write && has (flags r) MEM_READONLY) eqn:W; [done|]. intros [= <- <-].
    exists r. by rewrite W.
  - intros (r & Hr & Hin & W & -> & ->).
    rewrite (proj2 (find_region_spec _ _ r I) (conj Hr Hin)).
    apply negb_true_iff in W. rewrite W. by destruct (V r Hr Hin) as [-> ->].
Qed.

Lemma mem_map_range_inside ms a len write h :
  mem_inv ms → is_u64 a → is_u64 len → mem_map_range ms a len write = Some h →
  ∃ r, r ∈ regions ms ∧ ram_gpa r ≤ a ∧ 0 < len ∧ a + len ≤ ram_gpa r + ram_size r ∧
     ram_allows r write = true ∧ h = hva r + (a - ram_gpa r).
Proof.
  intros I Ha Hn. unfold mem_map_range.
  destruct (mem_map_chunk ms a len write) as [o k] eqn:C.
  destruct (Z.eqb_spec k len) as [->|]; [|done]. intros ->.
  assert (Hp : 0 < len ∧ a + len ≤ UINT64_MAX).
  { unfold mem_map_chunk in C. destruct (Z.eqb_spec len 0), (Z.ltb_spec (UINT64_MAX - a) len);
      simpl in C; try done. word. }
  apply (mem_map_chunk_spec _ _ _ _ _ _ I Ha Hn (proj1 Hp) (proj2 Hp)) in C
    as (r & Hr & [? ?] & W & -> & M). exists r. split_and!; try done; lia.
Qed.

Lemma mem_map_range_intro ms a len write r :
  mem_inv ms → is_u64 a → is_u64 len → r ∈ regions ms →
  ram_gpa r ≤ a → 0 < len → a + len ≤ ram_gpa r + ram_size r → ram_allows r write = true →
  mem_map_range ms a len write = Some (hva r + (a - ram_gpa r)).
Proof.
  intros I Ha Hl Hr Hb Hp He W. pose proof (ram_span _ _ I Hr) as (? & ? & ?).
  unfold mem_map_range.
  rewrite (proj2 (mem_map_chunk_spec _ a len write (hva r + (a - ram_gpa r)) len I Ha Hl Hp ltac:(lia))).
  - by rewrite Z.eqb_refl.
  - exists r. unfold in_ram. split_and!; try done; lia.
Qed.

(** C8. [mem_map_range] succeeds exactly on the spans that lie inside one RAM
    bank that permits the access, and then returns the host address at the
    same offset of the bank's backing store; a span that leaves its bank, is
    empty or wraps is refused as a whole. *)
Theorem mem_map_range_spec ms a len write h :
  mem_inv ms → is_u64 a → is_u64 len →
  (mem_map_range ms a len write = Some h ↔
   ∃ r, r ∈ regions ms ∧ ram_gpa r ≤ a ∧ 0 < len ∧ a + len ≤ ram_gpa r + ram_size r ∧
     ram_allows r write = true ∧ h = hva r + (a - ram_gpa r)).
Proof.
  intros I Ha Hl. split; [by apply mem_map_range_inside|].
  intros (r & Hr & Hb & Hp & He & W & ->). by apply mem_map_range_intro.
Qed.

(** Distinct guest bytes never share a host byte: when the host backing
    stores of the banks do not overlap, as separate page allocations do not,
    two mapped guest spans whose host ranges intersect intersect at the same
    guest address. *)
Theorem mem_map_range_injective ms a1 n1 w1 h1 a2 n2 w2 h2 d1 d2 :
  mem_inv ms → is_u64 a1 → is_u64 n1 → is_u64 a2 → is_u64 n2 →
  ForallOrdPairs (fun r s => apart (hva r) (ram_size r) (hva s) (ram_size s)) (regions ms) →
  mem_map_range ms a1 n1 w1 = Some h1 → mem_map_range ms a2 n2 w2 = Some h2 →
  0 ≤ d1 < n1 → 0 ≤ d2 < n2 → h1 + d1 = h2 + d2 → a1 + d1 = a2 + d2.
Proof.
  intros I A1 N1 A2 N2 Hh (r1 & R1 & ? & ? & ? & _ & ->)%mem_map_range_inside
    (r2 & R2 & ? & ? & ? & _ & ->)%mem_map_range_inside; try done.
  intros D1 D2 E.
  destruct (ForallOrdPairs_elem _ _ r1 r2 (fun x y => apart_sym _ _ _ _) Hh R1 R2) as [->|A]; [lia|].
  unfold apart in A. lia.
Qed.

(** [vm_add_ram] is all or nothing.  On success the whole bank can be
    mapped (for writing too unless it is read-only) at the storage that was
    allocated, and every span that was mapped before still is; on failure the
    machine is unchanged and everything that was allocated has been freed. *)
Theorem vm_add_ram_atomic ctx gpa size flags calloc pages map_ram :
  topology_inv ctx → is_u64 gpa → is_u64 size → (∀ e, pages = ERR_PTR e → e < 0) →
  let '(ctx', ret, ev) := vm_add_ram ctx gpa size flags calloc pages map_ram in
  if ret =? 0 then
    (∃ hva, pages = Ptr hva ∧ ev = [AllocNode; AllocPages hva size] ∧
       mem_map_range (mem ctx') gpa size (negb (has flags MEM_READONLY)) = Some hva) ∧
    (∀ a len write h, is_u64 a → is_u64 len →
       mem_map_range (mem ctx) a len write = Some h → mem_map_range (mem ctx') a len write = Some h)
  else
    ret < 0 ∧ ctx' = ctx ∧
    (ev = [] ∨ ev = [AllocNode; FreeNode] ∨
     ∃ hva, ev = [AllocNode; AllocPages hva size; FreePages hva size; FreeNode]).
Proof.
  intros I Hg Hs He. pose proof (vm_add_ram_inv ctx gpa size flags calloc pages map_ram I Hg Hs) as I'.
  pose proof (vm_add_ram_cases ctx gpa size flags calloc pages map_ram I Hg Hs) as C.
  destruct (vm_add_ram _ _ _ _ _ _ _) as [[ctx' ret] ev] eqn:E. simpl in I'.
  destruct C as [[-> R]|(hva & f & -> & -> & _ & _ & -> & -> & _ & _ & Sp & _)].
  - assert (Hr : ret < 0) by (destruct R as [?|(e & ? & ->)]; auto).
    destruct (Z.eqb_spec ret 0); [lia|]. split_and!; [done..|]. revert E. unfold vm_add_ram.
    repeat case_match; intros E; simplify_eq; auto; try lia; right; right; by eexists.
  - set (reg := mk_ram gpa size hva flags) in *. set (ctx' := ctx <| mem := _ |>) in *.
    assert (Hin : ∀ r, r = reg ∨ r ∈ regions (mem ctx) → r ∈ regions (mem ctx')).
    { intros r [->|Hr]; apply elem_of_app; [right; by left|by left]. }
    change (0 =? 0) with true. cbv iota. split.
    + exists hva. split_and!; try done. destruct Sp as (? & ? & ?).
      replace (Some hva) with (Some (Space.hva reg + (gpa - ram_gpa reg))) by (simpl; f_equal; lia).
      apply mem_map_range_intro; auto; simpl; try lia; [apply (topo_mem _ I')|].
      unfold ram_allows. simpl. by destruct (has flags MEM_READONLY).
    + intros a len write h Ha Hl (r & Hr & ? & ? & ? & ? & ->)%mem_map_range_inside; try done; [|apply (topo_mem _ I)].
      apply mem_map_range_intro; auto. apply (topo_mem _ I').
Qed.

(** ** Dispatch of I/O accesses *)

(** The whole access falls into this enabled region. *)
Definition io_inside (r : io_region) (addr size : Z) : Prop :=
  enabled r = true ∧ base r ≤ addr ∧ addr + size ≤ base r + io_size r.

Lemma claims_spec ctx t r addr :
  topology_inv ctx → r ∈ io_list (io ctx) t →
  (claims addr r = true ↔ enabled r = true ∧ base r ≤ addr < base r + io_size r).
Proof.
  intros I Hr. destruct (topo_io ctx t I) as [F _]. rewrite Forall_forall in F.
  destruct (F r Hr) as [(? & ? & ?) _]. unfold claims, gpa_add. rewrite u64_small by word.
  rewrite !andb_true_iff, Z.leb_le, Z.ltb_lt. tauto.
Qed.

Lemma find_claims ctx t r addr :
  topology_inv ctx → r ∈ io_list (io ctx) t → claims addr r = true →
  find (claims addr) (io_list (io ctx) t) = Some r.
Proof.
  intros I Hr Hc. apply find_unique; [done..|]. intros y Hy Hcy.
  rewrite (claims_spec ctx t) in Hc, Hcy by done.
  destruct (topo_io ctx t I) as (_ & P & _).
  destruct (ForallOrdPairs_elem _ _ y r io_apart_sym P Hy Hr) as [->|A]; [done|].
  unfold io_apart, apart in A. lia.
Qed.

Section DispatchSpec.
Context {W : Type}.
Variable dev_read : Z → option (io_region → Z → Z → W → W * Z).
Variable dev_write : Z → option (io_region → Z → Z → Z → W → W).

(** An access of a legal size reaches the one enabled region that holds
    all of it, wherever the region stands in the list, and that region's
    device sees the offset into the region; an access that no enabled region
    holds entirely reads as all ones, and neither reads nor writes touch any
    device. *)
Theorem io_dispatch ctx t addr val size w :
  topology_inv ctx → is_u64 addr → io_size_valid size = true →
  (∀ r, r ∈ io_list (io ctx) t → io_inside r addr size →
     io_map_read dev_read (io ctx) t addr size w =
       match dev_read (dev r) with
       | Some read => read r (addr - base r) size w
       | None => (w, all_ones)
       end ∧
     io_map_write dev_write (io ctx) t addr val size w =
       match dev_write (dev r) with
       | Some write => write r (addr - base r) val size w
       | None => w
       end) ∧
  ((∀ r, r ∈ io_list (io ctx) t → ¬ io_inside r addr size) →
     io_map_read dev_read (io ctx) t addr size w = (w, all_ones) ∧
     io_map_write dev_write (io ctx) t addr val size w = w).
Proof.
  intros I Ha Hs. unfold io_map_read, io_map_write. rewrite Hs. simpl.
  unfold io_map_read_locked, io_map_write_locked.
  assert (Hpos : 0 < size).
  { unfold io_size_valid in Hs. rewrite !orb_true_iff, !Z.eqb_eq in Hs. lia. }
  assert (Off : ∀ r, r ∈ io_list (io ctx) t → base r ≤ addr → gpa_offset addr (base r) = addr - base r).
  { intros r Hr Hb. destruct (topo_io ctx t I) as [F _]. rewrite Forall_forall in F.
    destruct (F r Hr) as [(? & ? & ?) _]. unfold gpa_offset. apply u64_small. word. }
  split.
  - intros r Hr (En & Hb & He).
    rewrite (find_claims ctx t r addr I Hr) by (apply (claims_spec ctx t); [done..|split; [done|lia]]).
    rewrite Off by done. destruct (Z.ltb_spec (io_size r - (addr - base r)) size); [lia|done].
  - intros Hn. destruct (find (claims addr) (io_list (io ctx) t)) as [r|] eqn:F; [|done].
    apply find_Some_elem in F as [Hr Hc]. apply (claims_spec ctx t) in Hc as [En Hb]; [|done..].
    rewrite Off by (done || lia). specialize (Hn r Hr). unfold io_inside in Hn.
    destruct (Z.ltb_spec (io_size r - (addr - base r)) size); [done|]. contradict Hn. split_and!; [done|lia..].
Qed.
End DispatchSpec.

(** Moving a region is all or nothing, and a successful move carries the
    device along: afterwards the region is found at its new place and nowhere
    else, and the other regions are where they were. *)
Theorem io_map_relocate_spec ctx target nb :
  topology_inv ctx → is_u64 nb → target ∈ io_list (io ctx) (type target) →
  let '(ctx', ret) := io_map_relocate_region_locked ctx target nb in
  (ret < 0 → ctx' = ctx) ∧
  (0 ≤ ret → topology_inv ctx' ∧
     ∀ r, r ∈ io_list (io ctx') (type target) ↔
          r = target <| base := nb |> ∨
          (r ∈ io_list (io ctx) (type target) ∧ reg_addr r ≠ reg_addr target)).
Proof.
  intros I Hb Ht. pose proof (relocate_inv ctx target nb I Hb Ht) as I'.
  pose proof (relocate_cases ctx target nb I Hb Ht) as C.
  destruct (io_map_relocate_region_locked ctx target nb) as [ctx' ret]. simpl in I'.
  destruct C as [[? ->]|(-> & -> & _)]; [split; [done|lia]|]. split; [lia|]. intros _.
  split; [done|]. intros r. simpl. rewrite io_list_set.
  destruct (topo_io ctx (type target) I) as (_ & _ & N). split.
  - intros (x & Hx & ->)%elem_of_io_list_update.
    destruct (Z.eqb_spec (reg_addr x) (reg_addr target)) as [E|E]; [left|by right].
    by rewrite (reg_addr_inj _ x target N Hx Ht E).
  - unfold io_list_update. rewrite list_elem_of_fmap. intros [->|[Hr Hne]].
    + exists target. by rewrite Z.eqb_refl.
    + exists r. destruct (Z.eqb_spec (reg_addr r) (reg_addr target)); done.
Qed.

(** ** Examples *)

Definition example_ram1 : mem_region := mk_ram 0 0x3000 0x700000 0.
Definition example_ram2 : mem_region := mk_ram 0x10000 0x1000 0x900000 MEM_READONLY.
Definition example_dev1 : io_region := mk_io 0x5030 1 0x8000 0x200 IO_MMIO true.
Definition example_dev2 : io_region := mk_io 0x6030 2 0x9000 0x100 IO_MMIO true.

Ltac concrete_spans :=
  repeat match goal with
  | |- ram_apart _ _ => unfold ram_apart, apart; simpl; lia
  | |- io_apart _ _ => unfold io_apart, apart; simpl; lia
  | |- apart _ _ _ _ => unfold apart; simpl; lia
  | |- span_ok _ _ => unfold span_ok; simpl; word
  | |- _ ∉ _ => apply (bool_decide_unpack _); reflexivity
  | |- _ => constructor
  end.

(** Two banks of RAM, two MMIO regions. *)
Definition example_machine : vm_ctx :=
  mk_vm VM_BUILDING false true (mk_space [example_ram1; example_ram2] 0x4000 0x1000)
    (mk_map [] [example_dev1; example_dev2]).

Lemma example_machine_inv : topology_inv example_machine.
Proof.
  split; simpl; [split; simpl; first [done|word|idtac]|..]; concrete_spans.
Qed.

Lemma topology_reachable_witness :
  topology_inv
    (io_map_register_region_locked
       (vm_add_ram (empty_machine true 0x1000) 0 0x3000 0 true (Ptr 0x700000)
          (Some (fun _ => 0))).1.1
       IO_MMIO 0x8000 0x200 1 (ResPool.res_pool_init 1) true (Some 0x5000) (Some 0x6000)).1.1.
Proof.
  apply (topology_reachable_inv true 0x1000). eapply rtc_l.
  - apply (step_add_ram _ 0 0x3000 0 true (Ptr 0x700000) (Some (fun _ => 0))); word.
  - apply rtc_once, step_register; [word..|]. intros a t _. destruct t; apply not_elem_of_nil.
Defined.

Lemma mem_map_range_witness :
  mem_map_range (mem example_machine) 0x2ff0 0x10 true = Some 0x702ff0 ↔
  ∃ r, r ∈ regions (mem example_machine) ∧ ram_gpa r ≤ 0x2ff0 ∧ 0 < 0x10 ∧
    0x2ff0 + 0x10 ≤ ram_gpa r + ram_size r ∧ ram_allows r true = true ∧
    0x702ff0 = hva r + (0x2ff0 - ram_gpa r).
Proof.
  apply (mem_map_range_spec (mem example_machine) 0x2ff0 0x10 true 0x702ff0
           (topo_mem _ example_machine_inv)); word.
Defined.

Lemma mem_map_range_injective_witness : 0x10 + 0x20 = 0x20 + 0x10.
Proof.
  apply (mem_map_range_injective (mem example_machine) 0x10 0x40 false 0x700010 0x20 0x40 false 0x700020
           0x20 0x10 (topo_mem _ example_machine_inv)); try word; try reflexivity.
  concrete_spans.
Defined.

Lemma vm_add_ram_atomic_witness :
  let '(ctx', ret, ev) :=
    vm_add_ram example_machine 0x20000 0x1000 0 true (Ptr 0xa00000) (Some (fun _ => - VM_EIO)) in
  if ret =? 0 then
    (∃ hva, Ptr 0xa00000 = Ptr hva ∧ ev = [AllocNode; AllocPages hva 0x1000] ∧
       mem_map_range (mem ctx') 0x20000 0x1000 (negb (has 0 MEM_READONLY)) = Some hva) ∧
    (∀ a len write h, is_u64 a → is_u64 len →
       mem_map_range (mem example_machine) a len write = Some h →
       mem_map_range (mem ctx') a len write = Some h)
  else
    ret < 0 ∧ ctx' = example_machine ∧
    (ev = [] ∨ ev = [AllocNode; FreeNode] ∨
     ∃ hva, ev = [AllocNode; AllocPages hva 0x1000; FreePages hva 0x1000; FreeNode]).
Proof.
  apply (vm_add_ram_atomic example_machine 0x20000 0x1000 0 true (Ptr 0xa00000)
           (Some (fun _ => - VM_EIO)) example_machine_inv); [word|word|discriminate].
Defined.

(** A device that counts the accesses it gets and answers with the offset. *)
Definition example_read (d : Z) : option (io_region → Z → Z → Z → Z * Z) :=
  Some (fun _ offset _ w => (w + d, offset)).
Definition example_write (d : Z) : option (io_region → Z → Z → Z → Z → Z) :=
  if d =? 2 then Some (fun _ offset val _ w => w + val) else None.

Lemma io_dispatch_witness :
  io_map_read example_read (io example_machine) IO_MMIO 0x9004 4 10 = (12, 4) ∧
  io_map_write example_write (io example_machine) IO_MMIO 0x9004 5 4 10 = 15.
Proof.
  apply (io_dispatch example_read example_write example_machine IO_MMIO 0x9004 5 4 10
           example_machine_inv ltac:(word) eq_refl) with (r := example_dev2).
  - right. left.
  - unfold io_inside. simpl. split; [reflexivity|lia].
Defined.

Lemma io_map_relocate_witness :
  let '(ctx', ret) := io_map_relocate_region_locked example_machine example_dev1 0xa000 in
  (ret < 0 → ctx' = example_machine) ∧
  (0 ≤ ret → topology_inv ctx' ∧
     ∀ r, r ∈ io_list (io ctx') (type example_dev1) ↔
          r = example_dev1 <| base := 0xa000 |> ∨
          (r ∈ io_list (io example_machine) (type example_dev1) ∧
           reg_addr r ≠ reg_addr example_dev1)).
Proof.
  apply (io_map_relocate_spec example_machine example_dev1 0xa000 example_machine_inv);
    [word|left].
Defined.

End Space.
