(* ===== verification/Uart16550a.v ===== *)
(** * The 16550A serial port (src/hw/char/uart_16550a.c)

    The register file, the receive and transmit FIFOs, the software backlog
    with its flow control towards the host console, and the interrupt logic.
    The console is reached through the interface [CharBackend]. *)

From S2P Require Import Prelude Ring ResPool Topology.

(** ** What the UART needs of a console (include/modvm/io/char.h)

    [char_write] is [ops->write]; the others are [char_pause_rx_locked],
    [char_resume_rx_locked], [char_bind_locked] (with its receive limit) and
    [char_unbind_locked].  Each returns the backend after the call and the C
    return value, if there is one. *)
Class CharBackend (B : Type) := {
  char_write : B → list Z → B * Z;
  char_pause_rx : B → B * Z;
  char_resume_rx : B → B * Z;
  char_bind : B → Z → B * Z;
  char_unbind : B → B;
}.

Module Uart.

(** ** Register offsets and bits (src/hw/char/uart_16550a_reg.h) *)

Definition UART_FIFO_SIZE : Z := 16.
Definition UART_BACKLOG_SIZE : Z := 256.
Definition UART_BACKLOG_HIGH_WATERMARK : Z := 192.
Definition UART_BACKLOG_LOW_WATERMARK : Z := 64.

Definition UART_RX : Z := 0.
Definition UART_TX : Z := 0.
Definition UART_IER : Z := 1.
Definition UART_IIR : Z := 2.
Definition UART_FCR : Z := 2.
Definition UART_LCR : Z := 3.
Definition UART_MCR : Z := 4.
Definition UART_LSR : Z := 5.
Definition UART_MSR : Z := 6.
Definition UART_SCR : Z := 7.

Definition UART_IER_MSI : Z := 0x08.
Definition UART_IER_RLSI : Z := 0x04.
Definition UART_IER_THRI : Z := 0x02.
Definition UART_IER_RDI : Z := 0x01.

Definition UART_IIR_NO_INT : Z := 0x01.
Definition UART_IIR_ID : Z := 0x0e.

Definition UART_FCR_ENABLE_FIFO : Z := 0x01.
Definition UART_FCR_CLEAR_RCVR : Z := 0x02.
Definition UART_FCR_CLEAR_XMIT : Z := 0x04.

Definition UART_LCR_DLAB : Z := 0x80.
Definition UART_LCR_SBC : Z := 0x40.

Definition UART_MCR_LOOP : Z := 0x10.
Definition UART_MCR_OUT2 : Z := 0x08.
Definition UART_MCR_OUT1 : Z := 0x04.
Definition UART_MCR_RTS : Z := 0x02.
Definition UART_MCR_DTR : Z := 0x01.

Definition UART_LSR_TEMT : Z := 0x40.
Definition UART_LSR_THRE : Z := 0x20.
Definition UART_LSR_BI : Z := 0x10.
Definition UART_LSR_FE : Z := 0x08.
Definition UART_LSR_PE : Z := 0x04.
Definition UART_LSR_OE : Z := 0x02.
Definition UART_LSR_DR : Z := 0x01.
Definition UART_LSR_BRK_ERROR_BITS : Z :=
  Z.lor (Z.lor (Z.lor UART_LSR_BI UART_LSR_FE) UART_LSR_PE) UART_LSR_OE.

Definition UART_MSR_DCD : Z := 0x80.
Definition UART_MSR_RI : Z := 0x40.
Definition UART_MSR_DSR : Z := 0x20.
Definition UART_MSR_CTS : Z := 0x10.
Definition UART_MSR_DDCD : Z := 0x08.
Definition UART_MSR_TERI : Z := 0x04.
Definition UART_MSR_DDSR : Z := 0x02.
Definition UART_MSR_DCTS : Z := 0x01.
Definition UART_MSR_ANY_DELTA : Z :=
  Z.lor (Z.lor (Z.lor UART_MSR_DDCD UART_MSR_TERI) UART_MSR_DDSR) UART_MSR_DCTS.

(** ** What a call of the UART does to its surroundings, in order *)
Inductive event : Type :=
| IrqLevel (level : Z)          (* irq_set_level(ctx->irq, level) *)
| ReportError (error : Z)       (* vm_report_error(ctx->vm, error) *)
| RequestShutdown               (* vm_request_shutdown(ctx->vm) *)
| NullConsole.                  (* a dereference of a NULL ctx->console *)

Section Uart.
Context {B : Type} `{CharBackend B}.

(** ** State: struct uart_16550a_ctx

    [irq], [io_ctx] and [vm] are pointers fixed at realization; the calls made
    through them are the [trace]. *)
Record uart_16550a_ctx : Type := mk_uart {
  console : option B;
  reg_shift : Z;
  dll : Z; dlm : Z; ier : Z; fcr : Z; lcr : Z; mcr : Z; lsr : Z; msr : Z; scr : Z;
  rx_fifo : list Z; rx_head : Z; rx_tail : Z; rx_cnt : Z;
  backlog_fifo : list Z; backlog_head : Z; backlog_tail : Z; backlog_cnt : Z;
  rx_paused : bool; rx_bound : bool;
  tx_fifo : list Z; tx_head : Z; tx_tail : Z; tx_cnt : Z;
  rx_trigger_level : Z;
  rx_timeout : bool;
  thre_int_pending : bool;
  trace : list event;
}.

Definition eta_uart (c : uart_16550a_ctx) : uart_16550a_ctx :=
  mk_uart (console c) (reg_shift c) (dll c) (dlm c) (ier c) (fcr c) (lcr c) (mcr c)
    (lsr c) (msr c) (scr c) (rx_fifo c) (rx_head c) (rx_tail c) (rx_cnt c)
    (backlog_fifo c) (backlog_head c) (backlog_tail c) (backlog_cnt c)
    (rx_paused c) (rx_bound c) (tx_fifo c) (tx_head c) (tx_tail c) (tx_cnt c)
    (rx_trigger_level c) (rx_timeout c) (thre_int_pending c) (trace c).

#[export] Instance set_console : Setter console := ltac:(derive_setter eta_uart).
#[export] Instance set_reg_shift : Setter reg_shift := ltac:(derive_setter eta_uart).
#[export] Instance set_dll : Setter dll := ltac:(derive_setter eta_uart).
#[export] Instance set_dlm : Setter dlm := ltac:(derive_setter eta_uart).
#[export] Instance set_ier : Setter ier := ltac:(derive_setter eta_uart).
#[export] Instance set_fcr : Setter fcr := ltac:(derive_setter eta_uart).
#[export] Instance set_lcr : Setter lcr := ltac:(derive_setter eta_uart).
#[export] Instance set_mcr : Setter mcr := ltac:(derive_setter eta_uart).
#[export] Instance set_lsr : Setter lsr := ltac:(derive_setter eta_uart).
#[export] Instance set_msr : Setter msr := ltac:(derive_setter eta_uart).
#[export] Instance set_scr : Setter scr := ltac:(derive_setter eta_uart).
#[export] Instance set_rx_fifo : Setter rx_fifo := ltac:(derive_setter eta_uart).
#[export] Instance set_rx_head : Setter rx_head := ltac:(derive_setter eta_uart).
#[export] Instance set_rx_tail : Setter rx_tail := ltac:(derive_setter eta_uart).
#[export] Instance set_rx_cnt : Setter rx_cnt := ltac:(derive_setter eta_uart).
#[export] Instance set_backlog_fifo : Setter backlog_fifo := ltac:(derive_setter eta_uart).
#[export] Instance set_backlog_head : Setter backlog_head := ltac:(derive_setter eta_uart).
#[export] Instance set_backlog_tail : Setter backlog_tail := ltac:(derive_setter eta_uart).
#[export] Instance set_backlog_cnt : Setter backlog_cnt := ltac:(derive_setter eta_uart).
#[export] Instance set_rx_paused : Setter rx_paused := ltac:(derive_setter eta_uart).
#[export] Instance set_rx_bound : Setter rx_bound := ltac:(derive_setter eta_uart).
#[export] Instance set_tx_fifo : Setter tx_fifo := ltac:(derive_setter eta_uart).
#[export] Instance set_tx_head : Setter tx_head := ltac:(derive_setter eta_uart).
#[export] Instance set_tx_tail : Setter tx_tail := ltac:(derive_setter eta_uart).
#[export] Instance set_tx_cnt : Setter tx_cnt := ltac:(derive_setter eta_uart).
#[export] Instance set_rx_trigger_level : Setter rx_trigger_level := ltac:(derive_setter eta_uart).
#[export] Instance set_rx_timeout : Setter rx_timeout := ltac:(derive_setter eta_uart).
#[export] Instance set_thre_int_pending : Setter thre_int_pending := ltac:(derive_setter eta_uart).
#[export] Instance set_trace : Setter trace := ltac:(derive_setter eta_uart).

Definition emit (e : event) (c : uart_16550a_ctx) : uart_16550a_ctx :=
  c <| trace := trace c ++ [e] |>.

(** ** Operations *)

Definition uart_16550a_dlab_is_set (c : uart_16550a_ctx) : bool :=
  has (lcr c) UART_LCR_DLAB.

Definition uart_16550a_loopback_is_enabled (c : uart_16550a_ctx) : bool :=
  has (mcr c) UART_MCR_LOOP.

Definition uart_16550a_rx_fifo_clear (c : uart_16550a_ctx) : uart_16550a_ctx :=
  let c := c <| rx_head := 0 |> <| rx_tail := 0 |> <| rx_cnt := 0 |> in
  c <| lsr := u8 (clr_bits (lsr c) (Z.lor UART_LSR_DR UART_LSR_OE)) |>.

Definition uart_16550a_tx_fifo_clear (c : uart_16550a_ctx) : uart_16550a_ctx :=
  let c := c <| tx_head := 0 |> <| tx_tail := 0 |> <| tx_cnt := 0 |> in
  let c := c <| lsr := u8 (set_bits (lsr c) (Z.lor UART_LSR_THRE UART_LSR_TEMT)) |> in
  c <| thre_int_pending := true |>.

Definition uart_16550a_rx_fifo_push (c : uart_16550a_ctx) (b : Z) : uart_16550a_ctx :=
  if UART_FIFO_SIZE <=? rx_cnt c then
    c <| lsr := u8 (set_bits (lsr c) UART_LSR_OE) |>
  else
    let c := c <| rx_fifo := aset (rx_fifo c) (rx_head c) b |> in
    let c := c <| rx_head := u8 ((rx_head c + 1) mod UART_FIFO_SIZE) |> in
    let c := c <| rx_cnt := u8 (rx_cnt c + 1) |> in
    c <| lsr := u8 (set_bits (lsr c) UART_LSR_DR) |>.

(** One round of the while loop of [uart_16550a_rx_fifo_refill]. *)
Definition refill_body (st : uart_16550a_ctx * bool) :
    (uart_16550a_ctx * bool) + (uart_16550a_ctx * bool) :=
  let '(c, pushed) := st in
  if (0 <? backlog_cnt c) && (rx_cnt c <? UART_FIFO_SIZE) then
    let c := uart_16550a_rx_fifo_push c (aget (backlog_fifo c) (backlog_tail c)) in
    let c := c <| backlog_tail := u16 ((backlog_tail c + 1) mod UART_BACKLOG_SIZE) |> in
    let c := c <| backlog_cnt := u16 (backlog_cnt c - 1) |> in
    inl (c, true)
  else inr (c, pushed).

Definition refill_resume (c : uart_16550a_ctx) : uart_16550a_ctx :=
  if rx_paused c && (backlog_cnt c <? UART_BACKLOG_LOW_WATERMARK) then
    match console c with
    | None => emit NullConsole c
    | Some dev =>
        let '(dev, ret) := char_resume_rx dev in
        let c := c <| console := Some dev |> in
        if ret <? 0 then emit (ReportError ret) c else c <| rx_paused := false |>
    end
  else c.

Definition uart_16550a_rx_fifo_refill (c : uart_16550a_ctx) : uart_16550a_ctx :=
  let '(c, pushed) := run_loop refill_body (c, false) in
  let c := refill_resume c in
  if pushed then
    c <| rx_timeout := has (fcr c) UART_FCR_ENABLE_FIFO && (0 <? rx_cnt c)
                       && (rx_cnt c <? rx_trigger_level c) |>
  else c.

Definition uart_16550a_rx_fifo_pop (c : uart_16550a_ctx) : uart_16550a_ctx * Z :=
  if rx_cnt c =? 0 then (c, 0)
  else
    let val := aget (rx_fifo c) (rx_tail c) in
    let c := c <| rx_tail := u8 ((rx_tail c + 1) mod UART_FIFO_SIZE) |> in
    let c := c <| rx_cnt := u8 (rx_cnt c - 1) |> in
    let c := c <| rx_timeout := false |> in
    let c := if rx_cnt c =? 0 then c <| lsr := u8 (clr_bits (lsr c) UART_LSR_DR) |> else c in
    (c, val).

(** The for loop that drains the transmit ring into [buf]: [n] iterations. *)
Fixpoint tx_drain (n : nat) (c : uart_16550a_ctx) (buf : list Z) : uart_16550a_ctx * list Z :=
  match n with
  | O => (c, buf)
  | S n =>
      let b := aget (tx_fifo c) (tx_tail c) in
      let c := c <| tx_tail := u8 ((tx_tail c + 1) mod UART_FIFO_SIZE) |> in
      tx_drain n c (buf ++ [b])
  end.

Definition uart_16550a_tx_flush (c : uart_16550a_ctx) : uart_16550a_ctx :=
  let c :=
    if 0 <? tx_cnt c then
      let c :=
        match console c with
        | None => c
        | Some _ =>
            let '(c, buf) := tx_drain (Z.to_nat (tx_cnt c)) c [] in
            match console c with
            | None => c
            | Some dev =>
                let '(dev, ret) := char_write dev buf in
                let c := c <| console := Some dev |> in
                if ret <? 0 then emit (ReportError ret) c else c
            end
        end in
      c <| tx_cnt := 0 |>
    else c in
  let c := c <| lsr := u8 (set_bits (lsr c) (Z.lor UART_LSR_THRE UART_LSR_TEMT)) |> in
  c <| thre_int_pending := true |>.

Definition uart_16550a_iir_get (c : uart_16550a_ctx) : Z :=
  let fifo_on := has (fcr c) UART_FCR_ENABLE_FIFO in
  let iir := if fifo_on then 0xc0 else 0x00 in
  if has (ier c) UART_IER_RLSI && has (lsr c) UART_LSR_BRK_ERROR_BITS then Z.lor iir 0x06
  else
    let trigger_reached :=
      if fifo_on then rx_trigger_level c <=? rx_cnt c else 0 <? rx_cnt c in
    if has (ier c) UART_IER_RDI && trigger_reached then Z.lor iir 0x04
    else if has (ier c) UART_IER_RDI && rx_timeout c then Z.lor iir 0x0C
    else if has (ier c) UART_IER_THRI && thre_int_pending c then Z.lor iir 0x02
    else if has (ier c) UART_IER_MSI && has (msr c) UART_MSR_ANY_DELTA then Z.lor iir 0x00
    else Z.lor iir UART_IIR_NO_INT.

Definition uart_16550a_irq_update (c : uart_16550a_ctx) : uart_16550a_ctx :=
  let iir := uart_16550a_iir_get c in
  let level := if has iir UART_IIR_NO_INT then 0 else 1 in
  emit (IrqLevel level) c.

Definition uart_16550a_msr_update (c : uart_16550a_ctx) : uart_16550a_ctx :=
  let old_msr := msr c in
  let new_msr :=
    if negb (uart_16550a_loopback_is_enabled c) then
      Z.lor (Z.lor UART_MSR_DCD UART_MSR_DSR) UART_MSR_CTS
    else
      let m := 0 in
      let m := if has (mcr c) UART_MCR_DTR then Z.lor m UART_MSR_DSR else m in
      let m := if has (mcr c) UART_MCR_RTS then Z.lor m UART_MSR_CTS else m in
      let m := if has (mcr c) UART_MCR_OUT1 then Z.lor m UART_MSR_RI else m in
      let m := if has (mcr c) UART_MCR_OUT2 then Z.lor m UART_MSR_DCD else m in
      m in
  let delta :=
    u8 (Z.shiftr (Z.land (Z.lxor old_msr new_msr)
                    (Z.lor (Z.lor UART_MSR_DCD UART_MSR_DSR) UART_MSR_CTS)) 4) in
  let delta :=
    if has old_msr UART_MSR_RI && negb (has new_msr UART_MSR_RI)
    then Z.lor delta UART_MSR_TERI else delta in
  c <| msr := u8 (Z.lor (Z.lor new_msr (Z.land old_msr UART_MSR_ANY_DELTA)) delta) |>.

Definition uart_16550a_reg_read (c : uart_16550a_ctx) (offset : Z) : uart_16550a_ctx * Z :=
  if offset =? UART_RX then
    if uart_16550a_dlab_is_set c then (c, dll c) else uart_16550a_rx_fifo_pop c
  else if offset =? UART_IER then
    if uart_16550a_dlab_is_set c then (c, dlm c) else (c, ier c)
  else if offset =? UART_IIR then
    let val := uart_16550a_iir_get c in
    let c := if Z.land val UART_IIR_ID =? 0x02 then c <| thre_int_pending := false |> else c in
    (c, val)
  else if offset =? UART_LCR then (c, lcr c)
  else if offset =? UART_MCR then (c, mcr c)
  else if offset =? UART_LSR then
    let val := u8 (clr_bits (lsr c) 0x80) in
    (c <| lsr := u8 (clr_bits (lsr c) UART_LSR_BRK_ERROR_BITS) |>, val)
  else if offset =? UART_MSR then
    let val := msr c in
    (c <| msr := u8 (clr_bits (msr c) UART_MSR_ANY_DELTA) |>, val)
  else if offset =? UART_SCR then (c, scr c)
  else (c, 0xff).

(** The FCR case of [uart_16550a_reg_write]. *)
Definition fcr_write (c : uart_16550a_ctx) (val : Z) : uart_16550a_ctx :=
  let val := Z.land val 0xcf in
  if negb (has val UART_FCR_ENABLE_FIFO) then
    let c := c <| fcr := 0 |> <| rx_trigger_level := 1 |> in
    uart_16550a_tx_fifo_clear (uart_16550a_rx_fifo_clear c)
  else
    let c := c <| fcr := u8 (clr_bits val (Z.lor UART_FCR_CLEAR_RCVR UART_FCR_CLEAR_XMIT)) |> in
    let c := if has val UART_FCR_CLEAR_RCVR then uart_16550a_rx_fifo_clear c else c in
    let c := if has val UART_FCR_CLEAR_XMIT then uart_16550a_tx_fifo_clear c else c in
    let sel := Z.land val 0xc0 in
    if sel =? 0x00 then c <| rx_trigger_level := 1 |>
    else if sel =? 0x40 then c <| rx_trigger_level := 4 |>
    else if sel =? 0x80 then c <| rx_trigger_level := 8 |>
    else if sel =? 0xc0 then c <| rx_trigger_level := 14 |>
    else c.

Definition uart_16550a_reg_write (c : uart_16550a_ctx) (offset val : Z) : uart_16550a_ctx :=
  if offset =? UART_TX then
    if uart_16550a_dlab_is_set c then c <| dll := val |>
    else if uart_16550a_loopback_is_enabled c then uart_16550a_rx_fifo_push c val
    else
      let c := c <| tx_fifo := aset (tx_fifo c) (tx_head c) val |> in
      let c := c <| tx_head := u8 ((tx_head c + 1) mod UART_FIFO_SIZE) |> in
      let c := c <| tx_cnt := u8 (tx_cnt c + 1) |> in
      let c := c <| lsr := u8 (clr_bits (lsr c) (Z.lor UART_LSR_THRE UART_LSR_TEMT)) |> in
      let c := c <| thre_int_pending := false |> in
      uart_16550a_tx_flush c
  else if offset =? UART_IER then
    if uart_16550a_dlab_is_set c then c <| dlm := val |>
    else
      let old_ier := ier c in
      let c := c <| ier := Z.land val 0x0f |> in
      if negb (has old_ier UART_IER_THRI) && has (ier c) UART_IER_THRI then
        if tx_cnt c =? 0 then c <| thre_int_pending := true |> else c
      else c
  else if offset =? UART_FCR then fcr_write c val
  else if offset =? UART_LCR then
    let c := c <| lcr := val |> in
    if uart_16550a_loopback_is_enabled c then
      if has (lcr c) UART_LCR_SBC
      then c <| lsr := u8 (set_bits (lsr c) UART_LSR_BI) |>
      else c <| lsr := u8 (clr_bits (lsr c) UART_LSR_BI) |>
    else c
  else if offset =? UART_MCR then
    uart_16550a_msr_update (c <| mcr := Z.land val 0x1f |>)
  else if offset =? UART_LSR then c
  else if offset =? UART_SCR then c <| scr := val |>
  else c.

Definition uart_io_read (c : uart_16550a_ctx) (offset size : Z) : uart_16550a_ctx * Z :=
  let reg_idx := u16 (Z.shiftr offset (reg_shift c)) in
  let c := if reg_idx =? UART_RX then emit (IrqLevel 0) c else c in
  let '(c, ret) := uart_16550a_reg_read c reg_idx in
  let c := uart_16550a_irq_update c in
  let c := uart_16550a_rx_fifo_refill c in
  let c := uart_16550a_irq_update c in
  (c, ret).

Definition uart_io_write (c : uart_16550a_ctx) (offset val size : Z) : uart_16550a_ctx :=
  let reg_idx := u16 (Z.shiftr offset (reg_shift c)) in
  let c := uart_16550a_reg_write c reg_idx (u8 (Z.land val 0xff)) in
  uart_16550a_irq_update c.

(** The for loop of [uart_rx_cb], with its break. *)
Fixpoint rx_enqueue (c : uart_16550a_ctx) (buf : list Z) : uart_16550a_ctx :=
  match buf with
  | [] => c
  | b :: buf =>
      if UART_BACKLOG_SIZE <=? backlog_cnt c then
        c <| lsr := u8 (set_bits (lsr c) UART_LSR_OE) |>
      else
        let c := c <| backlog_fifo := aset (backlog_fifo c) (backlog_head c) b |> in
        let c := c <| backlog_head := u16 ((backlog_head c + 1) mod UART_BACKLOG_SIZE) |> in
        let c := c <| backlog_cnt := u16 (backlog_cnt c + 1) |> in
        rx_enqueue c buf
  end.

Definition rx_pause (c : uart_16550a_ctx) : uart_16550a_ctx :=
  if negb (rx_paused c) && (UART_BACKLOG_HIGH_WATERMARK <=? backlog_cnt c) then
    match console c with
    | None => emit NullConsole c
    | Some dev =>
        let '(dev, ret) := char_pause_rx dev in
        let c := c <| console := Some dev |> in
        if ret <? 0 then emit (ReportError ret) c else c <| rx_paused := true |>
    end
  else c.

Definition uart_rx_cb (c : uart_16550a_ctx) (buf : list Z) : uart_16550a_ctx :=
  match buf with
  | [] => c
  | _ =>
      let c := rx_enqueue c buf in
      let c := rx_pause c in
      let c := uart_16550a_rx_fifo_refill c in
      uart_16550a_irq_update c
  end.

Definition uart_console_notify (c : uart_16550a_ctx) (error : Z) : uart_16550a_ctx :=
  if error <? 0 then emit (ReportError error) c else emit RequestShutdown c.

(** [dev->ops->stop]. *)
Definition uart_stop (c : uart_16550a_ctx) : uart_16550a_ctx :=
  let c :=
    if rx_bound c then
      match console c with
      | Some dev => c <| console := Some (char_unbind dev) |>
      | None => c
      end
    else c in
  c <| rx_bound := false |>.

(** struct serial_pdata (include/modvm/hw/char/serial.h); [pdata_irq] is
    [plat->irq != NULL]. *)
Record serial_pdata : Type := mk_serial {
  pdata_space : Space.io_space;
  pdata_base : Z;
  pdata_shift : Z;
  pdata_irq : bool;
  pdata_console : option B;
}.

Definition sizeof_uart_16550a_ctx : Z := 352.

(** The context [res_zalloc] returns, with the fields copied from the
    platform data. *)
Definition uart_blank (plat : serial_pdata) : uart_16550a_ctx :=
  mk_uart (pdata_console plat) (pdata_shift plat) 0 0 0 0 0 0 0 0 0
    (replicate 16 0) 0 0 0 (replicate 256 0) 0 0 0 false false
    (replicate 16 0) 0 0 0 0 false false [].

(** The reset state set at the end of [uart_realize]. *)
Definition uart_reset (c : uart_16550a_ctx) : uart_16550a_ctx :=
  let c := c <| ier := 0x00 |> <| fcr := 0x00 |> <| lcr := 0x00 |> <| mcr := 0x00 |>
             <| lsr := 0x60 |> in
  let c := c <| thre_int_pending := true |> in
  let c := uart_16550a_msr_update c in
  c <| msr := u8 (clr_bits (msr c) UART_MSR_ANY_DELTA) |>.

(** [owner] is the device and [pool] its resource pool; [alloc0], [alloc1] and
    [alloc2] are the addresses the allocator returns to the context, to the
    region and to its cleanup action.  The context returned is [dev->priv]. *)
Definition uart_realize (vm : Space.vm_ctx) (owner : Z)
    (pool : ResPool.res_pool (Fn := Space.cleanup)) (pdata : option serial_pdata)
    (alloc0 alloc1 alloc2 : option Z) :
    Space.vm_ctx * ResPool.res_pool (Fn := Space.cleanup) * option uart_16550a_ctx * Z :=
  match pdata with
  | None => (vm, pool, None, - VM_EINVAL)
  | Some plat =>
      if negb (pdata_irq plat) || (61 <=? pdata_shift plat) then (vm, pool, None, - VM_EINVAL)
      else
        match ResPool.res_zalloc (Some pool) sizeof_uart_16550a_ctx alloc0 with
        | (Some pool, Some _) =>
            let c := uart_blank plat in
            let region_size := u64 (Z.shiftl 8 (reg_shift c)) in
            match Space.io_map_register_region_locked vm (pdata_space plat) (pdata_base plat)
                    region_size owner pool true alloc1 alloc2 with
            | (vm, pool, ERR_PTR e) => (vm, pool, Some c, e)
            | (vm, pool, Ptr _) =>
                match console c with
                | Some dev =>
                    let '(dev, ret) :=
                      char_bind dev (UART_BACKLOG_SIZE - UART_BACKLOG_HIGH_WATERMARK) in
                    let c := c <| console := Some dev |> in
                    if ret <? 0 then (vm, pool, Some c, ret)
                    else (vm, pool, Some (uart_reset (c <| rx_bound := true |>)), 0)
                | None => (vm, pool, Some (uart_reset c), 0)
                end
            end
        | (Some pool, None) => (vm, pool, None, - VM_ENOMEM)
        | (None, _) => (vm, pool, None, - VM_ENOMEM)
        end
  end.

(** ** Invariant *)

(** The queues the rings stand for, and the bytes received from the console
    that the guest has not read yet. *)
Definition rx_queue (c : uart_16550a_ctx) : list Z :=
  ring_list UART_FIFO_SIZE (rx_fifo c) (rx_tail c) (rx_cnt c).
Definition backlog_queue (c : uart_16550a_ctx) : list Z :=
  ring_list UART_BACKLOG_SIZE (backlog_fifo c) (backlog_tail c) (backlog_cnt c).
Definition pending_input (c : uart_16550a_ctx) : list Z := rx_queue c ++ backlog_queue c.

Record uart_inv (c : uart_16550a_ctx) : Prop := {
  inv_rx : ring_ok UART_FIFO_SIZE (rx_fifo c) (rx_head c) (rx_tail c) (rx_cnt c);
  inv_backlog :
    ring_ok UART_BACKLOG_SIZE (backlog_fifo c) (backlog_head c) (backlog_tail c) (backlog_cnt c);
  inv_tx_len : length (tx_fifo c) = 16%nat;
  inv_tx_head : 0 ≤ tx_head c < UART_FIFO_SIZE;
  inv_tx_tail : 0 ≤ tx_tail c < UART_FIFO_SIZE;
  inv_tx_sync : is_Some (console c) → tx_head c = tx_tail c;
  inv_tx_cnt : tx_cnt c = 0;
  inv_regs : Forall is_u8 [dll c; dlm c; ier c; fcr c; lcr c; mcr c; lsr c; msr c; scr c];
  inv_ier : 0 ≤ ier c < 16;
  inv_mcr : 0 ≤ mcr c < 32;
  inv_lsr_dr : Z.testbit (lsr c) 0 = (0 <? rx_cnt c);
  inv_lsr_thre : Z.testbit (lsr c) 5 = true;
  inv_lsr_temt : Z.testbit (lsr c) 6 = true;
  inv_lsr_top : Z.testbit (lsr c) 7 = false;
  inv_trigger :
    has (fcr c) UART_FCR_ENABLE_FIFO = true → rx_trigger_level c ∈ [1; 4; 8; 14];
  inv_console : rx_paused c = true ∨ rx_bound c = true → is_Some (console c);
}.

(** Flow control: the console is paused whenever the backlog has reached the
    high watermark. *)
Definition flow_controlled (c : uart_16550a_ctx) : Prop :=
  rx_paused c = false → backlog_cnt c < UART_BACKLOG_HIGH_WATERMARK.

(** ** Lemmas *)

Ltac inv_intro I :=
  destruct I as [Irx Ibl Itl Ith Itt Its Itc Ir Iier Imcr Idr Ithre Itemt Itop Itrig Icon].

(** The registers are bytes after an operation that updates some of them. *)
Ltac byte_regs :=
  lazymatch goal with
  | H : Forall is_u8 _ |- Forall is_u8 _ =>
      rewrite !Forall_cons in H; destruct_and! H; rewrite !Forall_cons;
      split_and!; auto with modvm
  end.

(** The invariant after register updates that keep the queues. *)
Ltac inv_regs_only I :=
  inv_intro I; split; fields; try done; try (bits; done); try byte_regs.

Lemma overrun_inv c :
  uart_inv c → uart_inv (c <| lsr := u8 (set_bits (lsr c) UART_LSR_OE) |>).
Proof.
  intros I. inv_intro I. split; fields; try done; try (bits; done).
  byte_regs.
Qed.

Lemma rx_fifo_push_spec c b :
  uart_inv c → rx_cnt c < UART_FIFO_SIZE →
  uart_inv (uart_16550a_rx_fifo_push c b) ∧
  rx_queue (uart_16550a_rx_fifo_push c b) = rx_queue c ++ [b] ∧
  rx_cnt (uart_16550a_rx_fifo_push c b) = rx_cnt c + 1.
Proof.
  intros I Hlt. inv_intro I. unfold uart_16550a_rx_fifo_push, rx_queue.
  destruct (Z.leb_spec UART_FIFO_SIZE (rx_cnt c)); [lia|].
  destruct (ring_push _ _ _ _ _ b Irx Hlt) as [R Q].
  pose proof (ring_cnt _ _ _ _ _ Irx). pose proof (ring_head _ _ _ _ _ R).
  unfold UART_FIFO_SIZE in *. fields.
  rewrite (u8_small (rx_cnt c + 1)), (u8_small ((rx_head c + 1) mod 16)) by word.
  split; [|done]. split; fields; rewrite ?u8_small by word; try done; try (bits; done).
  - byte_regs.
  - bits. symmetry. apply Z.ltb_lt. lia.
Qed.

Lemma rx_fifo_push_inv c b : uart_inv c → uart_inv (uart_16550a_rx_fifo_push c b).
Proof.
  intros I. destruct (Z.ltb_spec (rx_cnt c) UART_FIFO_SIZE).
  - by apply rx_fifo_push_spec.
  - unfold uart_16550a_rx_fifo_push.
    destruct (Z.leb_spec UART_FIFO_SIZE (rx_cnt c)); [by apply overrun_inv|lia].
Qed.

Lemma rx_fifo_pop_spec c :
  uart_inv c → 0 < rx_cnt c →
  let '(c', b) := uart_16550a_rx_fifo_pop c in
  uart_inv c' ∧ rx_queue c = b :: rx_queue c' ∧ backlog_queue c' = backlog_queue c ∧
  rx_paused c' = rx_paused c ∧ backlog_cnt c' = backlog_cnt c.
Proof.
  intros I Hlt. inv_intro I. unfold uart_16550a_rx_fifo_pop, rx_queue, backlog_queue.
  destruct (Z.eqb_spec (rx_cnt c) 0); [lia|].
  destruct (ring_pop _ _ _ _ _ Irx Hlt) as [R Q].
  pose proof (ring_cnt _ _ _ _ _ Irx). pose proof (ring_tail _ _ _ _ _ R).
  unfold UART_FIFO_SIZE in *. fields.
  rewrite !(u8_small (rx_cnt c - 1)) by word.
  destruct (Z.eqb_spec (rx_cnt c - 1) 0) as [E|E]; fields;
    rewrite ?(u8_small (rx_cnt c - 1)), ?(u8_small ((rx_tail c + 1) mod 16)) by word;
    (split; [|done]); split; fields; rewrite ?u8_small by word; try done; try (bits; done).
  - byte_regs.
  - bits. rewrite E. done.
  - rewrite Idr. destruct (Z.ltb_spec 0 (rx_cnt c)), (Z.ltb_spec 0 (rx_cnt c - 1)); lia.
Qed.

(** The fields that moving bytes between the FIFOs leaves alone. *)
Record same_control (c c' : uart_16550a_ctx) : Prop := {
  same_ier : ier c' = ier c;
  same_fcr : fcr c' = fcr c;
  same_lcr : lcr c' = lcr c;
  same_mcr : mcr c' = mcr c;
  same_msr : msr c' = msr c;
  same_oe : Z.testbit (lsr c') 1 = Z.testbit (lsr c) 1;
  same_trigger : rx_trigger_level c' = rx_trigger_level c;
  same_thre : thre_int_pending c' = thre_int_pending c;
  same_tx : tx_fifo c' = tx_fifo c ∧ tx_head c' = tx_head c ∧ tx_tail c' = tx_tail c;
  same_config : rx_bound c' = rx_bound c ∧ reg_shift c' = reg_shift c;
}.

Lemma same_control_refl c : same_control c c.
Proof. by split. Qed.
Lemma same_control_trans c1 c2 c3 :
  same_control c1 c2 → same_control c2 c3 → same_control c1 c3.
Proof. intros [] []. split; intuition congruence. Qed.

Lemma refill_body_spec c :
  uart_inv c → 0 < backlog_cnt c → rx_cnt c < UART_FIFO_SIZE → ∀ pushed,
  ∃ c', refill_body (c, pushed) = inl (c', true) ∧
    uart_inv c' ∧ same_control c c' ∧ pending_input c' = pending_input c ∧
    console c' = console c ∧ rx_paused c' = rx_paused c ∧ trace c' = trace c ∧
    backlog_cnt c' = backlog_cnt c - 1 ∧ rx_cnt c' = rx_cnt c + 1.
Proof.
  intros I Hb Hr pushed. unfold refill_body.
  destruct (Z.ltb_spec 0 (backlog_cnt c)); [|lia].
  destruct (Z.ltb_spec (rx_cnt c) UART_FIFO_SIZE); [|lia]. simpl andb.
  set (b := aget (backlog_fifo c) (backlog_tail c)).
  destruct (rx_fifo_push_spec c b I Hr) as (I1 & Q1 & N1).
  pose proof (inv_backlog _ I) as Hbl.
  destruct (ring_pop _ _ _ _ _ Hbl Hb) as [R Q].
  pose proof (ring_cnt _ _ _ _ _ Hbl). pose proof (ring_tail _ _ _ _ _ R).
  eexists. split; [reflexivity|].
  unfold uart_16550a_rx_fifo_push in *.
  destruct (Z.leb_spec UART_FIFO_SIZE (rx_cnt c)); [lia|].
  unfold UART_BACKLOG_SIZE in *. fields. unfold pending_input, rx_queue, backlog_queue in *. fields.
  rewrite (u16_small (backlog_cnt c - 1)), (u16_small ((backlog_tail c + 1) mod 256)) by word.
  split; [inv_intro I1; split; fields; done|].
  split; [split; fields; try done; bits; done|].
  split; [|done]. unfold UART_BACKLOG_SIZE. rewrite Q1, Q. by rewrite <- app_assoc.
Qed.

(** The while loop moves bytes from the backlog to the receive FIFO until one
    is exhausted or the other full, and the bytes keep their order. *)
Record refilled (c c' : uart_16550a_ctx) : Prop := {
  refilled_inv : uart_inv c';
  refilled_control : same_control c c';
  refilled_pending : pending_input c' = pending_input c;
  refilled_console : console c' = console c;
  refilled_paused : rx_paused c' = rx_paused c;
  refilled_trace : trace c' = trace c;
  refilled_backlog : backlog_cnt c' ≤ backlog_cnt c;
  refilled_rx : rx_cnt c ≤ rx_cnt c';
}.

Lemma refill_loop_spec c :
  uart_inv c →
  let '(c', pushed) := run_loop refill_body (c, false) in
  refilled c c' ∧ (backlog_cnt c' = 0 ∨ rx_cnt c' = UART_FIFO_SIZE) ∧
  (if pushed then 0 < rx_cnt c' else c' = c).
Proof.
  intros I.
  apply (run_loop_total refill_body
    (fun st => refilled c st.1 ∧ (if (st.2 : bool) then 0 < rx_cnt st.1 else st.1 = c))
    (fun st => backlog_cnt st.1)
    (fun st => let '(c', pushed) := st in
       refilled c c' ∧ (backlog_cnt c' = 0 ∨ rx_cnt c' = UART_FIFO_SIZE) ∧
       (if (pushed : bool) then 0 < rx_cnt c' else c' = c))).
  - intros [c1 pushed] [R P]. simpl in R, P. destruct R as [I1 S1 P1 C1 Z1 T1 B1 X1].
    pose proof (ring_cnt _ _ _ _ _ (inv_rx _ I1)).
    pose proof (ring_cnt _ _ _ _ _ (inv_backlog _ I1)).
    destruct (decide (0 < backlog_cnt c1 ∧ rx_cnt c1 < UART_FIFO_SIZE)) as [[Hb Hr]|Hn].
    + destruct (refill_body_spec c1 I1 Hb Hr pushed)
        as (c2 & -> & I2 & S2 & P2 & C2 & Z2 & T2 & B2 & X2).
      simpl. split; [split|]; [split|lia..]; try done; try congruence; try lia.
      by eapply same_control_trans.
    + unfold refill_body.
      destruct (Z.ltb_spec 0 (backlog_cnt c1)), (Z.ltb_spec (rx_cnt c1) UART_FIFO_SIZE);
        simpl; try lia; (split; [done|split; [lia|done]]).
  - split; [|done]. split; simpl; try done; apply same_control_refl.
  - pose proof (ring_cnt _ _ _ _ _ (inv_backlog _ I)). unfold UART_BACKLOG_SIZE in *. simpl. lia.
Qed.

(** The trace only grows, and never by a dereference of a NULL console. *)
Definition extends (c c' : uart_16550a_ctx) : Prop :=
  ∃ es, trace c' = trace c ++ es ∧ NullConsole ∉ es.

Lemma extends_same c c' : trace c' = trace c → extends c c'.
Proof. intros E. exists []. rewrite E, app_nil_r. split; [done|apply not_elem_of_nil]. Qed.
Lemma extends_snoc c c' e : trace c' = trace c ++ [e] → e ≠ NullConsole → extends c c'.
Proof. intros. exists [e]. split; [done|]. rewrite list_elem_of_singleton. congruence. Qed.
Lemma extends_trans c1 c2 c3 : extends c1 c2 → extends c2 c3 → extends c1 c3.
Proof.
  intros (es & E & N) (es' & E' & N'). exists (es ++ es').
  rewrite E', E, app_assoc, elem_of_app. split; [done|tauto].
Qed.

Lemma emit_inv c e : uart_inv c → uart_inv (emit e c).
Proof. intros I. inv_intro I. by split. Qed.

Lemma set_rx_timeout_inv c t : uart_inv c → uart_inv (c <| rx_timeout := t |>).
Proof. intros I. inv_intro I. by split. Qed.

(** What an operation on the receive side guarantees besides the invariant:
    the control registers and the bytes waiting for the guest are kept. *)
Record rx_kept (c c' : uart_16550a_ctx) : Prop := {
  kept_inv : uart_inv c';
  kept_control : same_control c c';
  kept_pending : pending_input c' = pending_input c;
  kept_trace : extends c c';
}.

Lemma refill_resume_spec c :
  uart_inv c →
  let c' := refill_resume c in
  rx_kept c c' ∧ (flow_controlled c → flow_controlled c') ∧
  rx_cnt c' = rx_cnt c ∧ backlog_cnt c' = backlog_cnt c ∧
  (rx_paused c' = true →
    UART_BACKLOG_LOW_WATERMARK ≤ backlog_cnt c' ∨ ∃ e, e < 0 ∧ last (trace c') = Some (ReportError e)).
Proof.
  intros I. unfold refill_resume, flow_controlled in *.
  destruct (rx_paused c) eqn:P; simpl.
  - destruct (Z.ltb_spec (backlog_cnt c) UART_BACKLOG_LOW_WATERMARK); simpl.
    + destruct (inv_console _ I (or_introl P)) as [dev Hdev]. rewrite Hdev.
      destruct (char_resume_rx dev) as [dev' ret].
      pose proof I as I'. inv_intro I'. destruct (Z.ltb_spec ret 0); fields.
      * split; [split; [split; fields; try done; eauto|by split|done|by eapply extends_snoc]|].
        split_and!; try done; [congruence|]. right. exists ret. by rewrite last_snoc.
      * split; [split; [split; fields; try done; eauto|by split|done|by apply extends_same]|].
        unfold UART_BACKLOG_LOW_WATERMARK, UART_BACKLOG_HIGH_WATERMARK in *.
        split_and!; try done; lia.
    + split; [split; [done|apply same_control_refl|done|by apply extends_same]|].
      split_and!; try done; [congruence|]. by left.
  - split; [split; [done|apply same_control_refl|done|by apply extends_same]|].
    split_and!; try done; by intros; rewrite ?P in *; auto.
Qed.

(** Whether the receive FIFO asks for service: it reached its trigger level,
    or it holds data below it and the character timeout is pending. *)
Definition rx_signalled (c : uart_16550a_ctx) : Prop :=
  if has (fcr c) UART_FCR_ENABLE_FIFO
  then rx_trigger_level c ≤ rx_cnt c ∨ rx_timeout c = true
  else 0 < rx_cnt c.

Lemma refill_spec c :
  uart_inv c →
  let c' := uart_16550a_rx_fifo_refill c in
  rx_kept c c' ∧ (flow_controlled c → flow_controlled c') ∧
  (backlog_cnt c' = 0 ∨ rx_cnt c' = UART_FIFO_SIZE) ∧
  (rx_paused c' = true →
    UART_BACKLOG_LOW_WATERMARK ≤ backlog_cnt c' ∨ ∃ e, e < 0 ∧ last (trace c') = Some (ReportError e)) ∧
  (0 < backlog_cnt c → rx_signalled c').
Proof.
  intros I. unfold uart_16550a_rx_fifo_refill.
  pose proof (refill_loop_spec c I) as L.
  destruct (run_loop refill_body (c, false)) as [c1 pushed].
  destruct L as ([I1 S1 P1 C1 Z1 T1 B1 X1] & D & Hp).
  pose proof (refill_resume_spec c1 I1) as (K2 & F2 & R2 & B2 & W2).
  destruct K2 as [I2 S2 P2 T2]. set (c2 := refill_resume c1) in *.
  assert (K : rx_kept c c2).
  { split; [done|by eapply same_control_trans|congruence|].
    eapply extends_trans; [by apply extends_same|done]. }
  assert (F : flow_controlled c → flow_controlled c2).
  { intros F. apply F2. unfold flow_controlled in *. rewrite Z1. intros E. specialize (F E). lia. }
  rewrite <- R2, <- B2 in D.
  pose proof (ring_cnt _ _ _ _ _ (inv_rx _ I2)).
  destruct pushed.
  - split_and!; try done.
    + destruct K. split; [by apply set_rx_timeout_inv| |done|done]. destruct kept_control0. by split.
    + intros Hb. unfold rx_signalled. fields. destruct (has (fcr c2) UART_FCR_ENABLE_FIFO); [|lia].
      destruct (Z.ltb_spec 0 (rx_cnt c2)), (Z.ltb_spec (rx_cnt c2) (rx_trigger_level c2));
        simpl; first [lia | by right | by left].
  - subst c1. split_and!; try done. intros Hb. unfold rx_signalled.
    destruct (has (fcr c2) UART_FCR_ENABLE_FIFO) eqn:E.
    + pose proof (inv_trigger _ I2 E) as Ht. left. unfold UART_FIFO_SIZE in *.
      rewrite !elem_of_cons, elem_of_nil in Ht. lia.
    + unfold UART_FIFO_SIZE in *. lia.
Qed.

Lemma enqueue_one_spec c b :
  uart_inv c → backlog_cnt c < UART_BACKLOG_SIZE →
  let c' := c <| backlog_fifo := aset (backlog_fifo c) (backlog_head c) b |>
              <| backlog_head := u16 ((backlog_head c + 1) mod UART_BACKLOG_SIZE) |>
              <| backlog_cnt := u16 (backlog_cnt c + 1) |> in
  uart_inv c' ∧ pending_input c' = pending_input c ++ [b] ∧ backlog_cnt c' = backlog_cnt c + 1.
Proof.
  intros I Hlt. inv_intro I. destruct (ring_push _ _ _ _ _ b Ibl Hlt) as [R Q].
  pose proof (ring_cnt _ _ _ _ _ Ibl). pose proof (ring_head _ _ _ _ _ R).
  unfold pending_input, backlog_queue, rx_queue, UART_BACKLOG_SIZE in *. fields.
  rewrite (u16_small (backlog_cnt c + 1)), (u16_small ((backlog_head c + 1) mod 256)) by word.
  split; [by split|]. unfold UART_BACKLOG_SIZE. rewrite Q, app_assoc. done.
Qed.

(** The for loop of [uart_rx_cb] appends what fits into the backlog and
    records an overrun when something did not. *)
Lemma rx_enqueue_spec buf : ∀ c,
  uart_inv c →
  let c' := rx_enqueue c buf in
  let room := UART_BACKLOG_SIZE - backlog_cnt c in
  let n := Z.of_nat (length buf) in
  uart_inv c' ∧
  pending_input c' = pending_input c ++ take (Z.to_nat room) buf ∧
  backlog_cnt c' = backlog_cnt c + n `min` room ∧
  (n ≤ room → same_control c c') ∧
  rx_paused c' = rx_paused c ∧ console c' = console c ∧ trace c' = trace c.
Proof.
  induction buf as [|b buf IH]; intros c I.
  - simpl. pose proof (ring_cnt _ _ _ _ _ (inv_backlog _ I)).
    rewrite take_nil, app_nil_r. split_and!; try done. lia.
  - simpl. pose proof (ring_cnt _ _ _ _ _ (inv_backlog _ I)).
    destruct (Z.leb_spec UART_BACKLOG_SIZE (backlog_cnt c)).
    + split_and!; try done; [by apply overrun_inv| |simpl; lia|lia].
      replace (Z.to_nat _) with 0%nat by lia. by rewrite take_0, app_nil_r.
    + destruct (enqueue_one_spec c b I) as (I1 & Q1 & N1); [lia|].
      set (c1 := update _ _ _) in *.
      destruct (IH c1 I1) as (I2 & Q2 & N2 & S2 & P2 & C2 & T2).
      rewrite N1 in *. split_and!; try done.
      * rewrite Q2, Q1, <- app_assoc. f_equal.
        replace (Z.to_nat (UART_BACKLOG_SIZE - backlog_cnt c))
          with (S (Z.to_nat (UART_BACKLOG_SIZE - (backlog_cnt c + 1)))) by lia. done.
      * rewrite N2. lia.
      * intros. apply (same_control_trans c c1); [by split|apply S2; lia].
Qed.

Lemma rx_pause_spec c :
  uart_inv c → is_Some (console c) →
  let c' := rx_pause c in
  rx_kept c c' ∧ backlog_cnt c' = backlog_cnt c ∧
  (flow_controlled c' ∨ ∃ dev, let e := (char_pause_rx dev).2 in
     e < 0 ∧ last (trace c') = Some (ReportError e)).
Proof.
  intros I [dev Hdev]. unfold rx_pause, flow_controlled. rewrite Hdev.
  destruct (rx_paused c) eqn:P; simpl.
  - split; [split; [done|apply same_control_refl|done|by apply extends_same]|].
    split; [done|]. left. congruence.
  - destruct (Z.leb_spec UART_BACKLOG_HIGH_WATERMARK (backlog_cnt c)); simpl.
    + destruct (char_pause_rx dev) as [dev' ret] eqn:E. pose proof I as I'. inv_intro I'.
      destruct (Z.ltb_spec ret 0); fields.
      * split; [split; [split; fields; try done; eauto|by split|done|by eapply extends_snoc]|].
        split; [done|]. right. exists dev. rewrite E. by rewrite last_snoc.
      * split; [split; [split; fields; try done; eauto|by split|done|by apply extends_same]|].
        split; [done|]. by left.
    + split; [split; [done|apply same_control_refl|done|by apply extends_same]|].
      split; [done|]. left. intros _. lia.
Qed.

Lemma rx_kept_trans c1 c2 c3 : rx_kept c1 c2 → rx_kept c2 c3 → rx_kept c1 c3.
Proof.
  intros [] []. split; [done|by eapply same_control_trans|congruence|by eapply extends_trans].
Qed.

Lemma emit_kept c e : uart_inv c → e ≠ NullConsole → rx_kept c (emit e c).
Proof.
  intros I He. split; [by apply emit_inv|by split|done|by eapply extends_snoc].
Qed.

Lemma irq_update_kept c : uart_inv c → rx_kept c (uart_16550a_irq_update c).
Proof. intros. by apply emit_kept. Qed.

Lemma uart_rx_cb_eq c buf :
  buf ≠ [] →
  uart_rx_cb c buf =
  uart_16550a_irq_update (uart_16550a_rx_fifo_refill (rx_pause (rx_enqueue c buf))).
Proof. by destruct buf. Qed.

Lemma emit_signalled c e : rx_signalled (emit e c) = rx_signalled c.
Proof. done. Qed.
Lemma emit_flow c e : flow_controlled (emit e c) = flow_controlled c.
Proof. done. Qed.

(** The whole receive callback. *)
Lemma rx_cb_spec c buf :
  uart_inv c → rx_bound c = true → buf ≠ [] →
  let c' := uart_rx_cb c buf in
  let room := UART_BACKLOG_SIZE - backlog_cnt c in
  uart_inv c' ∧ extends c c' ∧
  pending_input c' = pending_input c ++ take (Z.to_nat room) buf ∧
  (Z.of_nat (length buf) ≤ room → same_control c c') ∧
  (backlog_cnt c < UART_BACKLOG_SIZE → rx_signalled c') ∧
  (flow_controlled c' ∨ ∃ dev, let e := (char_pause_rx dev).2 in
     e < 0 ∧ ReportError e ∈ trace c').
Proof.
  intros I Hb Hne. cbv zeta. rewrite (uart_rx_cb_eq c buf Hne).
  destruct (rx_enqueue_spec buf c I) as (I1 & Q1 & N1 & S1 & P1 & C1 & T1).
  generalize dependent (rx_enqueue c buf). intros c1 I1 Q1 N1 S1 P1 C1 T1.
  assert (Hc : is_Some (console c1)). { rewrite C1. apply (inv_console _ I). by right. }
  destruct (rx_pause_spec c1 I1 Hc) as (K2 & N2 & F2).
  generalize dependent (rx_pause c1). intros c2 K2 N2 F2.
  destruct (refill_spec c2 (kept_inv _ _ K2)) as (K3 & F3 & D3 & W3 & G3).
  generalize dependent (uart_16550a_rx_fifo_refill c2). intros c3 K3 F3 D3 W3 G3.
  pose proof (irq_update_kept c3 (kept_inv _ _ K3)) as K4.
  destruct (rx_kept_trans _ _ _ (rx_kept_trans _ _ _ K2 K3) K4) as [I' S' Q' T'].
  pose proof (ring_cnt _ _ _ _ _ (inv_backlog _ I)).
  split; [exact I'|]. split; [exact (extends_trans _ _ _ (extends_same c c1 T1) T')|].
  split; [by rewrite Q', Q1|].
  split; [intros Hn; exact (same_control_trans _ _ _ (S1 Hn) S')|].
  unfold uart_16550a_irq_update in *. rewrite emit_signalled, emit_flow. split.
  - intros Hr. apply G3. rewrite N2, N1. destruct buf; [done|]. simpl length. lia.
  - destruct F2 as [F2|(dev & He & L2)]; [left; exact (F3 F2)|right; exists dev; split; [done|]].
    destruct (rx_kept_trans _ _ _ K3 K4) as [_ _ _ (es & -> & _)].
    apply last_Some in L2 as [l ->]. rewrite !elem_of_app, list_elem_of_singleton. auto.
Qed.

(** *** Transmission *)

(** Writing the transmit register with DLAB and loopback off hands exactly
    that byte to the console before returning. *)
Lemma tx_flush_spec c val :
  tx_cnt c = 1 → (is_Some (console c) → aget (tx_fifo c) (tx_tail c) = val) →
  ∃ dev l t es, uart_16550a_tx_flush c =
      c <| console := dev |> <| tx_tail := t |> <| tx_cnt := 0 |> <| trace := trace c ++ es |>
        <| lsr := l |> <| thre_int_pending := true |> ∧
    dev = (fun dev => (char_write dev [val]).1) <$> console c ∧
    l = u8 (set_bits (lsr c) (Z.lor UART_LSR_THRE UART_LSR_TEMT)) ∧
    t = (if console c is Some _ then u8 ((tx_tail c + 1) mod UART_FIFO_SIZE) else tx_tail c) ∧
    NullConsole ∉ es.
Proof.
  intros N V. unfold uart_16550a_tx_flush. rewrite N.
  change (0 <? 1) with true. change (Z.to_nat 1) with 1%nat. cbv iota.
  destruct (console c) as [dev|] eqn:C.
  - cbn [tx_drain]. rewrite (V ltac:(eauto)). destruct c. fields. subst. fields.
    destruct (char_write dev [val]) as [dev' ret]. destruct (ret <? 0); fields.
    + eexists _, _, _, [ReportError ret]. split; [reflexivity|]. split_and!; try done.
      rewrite list_elem_of_singleton. congruence.
    + eexists _, _, _, []. rewrite app_nil_r. split; [reflexivity|]. split_and!; try done.
      apply not_elem_of_nil.
  - destruct c. fields. subst. eexists _, _, _, []. rewrite app_nil_r.
    split; [reflexivity|]. split_and!; try done. apply not_elem_of_nil.
Qed.

Lemma tx_write_spec c val :
  uart_inv c → uart_16550a_dlab_is_set c = false → uart_16550a_loopback_is_enabled c = false →
  let c' := uart_16550a_reg_write c UART_TX val in
  uart_inv c' ∧ extends c c' ∧ pending_input c' = pending_input c ∧
  rx_bound c' = rx_bound c ∧ reg_shift c' = reg_shift c ∧
  rx_paused c' = rx_paused c ∧ backlog_cnt c' = backlog_cnt c ∧ thre_int_pending c' = true ∧
  console c' = (fun dev => (char_write dev [val]).1) <$> console c.
Proof.
  intros I D L. cbv zeta. unfold uart_16550a_reg_write. rewrite D, L.
  change (UART_TX =? UART_TX) with true. cbv iota zeta.
  inv_intro I. pose proof (Z.mod_pos_bound (tx_head c + 1) UART_FIFO_SIZE ltac:(done)).
  pose proof (Z.mod_pos_bound (tx_tail c + 1) UART_FIFO_SIZE ltac:(done)).
  match goal with |- context [uart_16550a_tx_flush ?x] =>
    destruct (tx_flush_spec x val) as (dev & l & t & es & -> & Hd & Hl & Ht & Hes) end.
  { fields. by rewrite Itc. }
  { fields. intros C. rewrite <- (Its C). apply aget_aset_eq. unfold UART_FIFO_SIZE in *. lia. }
  fields. subst l. split; [|split_and!; try done; by exists es].
  assert (Hs : is_Some dev ↔ is_Some (console c)) by (subst dev; apply fmap_is_Some).
  split; fields; rewrite ?length_aset; try done; try (bits; done); try byte_regs.
  - rewrite u8_small by (unfold UART_FIFO_SIZE in *; word). done.
  - subst t. destruct (console c); [|done]. rewrite u8_small by (unfold UART_FIFO_SIZE in *; word). done.
  - subst t. rewrite Hs. intros C. rewrite (Its C). by destruct C as [x ->].
  - by rewrite Hs.
Qed.

(** *** Register writes *)

Lemma rx_fifo_clear_inv c : uart_inv c → uart_inv (uart_16550a_rx_fifo_clear c).
Proof.
  intros I. unfold uart_16550a_rx_fifo_clear. pose proof (inv_rx _ I) as R.
  inv_regs_only I. apply ring_reset; [apply (ring_length _ _ _ _ _ R)|done].
Qed.

Lemma tx_fifo_clear_inv c : uart_inv c → uart_inv (uart_16550a_tx_fifo_clear c).
Proof. intros I. unfold uart_16550a_tx_fifo_clear. inv_regs_only I. Qed.

Lemma set_fcr_inv c v l :
  uart_inv c → is_u8 v → (has v UART_FCR_ENABLE_FIFO = true → l ∈ [1; 4; 8; 14]) →
  uart_inv (c <| fcr := v |> <| rx_trigger_level := l |>).
Proof. intros I Hv Hl. inv_regs_only I. Qed.

Lemma msr_update_inv c : uart_inv c → uart_inv (uart_16550a_msr_update c).
Proof. intros I. unfold uart_16550a_msr_update. inv_regs_only I. Qed.

(** The two bits that select the trigger level. *)
Lemma trigger_bits val : Z.land (Z.land val 207) 192 ∈ [0x00; 0x40; 0x80; 0xc0].
Proof.
  rewrite <- Z.land_assoc. change (Z.land 207 192) with (3 * 64).
  replace (Z.land val (3 * 64)) with (Z.land (Z.shiftr val 6) 3 * 64).
  - pose proof (land_range (Z.shiftr val 6) 3 2 ltac:(lia) ltac:(lia)).
    assert (Z.land (Z.shiftr val 6) 3 ∈ [0; 1; 2; 3]) by (rewrite !elem_of_cons; lia).
    rewrite !elem_of_cons in *. lia.
  - change (3 * 64) with (Z.shiftl 3 6). rewrite <- (Z.shiftl_mul_pow2 _ 6) by lia.
    rewrite Z.shiftl_land. apply Z.bits_inj'. intros n Hn.
    rewrite !Z.land_spec, !Z.shiftl_spec by lia.
    destruct (Z.ltb_spec n 6).
    + rewrite (Z.testbit_neg_r 3), !andb_false_r by lia. done.
    + rewrite Z.shiftr_spec by lia. do 2 f_equal. lia.
Qed.

Lemma fcr_write_inv c val : uart_inv c → uart_inv (fcr_write c val).
Proof.
  intros I. unfold fcr_write. cbv zeta.
  destruct (has (Z.land val 0xcf) UART_FCR_ENABLE_FIFO) eqn:E; simpl negb; cbv iota.
  - set (v := u8 (clr_bits _ _)).
    set (c1 := update fcr _ c). set (c2 := if has _ UART_FCR_CLEAR_RCVR then _ else _).
    set (c3 := if has _ UART_FCR_CLEAR_XMIT then _ else _).
    assert (G : ∀ l, l ∈ [1; 4; 8; 14] → uart_inv (c3 <| rx_trigger_level := l |>)).
    { intros l Hl.
      assert (I1 : uart_inv (c1 <| rx_trigger_level := l |>)).
      { apply set_fcr_inv; [done|apply u8_range|done]. }
      assert (I2 : uart_inv (c2 <| rx_trigger_level := l |>)).
      { unfold c2. destruct (has _ UART_FCR_CLEAR_RCVR); [|done]. exact (rx_fifo_clear_inv _ I1). }
      unfold c3. destruct (has _ UART_FCR_CLEAR_XMIT); [|done]. exact (tx_fifo_clear_inv _ I2). }
    pose proof (trigger_bits val) as Hs.
    rewrite !elem_of_cons, elem_of_nil in Hs.
    destruct Hs as [->|[->|[->|[->|[]]]]]; apply G; rewrite !elem_of_cons; auto.
  - apply tx_fifo_clear_inv, rx_fifo_clear_inv, set_fcr_inv; [done|done|discriminate].
Qed.

Lemma reg_write_inv c offset val :
  uart_inv c → is_u8 val → uart_inv (uart_16550a_reg_write c offset val).
Proof.
  intros I Hv. unfold uart_16550a_reg_write.
  pose proof (land_range val 0x0f 4 ltac:(lia) ltac:(lia)).
  pose proof (land_range val 0x1f 5 ltac:(lia) ltac:(lia)).
  destruct (Z.eqb_spec offset UART_TX) as [->|].
  { destruct (uart_16550a_dlab_is_set c) eqn:D; [inv_regs_only I|].
    destruct (uart_16550a_loopback_is_enabled c) eqn:L; [by apply rx_fifo_push_inv|].
    destruct (tx_write_spec c val I D L) as [IT _]. revert IT. cbv zeta.
    unfold uart_16550a_reg_write at 1. by rewrite D, L. }
  destruct (offset =? UART_IER).
  { destruct (uart_16550a_dlab_is_set c); [inv_regs_only I|]. cbv zeta.
    assert (I1 : uart_inv (c <| ier := Z.land val 15 |>)).
    { inv_regs_only I; unfold is_u8; lia. }
    destruct (negb _ && _); [|done]. destruct (_ =? 0); [|done]. inv_regs_only I1. }
  destruct (offset =? UART_FCR); [by apply fcr_write_inv|].
  destruct (offset =? UART_LCR).
  { cbv zeta. assert (I1 : uart_inv (c <| lcr := val |>)) by inv_regs_only I.
    destruct (uart_16550a_loopback_is_enabled _); [|done].
    destruct (has _ _); inv_regs_only I1. }
  destruct (offset =? UART_MCR).
  { apply msr_update_inv. inv_regs_only I. unfold is_u8. lia. }
  destruct (offset =? UART_LSR); [done|].
  destruct (offset =? UART_SCR); [inv_regs_only I|done].
Qed.

(** Only the transmit register reaches the console or the trace. *)
Lemma reg_write_frame c offset val :
  uart_inv c →
  let c' := uart_16550a_reg_write c offset val in
  extends c c' ∧ rx_bound c' = rx_bound c ∧ reg_shift c' = reg_shift c ∧
  rx_paused c' = rx_paused c ∧ backlog_cnt c' = backlog_cnt c.
Proof.
  intros I. cbv zeta. destruct (Z.eqb_spec offset UART_TX) as [->|].
  - destruct (uart_16550a_dlab_is_set c) eqn:D.
    { unfold uart_16550a_reg_write. rewrite D. split; [by apply extends_same|done]. }
    destruct (uart_16550a_loopback_is_enabled c) eqn:L.
    { unfold uart_16550a_reg_write, uart_16550a_rx_fifo_push. rewrite D, L. simpl Z.eqb. cbv iota.
      destruct (_ <=? _); (split; [by apply extends_same|done]). }
    destruct (tx_write_spec c val I D L) as (_ & E & _ & Hb & Hs & P & N & _ & _).
    by split_and!.
  - unfold uart_16550a_reg_write, fcr_write, uart_16550a_msr_update,
      uart_16550a_rx_fifo_clear, uart_16550a_tx_fifo_clear.
    destruct (Z.eqb_spec offset UART_TX); [done|]. cbv zeta.
    repeat case_match; (split; [by apply extends_same|done]).
Qed.

(** *** Register reads *)

(** The byte a read of the register [reg_idx] takes out of the receive FIFO:
    the RX register with DLAB off, when the line status shows data. *)
Definition delivered (c : uart_16550a_ctx) (reg_idx val : Z) : list Z :=
  if (reg_idx =? UART_RX) && negb (uart_16550a_dlab_is_set c) && has (lsr c) UART_LSR_DR
  then [val] else [].

Lemma reg_read_spec c reg_idx :
  uart_inv c →
  let '(c', val) := uart_16550a_reg_read c reg_idx in
  uart_inv c' ∧ trace c' = trace c ∧
  (rx_bound c' = rx_bound c ∧ reg_shift c' = reg_shift c ∧ rx_paused c' = rx_paused c ∧
   backlog_cnt c' = backlog_cnt c) ∧
  pending_input c = delivered c reg_idx val ++ pending_input c'.
Proof.
  intros I. unfold uart_16550a_reg_read, delivered.
  destruct (Z.eqb_spec reg_idx UART_RX) as [->|]; simpl andb.
  { destruct (uart_16550a_dlab_is_set c) eqn:D; [by simpl|]. simpl negb. cbv iota.
    pose proof (inv_lsr_dr _ I) as DR. pose proof (rx_fifo_pop_spec c I) as P.
    pose proof (ring_cnt _ _ _ _ _ (inv_rx _ I)).
    has_to_testbit. rewrite DR. unfold uart_16550a_rx_fifo_pop in *.
    destruct (Z.eqb_spec (rx_cnt c) 0) as [E|E]; [rewrite E; by simpl|].
    destruct (Z.ltb_spec 0 (rx_cnt c)); [|lia]. destruct (P ltac:(done)) as (I' & Q & Qb & _).
    split; [exact I'|]. unfold pending_input. rewrite Qb, Q.
    split; [by destruct (_ =? 0)|]. split; [by destruct (_ =? 0)|]. done. }
  repeat case_match; simplify_eq;
    (split; [first [done | inv_regs_only I]|split_and!; done]).
Qed.

Lemma refill_frame c :
  uart_inv c →
  rx_bound (uart_16550a_rx_fifo_refill c) = rx_bound c ∧
  reg_shift (uart_16550a_rx_fifo_refill c) = reg_shift c.
Proof. intros I. apply (same_config _ _ (kept_control _ _ (proj1 (refill_spec c I)))). Qed.

Lemma io_read_spec c offset size :
  uart_inv c →
  let '(c', val) := uart_io_read c offset size in
  uart_inv c' ∧ extends c c' ∧ rx_bound c' = rx_bound c ∧ reg_shift c' = reg_shift c ∧
  (flow_controlled c → flow_controlled c') ∧
  pending_input c = delivered c (u16 (Z.shiftr offset (reg_shift c))) val ++ pending_input c'.
Proof.
  intros I. unfold uart_io_read. set (r := u16 _).
  set (c0 := if r =? UART_RX then _ else _).
  assert (K0 : rx_kept c c0).
  { unfold c0. destruct (r =? UART_RX); [by apply emit_kept|].
    split; [done|apply same_control_refl|done|by apply extends_same]. }
  assert (F0 : flow_controlled c → flow_controlled c0) by (unfold c0; by destruct (r =? UART_RX)).
  assert (D0 : ∀ v, delivered c r v = delivered c0 r v) by (unfold c0; by destruct (r =? UART_RX)).
  clearbody c0. pose proof (reg_read_spec c0 r (kept_inv _ _ K0)) as R.
  destruct (uart_16550a_reg_read c0 r) as [c1 val].
  destruct R as (I1 & T1 & (B1 & S1 & P1 & N1) & Q1).
  pose proof (irq_update_kept c1 I1) as K2.
  assert (F2 : flow_controlled c → flow_controlled (uart_16550a_irq_update c1)).
  { intros F. specialize (F0 F). unfold uart_16550a_irq_update. rewrite emit_flow.
    unfold flow_controlled in *. by rewrite P1, N1. }
  generalize dependent (uart_16550a_irq_update c1). intros c2 K2 F2.
  destruct (refill_spec c2 (kept_inv _ _ K2)) as (K3 & F3 & _).
  generalize dependent (uart_16550a_rx_fifo_refill c2). intros c3 K3 F3.
  pose proof (irq_update_kept c3 (kept_inv _ _ K3)) as K4.
  destruct (rx_kept_trans _ _ _ (rx_kept_trans _ _ _ K2 K3) K4) as [I' C' Q' T'].
  destruct (same_config _ _ C') as [B' S']. destruct (same_config _ _ (kept_control _ _ K0)) as [B0 S0].
  split_and!; [done| |congruence|congruence| |].
  - apply (extends_trans _ _ _ (kept_trace _ _ K0)), (extends_trans _ c1), T'. by apply extends_same.
  - intros F. unfold uart_16550a_irq_update. rewrite emit_flow. auto.
  - by rewrite <- (kept_pending _ _ K0), Q1, Q', D0.
Qed.

Lemma io_write_spec c offset val size :
  uart_inv c →
  let c' := uart_io_write c offset val size in
  uart_inv c' ∧ extends c c' ∧ rx_bound c' = rx_bound c ∧ reg_shift c' = reg_shift c ∧
  (flow_controlled c → flow_controlled c').
Proof.
  intros I. unfold uart_io_write. cbv zeta. set (r := u16 _). set (v := u8 _).
  pose proof (reg_write_inv c r v I (u8_range _)) as I1.
  destruct (reg_write_frame c r v I) as (E1 & B1 & S1 & P1 & N1).
  generalize dependent (uart_16550a_reg_write c r v). intros c1 I1 E1 B1 S1 P1 N1.
  destruct (irq_update_kept c1 I1) as [I2 [] _ E2].
  split_and!; [done|by eapply extends_trans|done|done|].
  unfold uart_16550a_irq_update. rewrite emit_flow. unfold flow_controlled. by rewrite P1, N1.
Qed.

(** *** Interrupts *)

(** What the interrupt line stands for. *)
Definition uart_interrupt_pending (c : uart_16550a_ctx) : bool :=
  (has (ier c) UART_IER_RLSI && has (lsr c) UART_LSR_BRK_ERROR_BITS)
  || (has (ier c) UART_IER_RDI
      && (rx_timeout c ||
          (if has (fcr c) UART_FCR_ENABLE_FIFO then rx_trigger_level c <=? rx_cnt c
           else 0 <? rx_cnt c)))
  || (has (ier c) UART_IER_THRI && thre_int_pending c)
  || (has (ier c) UART_IER_MSI && has (msr c) UART_MSR_ANY_DELTA).

Lemma iir_no_int c : has (uart_16550a_iir_get c) UART_IIR_NO_INT = negb (uart_interrupt_pending c).
Proof.
  unfold uart_16550a_iir_get, uart_interrupt_pending.
  destruct (has (fcr c) UART_FCR_ENABLE_FIFO), (has (ier c) UART_IER_RLSI),
    (has (ier c) UART_IER_RDI), (has (ier c) UART_IER_THRI), (has (ier c) UART_IER_MSI),
    (has (lsr c) UART_LSR_BRK_ERROR_BITS), (rx_timeout c), (thre_int_pending c),
    (has (msr c) UART_MSR_ANY_DELTA); simpl; try done;
    repeat case_match; done.
Qed.

Lemma irq_update_level c :
  last (trace (uart_16550a_irq_update c)) =
  Some (IrqLevel (Z.b2z (uart_interrupt_pending (uart_16550a_irq_update c)))).
Proof.
  unfold uart_16550a_irq_update. rewrite iir_no_int. cbv zeta.
  set (l := if negb _ then 0 else 1).
  change (uart_interrupt_pending (emit (IrqLevel l) c)) with (uart_interrupt_pending c).
  unfold emit. simpl. rewrite last_snoc. unfold l. by destruct (uart_interrupt_pending c).
Qed.

(** *** Input that is kept *)

(** A register write that neither clears the receive FIFO nor loops a byte
    back into it. *)
Definition keeps_input (c : uart_16550a_ctx) (reg_idx val : Z) : bool :=
  negb ((reg_idx =? UART_TX) && negb (uart_16550a_dlab_is_set c)
        && uart_16550a_loopback_is_enabled c)
  && negb ((reg_idx =? UART_FCR)
           && (negb (has val UART_FCR_ENABLE_FIFO) || has val UART_FCR_CLEAR_RCVR)).

Lemma reg_write_keeps_input c reg_idx val :
  uart_inv c → keeps_input c reg_idx val = true →
  pending_input (uart_16550a_reg_write c reg_idx val) = pending_input c.
Proof.
  intros I. unfold keeps_input.
  destruct (Z.eqb_spec reg_idx UART_TX) as [->|Htx].
  { destruct (uart_16550a_dlab_is_set c) eqn:D.
    { intros _. unfold uart_16550a_reg_write. by rewrite D. }
    destruct (uart_16550a_loopback_is_enabled c) eqn:L; [done|].
    intros _. apply (tx_write_spec c val I D L). }
  destruct (Z.eqb_spec reg_idx UART_FCR) as [->|Hfcr]; simpl.
  - assert (E : ∀ m, Z.land 0xcf m = m → has (Z.land val 0xcf) m = has val m).
    { intros m Hm. unfold has. by rewrite <- Z.land_assoc, Hm. }
    intros Hk. apply negb_true_iff, orb_false_iff in Hk as [H1 H2].
    change (uart_16550a_reg_write c UART_FCR val) with (fcr_write c val). unfold fcr_write.
    rewrite (E UART_FCR_ENABLE_FIFO), (E UART_FCR_CLEAR_RCVR), H1, H2 by done. simpl.
    destruct (has _ UART_FCR_CLEAR_XMIT); repeat case_match; done.
  - intros _. unfold uart_16550a_reg_write.
    destruct (Z.eqb_spec reg_idx UART_TX); [done|]. destruct (Z.eqb_spec reg_idx UART_FCR); [done|].
    unfold uart_16550a_msr_update. repeat case_match; done.
Qed.

(** ** Runs *)

(** The entry points of the UART, as the machine and the console call them. *)
Inductive uart_op : Type :=
| IoRead (offset size : Z)
| IoWrite (offset val size : Z)
| Receive (buf : list Z)
| Notify (error : Z)
| Stop.

Definition uart_exec (c : uart_16550a_ctx) (op : uart_op) : uart_16550a_ctx :=
  match op with
  | IoRead offset size => (uart_io_read c offset size).1
  | IoWrite offset val size => uart_io_write c offset val size
  | Receive buf => uart_rx_cb c buf
  | Notify error => uart_console_notify c error
  | Stop => uart_stop c
  end.

(** A console delivers input only to a UART that is bound to it. *)
Fixpoint calls_ok (c : uart_16550a_ctx) (ops : list uart_op) : Prop :=
  match ops with
  | [] => True
  | op :: ops =>
      (if op is Receive _ then rx_bound c = true else True) ∧ calls_ok (uart_exec c op) ops
  end.

Lemma uart_exec_spec c op :
  uart_inv c → (if op is Receive _ then rx_bound c = true else True) →
  uart_inv (uart_exec c op) ∧ extends c (uart_exec c op).
Proof.
  intros I Hb. destruct op as [offset size|offset val size|buf|error|]; simpl.
  - pose proof (io_read_spec c offset size I) as R.
    destruct (uart_io_read c offset size). by destruct R as (? & ? & _).
  - by destruct (io_write_spec c offset val size I) as (? & ? & _).
  - destruct buf as [|b buf]; [split; [done|by apply extends_same]|].
    by destruct (rx_cb_spec c (b :: buf) I Hb) as (? & ? & _).
  - unfold uart_console_notify. by destruct (error <? 0); (split; [apply emit_inv|by eapply extends_snoc]).
  - unfold uart_stop. split; [|by destruct (rx_bound c), (console c); apply extends_same].
    pose proof I as I'. inv_intro I'. destruct (rx_bound c) eqn:Rb, (console c) as [dev|] eqn:C;
      split; fields; rewrite ?C; try done; eauto.
    all: intros [P|]; [|done]; apply Icon; by left.
Qed.

(** Input as it moves through the UART: [guest_run c rs ds c'] is a run from
    [c] to [c'] in which the console delivered the bytes [rs] and the guest
    read the bytes [ds] from the receive register. *)
Inductive guest_run : uart_16550a_ctx → list Z → list Z → uart_16550a_ctx → Prop :=
| run_done c : guest_run c [] [] c
| run_read c offset size rs ds c'' :
    guest_run (uart_io_read c offset size).1 rs ds c'' →
    guest_run c rs
      (delivered c (u16 (Z.shiftr offset (reg_shift c))) (uart_io_read c offset size).2 ++ ds) c''
| run_write c offset val size rs ds c'' :
    keeps_input c (u16 (Z.shiftr offset (reg_shift c))) (u8 (Z.land val 0xff)) = true →
    guest_run (uart_io_write c offset val size) rs ds c'' →
    guest_run c rs ds c''
| run_receive c buf rs ds c'' :
    rx_paused c = false →
    Z.of_nat (length buf) ≤ UART_BACKLOG_SIZE - UART_BACKLOG_HIGH_WATERMARK →
    guest_run (uart_rx_cb c buf) rs ds c'' →
    guest_run c (buf ++ rs) ds c''.

Lemma uart_blank_inv plat dev bound :
  (bound = true → is_Some dev) →
  uart_inv (uart_reset (uart_blank plat <| console := dev |> <| rx_bound := bound |>)).
Proof.
  intros Hd. split; simpl; try (split; simpl; first [done|lia]); try done.
  - repeat constructor; apply (bool_decide_unpack _); vm_compute; done.
  - intros [|]; auto. done.
Qed.

(** ** Theorems *)

(** A buffer the console may deliver fits into the backlog. *)
Lemma flow_controlled_room c n :
  flow_controlled c → rx_paused c = false → n ≤ UART_BACKLOG_SIZE - UART_BACKLOG_HIGH_WATERMARK →
  n ≤ UART_BACKLOG_SIZE - backlog_cnt c.
Proof. intros F P Hn. specialize (F P). lia. Qed.

(** C32. The device invariant (rings in range and in step, registers within
    their width, DR set exactly when the FIFO holds data, transmitter always
    empty between accesses, a valid trigger level, a console wherever one is
    needed) survives every sequence of register accesses, console deliveries,
    notifications and a stop, and no call ever goes through a NULL console. *)
Theorem uart_run_safe ops : ∀ c,
  uart_inv c → calls_ok c ops →
  uart_inv (foldl uart_exec c ops) ∧ extends c (foldl uart_exec c ops).
Proof.
  induction ops as [|op ops IH]; intros c I Hok; [split; [done|by apply extends_same]|].
  destruct Hok as [Hb Hok]. destruct (uart_exec_spec c op I Hb) as [I' E].
  destruct (IH _ I' Hok) as [I'' E']. split; [done|by eapply extends_trans].
Qed.

(** C33. No console input is lost, duplicated or reordered.  With a console
    that honours the pause request and the receive limit, over any run in
    which the guest does not itself clear the FIFO or loop data back, the
    bytes pending before, followed by the bytes delivered by the console, are
    the bytes the guest read followed by those still pending. *)
Theorem uart_input_fifo c rs ds c' :
  (∀ dev, 0 ≤ (char_pause_rx dev).2) →
  uart_inv c → rx_bound c = true → flow_controlled c → guest_run c rs ds c' →
  pending_input c ++ rs = ds ++ pending_input c' ∧ uart_inv c' ∧ flow_controlled c'.
Proof.
  intros Hp I Hb F R. induction R as [c|c offset size rs ds c'' R IH
    |c offset val size rs ds c'' K R IH|c buf rs ds c'' P Hn R IH].
  - rewrite app_nil_r. done.
  - pose proof (io_read_spec c offset size I) as S.
    destruct (uart_io_read c offset size) as [c' v]. destruct S as (I' & _ & B' & _ & F' & Q).
    simpl in *. destruct IH as (E & ? & ?); [done|congruence|auto|].
    rewrite Q, <- !app_assoc, E. done.
  - pose proof (io_write_spec c offset val size I) as (I' & _ & B' & _ & F').
    destruct IH as (E & ? & ?); [done|congruence|auto|]. split_and!; try done. rewrite <- E. f_equal.
    unfold uart_io_write. cbv zeta. set (r := u16 _) in *. set (v := u8 _) in *.
    symmetry. etrans; [exact (kept_pending _ _ (irq_update_kept _ (reg_write_inv c r v I (u8_range _))))|].
    by apply reg_write_keeps_input.
  - destruct buf as [|b buf]; [by apply IH|].
    pose proof (flow_controlled_room c _ F P Hn) as Hr.
    destruct (rx_cb_spec c (b :: buf) I Hb ltac:(done)) as (I' & _ & Q & S & _ & F').
    assert (F1 : flow_controlled (uart_rx_cb c (b :: buf))).
    { destruct F' as [?|(dev & He & _)]; [done|]. specialize (Hp dev). lia. }
    destruct IH as (E & ? & ?); [done| |done|].
    { destruct (same_config _ _ (S Hr)). congruence. }
    split_and!; try done. rewrite <- E, Q, app_assoc. rewrite take_ge by lia. done.
Qed.

(** Input raises the interrupt: when the console delivers data within the
    limits and receiver interrupts are enabled, the line is up when the
    callback returns, whatever the FIFO mode and trigger level. *)
Theorem uart_rx_interrupt c buf :
  uart_inv c → rx_bound c = true → flow_controlled c → rx_paused c = false → buf ≠ [] →
  Z.of_nat (length buf) ≤ UART_BACKLOG_SIZE - UART_BACKLOG_HIGH_WATERMARK →
  has (ier c) UART_IER_RDI = true →
  last (trace (uart_rx_cb c buf)) = Some (IrqLevel 1).
Proof.
  intros I Hb F P Hne Hn Hi.
  destruct (rx_cb_spec c buf I Hb Hne) as (I' & _ & _ & S & G & _).
  pose proof (flow_controlled_room c _ F P Hn) as Hr.
  specialize (S Hr). specialize (F P).
  assert (Gs : rx_signalled (uart_rx_cb c buf)).
  { apply G. unfold UART_BACKLOG_HIGH_WATERMARK, UART_BACKLOG_SIZE in *. lia. }
  rewrite <- (same_ier _ _ S) in Hi. revert Hi Gs. rewrite (uart_rx_cb_eq c buf Hne).
  rewrite irq_update_level. set (c' := uart_16550a_irq_update _). clearbody c'. intros Hi Gs.
  replace (uart_interrupt_pending c') with true; [done|].
  unfold uart_interrupt_pending. rewrite Hi. simpl. unfold rx_signalled in Gs.
  destruct (has (fcr c') UART_FCR_ENABLE_FIFO).
  - destruct Gs as [Gs|Gs].
    + apply Z.leb_le in Gs. by rewrite Gs, !orb_true_r.
    + by rewrite Gs, !orb_true_r.
  - apply Z.ltb_lt in Gs. by rewrite Gs, !orb_true_r.
Qed.

(** C34. The interrupt line is never stale: after a register read, a register
    write or a delivery, the level last driven is one exactly when an enabled
    interrupt condition holds in the state the operation leaves behind. *)
Theorem uart_line_level c op :
  match op with IoRead _ _ | IoWrite _ _ _ => True | Receive buf => buf ≠ [] | _ => False end →
  last (trace (uart_exec c op)) = Some (IrqLevel (Z.b2z (uart_interrupt_pending (uart_exec c op)))).
Proof.
  intros Hop. destruct op as [offset size|offset val size|buf|error|]; try done; simpl.
  - unfold uart_io_read. cbv zeta. destruct (uart_16550a_reg_read _ _). apply irq_update_level.
  - apply irq_update_level.
  - rewrite (uart_rx_cb_eq c buf Hop). apply irq_update_level.
Qed.

(** A byte written to the transmit register is handed to the console at
    once, alone and unchanged; the transmitter is ready again when the access
    returns, and with the transmit interrupt enabled the line is up. *)
Theorem uart_tx_delivers c offset val size :
  uart_inv c → u16 (Z.shiftr offset (reg_shift c)) = UART_TX →
  uart_16550a_dlab_is_set c = false → uart_16550a_loopback_is_enabled c = false →
  let c' := uart_io_write c offset val size in
  console c' = (fun dev => (char_write dev [u8 val]).1) <$> console c ∧
  has (lsr c') UART_LSR_THRE = true ∧ thre_int_pending c' = true ∧
  pending_input c' = pending_input c.
Proof.
  intros I Ho D L. unfold uart_io_write. cbv zeta. rewrite Ho.
  replace (u8 (Z.land val 255)) with (u8 val).
  2: { unfold u8. change 255 with (Z.ones 8). rewrite Z.land_ones by lia. by rewrite Z.mod_mod. }
  destruct (tx_write_spec c (u8 val) I D L) as (I' & _ & Q & _ & _ & _ & _ & T & C).
  split_and!; [exact C| |exact T|exact Q].
  pose proof (inv_lsr_thre _ I'). by has_to_testbit.
Qed.

(** Realization leaves a UART with an empty input queue, the documented
    reset values and the invariant, bound to its console if it has one, and
    its eight registers claimed in the chosen space; any error is negative. *)
Theorem uart_realize_spec vm owner pool plat a0 a1 a2 :
  Space.topology_inv vm → is_u64 (pdata_base plat) → 0 ≤ pdata_shift plat →
  Space.fresh_alloc vm a1 →
  let '(vm', _, priv, ret) := uart_realize vm owner pool (Some plat) a0 a1 a2 in
  Space.topology_inv vm' ∧ ret ≤ 0 ∧
  (ret = 0 → ∃ c r, priv = Some c ∧ uart_inv c ∧ flow_controlled c ∧ pending_input c = [] ∧
     (rx_bound c = true ↔ is_Some (pdata_console plat)) ∧
     (lsr c = 0x60 ∧ msr c = 0xb0 ∧ ier c = 0 ∧ uart_16550a_iir_get c = UART_IIR_NO_INT) ∧
     r ∈ Space.io_list (Space.io vm') (pdata_space plat) ∧ Space.dev r = owner ∧
     Space.base r = pdata_base plat ∧ Space.io_size r = 8 * 2 ^ pdata_shift plat).
Proof.
  intros It Hbase Hsh Hf. unfold uart_realize.
  destruct (pdata_irq plat); simpl negb; [|by split_and!].
  destruct (Z.leb_spec 61 (pdata_shift plat)); [by split_and!|]. simpl orb. cbv iota.
  unfold ResPool.res_zalloc. destruct (_ || _ || _); [by split_and!|].
  destruct a0 as [addr|]; [|by split_and!]. cbv zeta iota.
  assert (Hsz : Z.shiftl 8 (pdata_shift plat) = 8 * 2 ^ pdata_shift plat)
    by (apply Z.shiftl_mul_pow2; lia).
  assert (Hrs : is_u64 (u64 (Z.shiftl 8 (pdata_shift plat)))) by apply u64_range.
  assert (Hrs' : u64 (Z.shiftl 8 (pdata_shift plat)) = 8 * 2 ^ pdata_shift plat).
  { rewrite Hsz. apply u64_small.
    pose proof (Z.pow_lt_mono_r 2 (pdata_shift plat) 61 ltac:(lia) ltac:(lia) ltac:(lia)). word. }
  change (reg_shift (uart_blank plat)) with (pdata_shift plat).
  match goal with |- context [Space.io_map_register_region_locked ?v ?t ?b ?s ?o ?p ?x ?y ?z] =>
    pose proof (Space.register_cases v t b s o p x y z It Hbase Hrs Hf) as C;
    pose proof (Space.register_inv v t b s o p x y z It Hbase Hrs Hf) as It';
    destruct (Space.io_map_register_region_locked v t b s o p x y z) as [[vm' pool'] [reg|e]] end.
  2: { destruct C as [He ->]. split_and!; [done|lia|lia]. }
  simpl in It'. destruct C as (-> & (ad & -> & _) & _ & _ & _).
  change (console (uart_blank plat)) with (pdata_console plat).
  assert (Hin : ∀ x, x ∈ Space.io_list (Space.set_io_list (Space.io vm) (pdata_space plat)
     (Space.io_list (Space.io vm) (pdata_space plat) ++ [x])) (pdata_space plat)).
  { intros x. rewrite Space.io_list_set. apply elem_of_app. right. by left. }
  destruct (pdata_console plat) as [dev|] eqn:Hc.
  - destruct (char_bind _ _) as [dev' ret]. destruct (Z.ltb_spec ret 0); [split_and!; [done|lia|lia]|].
    split_and!; [done..|]. intros _. eexists _, _. split; [done|].
    split; [apply uart_blank_inv; eauto|]. split_and!; first [done|apply Hin|apply Hrs'].
  - split_and!; [done..|]. intros _. eexists _, _. split; [done|].
    split; [apply (uart_blank_inv plat (pdata_console plat) false); done|].
    split_and!; first [done|apply Hin|apply Hrs'].
Qed.

(** A write to FCR that clears the receive FIFO: FIFOs off, or the reset bit. *)
Definition clears_rcvr (val : Z) : bool := negb (has val UART_FCR_ENABLE_FIFO) || has val UART_FCR_CLEAR_RCVR.

(** A character timeout is pending, receiver interrupts are on, and no line
    status interrupt comes before it once an overrun is cleared. *)
Definition timeout_shows (c : uart_16550a_ctx) : Prop :=
  rx_timeout c = true ∧ has (ier c) UART_IER_RDI = true ∧
  has (ier c) UART_IER_RLSI && has (clr_bits (lsr c) UART_LSR_OE) UART_LSR_BRK_ERROR_BITS = false.

Lemma fcr_clears c val :
  clears_rcvr val = true →
  let c' := fcr_write c val in
  rx_cnt c' = 0 ∧ has (lsr c') UART_LSR_DR = false ∧
  has (lsr c') UART_LSR_BRK_ERROR_BITS = has (clr_bits (lsr c) UART_LSR_OE) UART_LSR_BRK_ERROR_BITS ∧
  (rx_timeout c' = rx_timeout c ∧ ier c' = ier c ∧ lcr c' = lcr c ∧ reg_shift c' = reg_shift c ∧
   backlog_cnt c' = backlog_cnt c) ∧ (has (fcr c') UART_FCR_ENABLE_FIFO = true → 0 < rx_trigger_level c').
Proof.
  intros Hv. unfold fcr_write. cbv zeta.
  assert (E1 : has (Z.land val 0xcf) UART_FCR_ENABLE_FIFO = has val UART_FCR_ENABLE_FIFO) by (by bits).
  assert (E2 : has (Z.land val 0xcf) UART_FCR_CLEAR_RCVR = has val UART_FCR_CLEAR_RCVR) by (by bits).
  rewrite E1, E2. unfold clears_rcvr in Hv. unfold UART_LSR_BRK_ERROR_BITS. rewrite !has_lor.
  destruct (has val UART_FCR_ENABLE_FIFO); cbn [negb orb] in *.
  - rewrite Hv. pose proof (trigger_bits val) as Hs. rewrite !elem_of_cons, elem_of_nil in Hs.
    destruct Hs as [->|[->|[->|[->|[]]]]]; simpl; destruct (has (Z.land val 0xcf) UART_FCR_CLEAR_XMIT); simpl;
      (split; [done|]; split; [by bits|]; split; [by bits|]; split; [by split_and!|]; intros _; lia).
  - simpl. split; [done|]. split; [by bits|]. split; [by bits|]. split; [by split_and!|]. done.
Qed.

(** What the identification register and the line say of an empty FIFO. *)
Lemma stale_iir c :
  rx_cnt c = 0 → rx_timeout c = true → has (ier c) UART_IER_RDI = true →
  has (ier c) UART_IER_RLSI && has (lsr c) UART_LSR_BRK_ERROR_BITS = false →
  (has (fcr c) UART_FCR_ENABLE_FIFO = true → 0 < rx_trigger_level c) →
  Z.land (uart_16550a_iir_get c) 0x0f = 0x0c ∧ uart_interrupt_pending c = true.
Proof.
  intros N T R L G. unfold uart_16550a_iir_get, uart_interrupt_pending. rewrite N, T, R, L. cbn [orb andb].
  destruct (has (fcr c) UART_FCR_ENABLE_FIFO); [|done]. specialize (G eq_refl).
  by rewrite (proj2 (Z.leb_gt _ _) G).
Qed.

(** Reading the receive register when nothing has arrived changes nothing that
    matters to the interrupt. *)
Lemma read_empty c offset size :
  rx_cnt c = 0 → u16 (Z.shiftr offset (reg_shift c)) = UART_RX → uart_16550a_dlab_is_set c = false → backlog_cnt c = 0 →
  let '(c2, val) := uart_io_read c offset size in
  val = 0 ∧ rx_cnt c2 = 0 ∧ rx_timeout c2 = rx_timeout c ∧ ier c2 = ier c ∧ lsr c2 = lsr c ∧ fcr c2 = fcr c ∧
  rx_trigger_level c2 = rx_trigger_level c ∧
  last (trace c2) = Some (IrqLevel (Z.b2z (uart_interrupt_pending c2))).
Proof.
  intros N S D Bk. unfold uart_io_read. rewrite S. simpl Z.eqb. cbv iota zeta. unfold uart_16550a_reg_read. simpl Z.eqb. cbv iota.
  change (uart_16550a_dlab_is_set (emit (IrqLevel 0) c)) with (uart_16550a_dlab_is_set c). rewrite D.
  unfold uart_16550a_rx_fifo_pop. change (rx_cnt (emit (IrqLevel 0) c)) with (rx_cnt c). rewrite N. simpl Z.eqb. cbv iota.
  set (c1 := uart_16550a_irq_update (emit (IrqLevel 0) c)).
  assert (Bd : refill_body (c1, false) = inr (c1, false)) by (unfold refill_body, c1; simpl; by rewrite Bk).
  unfold uart_16550a_rx_fifo_refill. rewrite (run_loop_stop _ _ _ Bd).
  assert (K : rx_cnt (refill_resume c1) = 0 ∧ rx_timeout (refill_resume c1) = rx_timeout c ∧ ier (refill_resume c1) = ier c ∧
    lsr (refill_resume c1) = lsr c ∧ fcr (refill_resume c1) = fcr c ∧ rx_trigger_level (refill_resume c1) = rx_trigger_level c).
  { unfold refill_resume. destruct (rx_paused c1 && _); [|done]. destruct (console c1) as [dev|]; [|done].
    destruct (char_resume_rx dev) as [dev' ret]. by destruct (ret <? 0). }
  destruct K as (K1 & K2 & K3 & K4 & K5 & K6). split; [done|]. split_and!; [done..|apply irq_update_level].
Qed.

(** C40. Clearing the receive FIFO does not clear a pending character timeout.
    From any state in which a timeout is pending, receiver interrupts are
    enabled and no line status interrupt takes precedence, a write to FCR that
    clears the FIFO (with the reset bit, or by turning the FIFOs off) leaves the
    identification register reporting a character timeout and the line raised
    although no data is there.  With the divisor latch off and nothing waiting in
    the backlog, reading the receive register of the empty FIFO returns 0 and
    does not withdraw it. *)
Theorem uart_stale_timeout c offset val size :
  timeout_shows c → u16 (Z.shiftr offset (reg_shift c)) = UART_FCR → clears_rcvr val = true →
  let c1 := uart_io_write c offset val size in
  rx_cnt c1 = 0 ∧ has (lsr c1) UART_LSR_DR = false ∧ Z.land (uart_16550a_iir_get c1) 0x0f = 0x0c ∧
  last (trace c1) = Some (IrqLevel 1) ∧
  ∀ rx n, u16 (Z.shiftr rx (reg_shift c)) = UART_RX → uart_16550a_dlab_is_set c = false → backlog_cnt c = 0 →
    let '(c2, data) := uart_io_read c1 rx n in
    data = 0 ∧ rx_cnt c2 = 0 ∧ Z.land (uart_16550a_iir_get c2) 0x0f = 0x0c ∧ last (trace c2) = Some (IrqLevel 1).
Proof.
  intros (T & R & L) S V. cbv zeta. unfold uart_io_write. rewrite S. cbv zeta.
  change (uart_16550a_reg_write c UART_FCR (u8 (Z.land val 255))) with (fcr_write c (u8 (Z.land val 255))).
  assert (V' : clears_rcvr (u8 (Z.land val 255)) = true) by (rewrite <- V; unfold clears_rcvr; by bits).
  destruct (fcr_clears c _ V') as (N & DR & Br & (Et & Ei & El & Es & Eb) & G).
  set (c0 := fcr_write c _) in *. clearbody c0. set (c1 := uart_16550a_irq_update c0).
  assert (Q : Z.land (uart_16550a_iir_get c1) 0x0f = 0x0c ∧ uart_interrupt_pending c1 = true).
  { apply stale_iir; [done|simpl; congruence|simpl; congruence| |done]. simpl. by rewrite Ei, Br. }
  pose proof (irq_update_level c0) as L1. fold c1 in L1. destruct Q as [Q1 Q2]. rewrite Q2 in L1.
  split_and!; [done..|]. intros rx n Sx D Bk.
  pose proof (read_empty c1 rx n N) as Rd. destruct (uart_io_read c1 rx n) as [c2 data].
  destruct Rd as (E0 & E1 & E2 & E3 & E4 & E5 & E6 & E7); [by simpl; rewrite Es| |by simpl; rewrite Eb|].
  { unfold uart_16550a_dlab_is_set in *. simpl. by rewrite El. }
  destruct (stale_iir c2) as [Q3 Q4]; [done|simpl in E2; congruence|simpl in E3; congruence| | |].
  - rewrite E3, E4. simpl. by rewrite Ei, Br.
  - rewrite E5, E6. exact G.
  - rewrite Q4 in E7. done.
Qed.
End Uart.
Arguments uart_16550a_ctx : clear implicits.
Arguments serial_pdata : clear implicits.

(** ** Examples *)

(** A console that records what is written and can be paused. *)
Record recorder : Type := mk_recorder { written : list Z; paused : bool; limit : Z }.

#[export] Instance recorder_backend : CharBackend recorder := {|
  char_write r buf := (mk_recorder (written r ++ buf) (paused r) (limit r), 0);
  char_pause_rx r := (mk_recorder (written r) true (limit r), 0);
  char_resume_rx r := (mk_recorder (written r) false (limit r), 0);
  char_bind r n := (mk_recorder (written r) (paused r) n, 0);
  char_unbind r := r;
|}.

Definition example_pdata : serial_pdata recorder :=
  mk_serial Space.IO_PIO 0x3f8 0 true (Some (mk_recorder [] false 0)).

Definition example_uart : uart_16550a_ctx recorder :=
  uart_reset (uart_blank example_pdata <| console := Some (mk_recorder [] false 64) |>
                                       <| rx_bound := true |>).

Lemma example_uart_inv : uart_inv example_uart.
Proof. apply uart_blank_inv. eauto. Qed.

Lemma uart_run_safe_witness :
  let ops := [IoWrite 1 1 1; Receive [65; 66]; IoRead 0 1; IoWrite 0 67 1; Notify 0; Stop] in
  uart_inv (foldl uart_exec example_uart ops) ∧
  extends example_uart (foldl uart_exec example_uart ops).
Proof.
  apply (uart_run_safe _ example_uart example_uart_inv). vm_compute. tauto.
Defined.

Lemma uart_input_fifo_witness :
  let c := uart_rx_cb example_uart [65; 66] in
  [] ++ [65; 66] = [65] ++ pending_input (uart_io_read c 0 1).1.
Proof.
  apply (uart_input_fifo example_uart [65; 66] [65]).
  - intros dev. simpl. lia.
  - apply example_uart_inv.
  - reflexivity.
  - intros _. vm_compute. reflexivity.
  - apply (run_receive example_uart [65; 66] [] [65]); [reflexivity|vm_compute; discriminate|].
    set (c := uart_rx_cb example_uart [65; 66]).
    replace [65] with (delivered c (u16 (Z.shiftr 0 (reg_shift c))) (uart_io_read c 0 1).2 ++ [])
      by (vm_compute; reflexivity).
    apply (run_read c 0 1 [] []), run_done.
Defined.

Definition listening_uart : uart_16550a_ctx recorder := uart_io_write example_uart 1 1 1.

Lemma listening_uart_inv : uart_inv listening_uart.
Proof. apply io_write_spec, example_uart_inv. Qed.

Lemma uart_rx_interrupt_witness :
  last (trace (uart_rx_cb listening_uart [65])) = Some (IrqLevel 1).
Proof.
  apply (uart_rx_interrupt listening_uart [65] listening_uart_inv); try reflexivity.
  - intros _. vm_compute. reflexivity.
  - discriminate.
  - vm_compute. discriminate.
Defined.

Lemma uart_line_level_witness :
  last (trace (uart_exec listening_uart (Receive [65]))) =
  Some (IrqLevel (Z.b2z (uart_interrupt_pending (uart_exec listening_uart (Receive [65]))))).
Proof. apply (uart_line_level listening_uart (Receive [65])). discriminate. Defined.

Lemma uart_tx_delivers_witness :
  let c' := uart_io_write example_uart 0 72 1 in
  console c' = (fun dev => (char_write dev [u8 72]).1) <$> console example_uart ∧
  has (lsr c') UART_LSR_THRE = true ∧ thre_int_pending c' = true ∧
  pending_input c' = pending_input example_uart.
Proof.
  exact (uart_tx_delivers example_uart 0 72 1 example_uart_inv eq_refl eq_refl eq_refl).
Defined.

Lemma uart_realize_witness :
  let '(vm', _, priv, ret) :=
    uart_realize Space.example_machine 5 (ResPool.res_pool_init 1) (Some example_pdata)
      (Some 0x100000) (Some 0x200000) (Some 0x300000) in
  Space.topology_inv vm' ∧ ret ≤ 0 ∧
  (ret = 0 → ∃ c r, priv = Some c ∧ uart_inv c ∧ flow_controlled c ∧ pending_input c = [] ∧
     (rx_bound c = true ↔ is_Some (pdata_console example_pdata)) ∧
     (lsr c = 0x60 ∧ msr c = 0xb0 ∧ ier c = 0 ∧ uart_16550a_iir_get c = UART_IIR_NO_INT) ∧
     r ∈ Space.io_list (Space.io vm') Space.IO_PIO ∧ Space.dev r = 5 ∧
     Space.base r = 0x3f8 ∧ Space.io_size r = 8 * 2 ^ 0).
Proof.
  apply (uart_realize_spec Space.example_machine 5 (ResPool.res_pool_init 1) example_pdata
           (Some 0x100000) (Some 0x200000) (Some 0x300000) Space.example_machine_inv).
  - unfold is_u64. simpl. lia.
  - simpl. lia.
  - intros a t [= <-]. destruct t; apply (bool_decide_unpack _); reflexivity.
Defined.

(** Receiver interrupts and FIFOs on (trigger 14), one byte waiting. *)
Definition waiting_uart : uart_16550a_ctx recorder :=
  uart_rx_cb (uart_io_write listening_uart 2 0xc1 1) [65].

Lemma uart_stale_timeout_witness :
  let c1 := uart_io_write waiting_uart UART_FCR 0xc3 1 in
  rx_cnt c1 = 0 ∧ Z.land (uart_16550a_iir_get c1) 0x0f = 0x0c ∧
  last (trace (uart_io_read c1 UART_RX 1).1) = Some (IrqLevel 1).
Proof.
  pose proof (uart_stale_timeout waiting_uart UART_FCR 0xc3 1 ltac:(by vm_compute) eq_refl eq_refl) as (H1 & _ & H2 & _ & H3).
  split; [exact H1|]. split; [exact H2|]. specialize (H3 UART_RX 1 eq_refl eq_refl eq_refl).
  destruct (uart_io_read _ UART_RX 1) as [c2 data]. apply H3.
Defined.
End Uart.
