(* ===== verification/Virtqueue.v ===== *)
(** * Virtqueues (src/hw/virtio/virtqueue.c)

    The split ring shared with the guest: taking a descriptor chain off the
    available ring, validating it, moving bytes between it and the device, and
    returning it on the used ring.  The guest may rewrite the ring while it is
    being read, so [virtqueue_pop] reads a memory that changes from one access
    to the next. *)

From S2P Require Import Prelude HostMem ResPool Topology.

Module Vq.
Import Space.

Definition VRING_DESC_F_NEXT : Z := 1.
Definition VRING_DESC_F_WRITE : Z := 2.

(** ** Data *)

Record vring_desc : Type := mk_desc {
  desc_addr : Z;
  desc_len : Z;
  desc_flags : Z;
  desc_next : Z;
}.

Record virtqueue_buf : Type := mk_buf { buf_gpa : Z; buf_len : Z; is_write : bool }.

(** [chain->bufs] points at the queue's own array: the model copies it, and
    the copy is what the array holds until the next pop or reset. *)
Record virtqueue_chain : Type := mk_chain {
  chain_mem : mem_space;
  bufs : list virtqueue_buf;
  nr_bufs : Z;
  head : Z;
  readable : Z;
  writable : Z;
}.

(** The ring pointers are host addresses, [None] for NULL.  [mem] is frozen
    after the machine is built. *)
Record virtqueue : Type := mk_vq {
  vq_mem : mem_space;
  queue_size : Z;
  max_size : Z;
  broken : bool;
  vq_enabled : bool;
  last_avail_idx : Z;
  last_used_idx : Z;
  desc_table : option Z;
  avail_ring : option Z;
  used_ring : option Z;
  vq_bufs : list virtqueue_buf;
}.

Definition eta_chain (c : virtqueue_chain) : virtqueue_chain :=
  mk_chain (chain_mem c) (bufs c) (nr_bufs c) (head c) (readable c) (writable c).
#[export] Instance set_bufs : Setter bufs := ltac:(derive_setter eta_chain).
#[export] Instance set_nr_bufs : Setter nr_bufs := ltac:(derive_setter eta_chain).
#[export] Instance set_head : Setter head := ltac:(derive_setter eta_chain).
#[export] Instance set_readable : Setter readable := ltac:(derive_setter eta_chain).
#[export] Instance set_writable : Setter writable := ltac:(derive_setter eta_chain).

Definition eta_vq (v : virtqueue) : virtqueue :=
  mk_vq (vq_mem v) (queue_size v) (max_size v) (broken v) (vq_enabled v) (last_avail_idx v)
    (last_used_idx v) (desc_table v) (avail_ring v) (used_ring v) (vq_bufs v).
#[export] Instance set_queue_size : Setter queue_size := ltac:(derive_setter eta_vq).
#[export] Instance set_broken : Setter broken := ltac:(derive_setter eta_vq).
#[export] Instance set_vq_enabled : Setter vq_enabled := ltac:(derive_setter eta_vq).
#[export] Instance set_last_avail_idx : Setter last_avail_idx := ltac:(derive_setter eta_vq).
#[export] Instance set_last_used_idx : Setter last_used_idx := ltac:(derive_setter eta_vq).
#[export] Instance set_desc_table : Setter desc_table := ltac:(derive_setter eta_vq).
#[export] Instance set_avail_ring : Setter avail_ring := ltac:(derive_setter eta_vq).
#[export] Instance set_used_ring : Setter used_ring := ltac:(derive_setter eta_vq).
#[export] Instance set_vq_bufs : Setter vq_bufs := ltac:(derive_setter eta_vq).

(** ** Queue management *)

(** [calloc] says whether the allocation succeeds. *)
Definition virtqueue_create (mem : mem_space) (queue_size : Z) (calloc : bool) : option virtqueue :=
  if queue_size =? 0 then None
  else if negb (Z.land queue_size (queue_size - 1) =? 0) then None
  else if negb calloc then None
  else Some (mk_vq mem queue_size queue_size false false 0 0 None None None
               (replicate (Z.to_nat queue_size) (mk_buf 0 0 false))).

Definition virtqueue_get_max_size (vq : virtqueue) : Z := max_size vq.

Definition virtqueue_set_size (vq : virtqueue) (size : Z) : virtqueue * Z :=
  if vq_enabled vq || (size =? 0) || negb (Z.land size (size - 1) =? 0) || (max_size vq <? size)
  then (vq, - VM_EINVAL)
  else (vq <| queue_size := size |>, 0).

Definition virtqueue_reset (vq : virtqueue) : virtqueue :=
  let vq := vq <| vq_enabled := false |> <| broken := false |> in
  let vq := vq <| queue_size := max_size vq |> in
  let vq := vq <| last_avail_idx := 0 |> <| last_used_idx := 0 |> in
  vq <| desc_table := None |> <| avail_ring := None |> <| used_ring := None |>.

Definition virtqueue_set_addrs (vq : virtqueue) (desc_gpa avail_gpa used_gpa : Z) :
    virtqueue * Z :=
  if has desc_gpa 15 || has avail_gpa 1 || has used_gpa 3 then (vq, - VM_EINVAL)
  else
    match mem_map_range (vq_mem vq) desc_gpa (16 * queue_size vq) false,
          mem_map_range (vq_mem vq) avail_gpa (6 + 2 * queue_size vq) false,
          mem_map_range (vq_mem vq) used_gpa (6 + 8 * queue_size vq) true with
    | Some desc, Some avail, Some used =>
        (vq <| desc_table := Some desc |> <| avail_ring := Some avail |>
            <| used_ring := Some used |> <| vq_enabled := true |>, 0)
    | _, _, _ => (vq, - VM_EFAULT)
    end.

Definition virtqueue_disable (vq : virtqueue) : virtqueue := vq <| vq_enabled := false |>.

(** ** Taking a chain off the available ring *)

(** [le16_to_cpu(vq->avail_ring->idx)] and [->ring[i]]. *)
Definition avail_idx (m : hmem) (ring : Z) : Z := le_get m (ring + 2) 2.
Definition avail_entry (m : hmem) (ring i : Z) : Z := le_get m (ring + 4 + 2 * i) 2.

(** The [memcpy] of one descriptor. *)
Definition desc_read (m : hmem) (table i : Z) : vring_desc :=
  let a := table + 16 * i in
  mk_desc (le_get m a 8) (le_get m (a + 8) 4) (le_get m (a + 12) 2) (le_get m (a + 14) 2).

(** The inner while loop: does every chunk of the span map?  [None] if it does
    not end. *)
Definition span_body (mem : mem_space) (write : bool) (st : Z * Z) : (Z * Z) + bool :=
  let '(gpa, length) := st in
  if length =? 0 then inr true
  else
    match mem_map_chunk mem gpa length write with
    | (Some _, chunk) => if chunk =? 0 then inr false else inl (gpa_add gpa chunk, length - chunk)
    | (None, _) => inr false
    end.

Definition span_mapped (mem : mem_space) (gpa length : Z) (write : bool) : option bool :=
  match loop (span_body mem write) (gpa, length) with inr b => Some b | inl _ => None end.

(** The loop variables of the outer loop; [reads] counts the descriptors read
    so far. *)
Record pop_state : Type := mk_pop {
  pop_vq : virtqueue;
  pop_chain : virtqueue_chain;
  pop_index : Z;
  pop_writable : bool;
  pop_reads : nat;
}.

(** One round.  [rd k] is the memory at the [k]-th descriptor read; the result
    is the next round, or the final state with zero or the error. *)
Definition pop_body (rd : nat → hmem) (st : pop_state) :
    pop_state + (virtqueue * virtqueue_chain * Z) :=
  let vq := pop_vq st in
  let chain := pop_chain st in
  let index := pop_index st in
  if queue_size vq <=? index then inr (vq, chain, - VM_EFAULT)
  else if nr_bufs chain =? queue_size vq then inr (vq, chain, - VM_ELOOP)
  else
    let desc := desc_read (rd (pop_reads st)) (default 0 (desc_table vq)) index in
    let flags := desc_flags desc in
    let write := has flags VRING_DESC_F_WRITE in
    if negb (clr_bits flags (Z.lor VRING_DESC_F_NEXT VRING_DESC_F_WRITE) =? 0)
       || (pop_writable st && negb write)
    then inr (vq, chain, - VM_EINVAL)
    else
      let writable' := pop_writable st || write in
      let gpa := desc_addr desc in
      let length := desc_len desc in
      let total := if write then writable chain else readable chain in
      if (UINT64_MAX - gpa <? length) || (SIZE_MAX - total <? length)
      then inr (vq, chain, - VM_EFAULT)
      else
        let chain := if write then chain <| writable := total + length |>
                     else chain <| readable := total + length |> in
        let vq := vq <| vq_bufs := <[Z.to_nat (nr_bufs chain) := mk_buf gpa length write]>
                                     (vq_bufs vq) |> in
        let chain := chain <| nr_bufs := nr_bufs chain + 1 |> in
        match span_mapped (vq_mem vq) gpa length write with
        | None => inr (vq, chain, HANG)
        | Some false => inr (vq, chain, - VM_EFAULT)
        | Some true =>
            if negb (has flags VRING_DESC_F_NEXT) then inr (vq, chain, 0)
            else inl (mk_pop vq chain (desc_next desc) writable' (S (pop_reads st)))
        end.

(** [rd 0] is the memory when [idx] is read, [rd 1] when the ring entry is,
    [rd (2 + k)] when the [k]-th descriptor is. *)
Definition virtqueue_pop (vq : virtqueue) (rd : nat → hmem) : virtqueue * virtqueue_chain * Z :=
  let chain := mk_chain (vq_mem vq) (vq_bufs vq) 0 0 0 0 in
  if negb (vq_enabled vq) then (vq, chain, 0)
  else if broken vq then (vq, chain, - VM_EIO)
  else
    let available := avail_idx (rd 0%nat) (default 0 (avail_ring vq)) in
    if available =? last_avail_idx vq then (vq, chain, 0)
    else if queue_size vq <? u16 (available - last_avail_idx vq)
    then (vq <| broken := true |>, chain, - VM_EFAULT)
    else
      let index := avail_entry (rd 1%nat) (default 0 (avail_ring vq))
                     (last_avail_idx vq mod queue_size vq) in
      let chain := chain <| head := index |> in
      match loop (pop_body (fun k => rd (2 + k)%nat)) (mk_pop vq chain index false 0) with
      | inr (vq, chain, error) =>
          let chain := chain <| bufs := vq_bufs vq |> in
          if error =? 0 then (vq <| last_avail_idx := u16 (last_avail_idx vq + 1) |>, chain, 1)
          else if error =? HANG then (vq, chain, HANG)
          else (vq <| broken := true |>, chain, error)
      | inl st => (pop_vq st, pop_chain st, HANG)
      end.

(** ** Moving bytes *)

(** The for loop of [virtqueue_map] over the buffers that are left. *)
Fixpoint map_bufs (mem : mem_space) (l : list virtqueue_buf) (write : bool) (offset : Z) :
    option Z * Z :=
  match l with
  | [] => (None, 0)
  | buf :: l =>
      if negb (Bool.eqb (is_write buf) write) then map_bufs mem l write offset
      else if buf_len buf <=? offset then map_bufs mem l write (offset - buf_len buf)
      else mem_map_chunk mem (gpa_add (buf_gpa buf) offset) (buf_len buf - offset) write
  end.

(** The host address and [*length]. *)
Definition virtqueue_map (chain : virtqueue_chain) (write : bool) (offset : Z) : option Z * Z :=
  map_bufs (chain_mem chain) (take (Z.to_nat (nr_bufs chain)) (bufs chain)) write offset.

(** One round of [virtqueue_copy].  [data] is what remains to be written, or
    what has been read so far. *)
Record copy_state : Type := mk_copy {
  copy_mem : hmem;
  copy_data : list Z;
  copy_offset : Z;
  copy_size : Z;
}.

Definition copy_body (chain : virtqueue_chain) (write : bool) (st : copy_state) :
    copy_state + (hmem * list Z * Z) :=
  if copy_size st =? 0 then inr (copy_mem st, copy_data st, 0)
  else
    match virtqueue_map chain write (copy_offset st) with
    | (Some hva, chunk) =>
        if chunk =? 0 then inr (copy_mem st, copy_data st, - VM_EFAULT)
        else
          let chunk := if copy_size st <? chunk then copy_size st else chunk in
          let n := Z.to_nat chunk in
          inl (if write
               then mk_copy (hm_write (copy_mem st) hva (take n (copy_data st)))
                      (drop n (copy_data st)) (copy_offset st + chunk) (copy_size st - chunk)
               else mk_copy (copy_mem st) (copy_data st ++ hm_read (copy_mem st) hva chunk)
                      (copy_offset st + chunk) (copy_size st - chunk))
    | (None, _) => inr (copy_mem st, copy_data st, - VM_EFAULT)
    end.

Definition virtqueue_copy (chain : virtqueue_chain) (write : bool) (offset : Z) (m : hmem)
    (data : list Z) (size : Z) : hmem * list Z * Z :=
  let capacity := if write then writable chain else readable chain in
  if (capacity <? offset) || (capacity - offset <? size) then (m, data, - VM_EINVAL)
  else
    match loop (copy_body chain write) (mk_copy m data offset size) with
    | inr r => r
    | inl st => (copy_mem st, copy_data st, HANG)
    end.

(** Reading [size] bytes at [offset] of the readable stream, and writing
    [data] at [offset] of the writable stream. *)
Definition virtqueue_read (chain : virtqueue_chain) (offset : Z) (m : hmem) (size : Z) :
    list Z * Z :=
  let '(_, data, ret) := virtqueue_copy chain false offset m [] size in (data, ret).

Definition virtqueue_write (chain : virtqueue_chain) (offset : Z) (m : hmem) (data : list Z) :
    hmem * Z :=
  let '(m, _, ret) := virtqueue_copy chain true offset m data (Z.of_nat (length data)) in (m, ret).

(** ** Returning a chain on the used ring *)

Definition used_elem_addr (ring i : Z) : Z := ring + 4 + 8 * i.

Definition virtqueue_push (vq : virtqueue) (m : hmem) (desc_idx len : Z) : virtqueue * hmem :=
  match used_ring vq with
  | Some ring =>
      if negb (vq_enabled vq) then (vq, m)
      else
        let ring_idx := last_used_idx vq mod queue_size vq in
        let m := hm_write m (used_elem_addr ring ring_idx) (le_put 4 desc_idx) in
        let m := hm_write m (used_elem_addr ring ring_idx + 4) (le_put 4 len) in
        let vq := vq <| last_used_idx := u16 (last_used_idx vq + 1) |> in
        (vq, hm_write m (ring + 2) (le_put 2 (last_used_idx vq)))
  | None => (vq, m)
  end.

(** ** Invariant *)

Definition is_pow2_size (n : Z) : Prop := 0 < n ∧ Z.land n (n - 1) = 0.

(** Ring pointers that were obtained from [mem_map_range]. *)
Definition ring_mapped (ms : mem_space) (h : option Z) (len : Z) (write : bool) : Prop :=
  ∃ gpa a, is_u64 gpa ∧ h = Some a ∧ mem_map_range ms gpa len write = Some a.

Record vq_inv (vq : virtqueue) : Prop := {
  vq_size : is_pow2_size (queue_size vq) ∧ queue_size vq ≤ max_size vq;
  vq_max : is_pow2_size (max_size vq) ∧ max_size vq ≤ UINT16_MAX;
  vq_array : Z.of_nat (length (vq_bufs vq)) = max_size vq;
  vq_idx : is_u16 (last_avail_idx vq) ∧ is_u16 (last_used_idx vq);
  vq_rings : vq_enabled vq = true →
    ring_mapped (vq_mem vq) (desc_table vq) (16 * queue_size vq) false ∧
    ring_mapped (vq_mem vq) (avail_ring vq) (6 + 2 * queue_size vq) false ∧
    ring_mapped (vq_mem vq) (used_ring vq) (6 + 8 * queue_size vq) true;
}.

(** A guest byte that can be accessed in the given direction. *)
Definition byte_mapped (ms : mem_space) (write : bool) (a : Z) : Prop :=
  ∃ r, r ∈ regions ms ∧ in_ram r a ∧ ram_allows r write = true.

Definition buf_ok (ms : mem_space) (b : virtqueue_buf) : Prop :=
  0 ≤ buf_gpa b ∧ 0 ≤ buf_len b ∧ buf_gpa b + buf_len b ≤ UINT64_MAX ∧
  ∀ a, buf_gpa b ≤ a < buf_gpa b + buf_len b → byte_mapped ms (is_write b) a.

(** The guest addresses of one direction of a chain, in order. *)
Definition stream (l : list virtqueue_buf) (write : bool) : list Z :=
  concat ((fun b => if Bool.eqb (is_write b) write then seqZ (buf_gpa b) (buf_len b) else []) <$> l).

Definition chain_list (c : virtqueue_chain) : list virtqueue_buf :=
  take (Z.to_nat (nr_bufs c)) (bufs c).

(** What [virtqueue_pop] promises of a chain. *)
Record chain_ok (c : virtqueue_chain) : Prop := {
  chain_count : 0 ≤ nr_bufs c ≤ Z.of_nat (length (bufs c));
  chain_bufs : Forall (buf_ok (chain_mem c)) (chain_list c);
  chain_order : ∃ rs ws, chain_list c = rs ++ ws ∧
    Forall (fun b => is_write b = false) rs ∧ Forall (fun b => is_write b = true) ws;
  chain_readable : readable c = Z.of_nat (length (stream (chain_list c) false));
  chain_writable : writable c = Z.of_nat (length (stream (chain_list c) true));
}.

(** The host address behind a guest byte. *)
Definition hva_of (ms : mem_space) (a : Z) : Z :=
  match find_region ms a with Some r => hva r + (a - ram_gpa r) | None => 0 end.

(** Byte-by-byte reference for reading and writing a stream of addresses. *)
Definition stream_read (ms : mem_space) (m : hmem) (l : list Z) : list Z :=
  (fun a => hm_get m (hva_of ms a)) <$> l.

Fixpoint stream_write (ms : mem_space) (m : hmem) (l bs : list Z) : hmem :=
  match l, bs with
  | a :: l, b :: bs => stream_write ms (<[hva_of ms a := b]> m) l bs
  | _, _ => m
  end.

(** ** Lemmas: spans *)

Lemma chunk_mapped ms gpa len write :
  mem_inv ms → is_u64 gpa → is_u64 len → 0 < len → gpa + len ≤ UINT64_MAX →
  match mem_map_chunk ms gpa len write with
  | (Some h, n) =>
      0 < n ≤ len ∧ (∀ a, gpa ≤ a < gpa + n → byte_mapped ms write a) ∧
      (∀ i, 0 ≤ i < n → hva_of ms (gpa + i) = h + i)
  | (None, _) => ¬ byte_mapped ms write gpa
  end.
Proof.
  intros I Hg Hl Hp Hw.
  destruct (mem_map_chunk ms gpa len write) as [[h|] n] eqn:C.
  - apply (mem_map_chunk_spec _ _ _ _ _ _ I Hg Hl Hp Hw) in C as (r & Hr & [? ?] & W & -> & ->).
    split_and!; [lia|lia|..].
    + intros a Ha. exists r. unfold in_ram. split_and!; [done|lia|lia|done].
    + intros i Hi. unfold hva_of. rewrite (proj2 (find_region_spec ms (gpa + i) r I)); [lia|].
      split; [done|]. unfold in_ram. lia.
  - intros (r & Hr & Hin & W).
    pose proof (proj2 (mem_map_chunk_spec ms gpa len write _ _ I Hg Hl Hp Hw)
      (ex_intro _ r (conj Hr (conj Hin (conj W (conj eq_refl eq_refl)))))). congruence.
Qed.

(** The inner loop terminates and decides whether a whole span is mapped. *)
Lemma span_mapped_spec ms gpa len write :
  mem_inv ms → is_u64 gpa → is_u64 len → gpa + len ≤ UINT64_MAX →
  ∃ b, span_mapped ms gpa len write = Some b ∧ (b = true ↔ ∀ a, gpa ≤ a < gpa + len → byte_mapped ms write a).
Proof.
  intros I Hg Hl Hw. unfold span_mapped.
  destruct (loop_total (span_body ms write)
    (fun '(g, l) => gpa ≤ g ∧ 0 ≤ l ∧ g + l = gpa + len ∧
                    ∀ a, gpa ≤ a < g → byte_mapped ms write a)
    (fun '(_, l) => l)
    (fun b => b = true ↔ ∀ a, gpa ≤ a < gpa + len → byte_mapped ms write a)
    (gpa, len)) as (b & -> & Hb); [|split_and!; try lia; word|word|by exists b].
  intros [g l] (Hge & Hl0 & E & Hm). unfold span_body.
  destruct (Z.eqb_spec l 0) as [->|Hne].
  { split; [|done]. intros _ a Ha. apply Hm. lia. }
  pose proof (chunk_mapped ms g l write I ltac:(word) ltac:(word) ltac:(lia) ltac:(word)) as C.
  destruct (mem_map_chunk ms g l write) as [[h|] n].
  - destruct C as (Hn & Hc & _). destruct (Z.eqb_spec n 0); [lia|].
    unfold gpa_add. rewrite u64_small by word. split_and!; try lia.
    intros a Ha. destruct (decide (a < g)); [apply Hm; lia|apply Hc; lia].
  - split; [done|]. intros Ha. destruct C. apply Ha. lia.
Qed.

(** ** Lemmas: the pop loop *)

Lemma stream_snoc l b w :
  stream (l ++ [b]) w =
  stream l w ++ (if Bool.eqb (is_write b) w then seqZ (buf_gpa b) (buf_len b) else []).
Proof. unfold stream. rewrite fmap_app, concat_app. simpl. by rewrite app_nil_r. Qed.

Lemma take_insert_snoc {A} (l : list A) n x :
  (n < length l)%nat → take (S n) (<[n := x]> l) = take n l ++ [x].
Proof.
  intros Hn. rewrite (take_S_r _ _ x) by (by apply list_lookup_insert_eq).
  by rewrite take_insert_ge.
Qed.

(** The queue, but for its buffer array, is not changed by the loop. *)
Definition same_queue (v v' : virtqueue) : Prop :=
  v' = v <| vq_bufs := vq_bufs v' |> ∧ length (vq_bufs v') = length (vq_bufs v).

Lemma same_queue_insert v v' n b :
  same_queue v v' → same_queue v (v' <| vq_bufs := <[n := b]> (vq_bufs v') |>).
Proof.
  intros [E L]. split; simpl; [|by rewrite length_insert]. rewrite E. done.
Qed.

(** Good buffers, readable ones first ([seen]: a writable one has been seen),
    with the totals of both directions. *)
Definition good_list (ms : mem_space) (l : list virtqueue_buf) (seen : bool) (r w : Z) : Prop :=
  Forall (buf_ok ms) l ∧
  (∃ rs ws, l = rs ++ ws ∧ Forall (fun b => is_write b = false) rs ∧
     Forall (fun b => is_write b = true) ws ∧ (seen = false → ws = [])) ∧
  r = Z.of_nat (length (stream l false)) ∧ w = Z.of_nat (length (stream l true)).

Lemma good_list_snoc ms l seen r w b :
  good_list ms l seen r w → buf_ok ms b → seen && negb (is_write b) = false →
  good_list ms (l ++ [b]) (seen || is_write b)
    (if is_write b then r else r + buf_len b) (if is_write b then w + buf_len b else w).
Proof.
  intros (F & (rs & ws & -> & Hr & Hw & Hs) & -> & ->) Hok Hb.
  pose proof Hok as (_ & Hl & _). split; [apply Forall_app; by rewrite Forall_singleton|].
  split.
  - destruct (is_write b) eqn:W.
    + exists rs, (ws ++ [b]). rewrite orb_true_r. split_and!; [by rewrite app_assoc|done| |done].
      apply Forall_app. by rewrite Forall_singleton.
    + rewrite andb_true_r in Hb. subst seen. rewrite (Hs eq_refl), app_nil_r in *.
      exists (rs ++ [b]), []. rewrite app_nil_r. split_and!; [done| |constructor|done].
      apply Forall_app. by rewrite Forall_singleton.
  - rewrite !stream_snoc, !length_app. destruct (is_write b); simpl; rewrite length_seqZ; lia.
Qed.

(** The loop invariant. *)
Record pop_inv (vq0 : virtqueue) (st : pop_state) : Prop := {
  pop_same : same_queue vq0 (pop_vq st);
  pop_nr : 0 ≤ nr_bufs (pop_chain st) ≤ queue_size vq0;
  pop_mem : chain_mem (pop_chain st) = vq_mem vq0;
  pop_head : 0 ≤ head (pop_chain st) ∧
    (head (pop_chain st) = pop_index st ∨ head (pop_chain st) < queue_size vq0);
  pop_idx : 0 ≤ pop_index st;
  pop_good :
    good_list (vq_mem vq0) (take (Z.to_nat (nr_bufs (pop_chain st))) (vq_bufs (pop_vq st)))
      (pop_writable st) (readable (pop_chain st)) (writable (pop_chain st));
}.

Definition pop_post (vq0 : virtqueue) (r : virtqueue * virtqueue_chain * Z) : Prop :=
  let '(vq, chain, error) := r in
  same_queue vq0 vq ∧
  (error = 0 ∧ chain_ok (chain <| bufs := vq_bufs vq |>) ∧ chain_mem chain = vq_mem vq0 ∧
   0 < nr_bufs chain ≤ queue_size vq0 ∧ 0 ≤ head chain < queue_size vq0 ∨
   error ∈ [- VM_EFAULT; - VM_ELOOP; - VM_EINVAL]).

Lemma desc_read_range m t i :
  let d := desc_read m t i in
  is_u64 (desc_addr d) ∧ is_u32 (desc_len d) ∧ is_u16 (desc_flags d) ∧ is_u16 (desc_next d).
Proof.
  simpl. pose proof (le_get_range m (t + 16 * i) 8 ltac:(lia)).
  pose proof (le_get_range m (t + 16 * i + 8) 4 ltac:(lia)).
  pose proof (le_get_range m (t + 16 * i + 12) 2 ltac:(lia)).
  pose proof (le_get_range m (t + 16 * i + 14) 2 ltac:(lia)).
  unfold is_u64, is_u32, is_u16. split_and!; lia.
Qed.

Lemma pop_body_spec rd vq0 st :
  mem_inv (vq_mem vq0) → vq_inv vq0 → pop_inv vq0 st →
  match pop_body rd st with
  | inl st' => pop_inv vq0 st' ∧
      0 ≤ queue_size vq0 - nr_bufs (pop_chain st') < queue_size vq0 - nr_bufs (pop_chain st)
  | inr r => pop_post vq0 r
  end.
Proof.
  intros Im Iq [Sm Nr Cm Hd Ix G]. unfold pop_body. cbv zeta in *.
  assert (Eqs : queue_size (pop_vq st) = queue_size vq0) by (destruct Sm as [-> _]; done).
  assert (Emem : vq_mem (pop_vq st) = vq_mem vq0) by (destruct Sm as [-> _]; done).
  rewrite Eqs. set (i := pop_index st) in *. set (ch := pop_chain st) in *.
  destruct (Z.leb_spec (queue_size vq0) i); [split; [done|by right; left]|].
  destruct (Z.eqb_spec (nr_bufs ch) (queue_size vq0)); [split; [done|by right; right; left]|].
  set (d := desc_read _ _ _). destruct (desc_read_range (rd (pop_reads st))
    (default 0 (desc_table (pop_vq st))) i) as (Ra & Rl & _ & Rn). fold d in Ra, Rl, Rn. clearbody d.
  set (wr := has (desc_flags d) VRING_DESC_F_WRITE).
  destruct (negb (_ =? 0) || _) eqn:E1; [split; [done|by right; right; right; left]|].
  apply orb_false_iff in E1 as [_ E1].
  set (total := if wr then writable ch else readable ch).
  destruct (_ || _) eqn:E2; [split; [done|by right; left]|].
  apply orb_false_iff in E2 as [E2%Z.ltb_ge E3%Z.ltb_ge].
  set (b := mk_buf (desc_addr d) (desc_len d) wr).
  set (ch1 := if wr then _ else _).
  assert (Ech : nr_bufs ch1 = nr_bufs ch ∧ chain_mem ch1 = chain_mem ch ∧ head ch1 = head ch)
    by (unfold ch1; by destruct wr). destruct Ech as (En & Ecm & Eh). rewrite En.
  pose proof (vq_array _ Iq). destruct (vq_size _ Iq) as [_ Hmx].
  assert (Hlt : (Z.to_nat (nr_bufs ch) < length (vq_bufs (pop_vq st)))%nat)
    by (rewrite (proj2 Sm); lia).
  set (vq1 := pop_vq st <| vq_bufs := _ |>).
  assert (S1 : same_queue vq0 vq1) by (by apply same_queue_insert).
  simpl vq_mem. rewrite Emem.
  assert (Rl' : is_u64 (desc_len d)) by word.
  assert (Re : desc_addr d + desc_len d ≤ UINT64_MAX) by word.
  destruct (span_mapped_spec _ _ _ wr Im Ra Rl' Re) as (mapped & -> & Mb).
  destruct mapped; [|split; [done|by right; left]]. pose proof (proj1 Mb eq_refl) as Mb'. clear Mb.
  assert (G1 : good_list (vq_mem vq0) (take (Z.to_nat (nr_bufs ch + 1)) (vq_bufs vq1))
                 (pop_writable st || wr) (readable ch1) (writable ch1)).
  { replace (Z.to_nat (nr_bufs ch + 1)) with (S (Z.to_nat (nr_bufs ch))) by lia.
    unfold vq1. simpl. rewrite take_insert_snoc by done.
    assert (Bk : buf_ok (vq_mem vq0) b) by (unfold buf_ok; simpl; split_and!; [word..|done]).
    pose proof (good_list_snoc _ _ _ _ _ b G Bk E1) as Gs. unfold ch1, total. simpl in Gs.
    by destruct wr. }
  clearbody vq1. destruct (has (desc_flags d) VRING_DESC_F_NEXT); simpl negb; cbv iota.
  - split; [|simpl; rewrite ?En; lia]. split; simpl; rewrite ?Eh; try done; try lia.
    + congruence.
    + word.
  - split; [done|]. left. destruct G1 as (F & (rs & ws & E & ? & ? & _) & ? & ?).
    split_and!; simpl; rewrite ?Eh; try done; try lia; [|congruence].
    split; simpl; rewrite ?Ecm, ?Cm; try done; [|by exists rs, ws].
    destruct S1 as [_ ->]. lia.
Qed.

Lemma same_queue_inv v v' : same_queue v v' → vq_inv v → vq_inv v'.
Proof. intros [E L] []. rewrite E. split; simpl; try done. by rewrite L. Qed.

Lemma pop_loop_spec rd vq ch index :
  mem_inv (vq_mem vq) → vq_inv vq → 0 ≤ index →
  ch = mk_chain (vq_mem vq) (vq_bufs vq) 0 index 0 0 →
  ∃ r, loop (pop_body rd) (mk_pop vq ch index false 0) = inr r ∧ pop_post vq r.
Proof.
  intros Im Iq Hi ->. destruct (vq_size _ Iq) as [[Hp _] Hm]. destruct (vq_max _ Iq) as [_ Hx].
  apply (loop_total _ (pop_inv vq) (fun st => queue_size vq - nr_bufs (pop_chain st))).
  - intros st. by apply pop_body_spec.
  - split; simpl; try done; [by destruct vq|lia|lia|].
    split; [constructor|]. split; [|done]. exists [], []. by repeat constructor.
  - simpl. word.
Qed.

Lemma virtqueue_pop_cases vq rd :
  mem_inv (vq_mem vq) → vq_inv vq →
  let '(vq', chain, ret) := virtqueue_pop vq rd in
  vq_inv vq' ∧
  (ret = 1 ∧ chain_ok chain ∧ chain_mem chain = vq_mem vq ∧
     0 < nr_bufs chain ≤ queue_size vq ∧ 0 ≤ head chain < queue_size vq ∧
     last_avail_idx vq' = u16 (last_avail_idx vq + 1) ∧ broken vq' = false ∨
   ret = 0 ∧ vq' = vq ∨
   ret < 0 ∧ broken vq' = true ∧ last_avail_idx vq' = last_avail_idx vq ∧
     ∀ rd', (virtqueue_pop vq' rd').2 = - VM_EIO).
Proof.
  intros Im Iq. unfold virtqueue_pop at 1.
  destruct (vq_enabled vq) eqn:En; simpl negb; cbv iota; [|split; [done|right; by left]].
  assert (Br : ∀ v, same_queue vq v → vq_inv (v <| broken := true |>) ∧
    broken (v <| broken := true |>) = true ∧
    last_avail_idx (v <| broken := true |>) = last_avail_idx vq ∧
    ∀ rd', (virtqueue_pop (v <| broken := true |>) rd').2 = - VM_EIO).
  { intros v Sv. pose proof (same_queue_inv _ _ Sv Iq) as Iv. split_and!; [by destruct Iv|done|..].
    - destruct Sv as [-> _]. done.
    - intros rd'. unfold virtqueue_pop. simpl. destruct Sv as [-> _]. simpl. by rewrite En. }
  destruct (broken vq) eqn:B.
  { split; [done|]. right. right. split_and!; try done. intros rd'.
    unfold virtqueue_pop. by rewrite En, B. }
  destruct (_ =? last_avail_idx vq); [split; [done|right; by left]|].
  destruct (queue_size vq <? _).
  { destruct (Br vq) as (? & ? & ? & ?); [by split; [destruct vq|]|].
    split; [done|]. right. right. by split_and!. }
  match goal with |- context [loop (pop_body ?f) (mk_pop vq ?c ?i false 0)] =>
    destruct (pop_loop_spec f vq c i Im Iq) as ([[v ch] err] & -> & Sv & P) end.
  { unfold avail_entry. by apply le_get_range. }
  { done. }
  cbv iota zeta. destruct P as [(-> & Ok & Cm & Nr & Hh)|He].
  - pose proof (same_queue_inv _ _ Sv Iq) as Iv. change (0 =? 0) with true. cbv iota.
    split; [destruct Iv as [? ? ? [_ ?] ?]; split; simpl; try done; split; [apply u16_range|done]|].
    assert (Ev : last_avail_idx v = last_avail_idx vq ∧ broken v = false)
      by (destruct Sv as [-> _]; done).
    destruct Ev as [El Eb]. left. simpl. rewrite El. destruct Nr, Hh. by split_and!.
  - destruct (Br v Sv) as (? & ? & ? & ?). rewrite !elem_of_cons, elem_of_nil in He.
    assert (err < 0) by (unfold VM_EFAULT, VM_ELOOP, VM_EINVAL in He; lia).
    destruct (Z.eqb_spec err 0); [lia|]. destruct (Z.eqb_spec err HANG); [unfold HANG in *; lia|]. split; [done|]. right. right. by split_and!.
Qed.

Lemma virtqueue_pop_mem vq rd :
  mem_inv (vq_mem vq) → vq_inv vq → vq_mem (virtqueue_pop vq rd).1.1 = vq_mem vq.
Proof.
  intros Im Iq. unfold virtqueue_pop. destruct (negb _); [done|]. destruct (broken vq); [done|].
  destruct (_ =? _); [done|]. destruct (_ <? _); [done|].
  match goal with |- context [loop (pop_body ?f) (mk_pop vq ?c ?i false 0)] =>
    destruct (pop_loop_spec f vq c i Im Iq) as ([[v ch] err] & -> & [Sv _] & _) end.
  { unfold avail_entry. by apply le_get_range. }
  { done. }
  by destruct (err =? 0), (err =? HANG); simpl; rewrite Sv.
Qed.

Lemma virtqueue_pop_chain vq rd :
  mem_inv (vq_mem vq) → vq_inv vq →
  (virtqueue_pop vq rd).2 = 1 → chain_ok (virtqueue_pop vq rd).1.2.
Proof.
  intros Im Iq H. pose proof (virtqueue_pop_cases vq rd Im Iq) as C.
  destruct (virtqueue_pop vq rd) as [[v c] r]. simpl in *. subst r.
  destruct C as [_ [(_ & ? & _)|[[? _]|[? _]]]]; done || lia.
Qed.


(** C1. Taking a chain off the available ring is safe against any guest, even
    one that rewrites the rings and descriptors between any two reads.  The
    call terminates (neither of its two loops runs forever, which would be
    [HANG]), and returns one of three outcomes: a chain (1) of at most
    queue-size buffers, every byte of which is guest RAM that permits the
    access, readable buffers before writable ones and the two totals exact;
    nothing to do (0), with the queue unchanged; or an error, with the queue
    marked broken and its position unchanged, after which every further pop is
    refused. *)
Theorem virtqueue_pop_safe vq rd :
  mem_inv (vq_mem vq) → vq_inv vq →
  let '(vq', chain, ret) := virtqueue_pop vq rd in
  ret ≠ HANG ∧ vq_inv vq' ∧
  (ret = 1 ∧ chain_ok chain ∧ chain_mem chain = vq_mem vq ∧
     0 < nr_bufs chain ≤ queue_size vq ∧ 0 ≤ head chain < queue_size vq ∧
     last_avail_idx vq' = u16 (last_avail_idx vq + 1) ∧ broken vq' = false ∨
   ret = 0 ∧ vq' = vq ∨
   ret < 0 ∧ broken vq' = true ∧ last_avail_idx vq' = last_avail_idx vq ∧
     ∀ rd', (virtqueue_pop vq' rd').2 = - VM_EIO).
Proof.
  intros Im Iq. pose proof (virtqueue_pop_cases vq rd Im Iq) as C.
  destruct (virtqueue_pop vq rd) as [[vq' chain] ret]. split; [|done]. unfold HANG.
  destruct C as [_ [[? _]|[[? _]|[? _]]]]; lia.
Qed.

(** ** Lemmas: moving bytes *)

(** Guest addresses that are consecutive in host memory from [h]. *)
Definition contiguous (ms : mem_space) (l : list Z) (h : Z) : Prop :=
  ∀ i a, l !! i = Some a → hva_of ms a = h + Z.of_nat i.

Lemma contiguous_cons ms a l h :
  contiguous ms (a :: l) h ↔ hva_of ms a = h ∧ contiguous ms l (h + 1).
Proof.
  unfold contiguous. split.
  - intros H. split; [rewrite (H 0%nat a eq_refl); lia|].
    intros i x Hx. rewrite (H (S i) x Hx). lia.
  - intros [<- H] [|i] x Hx; simpl in Hx; simplify_eq; [lia|]. rewrite (H i x Hx). lia.
Qed.

(** Chunk transfers are byte transfers. *)
Lemma stream_read_chunk ms m l h :
  contiguous ms l h → hm_read m h (Z.of_nat (length l)) = stream_read ms m l.
Proof.
  revert h. induction l as [|a l IH]; intros h C; [done|].
  apply contiguous_cons in C as [<- C]. rewrite hm_read_cons by (simpl; lia).
  simpl. f_equal. rewrite <- IH with (h := hva_of ms a + 1) by done. f_equal. lia.
Qed.

Lemma stream_write_chunk ms l : ∀ m h bs,
  contiguous ms l h → length bs = length l → hm_write m h bs = stream_write ms m l bs.
Proof.
  induction l as [|a l IH]; intros m h [|b bs] C L; try done.
  apply contiguous_cons in C as [<- C]. simpl in *. apply IH; [done|lia].
Qed.

Lemma stream_read_app ms m l l' :
  stream_read ms m (l ++ l') = stream_read ms m l ++ stream_read ms m l'.
Proof. apply fmap_app. Qed.

Lemma stream_write_app ms l : ∀ m l' bs bs',
  length bs = length l →
  stream_write ms m (l ++ l') (bs ++ bs') = stream_write ms (stream_write ms m l bs) l' bs'.
Proof. induction l as [|a l IH]; intros m l' [|b bs] bs' L; try done. simpl in *. apply IH. lia. Qed.

Lemma stream_cons b l w :
  stream (b :: l) w =
  (if Bool.eqb (is_write b) w then seqZ (buf_gpa b) (buf_len b) else []) ++ stream l w.
Proof. done. Qed.

(** [virtqueue_map] finds the part of the stream at an offset: a non-empty
    run that is contiguous in host memory. *)
Lemma map_bufs_spec ms w l : ∀ off,
  mem_inv ms → Forall (buf_ok ms) l → 0 ≤ off < Z.of_nat (length (stream l w)) →
  ∃ h n, map_bufs ms l w off = (Some h, n) ∧ 0 < n ∧ off + n ≤ Z.of_nat (length (stream l w)) ∧
    contiguous ms (take (Z.to_nat n) (drop (Z.to_nat off) (stream l w))) h.
Proof.
  induction l as [|b l IH]; intros off I F Hoff; [simpl in Hoff; lia|].
  apply Forall_cons in F as [(Hg & Hl & Hw & Hm) F]. rewrite stream_cons in *. simpl.
  destruct (Bool.eqb (is_write b) w) eqn:E; simpl negb; cbv iota; [|by apply IH].
  apply eqb_prop in E. rewrite length_app, length_seqZ in *.
  destruct (Z.leb_spec (buf_len b) off).
  - destruct (IH (off - buf_len b) I F ltac:(lia)) as (h & n & -> & Hn & Hn' & C).
    exists h, n. split_and!; [done|lia|lia|].
    rewrite drop_app_ge by (rewrite length_seqZ; lia). rewrite length_seqZ.
    by replace (Z.to_nat off - Z.to_nat (buf_len b))%nat with (Z.to_nat (off - buf_len b)) by lia.
  - unfold gpa_add. rewrite u64_small by word.
    pose proof (chunk_mapped ms (buf_gpa b + off) (buf_len b - off) w I
      ltac:(word) ltac:(word) ltac:(lia) ltac:(word)) as C.
    destruct (mem_map_chunk ms (buf_gpa b + off) (buf_len b - off) w) as [[h|] n].
    2: { destruct C. rewrite <- E. apply Hm. lia. }
    destruct C as (Hn & _ & C). exists h, n. split_and!; [done|lia|lia|].
    rewrite drop_app_le by (rewrite length_seqZ; lia).
    rewrite take_app_le by (rewrite length_drop, length_seqZ; lia).
    intros i a Hi. apply lookup_take_Some in Hi as [Hi Hlt]. rewrite lookup_drop in Hi.
    apply lookup_seqZ in Hi as [-> _].
    replace (buf_gpa b + Z.of_nat (Z.to_nat off + i)) with (buf_gpa b + off + Z.of_nat i) by lia.
    apply C. lia.
Qed.

(** The addresses an access at [offset] of [size] bytes touches. *)
Definition window (c : virtqueue_chain) (w : bool) (offset size : Z) : list Z :=
  take (Z.to_nat size) (drop (Z.to_nat offset) (stream (chain_list c) w)).

Lemma window_split c w offset n size :
  0 ≤ n ≤ size → 0 ≤ offset →
  window c w offset size = window c w offset n ++ window c w (offset + n) (size - n).
Proof.
  intros. unfold window.
  replace (Z.to_nat size) with (Z.to_nat n + Z.to_nat (size - n))%nat by lia.
  replace (Z.to_nat (offset + n)) with (Z.to_nat offset + Z.to_nat n)%nat by lia.
  rewrite <- drop_drop. set (s := drop _ _). rewrite <- (take_drop (Z.to_nat n) s) at 1.
  destruct (decide (Z.to_nat n ≤ length s)%nat).
  - rewrite take_app_add' by (rewrite length_take; lia). done.
  - rewrite (drop_ge s) by lia. rewrite app_nil_r, take_nil, app_nil_r.
    rewrite !take_ge; try done; rewrite ?length_take; lia.
Qed.

Lemma length_window c w offset size :
  0 ≤ offset → 0 ≤ size → offset + size ≤ Z.of_nat (length (stream (chain_list c) w)) →
  length (window c w offset size) = Z.to_nat size.
Proof. intros. unfold window. rewrite length_take, length_drop. lia. Qed.

(** What [virtqueue_map] returns, cut to at most [size] bytes. *)
Lemma virtqueue_map_window c w offset size :
  mem_inv (chain_mem c) → chain_ok c → 0 ≤ offset → 0 < size →
  offset + size ≤ Z.of_nat (length (stream (chain_list c) w)) →
  ∃ h n, virtqueue_map c w offset = (Some h, n) ∧ n ≠ 0 ∧
    let k := if size <? n then size else n in
    0 < k ≤ size ∧ contiguous (chain_mem c) (window c w offset k) h.
Proof.
  intros I Ok Ho Hs Hb. unfold virtqueue_map. fold (chain_list c).
  destruct (map_bufs_spec (chain_mem c) w (chain_list c) offset I (chain_bufs _ Ok)
    ltac:(lia)) as (h & n & -> & Hn & Hn' & C).
  exists h, n. split; [done|]. split; [lia|]. cbv zeta. set (k := if size <? n then size else n).
  assert (Hk : 0 < k ≤ size ∧ k ≤ n) by (unfold k; destruct (Z.ltb_spec size n); lia).
  split; [lia|]. intros i a Hi. apply (C i). unfold window in Hi.
  apply lookup_take_Some in Hi as [Hi Hlt]. apply lookup_take_Some. split; [done|lia].
Qed.

(** One round of the copy loop. *)
Lemma copy_body_spec c w st :
  mem_inv (chain_mem c) → chain_ok c → 0 ≤ copy_offset st → 0 < copy_size st →
  copy_offset st + copy_size st ≤ Z.of_nat (length (stream (chain_list c) w)) →
  ∃ h n, 0 < n ≤ copy_size st ∧ contiguous (chain_mem c) (window c w (copy_offset st) n) h ∧
    copy_body c w st = inl
      (if w then mk_copy (hm_write (copy_mem st) h (take (Z.to_nat n) (copy_data st)))
                   (drop (Z.to_nat n) (copy_data st)) (copy_offset st + n) (copy_size st - n)
       else mk_copy (copy_mem st) (copy_data st ++ hm_read (copy_mem st) h n)
              (copy_offset st + n) (copy_size st - n)).
Proof.
  intros I Ok Ho Hs Hb. unfold copy_body.
  destruct (Z.eqb_spec (copy_size st) 0) as [?|_]; [lia|].
  destruct (virtqueue_map_window c w (copy_offset st) (copy_size st) I Ok Ho Hs Hb)
    as (h & n & -> & Hn & Hk & C). apply Z.eqb_neq in Hn as ->.
  by exists h, (if copy_size st <? n then copy_size st else n).
Qed.

Lemma copy_read_loop c m offset size :
  mem_inv (chain_mem c) → chain_ok c → 0 ≤ offset → 0 ≤ size ≤ UINT64_MAX →
  offset + size ≤ Z.of_nat (length (stream (chain_list c) false)) →
  loop (copy_body c false) (mk_copy m [] offset size) =
  inr (m, stream_read (chain_mem c) m (window c false offset size), 0).
Proof.
  intros I Ok Ho Hs Hb.
  destruct (loop_total (copy_body c false)
    (fun st => copy_mem st = m ∧ 0 ≤ copy_offset st ∧ 0 ≤ copy_size st ∧
       copy_offset st + copy_size st = offset + size ∧
       copy_data st ++ stream_read (chain_mem c) m (window c false (copy_offset st) (copy_size st)) =
       stream_read (chain_mem c) m (window c false offset size))
    copy_size (fun r => r = (m, stream_read (chain_mem c) m (window c false offset size), 0))
    (mk_copy m [] offset size)) as (r & -> & ->);
    [|split_and!; simpl; done || lia|simpl; word|done].
  intros st (Em & Ho' & Hs' & E & Ed). destruct (decide (copy_size st = 0)) as [E0|Hne].
  { unfold copy_body. rewrite E0 in *. simpl. by rewrite <- Ed, Em, app_nil_r. }
  destruct (copy_body_spec c false st I Ok) as (h & n & Hn & C & ->); [lia..|]. simpl.
  split; [|lia]. split_and!; try lia; [done|]. rewrite <- Ed.
  rewrite (window_split c false (copy_offset st) n (copy_size st)) by lia.
  rewrite stream_read_app, <- app_assoc. do 2 f_equal. rewrite Em.
  rewrite <- (stream_read_chunk _ _ _ h C). f_equal. rewrite length_window by lia. lia.
Qed.

Lemma copy_write_loop c m offset data :
  mem_inv (chain_mem c) → chain_ok c → 0 ≤ offset → Z.of_nat (length data) ≤ UINT64_MAX →
  offset + Z.of_nat (length data) ≤ Z.of_nat (length (stream (chain_list c) true)) →
  loop (copy_body c true) (mk_copy m data offset (Z.of_nat (length data))) =
  inr (stream_write (chain_mem c) m (window c true offset (Z.of_nat (length data))) data, [], 0).
Proof.
  intros I Ok Ho Hs Hb. set (size := Z.of_nat (length data)) in *.
  destruct (loop_total (copy_body c true)
    (fun st => 0 ≤ copy_offset st ∧ copy_size st = Z.of_nat (length (copy_data st)) ∧
       copy_offset st + copy_size st = offset + size ∧
       stream_write (chain_mem c) (copy_mem st)
         (window c true (copy_offset st) (copy_size st)) (copy_data st) =
       stream_write (chain_mem c) m (window c true offset size) data)
    copy_size
    (fun r => r = (stream_write (chain_mem c) m (window c true offset size) data, [], 0))
    (mk_copy m data offset size)) as (r & -> & ->);
    [|split_and!; simpl; done || lia|simpl; word|done].
  intros st (Ho' & Es & E & Ed). destruct (decide (copy_size st = 0)) as [E0|Hne].
  { unfold copy_body. rewrite <- Ed, E0. destruct (copy_data st); [done|simpl in Es; lia]. }
  destruct (copy_body_spec c true st I Ok) as (h & n & Hn & C & ->); [lia..|]. simpl.
  split; [|lia]. rewrite length_drop. split_and!; try lia. rewrite <- Ed.
  rewrite (window_split c true (copy_offset st) n (copy_size st)) by lia.
  rewrite <- (take_drop (Z.to_nat n) (copy_data st)) at 3.
  assert (Ll : length (take (Z.to_nat n) (copy_data st)) = length (window c true (copy_offset st) n))
    by (rewrite length_window, length_take by lia; lia).
  rewrite stream_write_app by done. by rewrite (stream_write_chunk _ _ _ h _ C Ll).
Qed.

Lemma capacity_check cap offset n :
  0 ≤ offset → 0 ≤ n →
  (cap <? offset) || (cap - offset <? n) = negb (bool_decide (offset + n ≤ cap)).
Proof.
  intros ? ?. destruct (bool_decide_reflect (offset + n ≤ cap)), (Z.ltb_spec cap offset),
    (Z.ltb_spec (cap - offset) n); simpl; lia.
Qed.

Lemma virtqueue_read_exact c offset m size :
  mem_inv (chain_mem c) → chain_ok c → 0 ≤ offset → is_u64 size →
  virtqueue_read c offset m size =
    (if decide (offset + size ≤ readable c)
     then (stream_read (chain_mem c) m (window c false offset size), 0)
     else ([], - VM_EINVAL)).
Proof.
  intros I Ok Ho Hs. unfold virtqueue_read, virtqueue_copy.
  rewrite capacity_check, (chain_readable _ Ok) by word.
  destruct (decide _) as [Hle|Hn]; [rewrite bool_decide_true by done|by rewrite bool_decide_false].
  by rewrite copy_read_loop by (done || word).
Qed.

Lemma virtqueue_write_exact c offset m data :
  mem_inv (chain_mem c) → chain_ok c → 0 ≤ offset → is_u64 (Z.of_nat (length data)) →
  virtqueue_write c offset m data =
    (if decide (offset + Z.of_nat (length data) ≤ writable c)
     then (stream_write (chain_mem c) m (window c true offset (Z.of_nat (length data))) data, 0)
     else (m, - VM_EINVAL)).
Proof.
  intros I Ok Ho Hd. unfold virtqueue_write, virtqueue_copy.
  rewrite capacity_check, (chain_writable _ Ok) by word.
  destruct (decide _) as [Hle|Hn]; [rewrite bool_decide_true by done|by rewrite bool_decide_false].
  by rewrite copy_write_loop by (done || word).
Qed.

(** C2. Copying out of or into a chain taken by [virtqueue_pop] never faults
    and is exactly the byte-by-byte transfer along the chain's readable or
    writable stream, however the buffers are cut by bank boundaries: the loop
    terminates, a request beyond the end is refused without any transfer, and
    any other succeeds. *)
Theorem virtqueue_copy_exact c offset m size data :
  mem_inv (chain_mem c) → chain_ok c → is_u64 offset → is_u64 size →
  is_u64 (Z.of_nat (length data)) →
  virtqueue_read c offset m size =
    (if decide (offset + size ≤ readable c)
     then (stream_read (chain_mem c) m (window c false offset size), 0)
     else ([], - VM_EINVAL)) ∧
  virtqueue_write c offset m data =
    (if decide (offset + Z.of_nat (length data) ≤ writable c)
     then (stream_write (chain_mem c) m (window c true offset (Z.of_nat (length data))) data, 0)
     else (m, - VM_EINVAL)).
Proof.
  intros I Ok [Ho _] Hs Hd. split; [by apply virtqueue_read_exact|by apply virtqueue_write_exact].
Qed.

Lemma stream_read_bytes ms m l : Forall is_u8 (stream_read ms m l).
Proof. apply Forall_fmap, Forall_true. intros a. apply hm_get_range. Qed.

(** A memory that differs only behind the guest addresses [l]. *)
Definition only_touches (ms : mem_space) (l : list Z) (m m' : hmem) : Prop :=
  ∀ x, (∀ a, a ∈ l → hva_of ms a ≠ x) → hm_get m' x = hm_get m x.

Lemma only_touches_refl ms l m : only_touches ms l m m.
Proof. by intros x _. Qed.

Lemma only_touches_trans ms l m1 m2 m3 :
  only_touches ms l m1 m2 → only_touches ms l m2 m3 → only_touches ms l m1 m3.
Proof. intros H1 H2 x Hx. by rewrite H2, H1. Qed.

Lemma only_touches_mono ms l l' m m' :
  (∀ a, a ∈ l → a ∈ l') → only_touches ms l m m' → only_touches ms l' m m'.
Proof. intros Hl H x Hx. apply H. auto. Qed.

Lemma stream_write_touches ms l : ∀ m bs, only_touches ms l m (stream_write ms m l bs).
Proof.
  induction l as [|a l IH]; intros m [|b bs] x Hx; try done. simpl.
  rewrite IH by (intros a' Ha; apply Hx; by right).
  unfold hm_get. rewrite lookup_insert_ne; [done|]. apply Hx. by left.
Qed.

Lemma hm_write_touches ms l h m bs :
  contiguous ms l h → (length bs ≤ length l)%nat → only_touches ms l m (hm_write m h bs).
Proof.
  intros C L x Hx. apply hm_get_write_out.
  destruct (decide (x < h ∨ h + Z.of_nat (length bs) ≤ x)) as [|Hin]; [done|].
  destruct (lookup_lt_is_Some_2 l (Z.to_nat (x - h))) as [a Ha]; [lia|].
  destruct (Hx a); [by eapply list_elem_of_lookup_2|]. rewrite (C _ _ Ha). lia.
Qed.

Lemma window_elem c w offset n a :
  a ∈ window c w offset n → a ∈ stream (chain_list c) w.
Proof.
  unfold window. intros Ha. eapply elem_of_sublist; [exact Ha|].
  etrans; [apply sublist_take|apply sublist_drop].
Qed.

(** ** The rings *)

Lemma pop_inv_step rd vq0 st st' :
  mem_inv (vq_mem vq0) → vq_inv vq0 → pop_inv vq0 st → pop_body rd st = inl st' → pop_inv vq0 st'.
Proof. intros Im Iq P E. pose proof (pop_body_spec rd vq0 st Im Iq P) as H. rewrite E in H. apply H. Qed.

Lemma desc_read_agree m m' t n i :
  agree m m' t (16 * n) → 0 ≤ i < n → desc_read m t i = desc_read m' t i.
Proof.
  intros H Hi. unfold desc_read.
  by rewrite !(le_get_agree m m' t (16 * n)) by (done || lia).
Qed.

(** [virtqueue_pop] looks at nothing but the rings it was given: what it
    returns depends only on the bytes of the descriptor table and of the
    available ring, whatever the guest put there, so no index or descriptor
    makes it read outside them. *)
Theorem virtqueue_pop_reads_rings vq rd rd' :
  mem_inv (vq_mem vq) → vq_inv vq →
  (∀ k, agree (rd k) (rd' k) (default 0 (desc_table vq)) (16 * queue_size vq)) →
  (∀ k, agree (rd k) (rd' k) (default 0 (avail_ring vq)) (6 + 2 * queue_size vq)) →
  virtqueue_pop vq rd = virtqueue_pop vq rd'.
Proof.
  intros Im Iq Hd Ha. unfold virtqueue_pop. destruct (vq_size _ Iq) as [[Hp _] _].
  destruct (negb (vq_enabled vq)); [done|]. destruct (broken vq); [done|].
  unfold avail_idx, avail_entry.
  rewrite (le_get_agree (rd 0%nat) (rd' 0%nat) _ _ _ _ (Ha 0%nat)) by lia.
  pose proof (Z.mod_pos_bound (last_avail_idx vq) (queue_size vq) Hp).
  rewrite (le_get_agree (rd 1%nat) (rd' 1%nat) _ _ _ _ (Ha 1%nat)) by lia.
  destruct (_ =? _); [done|]. destruct (_ <? _); [done|]. cbv zeta.
  set (i := le_get _ _ 2). set (ch := update head _ _).
  erewrite (loop_ext _ (pop_body (fun k => rd' (2 + k)%nat)) (pop_inv vq)); [done|..].
  - intros st P. split; [|intros st'; by eapply pop_inv_step]. unfold pop_body.
    destruct P as [Sm _ _ _ Ix _]. destruct Sm as [Sm _].
    assert (Es : queue_size (pop_vq st) = queue_size vq ∧ desc_table (pop_vq st) = desc_table vq)
      by (by rewrite Sm). destruct Es as [-> ->].
    destruct (Z.leb_spec (queue_size vq) (pop_index st)); [done|].
    by rewrite (desc_read_agree (rd (2 + pop_reads st)%nat) (rd' (2 + pop_reads st)%nat) _ (queue_size vq))
      by (done || lia).
  - pose proof (le_get_range (rd' 1%nat) (default 0 (avail_ring vq) + 4 +
      2 * (last_avail_idx vq mod queue_size vq)) 2 ltac:(lia)). fold i in H0.
    split; simpl; try done; [by destruct vq|lia|lia|lia|].
    split; [constructor|]. split; [|done]. exists [], []. by repeat constructor.
Qed.

(** Returning a chain publishes it: the used element at the queue's
    position holds the chain's head and length, the used index has advanced by
    one and is what the queue remembers, and no byte outside that element and
    the index changes. *)
Theorem virtqueue_push_publishes vq m desc_idx len ring :
  vq_inv vq → vq_enabled vq = true → used_ring vq = Some ring → is_u16 desc_idx → is_u32 len →
  let e := used_elem_addr ring (last_used_idx vq mod queue_size vq) in
  let '(vq', m') := virtqueue_push vq m desc_idx len in
  vq_inv vq' ∧ last_used_idx vq' = u16 (last_used_idx vq + 1) ∧
  le_get m' e 4 = desc_idx ∧ le_get m' (e + 4) 4 = len ∧ le_get m' (ring + 2) 2 = last_used_idx vq' ∧
  (e + 8 ≤ ring + (6 + 8 * queue_size vq)) ∧
  (∀ x, ¬ (e ≤ x < e + 8) → ¬ (ring + 2 ≤ x < ring + 4) → hm_get m' x = hm_get m x).
Proof.
  intros Iq En Hr Hi Hl. cbv zeta. unfold virtqueue_push. rewrite Hr, En. simpl negb. cbv iota zeta.
  destruct (vq_size _ Iq) as [[Hp _] _].
  pose proof (Z.mod_pos_bound (last_used_idx vq) (queue_size vq) Hp) as Hm.
  set (i := last_used_idx vq mod queue_size vq) in *.
  pose proof (length_le_put 4 desc_idx ltac:(lia)). pose proof (length_le_put 4 len ltac:(lia)).
  pose proof (length_le_put 2 (u16 (last_used_idx vq + 1)) ltac:(lia)).
  unfold used_elem_addr in *. simpl last_used_idx. pose proof (u16_range (last_used_idx vq + 1)).
  split_and!.
  - destruct Iq as [? ? ? [? _] ?]. split; simpl; try done.
  - done.
  - rewrite !le_get_write_out by lia. rewrite le_get_put by lia. apply Z.mod_small. word.
  - rewrite le_get_write_out by lia. rewrite le_get_put by lia. apply Z.mod_small. word.
  - rewrite le_get_put by lia. apply Z.mod_small. word.
  - lia.
  - intros x Hx Hx'. by rewrite !hm_get_write_out by lia.
Qed.

(** One operation on a queue. *)
Inductive vq_step : virtqueue → virtqueue → Prop :=
| vqs_size vq size : is_u16 size → vq_step vq (virtqueue_set_size vq size).1
| vqs_reset vq : vq_step vq (virtqueue_reset vq)
| vqs_addrs vq d a u : is_u64 d → is_u64 a → is_u64 u → vq_step vq (virtqueue_set_addrs vq d a u).1
| vqs_disable vq : vq_step vq (virtqueue_disable vq)
| vqs_pop vq rd : vq_step vq (virtqueue_pop vq rd).1.1
| vqs_push vq m i len : vq_step vq (virtqueue_push vq m i len).1.

Lemma create_inv ms n vq : is_u16 n → virtqueue_create ms n true = Some vq → vq_inv vq ∧ vq_mem vq = ms.
Proof.
  intros Hn. unfold virtqueue_create. destruct (Z.eqb_spec n 0); [done|].
  destruct (Z.eqb_spec (Z.land n (n - 1)) 0); [|done]. intros [= <-].
  split; [|done]. split; simpl; unfold is_pow2_size; try done; try word.
  rewrite length_replicate. word.
Qed.

(** What a successful [virtqueue_set_addrs] leaves. *)
Lemma set_addrs_ok vq d a u vq' :
  virtqueue_set_addrs vq d a u = (vq', 0) →
  vq_enabled vq' = true ∧ queue_size vq' = queue_size vq ∧ vq_mem vq' = vq_mem vq ∧
  desc_table vq' = mem_map_range (vq_mem vq) d (16 * queue_size vq) false ∧
  avail_ring vq' = mem_map_range (vq_mem vq) a (6 + 2 * queue_size vq) false ∧
  used_ring vq' = mem_map_range (vq_mem vq) u (6 + 8 * queue_size vq) true.
Proof.
  unfold virtqueue_set_addrs. destruct (_ || _ || _); [done|].
  destruct (mem_map_range _ d _ _); [|done]. destruct (mem_map_range _ a _ _); [|done].
  destruct (mem_map_range _ u _ _); [|done]. intros [= <-]. done.
Qed.

Lemma set_addrs_fail vq d a u vq' ret :
  virtqueue_set_addrs vq d a u = (vq', ret) → ret ≠ 0 → vq' = vq.
Proof. unfold virtqueue_set_addrs. repeat case_match; by intros [= <- <-]. Qed.

(** What [virtqueue_set_size] leaves of a queue that is not enabled. *)
Lemma set_size_cases vq n :
  vq_enabled vq = false →
  let '(vq', ret) := virtqueue_set_size vq n in
  vq_enabled vq' = false ∧ vq_mem vq' = vq_mem vq ∧ (ret = 0 → queue_size vq' = n).
Proof. intros E. unfold virtqueue_set_size. by destruct (_ || _ || _ || _). Qed.

Lemma set_addrs_inv vq d a u :
  vq_inv vq → is_u64 d → is_u64 a → is_u64 u → vq_inv (virtqueue_set_addrs vq d a u).1.
Proof.
  intros I Hd Ha Hu. unfold virtqueue_set_addrs. destruct (_ || _ || _); [done|].
  destruct (mem_map_range _ d _ _) as [hd|] eqn:Ed; [|done].
  destruct (mem_map_range _ a _ _) as [ha|] eqn:Ea; [|done].
  destruct (mem_map_range _ u _ _) as [hu|] eqn:Eu; [|done].
  destruct I. split; simpl; try done. intros _.
  split_and!; [by exists d, hd|by exists a, ha|by exists u, hu].
Qed.

Lemma vq_step_inv vq vq' :
  mem_inv (vq_mem vq) → vq_step vq vq' → vq_inv vq → vq_inv vq' ∧ vq_mem vq' = vq_mem vq.
Proof.
  intros Im S I. destruct S as [vq size Hs|vq|vq d a u Hd Ha Hu|vq|vq rd|vq m i len].
  - unfold virtqueue_set_size. destruct (vq_enabled vq) eqn:E; [done|].
    destruct (Z.eqb_spec size 0); [done|]. destruct (Z.eqb_spec (Z.land size (size - 1)) 0); [|done].
    destruct (Z.ltb_spec (max_size vq) size); [done|]. split; [|done].
    destruct I. split; simpl; try done; [unfold is_pow2_size; word|]. by rewrite E.
  - split; [|done]. destruct I as [? [Hp ?] ? ? ?]. split; simpl; try done.
  - split; [by apply set_addrs_inv|]. unfold virtqueue_set_addrs. by repeat case_match.
  - split; [|done]. destruct I. by split.
  - pose proof (virtqueue_pop_cases vq rd Im I) as H.
    destruct (virtqueue_pop vq rd) as [[v c] r] eqn:E. simpl. split; [apply H|].
    by rewrite <- (virtqueue_pop_mem vq rd Im I), E.
  - unfold virtqueue_push. destruct (used_ring vq); [|done]. destruct (negb _); [done|]. split; [|done].
    destruct I as [? ? ? [? _] ?]. split; simpl; try done. split; [done|apply u16_range].
Qed.

(** A virtqueue keeps its invariant for life: from creation, through any
    sequence of resizing, enabling, disabling, resetting, popping (whatever the
    guest wrote) and pushing, its size is a power of two within the maximum,
    its buffer array is as long as the maximum, and while it is enabled its
    rings are mapped guest memory of the size in use, the used ring writable. *)
Theorem vq_reachable_inv ms n vq0 vq :
  mem_inv ms → is_u16 n → virtqueue_create ms n true = Some vq0 → rtc vq_step vq0 vq → vq_inv vq.
Proof.
  intros Im Hn C R. destruct (create_inv ms n vq0 Hn C) as [I E].
  revert I E. clear C. induction R as [|x y z S R IH]; intros I E; [done|].
  destruct (vq_step_inv x y ltac:(by rewrite E) S I) as [I' E']. apply IH; congruence || done.
Qed.

(** ** Examples *)

(** A queue of two descriptors in the first bank of the example machine, and
    a memory in which the guest has made a chain of two buffers available. *)
Definition example_ms : mem_space := mem example_machine.

Definition example_vq : virtqueue :=
  (virtqueue_set_addrs
     (mk_vq example_ms 2 2 false false 0 0 None None None (replicate 2 (mk_buf 0 0 false)))
     0x0 0x100 0x200).1.

Definition example_desc (addr len flags next : Z) : list Z :=
  le_put 8 addr ++ le_put 4 len ++ le_put 2 flags ++ le_put 2 next.

Definition example_mem : hmem :=
  hm_write
    (hm_write
       (hm_write ∅ 0x700000 (example_desc 0x1000 4 1 1 ++ example_desc 0x1100 8 2 0))
       0x700100 (le_put 2 0 ++ le_put 2 1 ++ le_put 2 0))
    0x701000 [1; 2; 3; 4].

Definition example_chain : virtqueue_chain := (virtqueue_pop example_vq (fun _ => example_mem)).1.2.

Lemma example_ms_inv : mem_inv example_ms.
Proof. apply (topo_mem _ example_machine_inv). Qed.

Lemma example_vq_inv : vq_inv example_vq.
Proof.
  apply set_addrs_inv; [|unfold is_u64; lia..].
  apply (create_inv example_ms 2); [unfold is_u16; lia|reflexivity].
Qed.

Lemma example_vq_rings :
  desc_table example_vq = Some 0x700000 ∧ avail_ring example_vq = Some 0x700100 ∧
  queue_size example_vq = 2.
Proof. vm_compute. auto. Qed.

Lemma virtqueue_pop_safe_witness :
  let '(vq', chain, ret) := virtqueue_pop example_vq (fun _ => example_mem) in
  ret ≠ HANG ∧ vq_inv vq' ∧
  (ret = 1 ∧ chain_ok chain ∧ chain_mem chain = example_ms ∧
     0 < nr_bufs chain ≤ 2 ∧ 0 ≤ head chain < 2 ∧
     last_avail_idx vq' = u16 (0 + 1) ∧ broken vq' = false ∨
   ret = 0 ∧ vq' = example_vq ∨
   ret < 0 ∧ broken vq' = true ∧ last_avail_idx vq' = 0 ∧
     ∀ rd', (virtqueue_pop vq' rd').2 = - VM_EIO).
Proof.
  exact (virtqueue_pop_safe example_vq (fun _ => example_mem) example_ms_inv example_vq_inv).
Defined.

(** The chain really is there. *)
Lemma example_pop_result :
  (virtqueue_pop example_vq (fun _ => example_mem)).2 = 1 ∧
  chain_list example_chain = [mk_buf 0x1000 4 false; mk_buf 0x1100 8 true].
Proof. vm_compute. split; reflexivity. Qed.

Lemma example_chain_ok : chain_ok example_chain.
Proof.
  pose proof (virtqueue_pop_chain example_vq (fun _ => example_mem) example_ms_inv example_vq_inv) as H.
  apply H. apply example_pop_result.
Qed.

Lemma virtqueue_copy_exact_witness :
  virtqueue_read example_chain 1 example_mem 3 =
    (if decide (1 + 3 ≤ readable example_chain)
     then (stream_read (chain_mem example_chain) example_mem (window example_chain false 1 3), 0)
     else ([], - VM_EINVAL)) ∧
  virtqueue_write example_chain 1 example_mem [9; 8] =
    (if decide (1 + 2 ≤ writable example_chain)
     then (stream_write (chain_mem example_chain) example_mem
             (window example_chain true 1 2) [9; 8], 0)
     else (example_mem, - VM_EINVAL)).
Proof.
  apply (virtqueue_copy_exact example_chain 1 example_mem 3 [9; 8]).
  - apply example_ms_inv.
  - apply example_chain_ok.
  - unfold is_u64. lia.
  - unfold is_u64. lia.
  - unfold is_u64. simpl. lia.
Defined.

Lemma virtqueue_pop_reads_rings_witness :
  virtqueue_pop example_vq (fun _ => example_mem) =
  virtqueue_pop example_vq (fun _ => hm_write example_mem 0x702000 [7]).
Proof.
  apply (virtqueue_pop_reads_rings example_vq (fun _ => example_mem)
           (fun _ => hm_write example_mem 0x702000 [7]) example_ms_inv example_vq_inv).
  all: destruct example_vq_rings as (Ed & Ea & Eq); rewrite Eq, ?Ed, ?Ea; simpl default.
  all: intros _ x Hx; symmetry; apply hm_get_write_out; lia.
Defined.

Lemma virtqueue_push_publishes_witness :
  let e := used_elem_addr 0x700200 (0 mod 2) in
  let '(vq', m') := virtqueue_push example_vq example_mem 0 8 in
  vq_inv vq' ∧ last_used_idx vq' = u16 (0 + 1) ∧
  le_get m' e 4 = 0 ∧ le_get m' (e + 4) 4 = 8 ∧ le_get m' (0x700200 + 2) 2 = last_used_idx vq' ∧
  (e + 8 ≤ 0x700200 + (6 + 8 * 2)) ∧
  (∀ x, ¬ (e ≤ x < e + 8) → ¬ (0x700200 + 2 ≤ x < 0x700200 + 4) →
     hm_get m' x = hm_get example_mem x).
Proof.
  apply (virtqueue_push_publishes example_vq example_mem 0 8 0x700200 example_vq_inv);
    [reflexivity|reflexivity|unfold is_u16; lia|unfold is_u32; lia].
Defined.

Lemma vq_reachable_witness : vq_inv (virtqueue_reset example_vq).
Proof.
  apply (vq_reachable_inv example_ms 2
    (mk_vq example_ms 2 2 false false 0 0 None None None (replicate 2 (mk_buf 0 0 false)))).
  - apply example_ms_inv.
  - unfold is_u16. lia.
  - reflexivity.
  - eapply rtc_l; [|apply rtc_once, vqs_reset]. apply vqs_addrs; unfold is_u64; lia.
Defined.

End Vq.
