(* ===== verification/Virtio.v ===== *)
(** * The VirtIO device core (src/hw/virtio/virtio.c, include/modvm/hw/virtio/virtio.h)

    A VirtIO device model behind a transport: its life cycle, the guest's
    status and feature negotiation, and the interfaces between the core and
    the device models ([VirtioOps]) and between the core and the transports
    (the list of [notification]s an operation returns). *)

From S2P Require Import Prelude HostMem ResPool Topology Virtqueue.

Module Virtio.
Import Vq.

Definition VIRTIO_MAX_VQS : Z := 8.
Definition VIRTIO_F_VERSION_1 : Z := 2 ^ 32.

Definition VIRTIO_STATUS_ACKNOWLEDGE : Z := 1.
Definition VIRTIO_STATUS_DRIVER : Z := 2.
Definition VIRTIO_STATUS_DRIVER_OK : Z := 4.
Definition VIRTIO_STATUS_FEATURES_OK : Z := 8.
Definition VIRTIO_STATUS_NEEDS_RESET : Z := 64.
Definition VIRTIO_STATUS_FAILED : Z := 128.

(** ** State *)

Inductive virtio_device_state : Type :=
| VIRTIO_DEVICE_NEW | VIRTIO_DEVICE_INITIALIZING | VIRTIO_DEVICE_ACTIVE | VIRTIO_DEVICE_STOPPED.
#[export] Instance virtio_device_state_eq : EqDecision virtio_device_state.
Proof. solve_decision. Defined.

Section Device.
Context {D : Type}.

(** struct virtio_device.  [priv] is the device model's private state; [owner]
    the identity of the pool that owns the clean-up; [parent_dev] the identity
    of the transport device, [None] before adoption.  The first [nr_vqs] slots
    of [vqs] are the list. *)
Record virtio_device : Type := mk_vdev {
  vstate : virtio_device_state;
  owner : Z;
  parent_dev : option Z;
  vmem : Space.mem_space;
  priv : D;
  device_id : Z;
  status : Z;
  driver_features : Z;
  vqs : list virtqueue;
}.

Definition eta_vdev (v : virtio_device) : virtio_device :=
  mk_vdev (vstate v) (owner v) (parent_dev v) (vmem v) (priv v) (device_id v) (status v)
    (driver_features v) (vqs v).
#[export] Instance set_vstate : Setter vstate := ltac:(derive_setter eta_vdev).
#[export] Instance set_owner : Setter owner := ltac:(derive_setter eta_vdev).
#[export] Instance set_parent_dev : Setter parent_dev := ltac:(derive_setter eta_vdev).
#[export] Instance set_priv : Setter priv := ltac:(derive_setter eta_vdev).
#[export] Instance set_status : Setter status := ltac:(derive_setter eta_vdev).
#[export] Instance set_driver_features : Setter driver_features := ltac:(derive_setter eta_vdev).
#[export] Instance set_vqs : Setter vqs := ltac:(derive_setter eta_vdev).

Definition nr_vqs (v : virtio_device) : Z := Z.of_nat (length (vqs v)).
End Device.
Arguments virtio_device : clear implicits.

(** What is allocated for the device at an address: its queues, the storage its
    own pool holds and the structure itself; and its getting and giving back. *)
Inductive block : Type := Queue (addr : Z) (i : nat) | Resources (addr : Z) | Shell (addr : Z).
Inductive mem_event : Type := Got (b : block) | Gave (b : block).

(** A call of [transport_ops->notify_queue] or [->notify_config]. *)
Inductive notification : Type := NotifyQueue | NotifyConfig.

(** ** What a device model provides: struct virtio_device_ops

    [None] is an absent callback.  [ops_realize] gets the outcomes of its
    allocations.  A callback that completes requests gets the host memory and
    what the guest does to it meanwhile ([guest]), and returns the
    notifications it sent. *)

(** [g r k m] is the memory [m] after what the guest has written to it up to
    the [k]-th access to the rings for the [r]-th chain; [g r 0 m] is the
    memory once the chain has been taken. *)
Abbreviation guest := (nat → nat → hmem → hmem).

Class VirtioOps (D : Type) := {
  ops_realize : (nat → bool) → virtio_device D → virtio_device D * Z;
  ops_stop : option (virtio_device D → virtio_device D);
  ops_reset : option (virtio_device D → virtio_device D);
  ops_get_features : virtio_device D → Z;
  ops_read_config : option (virtio_device D → Z → Z → Z);
  ops_write_config : option (virtio_device D → Z → Z → Z → virtio_device D);
  ops_notify_queue :
    guest → virtio_device D → hmem → Z → virtio_device D * hmem * list notification;
}.

(** ** What the core relies on in a device model *)

(** The configuration of a queue, which only the transport changes. *)
Definition same_config (q q' : virtqueue) : Prop :=
  vq_mem q' = vq_mem q ∧ queue_size q' = queue_size q ∧ max_size q' = max_size q ∧
  vq_enabled q' = vq_enabled q ∧ desc_table q' = desc_table q ∧ avail_ring q' = avail_ring q ∧
  used_ring q' = used_ring q.

#[export] Instance same_config_preorder : PreOrder same_config.
Proof. split; [done|]. unfold same_config. intros x y z H1 H2. destruct_and!. split_and!; congruence. Qed.

(** What a callback of a running device may change: its private state, the
    progress of its queues and, if [fail], the NEEDS_RESET bit. *)
Record device_change {D} (fail : bool) (v v' : virtio_device D) : Prop := {
  ch_state : vstate v' = vstate v;
  ch_owner : owner v' = owner v ∧ parent_dev v' = parent_dev v ∧ vmem v' = vmem v ∧
    device_id v' = device_id v;
  ch_features : driver_features v' = driver_features v;
  ch_status : status v' = status v ∨
    (fail = true ∧ status v' = set_bits (status v) VIRTIO_STATUS_NEEDS_RESET);
  ch_queues : Forall2 same_config (vqs v) (vqs v');
}.

(** Every queue is in order and belongs to the device's memory. *)
Definition queues_inv {D} (v : virtio_device D) : Prop :=
  Space.mem_inv (vmem v) ∧ Forall (fun q => vq_inv q ∧ vq_mem q = vmem v) (vqs v).

Class VirtioLaws (D : Type) `{VirtioOps D} := {
  law_features_priv v v' : priv v = priv v' → ops_get_features v = ops_get_features v';
  law_reset reset v : ops_reset = Some reset →
    device_change false v (reset v) ∧ vqs (reset v) = vqs v ∧
    ops_get_features (reset v) = ops_get_features v;
  law_write write v off val size : ops_write_config = Some write →
    device_change false v (write v off val size) ∧ vqs (write v off val size) = vqs v ∧
    ops_get_features (write v off val size) = ops_get_features v;
  law_notify g v m q :
    let v' := (ops_notify_queue g v m q).1.1 in
    queues_inv v →
    device_change true v v' ∧ queues_inv v' ∧ ops_get_features v' = ops_get_features v;
}.

Abbreviation pool := (ResPool.res_pool (Fn := Space.cleanup)).

Section Core.
Context {D : Type} `{VirtioOps D}.

(** ** Protocol state *)

Definition virtio_device_ready_locked (v : virtio_device D) : bool :=
  bool_decide (vstate v = VIRTIO_DEVICE_ACTIVE) &&
  (Z.land (status v) (Z.lor (Z.lor VIRTIO_STATUS_DRIVER_OK VIRTIO_STATUS_NEEDS_RESET)
                        VIRTIO_STATUS_FAILED) =? VIRTIO_STATUS_DRIVER_OK).

Definition virtio_device_fail_locked (v : virtio_device D) : virtio_device D * list notification :=
  let v := v <| status := set_bits (status v) VIRTIO_STATUS_NEEDS_RESET |> in
  (v, if has (status v) VIRTIO_STATUS_DRIVER_OK then [NotifyConfig] else []).

(** The new status after a non-zero write of [new]. *)
Definition next_status (v : virtio_device D) (new : Z) : Z :=
  let new := Z.lor (Z.land new (Z.lor (Z.lor (Z.lor (Z.lor VIRTIO_STATUS_ACKNOWLEDGE
               VIRTIO_STATUS_DRIVER) VIRTIO_STATUS_FEATURES_OK) VIRTIO_STATUS_DRIVER_OK)
               VIRTIO_STATUS_FAILED)) (status v) in
  let new :=
    if negb (has new VIRTIO_STATUS_ACKNOWLEDGE)
    then clr_bits new (Z.lor (Z.lor VIRTIO_STATUS_DRIVER VIRTIO_STATUS_FEATURES_OK)
                         VIRTIO_STATUS_DRIVER_OK)
    else new in
  let new :=
    if negb (has new VIRTIO_STATUS_DRIVER)
    then clr_bits new (Z.lor VIRTIO_STATUS_FEATURES_OK VIRTIO_STATUS_DRIVER_OK)
    else new in
  let new :=
    if has new VIRTIO_STATUS_FEATURES_OK && negb (has (status v) VIRTIO_STATUS_FEATURES_OK) then
      let offered := Z.lor (ops_get_features v) VIRTIO_F_VERSION_1 in
      if negb (has (driver_features v) VIRTIO_F_VERSION_1)
         || negb (clr_bits (driver_features v) offered =? 0)
      then clr_bits new VIRTIO_STATUS_FEATURES_OK
      else new
    else new in
  if negb (has new VIRTIO_STATUS_FEATURES_OK) then clr_bits new VIRTIO_STATUS_DRIVER_OK
  else new.

(** [arg] is the argument as the caller passes it; the parameter is a
    [uint8_t]. *)
Definition virtio_device_set_status_locked (v : virtio_device D) (arg : Z) : virtio_device D :=
  let new := u8 arg in
  if new =? 0 then
    let v := v <| status := 0 |> <| driver_features := 0 |> in
    let v := v <| vqs := virtqueue_reset <$> vqs v |> in
    match ops_reset with Some reset => reset v | None => v end
  else v <| status := next_status v new |>.

Definition virtio_device_set_features_locked (v : virtio_device D) (selector value : Z) :
    virtio_device D :=
  if negb (bool_decide (vstate v = VIRTIO_DEVICE_ACTIVE))
     || has (status v) VIRTIO_STATUS_FEATURES_OK || (1 <? selector)
  then v
  else
    let shift := selector * 32 in
    v <| driver_features := Z.lor (clr_bits (driver_features v) (u64 (Z.shiftl UINT32_MAX shift)))
                              (u64 (Z.shiftl value shift)) |>.

(** ** Life cycle *)

Definition virtio_device_add_queue_locked (v : virtio_device D) (size : Z) (calloc : bool) :
    virtio_device D * Z :=
  if negb (bool_decide (vstate v = VIRTIO_DEVICE_INITIALIZING)) || (nr_vqs v =? VIRTIO_MAX_VQS)
  then (v, - VM_EINVAL)
  else
    match virtqueue_create (vmem v) size calloc with
    | None => (v, - VM_ENOMEM)
    | Some vq => (v <| vqs := vqs v ++ [vq] |>, 0)
    end.

Definition virtio_device_stop_locked (v : virtio_device D) : virtio_device D :=
  if negb (bool_decide (vstate v = VIRTIO_DEVICE_ACTIVE))
     && negb (bool_decide (vstate v = VIRTIO_DEVICE_INITIALIZING))
  then v
  else
    let v := v <| vstate := VIRTIO_DEVICE_STOPPED |> in
    match ops_stop with Some stop => stop v | None => v end.

Definition virtio_device_realize_locked (allocs : nat → bool) (v : virtio_device D) :
    virtio_device D * Z :=
  if negb (bool_decide (vstate v = VIRTIO_DEVICE_NEW)) || bool_decide (parent_dev v = None)
  then (v, - VM_EINVAL)
  else
    let v := v <| vstate := VIRTIO_DEVICE_INITIALIZING |> in
    let '(v, ret) := ops_realize allocs v in
    if ret <? 0 then (virtio_device_stop_locked v, ret)
    else (v <| vstate := VIRTIO_DEVICE_ACTIVE |>, ret).

(** [virtqueue_destroy] on the queues of a device. *)
Definition virtqueue_destroy_all (addr : Z) (v : virtio_device D) : list mem_event :=
  Gave <$> (Queue addr <$> seq 0 (length (vqs v))).

(** The clean-up of the device at [addr]: the device as it is just before it is
    freed, and what is given back. *)
Definition virtio_cleanup (addr : Z) (v : virtio_device D) : virtio_device D * list mem_event :=
  let v := virtio_device_stop_locked v in
  (v, virtqueue_destroy_all addr v ++ [Gave (Resources addr); Gave (Shell addr)]).

(** [addr] is the address of the device structure, [vm_pool] the machine's
    resource pool and [d] the zeroed private state; [alloc1] is the outcome of
    the structure's allocation, [alloc2] and [alloc3] what the allocator
    returns to [res_zalloc] and to [res_add_action]. *)
Definition virtio_device_alloc (vm_pool : pool) (ms : Space.mem_space) (id : Z) (d : D)
    (size addr : Z) (alloc1 : bool) (alloc2 alloc3 : option Z) :
    pool * option (virtio_device D) * list mem_event :=
  if negb alloc1 then (vm_pool, None, [])
  else
    match ResPool.res_zalloc (Fn := Space.cleanup) (Some (ResPool.res_pool_init addr)) size alloc2 with
    | (_, None) => (vm_pool, None, [Got (Shell addr); Gave (Shell addr)])
    | (_, Some _) =>
        let got := [Got (Shell addr); Got (Resources addr)] in
        let v := mk_vdev VIRTIO_DEVICE_NEW (ResPool.pool_id vm_pool) None ms d id 0 0 [] in
        match ResPool.res_add_action_or_reset (Some vm_pool) (Some Space.CleanupVirtio) addr alloc3 with
        | (Some vm_pool, ret, reset) =>
            let gave := match reset with Some _ => (virtio_cleanup addr v).2 | None => [] end in
            (vm_pool, if ret =? 0 then Some v else None, got ++ gave)
        | (None, _, _) => (vm_pool, None, got)
        end
    end.

(** [dev] is the transport device, [dev_pool] its pool; [ops_ok] says that the
    transport provides both notification callbacks. *)
Definition virtio_device_adopt_locked (vm_pool dev_pool : pool) (dev addr : Z)
    (v : virtio_device D) (ops_ok : bool) : pool * pool * virtio_device D * Z :=
  if negb ops_ok || negb (bool_decide (parent_dev v = None))
     || negb (bool_decide (vstate v = VIRTIO_DEVICE_NEW))
     || negb (owner v =? ResPool.pool_id vm_pool)
  then (vm_pool, dev_pool, v, - VM_EINVAL)
  else
    match ResPool.res_transfer_action (Some vm_pool) (Some dev_pool) (Some Space.CleanupVirtio) addr with
    | (Some vm_pool, Some dev_pool, ret) =>
        if ret =? 0
        then (vm_pool, dev_pool,
              v <| owner := ResPool.pool_id dev_pool |> <| parent_dev := Some dev |>, ret)
        else (vm_pool, dev_pool, v, ret)
    | (_, _, ret) => (vm_pool, dev_pool, v, ret)
    end.

(** The last component is what the clean-up gives back, [None] when the device
    stays. *)
Definition virtio_device_destroy (vm_pool : pool) (addr : Z) (v : virtio_device D) :
    pool * Z * option (list mem_event) :=
  match parent_dev v with
  | Some _ => (vm_pool, - VM_EBUSY, None)
  | None =>
      match ResPool.res_cancel_action (Some vm_pool) (Some Space.CleanupVirtio) addr with
      | (Some vm_pool, ret) =>
          if ret <? 0 then (vm_pool, ret, None) else (vm_pool, 0, Some (virtio_cleanup addr v).2)
      | (None, ret) => (vm_pool, ret, None)
      end
  end.

(** ** Invariant of the guest protocol *)

(** Status bits come in order, and accepted features are a subset of those
    offered that contains VERSION_1. *)
Record protocol_inv (v : virtio_device D) : Prop := {
  prot_status : is_u8 (status v);
  prot_features : is_u64 (driver_features v);
  prot_driver_ok : has (status v) VIRTIO_STATUS_DRIVER_OK = true →
    has (status v) VIRTIO_STATUS_FEATURES_OK = true;
  prot_features_ok : has (status v) VIRTIO_STATUS_FEATURES_OK = true →
    has (status v) VIRTIO_STATUS_DRIVER = true ∧
    has (driver_features v) VIRTIO_F_VERSION_1 = true ∧
    clr_bits (driver_features v) (Z.lor (ops_get_features v) VIRTIO_F_VERSION_1) = 0;
  prot_driver : has (status v) VIRTIO_STATUS_DRIVER = true →
    has (status v) VIRTIO_STATUS_ACKNOWLEDGE = true;
}.

(** ** Lemmas: the status register *)

(** Whether the features chosen by the driver are acceptable. *)
Definition features_acceptable (v : virtio_device D) : bool :=
  has (driver_features v) VIRTIO_F_VERSION_1 &&
  (clr_bits (driver_features v) (Z.lor (ops_get_features v) VIRTIO_F_VERSION_1) =? 0).

(** The status a non-zero write leaves, bit by bit. *)
Definition status_bits (v : virtio_device D) (arg new : Z) : Prop :=
  let s i := Z.testbit (status v) i in
  let a i := Z.testbit arg i in
  let ack := s 0 || a 0 in
  let drv := (s 1 || a 1) && ack in
  let fok := (s 3 || a 3) && drv && (s 3 || features_acceptable v) in
  let dok := (s 2 || a 2) && fok in
  Z.testbit new 0 = ack ∧ Z.testbit new 1 = drv ∧ Z.testbit new 2 = dok ∧
  Z.testbit new 3 = fok ∧ Z.testbit new 4 = s 4 ∧ Z.testbit new 5 = s 5 ∧
  Z.testbit new 6 = s 6 ∧ Z.testbit new 7 = s 7 || a 7.

Lemma next_status_bits v arg : status_bits v arg (next_status v (u8 arg)).
Proof.
  unfold next_status, status_bits, features_acceptable. cbv zeta.
  set (acc1 := has (driver_features v) VIRTIO_F_VERSION_1).
  set (acc2 := clr_bits (driver_features v) _ =? 0).
  rewrite <- negb_andb. set (acc := acc1 && acc2). clearbody acc. clear acc1 acc2.
  set (n2 := if negb (has _ VIRTIO_STATUS_DRIVER) then _ else _).
  assert (H2 : ∀ i, 0 ≤ i < 8 → Z.testbit n2 i =
    (Z.testbit (status v) i || (Z.testbit arg i && Z.testbit 0x8f i)) &&
    (Z.testbit (status v) 0 || Z.testbit arg 0 || negb (Z.testbit 0x0e i)) &&
    ((Z.testbit (status v) 1 || Z.testbit arg 1) && (Z.testbit (status v) 0 || Z.testbit arg 0)
     || negb (Z.testbit 0x0c i))).
  { intros i Hi. unfold n2.
    assert (i ∈ [0; 1; 2; 3; 4; 5; 6; 7]) as Hin by (rewrite !elem_of_cons; lia).
    rewrite !elem_of_cons, elem_of_nil in Hin.
    destruct Hin as [->|[->|[->|[->|[->|[->|[->|[->|[]]]]]]]]]; bits; btauto. }
  clearbody n2. set (n3 := if has n2 _ && _ then _ else n2).
  assert (H3 : ∀ i, 0 ≤ i < 8 → Z.testbit n3 i = Z.testbit n2 i &&
    (Z.testbit (status v) 3 || acc || negb (Z.testbit 0x08 i))).
  { intros i Hi. unfold n3. has_to_testbit.
    destruct (Z.testbit n2 3) eqn:E3, (Z.testbit (status v) 3), acc; simpl;
      rewrite ?andb_true_r, ?testbit_clr_bits by lia; try done.
    destruct (decide (i = 3)) as [->|]; [by rewrite E3|].
    change 8 with (2 ^ 3). rewrite Z.pow2_bits_false by lia. by rewrite andb_true_r. }
  clearbody n3. rewrite !(fun i => testbit_gate _ n3 _ i) by lia. has_to_testbit.
  rewrite !H3, !H2 by lia. split_and!; bits; btauto.
Qed.

(** ** The guest's protocol as a sequence of events *)

Inductive event : Type :=
| EvStatus (arg : Z)
| EvFeatures (selector value : Z)
| EvFail
| EvNotify (g : guest) (m : hmem) (queue : Z)
| EvWriteConfig (offset value size : Z).

Definition event_ok (ev : event) : Prop :=
  match ev with EvFeatures sel value => is_u32 sel ∧ is_u32 value | _ => True end.

Definition is_reset (ev : event) : bool :=
  match ev with EvStatus arg => u8 arg =? 0 | _ => false end.

Definition core_exec (v : virtio_device D) (ev : event) : virtio_device D :=
  match ev with
  | EvStatus arg => virtio_device_set_status_locked v arg
  | EvFeatures sel value => virtio_device_set_features_locked v sel value
  | EvFail => (virtio_device_fail_locked v).1
  | EvNotify g m q => (ops_notify_queue g v m q).1.1
  | EvWriteConfig off value size =>
      match ops_write_config with Some write => write v off value size | None => v end
  end.

Definition core_run (v : virtio_device D) (evs : list event) : virtio_device D :=
  foldl core_exec v evs.

(** ** Lemmas: what an event does to the invariant *)

Context `{!VirtioLaws D}.

(** The invariant depends on the status, the features and the offer only. *)
Lemma protocol_inv_change fail v v' :
  device_change fail v v' → ops_get_features v' = ops_get_features v →
  protocol_inv v → protocol_inv v'.
Proof.
  intros C O [P1 P2 P3 P4 P5].
  destruct (ch_status _ _ _ C) as [E|[_ E]].
  - split; rewrite ?(ch_features _ _ _ C), ?O, ?E; done.
  - split; rewrite ?(ch_features _ _ _ C), ?O, ?E; [..|done| | |].
    + apply lor_range; [lia|done|unfold VIRTIO_STATUS_NEEDS_RESET; lia].
    + revert P3. bits. done.
    + revert P4. bits. done.
    + revert P5. bits. done.
Qed.

Lemma next_status_range v arg : is_u8 (status v) → is_u8 (next_status v (u8 arg)).
Proof.
  intros Hs. unfold next_status. cbv zeta.
  assert (If : ∀ (b : bool) x y, is_u8 x → is_u8 y → is_u8 (if b then x else y)) by (by intros []).
  assert (Clr : ∀ x m, is_u8 x → is_u8 (clr_bits x m)) by (intros; by apply clr_bits_range).
  repeat first [apply If | apply Clr];
    (apply lor_range; [lia| |done]; apply land_range; [lia|]; vm_compute; done).
Qed.

Lemma fail_change v : device_change true v (virtio_device_fail_locked v).1.
Proof. split; try done; by right. Qed.

Lemma next_status_inv v arg : protocol_inv v → protocol_inv (v <| status := next_status v (u8 arg) |>).
Proof.
  intros [P1 P2 P3 P4 P5]. pose proof (next_status_range v arg P1) as R.
  pose proof (next_status_bits v arg) as B. unfold status_bits, features_acceptable in B.
  cbv zeta in B. set (n := next_status v (u8 arg)) in *. clearbody n.
  destruct B as (B0 & B1 & B2 & B3 & _).
  split; change (status (v <| status := n |>)) with n;
    change (driver_features (v <| status := n |>)) with (driver_features v); [done|done|..].
  - revert B2 B3. has_to_testbit. intros -> ->. intros [_ ?]%andb_prop. done.
  - replace (ops_get_features (v <| status := n |>)) with (ops_get_features v)
      by (by apply law_features_priv).
    revert B1 B3 P4. has_to_testbit. intros -> -> P4 [[_ Hd]%andb_prop Ha]%andb_prop.
    split; [done|]. apply orb_prop in Ha as [Ha|[Hv Hz%Z.eqb_eq]%andb_prop]; [|done].
    by apply P4 in Ha as (_ & ?).
  - revert B0 B1. has_to_testbit. intros -> ->. intros [_ ?]%andb_prop. done.
Qed.

Lemma reset_inv v :
  queues_inv v →
  let v' := virtio_device_set_status_locked v 0 in
  protocol_inv v' ∧ queues_inv v'.
Proof.
  intros [Hm Hq]. unfold virtio_device_set_status_locked. change (u8 0 =? 0) with true. cbv iota zeta.
  set (v1 := v <| status := 0 |> <| driver_features := 0 |>
               <| vqs := virtqueue_reset <$> vqs (v <| status := 0 |> <| driver_features := 0 |>) |>).
  assert (Q : queues_inv v1).
  { split; [done|]. unfold v1. simpl. apply Forall_fmap. eapply Forall_impl; [exact Hq|].
    intros q [Iq Eq]. unfold compose. rewrite <- Eq.
    apply (vq_step_inv q); [by rewrite Eq|constructor|done]. }
  assert (P : protocol_inv v1) by (split; done).
  clearbody v1. destruct ops_reset as [reset|] eqn:E; [|done].
  destruct (law_reset reset v1 E) as (C & Eq & O). split; [by eapply protocol_inv_change|].
  destruct (ch_owner _ _ _ C) as (_ & _ & Em & _). split; [by rewrite Em; apply Q|].
  rewrite Eq, Em. apply Q.
Qed.

Lemma reset_vqs v arg :
  u8 arg = 0 → vqs (virtio_device_set_status_locked v arg) = virtqueue_reset <$> vqs v.
Proof.
  intros E. unfold virtio_device_set_status_locked. rewrite E. cbn [Z.eqb]. cbv zeta.
  destruct ops_reset as [reset|] eqn:Er; [|done].
  match goal with |- vqs (reset ?x) = _ =>
    by destruct (law_reset reset x Er) as (_ & -> & _) end.
Qed.

Lemma set_features_range x sel value :
  is_u64 x → is_u32 value → 0 ≤ sel ≤ 1 →
  is_u64 (Z.lor (clr_bits x (u64 (Z.shiftl UINT32_MAX (sel * 32)))) (u64 (Z.shiftl value (sel * 32)))).
Proof.
  intros Hx Hv Hs. apply lor_range; [lia| |apply u64_range]. apply clr_bits_range; [lia|done].
Qed.

Lemma core_exec_inv v ev :
  event_ok ev → protocol_inv v → queues_inv v →
  protocol_inv (core_exec v ev) ∧ queues_inv (core_exec v ev).
Proof.
  intros Ok P Q. destruct ev as [arg|sel value| |g m q|off value size]; simpl.
  - destruct (u8 arg =? 0) eqn:E.
    { assert (Er : virtio_device_set_status_locked v arg = virtio_device_set_status_locked v 0).
      { unfold virtio_device_set_status_locked. rewrite E. done. }
      rewrite Er. by apply reset_inv. }
    unfold virtio_device_set_status_locked. rewrite E. split; [by apply next_status_inv|done].
  - unfold virtio_device_set_features_locked.
    destruct (_ || _ || (1 <? sel)) eqn:E; [done|].
    apply orb_false_elim in E as [[_ E]%orb_false_elim Hs%Z.ltb_ge]. split; [|done].
    destruct Ok as [? ?]. destruct P as [P1 P2 P3 P4 P5]. split; simpl; try done.
    + apply set_features_range; [done..|word].
    + by rewrite E.
  - split; [|done].
    apply (protocol_inv_change true v); [apply fail_change|by apply law_features_priv|done].
  - destruct (law_notify g v m q Q) as (C & Q' & O). split; [|done].
    by eapply protocol_inv_change.
  - destruct ops_write_config as [write|] eqn:E; [|done].
    destruct (law_write write v off value size E) as (C & Eq & O).
    split; [by eapply protocol_inv_change|].
    destruct (ch_owner _ _ _ C) as (_ & _ & Em & _). split; [by rewrite Em; apply Q|].
    rewrite Eq, Em. apply Q.
Qed.

Lemma core_run_inv evs : ∀ v,
  Forall event_ok evs → protocol_inv v → queues_inv v →
  protocol_inv (core_run v evs) ∧ queues_inv (core_run v evs).
Proof.
  induction evs as [|ev evs IH]; intros v Ok P Q; [done|].
  apply Forall_cons in Ok as [Ok1 Ok]. destruct (core_exec_inv v ev Ok1 P Q).
  by apply IH.
Qed.

(** The guest cannot break the device protocol.  Whatever sequence of
    status writes, feature writes, configuration writes, queue notifications
    and device failures a device goes through after it was reset, DRIVER_OK
    implies FEATURES_OK, which implies DRIVER, which implies ACKNOWLEDGE;
    while FEATURES_OK is set the driver's features contain VERSION_1 and are
    among those the device offers; and every queue keeps its invariant. *)
Theorem virtio_protocol_inv v evs :
  status v = 0 → driver_features v = 0 → queues_inv v → Forall event_ok evs →
  protocol_inv (core_run v evs) ∧ queues_inv (core_run v evs).
Proof.
  intros Es Ef Q Ok. apply core_run_inv; [done| |done].
  split; rewrite ?Es, ?Ef; done.
Qed.

(** One event that is not a reset keeps the status bits, and keeps the
    features once they are accepted. *)
Lemma core_exec_keeps v ev :
  event_ok ev → is_reset ev = false → protocol_inv v → queues_inv v →
  has (status v) VIRTIO_STATUS_FEATURES_OK = true →
  driver_features (core_exec v ev) = driver_features v ∧
  ∀ i, 0 ≤ i < 8 → Z.testbit (status v) i = true → Z.testbit (status (core_exec v ev)) i = true.
Proof.
  intros Ok Nr P Q F.
  assert (Ch : ∀ fail v', device_change fail v v' → driver_features v' = driver_features v ∧
    ∀ i, 0 ≤ i < 8 → Z.testbit (status v) i = true → Z.testbit (status v') i = true).
  { intros fail v' C. split; [apply C|]. intros i Hi Hb.
    destruct (ch_status _ _ _ C) as [->|[_ ->]]; [done|]. by rewrite testbit_set_bits, Hb. }
  destruct ev as [arg|sel value| |g m q|off value size]; simpl in *.
  - unfold virtio_device_set_status_locked. rewrite Nr. split; [done|].
    pose proof (next_status_bits v arg) as B. unfold status_bits in B. cbv zeta in B.
    change (status (v <| status := next_status v (u8 arg) |>)) with (next_status v (u8 arg)).
    set (n := next_status v (u8 arg)) in *. clearbody n.
    pose proof (prot_driver_ok v P) as P3. pose proof (prot_driver v P) as P5.
    pose proof (proj1 (prot_features_ok v P F)) as P4. has_to_testbit.
    specialize (P5 P4). intros i Hi Hb. assert (i ∈ [0; 1; 2; 3; 4; 5; 6; 7]) as Hin
      by (rewrite !elem_of_cons; lia).
    rewrite !elem_of_cons, elem_of_nil in Hin. destruct B as (B0 & B1 & B2 & B3 & B4 & B5 & B6 & B7).
    destruct Hin as [->|[->|[->|[->|[->|[->|[->|[->|[]]]]]]]]];
      rewrite ?B0, ?B1, ?B2, ?B3, ?B4, ?B5, ?B6, ?B7, ?Hb, ?P4, ?P5, ?F; done.
  - unfold virtio_device_set_features_locked. rewrite F, orb_true_r. done.
  - exact (Ch true _ (fail_change v)).
  - eapply Ch. by apply law_notify.
  - destruct ops_write_config as [write|] eqn:E; [|done]. eapply Ch. by apply (law_write write).
Qed.

(** C14. Once the device has accepted the driver's features they are frozen,
    and the status bits the driver or the device has set stay set, through any
    sequence of events until the driver resets the device. *)
Theorem virtio_features_frozen evs : ∀ v,
  Forall event_ok evs → Forall (fun ev => is_reset ev = false) evs →
  protocol_inv v → queues_inv v → has (status v) VIRTIO_STATUS_FEATURES_OK = true →
  driver_features (core_run v evs) = driver_features v ∧
  ∀ i, 0 ≤ i < 8 → Z.testbit (status v) i = true → Z.testbit (status (core_run v evs)) i = true.
Proof.
  induction evs as [|ev evs IH]; intros v Ok Nr P Q F; [done|].
  apply Forall_cons in Ok as [Ok1 Ok]. apply Forall_cons in Nr as [Nr1 Nr].
  destruct (core_exec_keeps v ev Ok1 Nr1 P Q F) as [E1 S1].
  destruct (core_exec_inv v ev Ok1 P Q) as [P1 Q1].
  destruct (IH (core_exec v ev) Ok Nr P1 Q1) as [E2 S2].
  { revert F. has_to_testbit. apply S1. lia. }
  change (core_run v (ev :: evs)) with (core_run (core_exec v ev) evs). rewrite E2. auto.
Qed.

(** The initialisation sequence of a driver that accepts the features [f]. *)
Definition handshake (f : Z) : list event :=
  [EvStatus 1; EvStatus 3; EvFeatures 0 (f mod 2 ^ 32); EvFeatures 1 (f / 2 ^ 32);
   EvStatus 11; EvStatus 15].

(** The two halves of a feature word. *)
Lemma feature_halves x f :
  is_u64 x → is_u64 f →
  Z.lor (clr_bits (Z.lor (clr_bits x (u64 (Z.shiftl UINT32_MAX 0))) (u64 (Z.shiftl (f mod 2 ^ 32) 0)))
           (u64 (Z.shiftl UINT32_MAX 32))) (u64 (Z.shiftl (f / 2 ^ 32) 32)) = f.
Proof.
  intros Hx Hf. apply Z.bits_inj'. intros i Hi.
  change (u64 (Z.shiftl UINT32_MAX 0)) with (Z.ones 32).
  change (u64 (Z.shiftl UINT32_MAX 32)) with (Z.shiftl (Z.ones 32) 32).
  unfold u64. rewrite Z.shiftl_0_r, (Z.mod_small (f mod 2 ^ 32)) by (pose proof (Z.mod_pos_bound f (2^32)); lia).
  rewrite (Z.mod_small (Z.shiftl (f / 2 ^ 32) 32)).
  2: { rewrite Z.shiftl_mul_pow2 by lia. unfold is_u64 in Hf.
       pose proof (Z.div_pos f (2 ^ 32)). pose proof (Z.mul_div_le f (2 ^ 32)). lia. }
  rewrite Z.lor_spec, testbit_clr_bits, Z.lor_spec, testbit_clr_bits by lia.
  rewrite !Z.shiftl_spec by lia. unfold is_u64 in *. destruct (Z.lt_ge_cases i 32).
  - rewrite !(Z.testbit_neg_r _ (i - 32)), Z.ones_spec_low by lia.
    rewrite Z.mod_pow2_bits_low by lia. rewrite andb_false_r. simpl.
    by rewrite andb_true_r, orb_false_r.
  - rewrite Z.ones_spec_high, Z.mod_pow2_bits_high, Z.div_pow2_bits by lia.
    rewrite orb_false_r, Z.sub_add, andb_true_r. destruct (Z.lt_ge_cases (i - 32) 32).
    + by rewrite Z.ones_spec_low, andb_false_r by lia.
    + rewrite (proj1 (range_bits x 64 ltac:(lia) ltac:(lia)) ltac:(lia) i) by lia. done.
Qed.

Lemma next_status_first v : status v = 0 → next_status v 1 = 1.
Proof. intros E. unfold next_status. rewrite E. reflexivity. Qed.

Lemma next_status_second v : status v = 1 → next_status v 3 = 3.
Proof. intros E. unfold next_status. rewrite E. reflexivity. Qed.

Lemma next_status_features v :
  status v = 3 → next_status v 11 = if features_acceptable v then 11 else 3.
Proof.
  intros E. unfold next_status, features_acceptable. rewrite E. cbv zeta.
  rewrite <- negb_andb. destruct (_ && (_ =? 0)); reflexivity.
Qed.

Lemma next_status_last v :
  status v = 11 ∨ status v = 3 ∧ features_acceptable v = false →
  next_status v 15 = if status v =? 11 then 15 else 3.
Proof.
  intros [E|[E A]]; unfold next_status; rewrite E; [reflexivity|]. revert A.
  unfold features_acceptable. cbv zeta. rewrite <- negb_andb. intros ->. reflexivity.
Qed.

Lemma set_status_step v arg :
  (u8 arg =? 0) = false →
  core_exec v (EvStatus arg) = v <| status := next_status v (u8 arg) |>.
Proof. intros E. simpl. unfold virtio_device_set_status_locked. by rewrite E. Qed.

Lemma set_features_step v sel value :
  vstate v = VIRTIO_DEVICE_ACTIVE → status v = 3 → sel ≤ 1 →
  core_exec v (EvFeatures sel value) =
  v <| driver_features :=
    Z.lor (clr_bits (driver_features v) (u64 (Z.shiftl UINT32_MAX (sel * 32))))
      (u64 (Z.shiftl value (sel * 32))) |>.
Proof.
  intros A E Hs. simpl. unfold virtio_device_set_features_locked.
  rewrite bool_decide_true, E by done. destruct (Z.ltb_spec 1 sel); [lia|]. done.
Qed.

(** A driver that follows the initialisation sequence on a device that has
    just been reset ends up with the device ready exactly if the features it
    chose contain VERSION_1 and nothing the device does not offer; the device
    records the features as the two 32-bit halves spell them. *)
Theorem virtio_handshake v f :
  vstate v = VIRTIO_DEVICE_ACTIVE → status v = 0 → is_u64 (driver_features v) → is_u64 f →
  let v' := core_run v (handshake f) in
  driver_features v' = f ∧
  (virtio_device_ready_locked v' = true ↔
   Z.testbit f 32 = true ∧
   clr_bits f (Z.lor (ops_get_features v) VIRTIO_F_VERSION_1) = 0).
Proof.
  intros A E Hx Hf. unfold handshake, core_run. cbn [foldl]. cbv zeta.
  rewrite (set_status_step _ 1) by done. change (u8 1) with 1. rewrite next_status_first by done.
  rewrite (set_status_step _ 3) by done. change (u8 3) with 3. rewrite next_status_second by done.
  rewrite (set_features_step _ 0), (set_features_step _ 1) by done.
  match goal with |- context [core_exec (core_exec ?x _) _] => remember x as v4 eqn:E4 end.
  assert (F4 : driver_features v4 = f) by (rewrite E4; apply feature_halves; done).
  assert (S4 : status v4 = 3) by (by rewrite E4).
  assert (A4 : vstate v4 = VIRTIO_DEVICE_ACTIVE) by (by rewrite E4).
  assert (O4 : ops_get_features v4 = ops_get_features v)
    by (apply law_features_priv; by rewrite E4).
  clear E4 E A. rewrite (set_status_step _ 11) by done. change (u8 11) with 11.
  rewrite next_status_features by done. rewrite (set_status_step _ 15) by done. change (u8 15) with 15.
  set (acc := features_acceptable v4).
  assert (Eacc : acc = true ↔ Z.testbit f 32 = true ∧
    clr_bits f (Z.lor (ops_get_features v) VIRTIO_F_VERSION_1) = 0).
  { unfold acc, features_acceptable. rewrite F4, O4, andb_true_iff, Z.eqb_eq. has_to_testbit. done. }
  split; [done|]. rewrite <- Eacc. rewrite next_status_last.
  - unfold virtio_device_ready_locked. simpl. rewrite A4. destruct acc; vm_compute; done.
  - destruct acc eqn:Ea; [by left|right]. split; [done|]. rewrite <- Ea. unfold acc, features_acceptable.
    simpl. rewrite (law_features_priv _ v4) by done. done.
Qed.

End Core.

(** ** Examples *)

(** A device with one feature and no requests of its own: every notification
    fails the device. *)
Definition example_ops : VirtioOps unit := {|
  ops_realize _ v := (v, 0);
  ops_stop := None;
  ops_reset := None;
  ops_get_features _ := 32;
  ops_read_config := None;
  ops_write_config := None;
  ops_notify_queue _ v m _ := let '(v, ns) := virtio_device_fail_locked v in (v, m, ns);
|}.

Lemma example_laws : @VirtioLaws unit example_ops.
Proof.
  split; try done. intros g v m q v' Q.
  split; [apply fail_change|]. by split.
Qed.

Definition example_dev : virtio_device unit :=
  mk_vdev VIRTIO_DEVICE_ACTIVE 0 (Some 1) example_ms tt 2 0 0 [example_vq].

Lemma example_dev_queues : queues_inv example_dev.
Proof.
  split; [exact example_ms_inv|]. constructor; [|constructor].
  split; [exact example_vq_inv|]. vm_compute. done.
Qed.

Lemma virtio_protocol_inv_witness :
  let v := core_run (H := example_ops) example_dev
             [EvStatus 15; EvFeatures 0 32; EvNotify (fun _ _ m => m) ∅ 0; EvStatus 7] in
  protocol_inv (H := example_ops) v ∧ queues_inv v.
Proof.
  apply (virtio_protocol_inv (H := example_ops) (VirtioLaws0 := example_laws)); try reflexivity.
  - exact example_dev_queues.
  - repeat constructor; unfold is_u32; lia.
Defined.

Definition example_accepted : virtio_device unit :=
  example_dev <| status := 11 |> <| driver_features := 2 ^ 32 |>.

Lemma virtio_features_frozen_witness :
  let v := core_run (H := example_ops) example_accepted [EvStatus 4; EvFeatures 0 1; EvFail] in
  driver_features v = 2 ^ 32 ∧
  ∀ i, 0 ≤ i < 8 → Z.testbit 11 i = true → Z.testbit (status v) i = true.
Proof.
  apply (virtio_features_frozen (H := example_ops) (VirtioLaws0 := example_laws)
           [EvStatus 4; EvFeatures 0 1; EvFail] example_accepted).
  - repeat constructor; unfold is_u32; lia.
  - repeat constructor.
  - split; vm_compute; repeat split; done.
  - exact example_dev_queues.
  - reflexivity.
Defined.

Lemma virtio_handshake_witness :
  let v := core_run (H := example_ops) example_dev (handshake (2 ^ 32 + 32)) in
  driver_features v = 2 ^ 32 + 32 ∧
  (virtio_device_ready_locked v = true ↔
   Z.testbit (2 ^ 32 + 32) 32 = true ∧ clr_bits (2 ^ 32 + 32) (Z.lor 32 VIRTIO_F_VERSION_1) = 0).
Proof.
  apply (virtio_handshake (H := example_ops) (VirtioLaws0 := example_laws) example_dev);
    try reflexivity; unfold is_u64; simpl; lia.
Defined.

End Virtio.
