(* ===== verification/VirtioServe.v ===== *)
(** * The request loop of the VirtIO device models

    [virtio_blk_notify_queue], [virtio_net_handle_ctrl] and the transmit path
    of [virtio_net_notify_queue] run the same loop: take a chain, handle it,
    return it, until the queue is empty or in error, then raise the
    interrupts.  [serve] is that loop with the handling of one chain as a
    parameter; the lemmas of this file are shared by the device models. *)

From S2P Require Import Prelude HostMem ResPool Topology Virtqueue Virtio.

Module Serve.
Import Vq Virtio.

Section Serve.
Context {D : Type} `{VirtioOps D}.

(** What a device model does with a chain: its private state and memory
    afterwards, and the length to return the chain with ([None]: the device
    fails and the loop is left). *)
Variable handle : virtio_device D → hmem → virtqueue_chain → D * hmem * option Z.

(** What the guest does, and the index of the queue. *)
Variable g : guest.
Variable queue : nat.

Record serve_state : Type := mk_serve {
  sv_dev : virtio_device D;
  sv_mem : hmem;
  sv_irq : bool;
  sv_round : nat;
}.

Definition put_queue (v : virtio_device D) (vq : virtqueue) : virtio_device D :=
  v <| vqs := <[queue := vq]> (vqs v) |>.

(** One round of the while loop.  The result of the loop is the device, the
    memory, [need_irq] and the notifications sent on failure. *)
Definition serve_body (st : serve_state) :
    serve_state + (virtio_device D * hmem * bool * list notification) :=
  let v := sv_dev st in
  match vqs v !! queue with
  | None => inr (v, sv_mem st, sv_irq st, [])
  | Some vq =>
      let '(vq, chain, ret) := virtqueue_pop vq (fun k => g (sv_round st) (S k) (sv_mem st)) in
      let v := put_queue v vq in
      let m := g (sv_round st) 0%nat (sv_mem st) in
      if ret =? HANG then inl st
      else if 0 <? ret then
        let '(d, m, len) := handle v m chain in
        let v := v <| priv := d |> in
        match len with
        | None =>
            let '(v, ns) := virtio_device_fail_locked v in inr (v, m, sv_irq st, ns)
        | Some len =>
            let '(vq, m) := virtqueue_push vq m (head chain) len in
            inl (mk_serve (put_queue v vq) m true (S (sv_round st)))
        end
      else if ret <? 0 then
        let '(v, ns) := virtio_device_fail_locked v in inr (v, m, sv_irq st, ns)
      else inr (v, m, sv_irq st, [])
  end.

Definition serve_result (r : serve_state + (virtio_device D * hmem * bool * list notification)) :
    virtio_device D * hmem * list notification :=
  match r with
  | inl st => (sv_dev st, sv_mem st, if sv_irq st then [NotifyQueue] else [])
  | inr (v, m, need_irq, ns) => (v, m, ns ++ (if need_irq then [NotifyQueue] else []))
  end.

Definition serve (v : virtio_device D) (m : hmem) : virtio_device D * hmem * list notification :=
  serve_result (loop serve_body (mk_serve v m false 0)).

(** ** The loop keeps the device in order *)

(** What the handler may not do: it leaves the offered features alone. *)
Definition handler_ok : Prop :=
  ∀ v m chain, Space.mem_inv (chain_mem chain) → chain_ok chain →
  ops_get_features (v <| priv := (handle v m chain).1.1 |>) = ops_get_features v.

Lemma pop_config vq rd :
  Space.mem_inv (vq_mem vq) → vq_inv vq → same_config vq (virtqueue_pop vq rd).1.1.
Proof.
  intros Im Iq. unfold virtqueue_pop. destruct (negb _); [done|]. destruct (broken vq); [done|].
  destruct (_ =? _); [done|]. destruct (_ <? _); [done|]. cbv zeta.
  match goal with |- context [loop (pop_body ?f) (mk_pop vq ?c ?i false 0)] =>
    destruct (pop_loop_spec f vq c i Im Iq) as ([[v ch] err] & -> & [Sv _] & _) end.
  { unfold avail_entry. by apply le_get_range. }
  { done. }
  destruct (err =? 0), (err =? HANG); rewrite Sv; done.
Qed.

Lemma push_config vq m i len : same_config vq (virtqueue_push vq m i len).1.
Proof. unfold virtqueue_push. destruct (used_ring vq) eqn:E; [|done]. destruct (negb _); [done|]. split_and!; done. Qed.

Lemma push_vq_inv vq m i len : vq_inv vq → vq_inv (virtqueue_push vq m i len).1.
Proof.
  intros I. unfold virtqueue_push. destruct (used_ring vq); [|done]. destruct (negb _); [done|].
  destruct I as [? ? ? [? ?] ?]. split; simpl; try done. split; [done|apply u16_range].
Qed.

(** Replacing a queue by one with the same configuration. *)
Lemma put_queue_ok v vq vq' :
  vqs v !! queue = Some vq → same_config vq vq' → vq_inv vq' → queues_inv v →
  device_change false v (put_queue v vq') ∧ queues_inv (put_queue v vq').
Proof.
  intros L C I' [Im Q]. split.
  - split; try done; [by left|]. simpl. rewrite <- (list_insert_id _ _ _ L) at 1.
    apply Forall2_insert; [reflexivity|done].
  - split; [done|]. simpl. apply Forall_insert; [done|]. split; [done|].
    destruct C as [-> _]. by apply (Forall_lookup_1 _ _ _ _ Q L).
Qed.

Lemma device_change_trans fail (v1 v2 v3 : virtio_device D) :
  device_change false v1 v2 → device_change fail v2 v3 → device_change fail v1 v3.
Proof.
  intros [? (? & ? & ? & ?) ? [S1|[? ?]] ?] [? (? & ? & ? & ?) ? S2 ?]; [|done].
  split; [congruence|split_and!; congruence|congruence|by rewrite S1 in S2|by etrans].
Qed.

(** The offered features depend on the private state only. *)
Hypothesis features_priv :
  ∀ v v' : virtio_device D, priv v = priv v' → ops_get_features v = ops_get_features v'.

(** The state of the loop: the device has not failed so far. *)
Definition serving (v0 v : virtio_device D) : Prop :=
  device_change false v0 v ∧ queues_inv v ∧ ops_get_features v = ops_get_features v0.

Definition served (v0 v : virtio_device D) : Prop :=
  device_change true v0 v ∧ queues_inv v ∧ ops_get_features v = ops_get_features v0.

Lemma serving_served v0 v : serving v0 v → served v0 v.
Proof. intros ([? ? ? [?|[? _]] ?] & ? & ?); [|done]. split; [|done]. split; try done. by left. Qed.

Lemma serving_fail v0 v : serving v0 v → served v0 (virtio_device_fail_locked v).1.
Proof.
  intros (C & Q & O). split_and!; [eapply device_change_trans; [done|apply fail_change]|done|].
  rewrite <- O. by apply features_priv.
Qed.

Lemma serving_put v0 v vq vq' :
  vqs v !! queue = Some vq → same_config vq vq' → vq_inv vq' → serving v0 v →
  serving v0 (put_queue v vq').
Proof.
  intros L S I (C & Q & O). destruct (put_queue_ok v vq vq' L S I Q) as [C' Q'].
  split_and!; [by eapply device_change_trans|done|]. rewrite <- O. by apply features_priv.
Qed.

Lemma serving_handle v0 v m chain :
  handler_ok → Space.mem_inv (chain_mem chain) → chain_ok chain →
  serving v0 v → serving v0 (v <| priv := (handle v m chain).1.1 |>).
Proof.
  intros Hh Hm Hc ([? ? ? [?|[? _]] ?] & Q & O); [|done].
  split_and!; [split; try done; by left|done|]. by rewrite Hh.
Qed.

(** When a pop finds work and when it does not. *)
Lemma pop_outcome vq rd :
  Space.mem_inv (vq_mem vq) → vq_inv vq →
  let '(vq', _, ret) := virtqueue_pop vq rd in
  let idle := vq_enabled vq = false ∨
              avail_idx (rd 0%nat) (default 0 (avail_ring vq)) = last_avail_idx vq in
  (ret = 0 → idle) ∧ (ret = 1 → ¬ idle) ∧ last_used_idx vq' = last_used_idx vq.
Proof.
  intros Im Iq. unfold virtqueue_pop.
  destruct (vq_enabled vq) eqn:En; simpl negb; cbv iota; [|split_and!; [by left|done|done]].
  destruct (broken vq); [split_and!; done|].
  destruct (Z.eqb_spec (avail_idx (rd 0%nat) (default 0 (avail_ring vq))) (last_avail_idx vq)) as [E|E];
    [split_and!; [by right|done|done]|].
  destruct (_ <? _); [split_and!; done|]. cbv zeta.
  match goal with |- context [loop (pop_body ?f) (mk_pop vq ?c ?i false 0)] =>
    destruct (pop_loop_spec f vq c i Im Iq) as ([[v ch] err] & -> & [Sv _] & Er) end.
  { unfold avail_entry. by apply le_get_range. }
  { done. }
  destruct (Z.eqb_spec err 0) as [->|Ne]; [|destruct (err =? HANG)].
  - split_and!; [done|by intros _ [?|?]|by rewrite Sv].
  - by split_and!; [..|rewrite Sv].
  - split_and!; [done| |by rewrite Sv]. intros ->.
    destruct Er as [[? _]|Er]; [done|]. rewrite !elem_of_cons, elem_of_nil in Er.
    unfold VM_EFAULT, VM_ELOOP, VM_EINVAL in Er. lia.
Qed.

(** As many chains returned as taken since [q0]. *)
Definition balanced (q0 q : virtqueue) : Prop :=
  u16 (last_used_idx q - last_used_idx q0) = u16 (last_avail_idx q - last_avail_idx q0).

Lemma u16_succ x y : u16 (u16 (x + 1) - y) = u16 (u16 (x - y) + 1).
Proof.
  unfold u16. rewrite Zminus_mod_idemp_l, Zplus_mod_idemp_l. f_equal. lia.
Qed.

Lemma push_used vq m i len :
  vq_inv vq → vq_enabled vq = true →
  last_used_idx (virtqueue_push vq m i len).1 = u16 (last_used_idx vq + 1) ∧
  last_avail_idx (virtqueue_push vq m i len).1 = last_avail_idx vq.
Proof.
  intros I En. destruct (vq_rings _ I En) as (_ & _ & (gpa & a & _ & E & _)).
  unfold virtqueue_push. rewrite E, En. done.
Qed.

Definition serve_inv (v0 : virtio_device D) (q0 : virtqueue) (st : serve_state) : Prop :=
  serving v0 (sv_dev st) ∧
  ∃ vq, vqs (sv_dev st) !! queue = Some vq ∧ balanced q0 vq ∧ avail_ring vq = avail_ring q0 ∧
    (sv_irq st = false → last_used_idx vq = last_used_idx q0).

Definition serve_post (v0 : virtio_device D) (q0 : virtqueue)
    (r : virtio_device D * hmem * bool * list notification) : Prop :=
  let '(v, _, irq, _) := r in
  served v0 v ∧ ∃ vq, vqs v !! queue = Some vq ∧
  (irq = false → last_used_idx vq = last_used_idx q0) ∧
  (has (status v) VIRTIO_STATUS_NEEDS_RESET = true ∨
   status v = status v0 ∧ balanced q0 vq ∧
   (vq_enabled vq = false ∨
    ∃ r m, avail_idx (g r 1 m) (default 0 (avail_ring q0)) = last_avail_idx vq)).

(** A round that returned a chain found one, and took one. *)
Definition serve_step (q0 : virtqueue) (st st' : serve_state) : Prop :=
  ∀ vq vq', vqs (sv_dev st) !! queue = Some vq → vqs (sv_dev st') !! queue = Some vq' →
  last_avail_idx vq' = u16 (last_avail_idx vq + 1) ∧ is_u16 (last_avail_idx vq) ∧
  ∃ r m, avail_idx (g r 1 m) (default 0 (avail_ring q0)) ≠ last_avail_idx vq.

Lemma fail_needs_reset v :
  has (status (virtio_device_fail_locked (D := D) v).1) VIRTIO_STATUS_NEEDS_RESET = true.
Proof. simpl. bits. done. Qed.

Lemma serve_body_spec v0 q0 st :
  handler_ok → serve_inv v0 q0 st →
  match serve_body st with
  | inl st' => serve_inv v0 q0 st' ∧ serve_step q0 st st'
  | inr r => serve_post v0 q0 r
  end.
Proof.
  intros Hh [S0 (vq & L & Bal & Ring & Irq)]. unfold serve_body. rewrite L.
  destruct (Forall_lookup_1 _ _ _ _ (proj2 (proj1 (proj2 S0))) L) as [Iq Em].
  assert (Im : Space.mem_inv (vq_mem vq)) by (rewrite Em; apply S0).
  set (rd := fun k => g (sv_round st) (S k) (sv_mem st)).
  pose proof (virtqueue_pop_cases vq rd Im Iq) as P. pose proof (pop_outcome vq rd Im Iq) as O.
  pose proof (pop_config vq rd Im Iq) as C.
  destruct (virtqueue_pop vq rd) as [[vq1 chain] ret]. simpl in C.
  destruct P as [I1 P]. destruct O as (Oi & On & Ou).
  pose proof (serving_put v0 _ vq vq1 L C I1 S0) as S1.
  set (v1 := put_queue (sv_dev st) vq1) in *.
  assert (L1 : vqs v1 !! queue = Some vq1).
  { apply list_lookup_insert_eq. by eapply lookup_lt_Some. }
  clearbody v1. set (m1 := g (sv_round st) 0%nat (sv_mem st)). clearbody m1.
  destruct (Z.eqb_spec ret HANG) as [->|_]; [unfold HANG in P; exfalso; lia|].
  destruct (Z.ltb_spec 0 ret) as [Hr|Hr].
  - destruct P as [P|[[? _]|[? _]]]; [|lia|lia].
    destruct P as (-> & Ck & Ecm & _ & _ & Ea & _). specialize (On eq_refl).
    assert (En : vq_enabled vq1 = true).
    { destruct C as (_ & _ & _ & -> & _). destruct (vq_enabled vq); [done|]. destruct On. by left. }
    rewrite <- Ecm in Im. pose proof (serving_handle v0 v1 m1 chain Hh Im Ck S1) as S2.
    destruct (handle v1 m1 chain) as [[d m2] [len|]]; simpl in S2.
    + pose proof (push_used vq1 m2 (head chain) len I1 En) as [U1 U2].
      pose proof (push_config vq1 m2 (head chain) len) as C2.
      pose proof (push_vq_inv vq1 m2 (head chain) len I1) as I2.
      destruct (virtqueue_push vq1 m2 (head chain) len) as [vq2 m3]. simpl in U1, U2, C2, I2.
      assert (L2 : vqs (put_queue (v1 <| priv := d |>) vq2) !! queue = Some vq2).
      { apply list_lookup_insert_eq. by eapply lookup_lt_Some. }
      split; [split|]; simpl sv_dev.
      * by apply (serving_put v0 _ vq1 vq2).
      * exists vq2. split_and!.
        -- done.
        -- unfold balanced in *. rewrite U1, U2, Ea, Ou, !u16_succ, Bal. done.
        -- destruct C2 as (_ & _ & _ & _ & _ & -> & _). by destruct C as (_ & _ & _ & _ & _ & -> & _).
        -- done.
      * intros x y Hx Hy. cbn [sv_dev] in Hy. rewrite L in Hx. rewrite L2 in Hy. simplify_eq.
        rewrite U2. split_and!; [done|apply Iq|]. exists (sv_round st), (sv_mem st). rewrite <- Ring.
        intros E. destruct On. by right.
    + split; [by apply serving_fail|]. exists vq1. split; [done|]. rewrite Ou.
      split; [done|]. left. apply fail_needs_reset.
  - destruct (Z.ltb_spec ret 0).
    + split; [by apply serving_fail|]. exists vq1. split; [done|]. rewrite Ou.
      split; [done|]. left. apply fail_needs_reset.
    + destruct P as [[? _]|[[_ ->]|[? _]]]; [lia| |lia].
      split; [by apply serving_served|]. exists vq. split; [done|]. split; [done|]. right. split_and!; [|done|].
      * destruct S1 as [S1 _]. by destruct (ch_status _ _ _ S1) as [->|[? _]].
      * destruct (Oi ltac:(lia)) as [?|?]; [by left|right]. rewrite <- Ring.
        by exists (sv_round st), (sv_mem st).
Qed.

Lemma serve_inv_init v m q0 :
  queues_inv v → vqs v !! queue = Some q0 → serve_inv v q0 (mk_serve v m false 0).
Proof.
  intros Q L. split; [split_and!; [|done|done]|].
  - split; try done. by left.
  - exists q0. split_and!; [done| |done|done]. unfold balanced. by rewrite !Z.sub_diag.
Qed.

(** Serving a queue, whatever the guest does, keeps the device in order. *)
Lemma serve_served v m : handler_ok → queues_inv v → served v (serve v m).1.1.
Proof.
  intros Hh Q. unfold serve. destruct (vqs v !! queue) as [q0|] eqn:L.
  2: { unfold loop. rewrite (loop_upto_stop _ _ _ (v, m, false, [])); [|unfold serve_body; simpl; by rewrite L].
       simpl. split_and!; try done. split; try done. by left. }
  pose proof (loop_inv serve_body (serve_inv v q0) (serve_post v q0) (mk_serve v m false 0)) as I.
  destruct (loop serve_body (mk_serve v m false 0)) as [st|[[[v' m'] irq] ns]].
  - apply serving_served. apply I; [|by apply serve_inv_init].
    intros st' I'. pose proof (serve_body_spec v q0 st' Hh I').
    by destruct (serve_body st') as [?|[[[? ?] ?] ?]]; [apply H0|].
  - apply I; [|by apply serve_inv_init].
    intros st' I'. pose proof (serve_body_spec v q0 st' Hh I').
    by destruct (serve_body st') as [?|[[[? ?] ?] ?]]; [apply H0|].
Qed.

(** If the guest adds no more chains meanwhile, serving ends, with every chain
    taken and returned unless the device failed. *)
Lemma serve_loop_ends v m q0 idx :
  handler_ok → queues_inv v → vqs v !! queue = Some q0 →
  (∀ r m, avail_idx (g r 1 m) (default 0 (avail_ring q0)) = idx) → is_u16 idx →
  ∃ r, loop serve_body (mk_serve v m false 0) = inr r ∧ serve_post v q0 r.
Proof.
  intros Hh Q L Hg Hi.
  pose (left := fun st => match vqs (sv_dev st) !! queue with
                          | Some vq => u16 (idx - last_avail_idx vq) | None => 0 end).
  apply (loop_total serve_body (serve_inv v q0) left); [|by apply serve_inv_init|].
  - intros st I. pose proof (serve_body_spec v q0 st Hh I) as B.
    destruct (serve_body st) as [st'|r]; [|done]. destruct B as [I' St]. split; [done|].
    destruct I as (_ & vq & L1 & _). destruct I' as (_ & vq' & L2 & _).
    unfold left. rewrite L1, L2. destruct (St vq vq' L1 L2) as (-> & Hr & rr & mm & Ne).
    rewrite Hg in Ne. unfold u16, is_u16 in *. rewrite Zminus_mod_idemp_r.
    pose proof (Z.mod_pos_bound (idx - (last_avail_idx vq + 1)) (2 ^ 16)). split; [lia|].
    destruct (Z.lt_ge_cases idx (last_avail_idx vq)).
    + rewrite <- (Z.mod_add (idx - last_avail_idx vq) 1), <- (Z.mod_add (idx - (_ + 1)) 1) by lia.
      rewrite !Z.mod_small by lia. lia.
    + rewrite !Z.mod_small by lia. lia.
  - unfold left. destruct (_ !! _); [|lia]. pose proof (u16_range (idx - last_avail_idx v0)). word.
Qed.

Lemma serve_completes v m q0 idx :
  handler_ok → queues_inv v → vqs v !! queue = Some q0 →
  (∀ r m, avail_idx (g r 1 m) (default 0 (avail_ring q0)) = idx) → is_u16 idx →
  let '(v', _, ns) := serve v m in
  (∃ r, loop serve_body (mk_serve v m false 0) = inr r) ∧
  ∃ q', vqs v' !! queue = Some q' ∧
    (last_used_idx q' ≠ last_used_idx q0 → NotifyQueue ∈ ns) ∧
    (has (status v') VIRTIO_STATUS_NEEDS_RESET = true ∨
     status v' = status v ∧ balanced q0 q' ∧ (vq_enabled q' = false ∨ last_avail_idx q' = idx)).
Proof.
  intros Hh Q L Hg Hi. unfold serve.
  destruct (serve_loop_ends v m q0 idx Hh Q L Hg Hi) as ([[[v' m'] irq] ns] & -> & P). simpl.
  split; [by eexists|]. destruct P as (_ & vq & L' & Hirq & P). exists vq. split_and!; [done| |].
  - intros Hu. apply elem_of_app. right. destruct irq; [by left|]. by destruct Hu, Hirq.
  - destruct P as [?|(? & ? & [?|(r & mm & E)])]; [by left|right; by auto|].
    right. rewrite Hg in E. auto.
Qed.

End Serve.
End Serve.
