(* ===== verification/Block.v ===== *)
(** * Block storage (include/modvm/io/block.h)

    The interface between the VirtIO block device and its storage: struct
    block_ops as a class, and what its comments promise as laws. *)

From S2P Require Import Prelude.

(** struct block_ops and the [readonly] field of struct block_backend.
    [blk_read b count offset] returns the bytes stored at the start of the
    buffer and the return value; [blk_write b buf offset] the return value.
    [blk_flush] is [None] when the callback is absent. *)
Class BlockBackend (B : Type) := {
  blk_read : B → Z → Z → B * list Z * Z;
  blk_write : B → list Z → Z → B * Z;
  blk_flush : option (B → B * Z);
  blk_capacity : B → Z;
  blk_readonly : B → bool;
}.

(** [len] bytes of a disk from [off] on. *)
Definition disk_slice (disk : Z → Z) (off len : Z) : list Z := disk <$> seqZ off len.

(** "Return bytes transferred or negative project error.  Short transfers are
    allowed.  Errors may follow partial I/O."  [disk b x] is the byte the
    storage holds at offset [x]. *)
Class BlockLaws (B : Type) `{BlockBackend B} := {
  disk : B → Z → Z;
  law_blk_capacity b : is_u64 (blk_capacity b);
  law_blk_bytes b x : is_u8 (disk b x);
  law_blk_read b n off :
    0 < n → 0 ≤ off → off + n ≤ blk_capacity b →
    let '(b', data, ret) := blk_read b n off in
    disk b' = disk b ∧ blk_capacity b' = blk_capacity b ∧ blk_readonly b' = blk_readonly b ∧
    ret ≤ n ∧ Z.of_nat (length data) ≤ n ∧ (ret = n → data = disk_slice (disk b) off n);
  law_blk_write b buf off :
    buf ≠ [] → Forall is_u8 buf → 0 ≤ off → off + Z.of_nat (length buf) ≤ blk_capacity b →
    let '(b', ret) := blk_write b buf off in
    blk_capacity b' = blk_capacity b ∧ blk_readonly b' = blk_readonly b ∧
    (∀ x, ¬ (off ≤ x < off + Z.of_nat (length buf)) → disk b' x = disk b x) ∧
    (ret = Z.of_nat (length buf) → disk_slice (disk b') off (Z.of_nat (length buf)) = buf);
  law_blk_flush flush b :
    blk_flush = Some flush →
    let '(b', _) := flush b in
    disk b' = disk b ∧ blk_capacity b' = blk_capacity b ∧ blk_readonly b' = blk_readonly b;
}.

#[global] Arguments disk_slice : simpl never.

Lemma length_disk_slice d off n : length (disk_slice d off n) = Z.to_nat n.
Proof. unfold disk_slice. by rewrite length_fmap, length_seqZ. Qed.

Lemma disk_slice_app d off n k :
  0 ≤ n → 0 ≤ k → disk_slice d off (n + k) = disk_slice d off n ++ disk_slice d (off + n) k.
Proof. intros. unfold disk_slice. by rewrite seqZ_app, fmap_app by lia. Qed.

Lemma disk_slice_ext d d' off n :
  (∀ x, off ≤ x < off + n → d x = d' x) → disk_slice d off n = disk_slice d' off n.
Proof.
  intros E. apply list_fmap_ext. intros i x Hx. apply lookup_seqZ in Hx as [-> Hx]. apply E. lia.
Qed.
