(* ===== verification/VirtioBlk.v ===== *)
(** * The VirtIO block device (src/hw/virtio/virtio_blk.c) *)

From S2P Require Import Prelude HostMem ResPool Topology Virtqueue Virtio VirtioServe Block.

Module Blk.
Import Vq Virtio Serve.

Definition VIRTIO_ID_BLOCK : Z := 2.
Definition VIRTIO_BLK_QUEUE_SIZE : Z := 128.
Definition SECTOR_SIZE : Z := 512.

Definition VIRTIO_BLK_F_GEOMETRY : Z := 4.
Definition VIRTIO_BLK_F_RO : Z := 5.
Definition VIRTIO_BLK_F_BLK_SIZE : Z := 6.
Definition VIRTIO_BLK_F_FLUSH : Z := 9.

Definition VIRTIO_BLK_T_IN : Z := 0.
Definition VIRTIO_BLK_T_OUT : Z := 1.
Definition VIRTIO_BLK_T_FLUSH : Z := 4.
Definition VIRTIO_BLK_T_GET_ID : Z := 8.

Definition VIRTIO_BLK_S_OK : Z := 0.
Definition VIRTIO_BLK_S_IOERR : Z := 1.
Definition VIRTIO_BLK_S_UNSUPP : Z := 2.

(** ** State *)

Record virtio_blk_geometry : Type := mk_geometry { cylinders : Z; heads : Z; sectors : Z }.

Record virtio_blk_config : Type := mk_config {
  capacity : Z;
  size_max : Z;
  seg_max : Z;
  geometry : virtio_blk_geometry;
  blk_size : Z;
  physical_block_exp : Z;
  alignment_offset : Z;
  min_io_size : Z;
  opt_io_size : Z;
  wce : Z;
  unused : Z;
  num_queues : Z;
}.

(** The packed structure as the guest sees it. *)
Definition config_bytes (c : virtio_blk_config) : list Z :=
  le_put 8 (capacity c) ++ le_put 4 (size_max c) ++ le_put 4 (seg_max c) ++
  le_put 2 (cylinders (geometry c)) ++ le_put 1 (heads (geometry c)) ++
  le_put 1 (sectors (geometry c)) ++ le_put 4 (blk_size c) ++ le_put 1 (physical_block_exp c) ++
  le_put 1 (alignment_offset c) ++ le_put 2 (min_io_size c) ++ le_put 4 (opt_io_size c) ++
  le_put 1 (wce c) ++ le_put 1 (unused c) ++ le_put 2 (num_queues c).

Definition sizeof_config : Z := 36.

Record virtio_blk_outhdr : Type := mk_hdr { hdr_type : Z; hdr_ioprio : Z; hdr_sector : Z }.
Definition sizeof_hdr : Z := 16.

(** The header in the bytes of a request. *)
Definition hdr_of (bs : list Z) : virtio_blk_outhdr :=
  mk_hdr (little_endian_to_Z 8 (take 4 bs)) (little_endian_to_Z 8 (take 4 (drop 4 bs)))
    (little_endian_to_Z 8 (take 8 (drop 8 bs))).

Section Blk.
Context {B : Type} `{BlockBackend B}.

Record virtio_blk_ctx : Type := mk_blk { backend : B; config : virtio_blk_config }.

Definition eta_blk (c : virtio_blk_ctx) : virtio_blk_ctx := mk_blk (backend c) (config c).
#[export] Instance set_backend : Setter backend := ltac:(derive_setter eta_blk).
#[export] Instance set_config : Setter config := ltac:(derive_setter eta_blk).

(** ** Configuration *)

Definition virtio_blk_realize (allocs : nat → bool) (v : virtio_device virtio_blk_ctx) :
    virtio_device virtio_blk_ctx * Z :=
  let ctx := priv v in
  let '(v, ret) := virtio_device_add_queue_locked v VIRTIO_BLK_QUEUE_SIZE (allocs 0%nat) in
  if ret <? 0 then (v, ret)
  else
    let capacity_bytes := blk_capacity (backend ctx) in
    let config' :=
      mk_config (capacity_bytes / SECTOR_SIZE) 65536 (128 - 2)
        (mk_geometry (u16 ((capacity_bytes / SECTOR_SIZE) / (16 * 63))) 16 63) SECTOR_SIZE
        0 0 0 0 0 0 0 in
    (v <| priv := ctx <| config := config' |> |>, 0).

Definition virtio_blk_get_features (v : virtio_device virtio_blk_ctx) : Z :=
  let ctx := priv v in
  let features := Z.lor (Z.shiftl 1 VIRTIO_BLK_F_BLK_SIZE) (Z.shiftl 1 VIRTIO_BLK_F_GEOMETRY) in
  let features := match blk_flush (B := B) with
                  | Some _ => Z.lor features (Z.shiftl 1 VIRTIO_BLK_F_FLUSH)
                  | None => features
                  end in
  if blk_readonly (backend ctx) then Z.lor features (Z.shiftl 1 VIRTIO_BLK_F_RO) else features.

Definition virtio_blk_read_config (v : virtio_device virtio_blk_ctx) (offset size : Z) : Z :=
  let ctx := priv v in
  if (size =? 0) || (8 <? size) || (sizeof_config <? offset) || (sizeof_config - offset <? size)
  then 0
  else little_endian_to_Z 8
         (take (Z.to_nat size) (drop (Z.to_nat offset) (config_bytes (config ctx)))).

(** ** One request *)

(** The variables of the transfer loop. *)
Record xfer_state : Type := mk_xfer { x_be : B; x_mem : hmem; x_done : Z; x_written : Z }.

(** One round; the result says whether the whole transfer was done. *)
Definition xfer_body (chain : virtqueue_chain) (input : bool) (total offset : Z)
    (st : xfer_state) : xfer_state + (B * hmem * Z * bool) :=
  let be := x_be st in
  let m := x_mem st in
  let written := x_written st in
  if negb (x_done st <? total) then inr (be, m, written, true)
  else
    match virtqueue_map chain input (x_done st + (if input then 0 else sizeof_hdr)) with
    | (Some data, chunk) =>
        if chunk =? 0 then inr (be, m, written, false)
        else
          let chunk := if total - x_done st <? chunk then total - x_done st else chunk in
          let '(be, m, n) :=
            if input then
              let '(be, bytes, n) := blk_read be chunk (offset + x_done st) in
              (be, hm_write m data bytes, n)
            else
              let '(be, n) := blk_write be (hm_read m data chunk) (offset + x_done st) in
              (be, m, n) in
          let written := if (0 <? n) && input then u32 (written + n) else written in
          if negb (n =? chunk) then inr (be, m, written, false)
          else inl (mk_xfer be m (x_done st + chunk) written)
    | (None, _) => inr (be, m, written, false)
    end.

Definition DISK_ID : list Z :=
  [77; 79; 68; 86; 77; 45; 68; 73; 83; 75; 0; 0; 0; 0; 0; 0; 0; 0; 0; 0].

(** The body of the while loop up to the label [complete]: the backend, the
    memory, [status] and [written]. *)
Definition virtio_blk_request (be : B) (m : hmem) (chain : virtqueue_chain) : B * hmem * Z * Z :=
  let ioerr := (be, m, VIRTIO_BLK_S_IOERR, 0) in
  let '(bytes, ret) := virtqueue_read chain 0 m sizeof_hdr in
  if negb (ret =? 0) then ioerr
  else
    let hdr := hdr_of bytes in
    let type := hdr_type hdr in
    let input := (type =? VIRTIO_BLK_T_IN) || (type =? VIRTIO_BLK_T_GET_ID) in
    let total := if input then writable chain - 1 else readable chain - sizeof_hdr in
    if (input && negb (readable chain =? sizeof_hdr)) || (negb input && negb (writable chain =? 1))
       || (UINT32_MAX - 1 <? total)
    then ioerr
    else if (type =? VIRTIO_BLK_T_IN) || (type =? VIRTIO_BLK_T_OUT) then
      if (UINT64_MAX / SECTOR_SIZE <? hdr_sector hdr) || negb (total mod SECTOR_SIZE =? 0)
      then ioerr
      else
        let offset := hdr_sector hdr * SECTOR_SIZE in
        let cap := blk_capacity be in
        if (cap <? offset) || (cap - offset <? total) || (negb input && blk_readonly be)
        then ioerr
        else
          match loop (xfer_body chain input total offset) (mk_xfer be m 0 0) with
          | inr (be, m, written, true) => (be, m, VIRTIO_BLK_S_OK, written)
          | inr (be, m, written, false) => (be, m, VIRTIO_BLK_S_IOERR, written)
          | inl st => (x_be st, x_mem st, HANG, x_written st)
          end
    else if type =? VIRTIO_BLK_T_FLUSH then
      if negb (total =? 0) then ioerr
      else
        match blk_flush with
        | None => (be, m, VIRTIO_BLK_S_UNSUPP, 0)
        | Some flush =>
            let '(be, n) := flush be in
            (be, m, if n <? 0 then VIRTIO_BLK_S_IOERR else VIRTIO_BLK_S_OK, 0)
        end
    else if type =? VIRTIO_BLK_T_GET_ID then
      if total <? 20 then ioerr
      else
        let '(m, ret) := virtqueue_write chain 0 m DISK_ID in
        if negb (ret =? 0) then (be, m, VIRTIO_BLK_S_IOERR, 0)
        else (be, m, VIRTIO_BLK_S_OK, 20)
    else (be, m, VIRTIO_BLK_S_UNSUPP, 0).

(** The rest of the body: the request, and its status. *)
Definition virtio_blk_handle (v : virtio_device virtio_blk_ctx) (m : hmem)
    (chain : virtqueue_chain) : virtio_blk_ctx * hmem * option Z :=
  let ctx := priv v in
  if writable chain =? 0 then (ctx, m, None)
  else
    let '(be, m, status, written) := virtio_blk_request (backend ctx) m chain in
    let ctx := ctx <| backend := be |> in
    let '(m, ret) := virtqueue_write chain (writable chain - 1) m [status] in
    if negb (ret =? 0) then (ctx, m, None) else (ctx, m, Some (u32 (written + 1))).

Definition virtio_blk_notify_queue (g : guest) (v : virtio_device virtio_blk_ctx) (m : hmem)
    (queue_idx : Z) : virtio_device virtio_blk_ctx * hmem * list notification :=
  if negb (virtio_device_ready_locked v) || (nr_vqs v <=? queue_idx) then (v, m, [])
  else serve virtio_blk_handle g (Z.to_nat queue_idx) v m.

#[export] Instance virtio_blk_ops : VirtioOps virtio_blk_ctx := {|
  ops_realize := virtio_blk_realize;
  ops_stop := None;
  ops_reset := None;
  ops_get_features := virtio_blk_get_features;
  ops_read_config := Some virtio_blk_read_config;
  ops_write_config := None;
  ops_notify_queue := virtio_blk_notify_queue;
|}.

(** [addr] and the allocation outcomes are those of [virtio_device_alloc]. *)
Definition virtio_blk_create (vm_pool : pool) (ms : Space.mem_space) (be : B)
    (addr : Z) (alloc1 : bool) (alloc2 alloc3 : option Z) :
    pool * option (virtio_device virtio_blk_ctx) * list mem_event :=
  let zeroed := mk_blk be (mk_config 0 0 0 (mk_geometry 0 0 0) 0 0 0 0 0 0 0 0) in
  virtio_device_alloc vm_pool ms VIRTIO_ID_BLOCK zeroed 48 addr alloc1 alloc2 alloc3.

(** ** What a request should do *)

(** The header of a chain, and the length of its payload. *)
Definition chain_hdr (m : hmem) (c : virtqueue_chain) : virtio_blk_outhdr :=
  hdr_of (stream_read (chain_mem c) m (window c false 0 sizeof_hdr)).

Definition payload_in (c : virtqueue_chain) : Z := writable c - 1.
Definition payload_out (c : virtqueue_chain) : Z := readable c - sizeof_hdr.

(** A transfer of [total] bytes from sector [sector] on lies on the disk. *)
Definition on_disk (be : B) (sector total : Z) : bool :=
  (total mod SECTOR_SIZE =? 0) && (sector * SECTOR_SIZE + total <=? blk_capacity be).

(** The requests the device accepts, by type. *)
Definition request_wf (be : B) (m : hmem) (c : virtqueue_chain) : bool :=
  let hdr := chain_hdr m c in
  let type := hdr_type hdr in
  (sizeof_hdr <=? readable c) &&
  if type =? VIRTIO_BLK_T_IN then
    (readable c =? sizeof_hdr) && (payload_in c <=? UINT32_MAX - 1)
    && on_disk be (hdr_sector hdr) (payload_in c)
  else if type =? VIRTIO_BLK_T_GET_ID then
    (readable c =? sizeof_hdr) && (payload_in c <=? UINT32_MAX - 1) && (20 <=? payload_in c)
  else
    (writable c =? 1) && (payload_out c <=? UINT32_MAX - 1) &&
    if type =? VIRTIO_BLK_T_OUT then
      on_disk be (hdr_sector hdr) (payload_out c) && negb (blk_readonly be)
    else if type =? VIRTIO_BLK_T_FLUSH then payload_out c =? 0
    else true.

Context `{!BlockLaws B}.

(** Same storage. *)
Definition same_disk (be be' : B) : Prop :=
  disk be' = disk be ∧ blk_capacity be' = blk_capacity be ∧ blk_readonly be' = blk_readonly be.

(** Storage that differs at most in [off, off + len). *)
Definition disk_outside (be be' : B) (off len : Z) : Prop :=
  blk_capacity be' = blk_capacity be ∧ blk_readonly be' = blk_readonly be ∧
  ∀ x, ¬ (off ≤ x < off + len) → disk be' x = disk be x.

(** A call on behalf of a request on [be] for the [total] bytes from [off] on
    that did not do what it was asked to: a read or write within them that was
    short or failed, or a failed flush. *)
Definition short_read (be : B) (off total : Z) : Prop :=
  ∃ b n o, same_disk be b ∧ 0 < n ∧ off ≤ o ∧ o + n ≤ off + total ∧ (blk_read b n o).2 ≠ n.
Definition short_write (be : B) (off total : Z) : Prop :=
  ∃ b buf o, disk_outside be b off total ∧ buf ≠ [] ∧ off ≤ o ∧ o + Z.of_nat (length buf) ≤ off + total ∧
    (blk_write b buf o).2 ≠ Z.of_nat (length buf).
Definition failed_flush (be : B) : Prop := ∃ flush, blk_flush = Some flush ∧ (flush be).2 < 0.

(** ** Lemmas: the transfer loop *)

Lemma same_disk_trans be1 be2 be3 : same_disk be1 be2 → same_disk be2 be3 → same_disk be1 be3.
Proof. intros (? & ? & ?) (? & ? & ?). split_and!; congruence. Qed.

(** The writable stream of a chain, which an input request fills. *)
Definition in_stream (c : virtqueue_chain) : list Z := stream (chain_list c) true.

Definition xfer_in_post (be : B) (m : hmem) (c : virtqueue_chain) (total off : Z)
    (r : B * hmem * Z * bool) : Prop :=
  let '(be', m', written, ok) := r in
  same_disk be be' ∧ only_touches (chain_mem c) (in_stream c) m m' ∧ 0 ≤ written ≤ total ∧
  if ok then
    m' = stream_write (chain_mem c) m (window c true 0 total) (disk_slice (disk be) off total) ∧
    written = total
  else short_read be off total.

Lemma xfer_in be m c total off :
  Space.mem_inv (chain_mem c) → chain_ok c → 0 ≤ total ≤ UINT32_MAX - 1 → total ≤ writable c →
  0 ≤ off → off + total ≤ blk_capacity be →
  ∃ r, loop (xfer_body c true total off) (mk_xfer be m 0 0) = inr r ∧ xfer_in_post be m c total off r.
Proof.
  intros I Ok Ht Hw Ho Hc.
  apply (loop_total (xfer_body c true total off)
    (fun st => same_disk be (x_be st) ∧ 0 ≤ x_done st ≤ total ∧ x_written st = x_done st ∧
       x_mem st = stream_write (chain_mem c) m (window c true 0 (x_done st))
                    (disk_slice (disk be) off (x_done st)))
    (fun st => total - x_done st)); [|split_and!; simpl; done || lia|simpl; word].
  intros [b mm dn wr] (Sd & Hd & Hwr & Em). simpl in *. subst wr mm.
  unfold xfer_body. simpl x_done. simpl x_be. simpl x_mem. simpl x_written. cbv zeta.
  destruct (Z.ltb_spec dn total) as [Hlt|Hge]; simpl negb; cbv iota.
  2: { replace dn with total by lia. split; [done|]. split; [apply only_touches_mono with (2 := stream_write_touches _ _ _ _); intros a; apply window_elem|]. split; [lia|done]. }
  rewrite Z.add_0_r. rewrite (chain_writable _ Ok) in Hw.
  destruct (virtqueue_map_window c true dn (total - dn) I Ok) as (h & n & -> & Hn & Hk & C); [lia..|].
  apply Z.eqb_neq in Hn as ->. set (k := if total - dn <? n then total - dn else n) in *. clearbody k.
  destruct Sd as (Sd1 & Sd2 & Sd3).
  assert (Hcap : off + dn + k ≤ blk_capacity b) by (rewrite Sd2; lia).
  pose proof (law_blk_read b k (off + dn) ltac:(lia) ltac:(lia) Hcap) as LR.
  destruct (blk_read b k (off + dn)) as [[b' data] ret] eqn:ER.
  destruct LR as (D1 & D2 & D3 & Hret & Hlen & Hdata). rewrite andb_true_r.
  assert (Sd : same_disk be b') by (split_and!; congruence).
  assert (Lw : length (window c true dn k) = Z.to_nat k) by (apply length_window; lia).
  destruct (Z.eqb_spec ret k) as [->|Hne]; simpl negb; cbv iota.
  - destruct (Z.ltb_spec 0 k); [|lia]. rewrite (Hdata eq_refl), Sd1.
    split; [|simpl; lia]. split; [done|]. simpl.
    split; [lia|]. split; [apply u32_small; word|].
    replace (window c true 0 (dn + k)) with (window c true 0 dn ++ window c true dn k).
    2: { rewrite (window_split c true 0 dn (dn + k)) by lia. do 2 f_equal; lia. }
    rewrite disk_slice_app by lia.
    rewrite stream_write_app by (rewrite length_disk_slice, length_window; lia).
    apply stream_write_chunk; [done|]. by rewrite length_disk_slice.
  - split; [done|]. split.
    { eapply only_touches_trans;
        (eapply only_touches_mono; [intros a; apply window_elem|]);
        [apply stream_write_touches|apply hm_write_touches; [done|lia]]. }
    split; [|exists b, k, (off + dn); rewrite ER; split_and!; done || lia].
    destruct (Z.ltb_spec 0 ret); [|lia]. rewrite u32_small by word. lia.
Qed.

Definition xfer_out_post (be : B) (m : hmem) (c : virtqueue_chain) (total off : Z)
    (r : B * hmem * Z * bool) : Prop :=
  let '(be', m', written, ok) := r in
  m' = m ∧ written = 0 ∧ disk_outside be be' off total ∧
  if ok then
    disk_slice (disk be') off total = stream_read (chain_mem c) m (window c false sizeof_hdr total)
  else short_write be off total.

Lemma xfer_out be m c total off :
  Space.mem_inv (chain_mem c) → chain_ok c → 0 ≤ total ≤ UINT32_MAX - 1 →
  sizeof_hdr + total ≤ readable c → 0 ≤ off → off + total ≤ blk_capacity be →
  ∃ r, loop (xfer_body c false total off) (mk_xfer be m 0 0) = inr r ∧ xfer_out_post be m c total off r.
Proof.
  intros I Ok Ht Hw Ho Hc. unfold sizeof_hdr in *.
  apply (loop_total (xfer_body c false total off)
    (fun st => x_mem st = m ∧ x_written st = 0 ∧ 0 ≤ x_done st ≤ total ∧
       disk_outside be (x_be st) off total ∧
       disk_slice (disk (x_be st)) off (x_done st) =
       stream_read (chain_mem c) m (window c false 16 (x_done st)))
    (fun st => total - x_done st)); [|split_and!; simpl; done || lia|simpl; word].
  intros [b mm dn wr] (Em & Hwr & Hd & (O1 & O2 & O3) & Es). simpl in *. subst wr mm.
  unfold xfer_body, sizeof_hdr. simpl x_done. simpl x_be. simpl x_mem. simpl x_written. cbv zeta.
  destruct (Z.ltb_spec dn total) as [Hlt|Hge]; simpl negb; cbv iota.
  2: { replace dn with total in * by lia. split_and!; done. }
  rewrite (chain_readable _ Ok) in Hw.
  destruct (virtqueue_map_window c false (dn + 16) (total - dn) I Ok) as (h & n & -> & Hn & Hk & C); [lia..|].
  apply Z.eqb_neq in Hn as ->. set (k := if total - dn <? n then total - dn else n) in *. clearbody k.
  assert (Lw : length (window c false (dn + 16) k) = Z.to_nat k) by (apply length_window; lia).
  assert (Er : hm_read m h k = stream_read (chain_mem c) m (window c false (dn + 16) k)).
  { rewrite <- (stream_read_chunk _ _ _ h C), Lw. f_equal. lia. }
  rewrite Er. set (buf := stream_read (chain_mem c) m (window c false (dn + 16) k)).
  assert (Lb : Z.of_nat (length buf) = k) by (unfold buf, stream_read; rewrite length_fmap, Lw; lia).
  assert (Hcap : off + dn + Z.of_nat (length buf) ≤ blk_capacity b) by (rewrite O1; lia).
  pose proof (law_blk_write b buf (off + dn)) as LW.
  destruct (blk_write b buf (off + dn)) as [b' ret] eqn:EW.
  destruct LW as (D1 & D2 & D3 & Hdata); [intros E; rewrite E in Lb; simpl in Lb; lia|apply stream_read_bytes|lia|done|].
  rewrite Lb in *. rewrite andb_false_r.
  assert (O : disk_outside be b' off total).
  { split_and!; [congruence..|]. intros x Hx. rewrite D3 by lia. by apply O3. }
  destruct (Z.eqb_spec ret k) as [->|Hne]; simpl negb; cbv iota.
  - split; [|simpl; lia]. split_and!; simpl; [done|done|lia|lia|done|].
    rewrite disk_slice_app by lia.
    replace (window c false 16 (dn + k)) with (window c false 16 dn ++ window c false (dn + 16) k).
    2: { rewrite (window_split c false 16 dn (dn + k)) by lia. f_equal. f_equal; lia. }
    rewrite stream_read_app, <- Es. f_equal; [|by apply Hdata].
    apply disk_slice_ext. intros x Hx. apply D3. lia.
  - split_and!; [done|done|done|]. exists b, buf, (off + dn). rewrite EW, Lb. split_and!; try done; try lia.
    intros E. rewrite E in Lb. simpl in Lb. lia.
Qed.

(** ** What a well-formed request does *)

Inductive request_effect (be : B) (m : hmem) (c : virtqueue_chain) : B → hmem → Z → Z → Prop :=
| eff_read be' :
    hdr_type (chain_hdr m c) = VIRTIO_BLK_T_IN → same_disk be be' →
    request_effect be m c be'
      (stream_write (chain_mem c) m (window c true 0 (payload_in c))
         (disk_slice (disk be) (hdr_sector (chain_hdr m c) * SECTOR_SIZE) (payload_in c)))
      VIRTIO_BLK_S_OK (payload_in c)
| eff_write be' :
    hdr_type (chain_hdr m c) = VIRTIO_BLK_T_OUT →
    let off := hdr_sector (chain_hdr m c) * SECTOR_SIZE in
    disk_outside be be' off (payload_out c) →
    disk_slice (disk be') off (payload_out c) =
      stream_read (chain_mem c) m (window c false sizeof_hdr (payload_out c)) →
    request_effect be m c be' m VIRTIO_BLK_S_OK 0
| eff_flush be' :
    hdr_type (chain_hdr m c) = VIRTIO_BLK_T_FLUSH → blk_flush (B := B) ≠ None → same_disk be be' →
    request_effect be m c be' m VIRTIO_BLK_S_OK 0
| eff_id :
    hdr_type (chain_hdr m c) = VIRTIO_BLK_T_GET_ID →
    request_effect be m c be (stream_write (chain_mem c) m (window c true 0 20) DISK_ID)
      VIRTIO_BLK_S_OK 20
| eff_unsupp :
    hdr_type (chain_hdr m c) ∉ [VIRTIO_BLK_T_IN; VIRTIO_BLK_T_OUT; VIRTIO_BLK_T_GET_ID] →
    (hdr_type (chain_hdr m c) = VIRTIO_BLK_T_FLUSH → blk_flush (B := B) = None) →
    request_effect be m c be m VIRTIO_BLK_S_UNSUPP 0
| eff_failed be' m' written :
    let off := hdr_sector (chain_hdr m c) * SECTOR_SIZE in
    let type := hdr_type (chain_hdr m c) in
    type = VIRTIO_BLK_T_IN ∧ short_read be off (payload_in c) ∨
    type = VIRTIO_BLK_T_OUT ∧ short_write be off (payload_out c) ∨
    type = VIRTIO_BLK_T_FLUSH ∧ failed_flush be →
    disk_outside be be' off (if type =? VIRTIO_BLK_T_OUT then payload_out c else 0) →
    only_touches (chain_mem c) (in_stream c) m m' → 0 ≤ written ≤ payload_in c →
    request_effect be m c be' m' VIRTIO_BLK_S_IOERR written.

Lemma same_disk_outside be be' off : same_disk be be' → disk_outside be be' off 0.
Proof. intros (E & ? & ?). split_and!; [done..|]. intros x _. by rewrite E. Qed.

Lemma hdr_sector_range m c : 0 ≤ hdr_sector (chain_hdr m c).
Proof.
  unfold chain_hdr, hdr_of. simpl. set (l := take 8 _).
  apply (little_endian_to_Z_bound 8 l); [lia|].
  unfold l, stream_read. rewrite <- fmap_drop, <- fmap_take. apply Forall_fmap, Forall_true.
  intros a. apply hm_get_range.
Qed.

(** The checks of a transfer. *)
Lemma transfer_checks be sector total :
  0 ≤ sector → 0 ≤ total →
  (UINT64_MAX / SECTOR_SIZE <? sector) || negb (total mod SECTOR_SIZE =? 0)
  || ((blk_capacity be <? sector * SECTOR_SIZE) || (blk_capacity be - sector * SECTOR_SIZE <? total)) =
  negb (on_disk be sector total).
Proof.
  intros Hs Ht. unfold on_disk, SECTOR_SIZE. pose proof (law_blk_capacity be) as Hc.
  destruct (Z.eqb_spec (total mod 512) 0); [|by rewrite orb_true_r]. simpl.
  rewrite orb_false_r. change (UINT64_MAX / 512) with 36028797018963967.
  destruct (Z.ltb_spec 36028797018963967 sector), (Z.ltb_spec (blk_capacity be) (sector * 512)),
    (Z.ltb_spec (blk_capacity be - sector * 512) total),
    (Z.leb_spec (sector * 512 + total) (blk_capacity be)); simpl; try done; word.
Qed.

Definition request_outcome (be : B) (m : hmem) (c : virtqueue_chain) (r : B * hmem * Z * Z) : Prop :=
  if request_wf be m c then request_effect be m c r.1.1.1 r.1.1.2 r.1.2 r.2
  else r = (be, m, VIRTIO_BLK_S_IOERR, 0).

Section Request.
Variables (be : B) (m : hmem) (c : virtqueue_chain).
Hypothesis Hmem : Space.mem_inv (chain_mem c).
Hypothesis Hchain : chain_ok c.
Hypothesis Hwritable : 0 < writable c.

Let hdr := chain_hdr m c.

(** A chain too short for a header. *)
Lemma request_short : readable c < sizeof_hdr → request_outcome be m c (virtio_blk_request be m c).
Proof.
  intros Hs. unfold request_outcome, request_wf. cbv zeta.
  destruct (Z.leb_spec sizeof_hdr (readable c)); [lia|]. simpl andb. cbv iota.
  unfold virtio_blk_request, sizeof_hdr in *. rewrite virtqueue_read_exact by (done || word).
  by destruct (decide _); [lia|].
Qed.

Hypothesis Hreadable : sizeof_hdr ≤ readable c.

Lemma request_header : virtqueue_read c 0 m sizeof_hdr =
  (stream_read (chain_mem c) m (window c false 0 sizeof_hdr), 0).
Proof.
  unfold sizeof_hdr in *. rewrite virtqueue_read_exact by (done || word).
  by destruct (decide _); [|lia].
Qed.

(** [start] unfolds a request whose header has been read, for the type [H]. *)
Local Ltac start H :=
  unfold request_outcome, request_wf, virtio_blk_request; rewrite request_header;
  change (0 =? 0) with true; cbn [negb]; cbv iota zeta;
  change (hdr_of (stream_read (chain_mem c) m (window c false 0 sizeof_hdr))) with hdr;
  change (chain_hdr m c) with hdr; rewrite H;
  rewrite (proj2 (Z.leb_le sizeof_hdr (readable c)) Hreadable);
  fold (payload_in c); fold (payload_out c).

Lemma request_in : hdr_type hdr = VIRTIO_BLK_T_IN → request_outcome be m c (virtio_blk_request be m c).
Proof.
  intros T. start T. change (VIRTIO_BLK_T_IN =? VIRTIO_BLK_T_IN) with true. cbn [orb andb negb].
  destruct (readable c =? sizeof_hdr) eqn:Er; cbn [orb andb negb]; [|done].
  rewrite Z.leb_antisym. destruct (Z.ltb_spec (UINT32_MAX - 1) (payload_in c)); cbn [orb andb negb]; [done|].
  pose proof (hdr_sector_range m c) as Hs. fold hdr in Hs.
  assert (Hp : 0 ≤ payload_in c) by (unfold payload_in; lia).
  pose proof (transfer_checks be (hdr_sector hdr) (payload_in c) Hs Hp) as Ck.
  destruct (_ || negb (payload_in c mod _ =? 0)); cbn [orb] in Ck.
  { symmetry in Ck. apply negb_true_iff in Ck as ->. done. }
  rewrite orb_false_r, Ck. destruct (on_disk _ _ _) eqn:Eo; cbn [negb]; cbv iota; [|done].
  apply andb_prop in Eo as [_ Eo%Z.leb_le].
  destruct (xfer_in be m c (payload_in c) (hdr_sector hdr * SECTOR_SIZE)) as (r & -> & P);
    [done|done|lia|unfold payload_in; lia|unfold SECTOR_SIZE; lia|done|].
  destruct r as [[[be' m'] w] []]; simpl; destruct P as (Sd & To & Hw & Pk).
  - destruct Pk as [-> ->]. by apply eff_read.
  - apply eff_failed; fold hdr; rewrite ?T; [by left|by apply same_disk_outside|done|lia].
Qed.

Lemma request_out : hdr_type hdr = VIRTIO_BLK_T_OUT → request_outcome be m c (virtio_blk_request be m c).
Proof.
  intros T. start T. change (VIRTIO_BLK_T_OUT =? VIRTIO_BLK_T_IN) with false.
  change (VIRTIO_BLK_T_OUT =? VIRTIO_BLK_T_GET_ID) with false.
  change (VIRTIO_BLK_T_OUT =? VIRTIO_BLK_T_OUT) with true. cbn [orb andb negb].
  destruct (Z.eqb_spec (writable c) 1) as [Ew|]; cbn [orb andb negb]; [|done].
  rewrite Z.leb_antisym. destruct (Z.ltb_spec (UINT32_MAX - 1) (payload_out c)); cbn [orb andb negb]; [done|].
  pose proof (hdr_sector_range m c) as Hs. fold hdr in Hs.
  assert (Hp : 0 ≤ payload_out c) by (unfold payload_out; lia).
  pose proof (transfer_checks be (hdr_sector hdr) (payload_out c) Hs Hp) as Ck.
  destruct (_ || negb (payload_out c mod _ =? 0)); cbn [orb] in Ck.
  { symmetry in Ck. apply negb_true_iff in Ck as ->. done. }
  rewrite Ck. destruct (on_disk _ _ _) eqn:Eo; cbn [negb]; cbv iota; [|done].
  destruct (blk_readonly be) eqn:Ro; cbn [orb andb negb]; [done|].
  apply andb_prop in Eo as [_ Eo%Z.leb_le].
  destruct (xfer_out be m c (payload_out c) (hdr_sector hdr * SECTOR_SIZE)) as (r & -> & P);
    [done|done|lia|unfold payload_out; lia|unfold SECTOR_SIZE; lia|done|].
  destruct r as [[[be' m'] w] []]; simpl; destruct P as (-> & -> & O & Pk).
  - by apply eff_write.
  - apply eff_failed; fold hdr; rewrite ?T; [by right; left|done|apply only_touches_refl|unfold payload_in; lia].
Qed.

Lemma request_flush :
  hdr_type hdr = VIRTIO_BLK_T_FLUSH → request_outcome be m c (virtio_blk_request be m c).
Proof.
  intros T. start T. change (VIRTIO_BLK_T_FLUSH =? VIRTIO_BLK_T_IN) with false.
  change (VIRTIO_BLK_T_FLUSH =? VIRTIO_BLK_T_GET_ID) with false.
  change (VIRTIO_BLK_T_FLUSH =? VIRTIO_BLK_T_OUT) with false.
  change (VIRTIO_BLK_T_FLUSH =? VIRTIO_BLK_T_FLUSH) with true. cbn [orb andb negb].
  destruct (Z.eqb_spec (writable c) 1) as [Ew|]; cbn [orb andb negb]; [|done].
  rewrite Z.leb_antisym. destruct (Z.ltb_spec (UINT32_MAX - 1) (payload_out c)); cbn [orb andb negb]; [done|].
  destruct (payload_out c =? 0); cbn [negb]; [|done].
  destruct blk_flush as [flush|] eqn:Ef.
  - pose proof (law_blk_flush flush be Ef) as L. destruct (flush be) as [be' n] eqn:E.
    destruct (Z.ltb_spec n 0); cbn [fst snd].
    + apply eff_failed; fold hdr; rewrite ?T; [|by apply same_disk_outside|apply only_touches_refl
        |unfold payload_in; lia].
      right; right. split; [done|]. exists flush. by rewrite E.
    + apply eff_flush; [done|by rewrite Ef|done].
  - cbn [fst snd]. apply eff_unsupp; [|done].
    intros E. rewrite !elem_of_cons, elem_of_nil in E.
    change (chain_hdr m c) with hdr in E. rewrite T in E. by destruct E as [?|[?|[?|[]]]].
Qed.

Lemma request_id :
  hdr_type hdr = VIRTIO_BLK_T_GET_ID → request_outcome be m c (virtio_blk_request be m c).
Proof.
  intros T. start T. change (VIRTIO_BLK_T_GET_ID =? VIRTIO_BLK_T_IN) with false.
  change (VIRTIO_BLK_T_GET_ID =? VIRTIO_BLK_T_GET_ID) with true.
  change (VIRTIO_BLK_T_GET_ID =? VIRTIO_BLK_T_OUT) with false.
  change (VIRTIO_BLK_T_GET_ID =? VIRTIO_BLK_T_FLUSH) with false. cbn [orb andb negb].
  destruct (readable c =? sizeof_hdr); cbn [orb andb negb]; [|done].
  rewrite Z.leb_antisym. destruct (Z.ltb_spec (UINT32_MAX - 1) (payload_in c)); cbn [orb andb negb]; [done|].
  rewrite (Z.leb_antisym (payload_in c) 20).
  destruct (Z.ltb_spec (payload_in c) 20); cbn [orb andb negb]; [done|].
  rewrite virtqueue_write_exact by (done || unfold is_u64, DISK_ID; simpl; lia).
  change (Z.of_nat (length DISK_ID)) with 20. unfold payload_in in *.
  destruct (decide _); [|lia]. cbn [fst snd negb]. by apply eff_id.
Qed.

Lemma request_other :
  hdr_type hdr ∉ [VIRTIO_BLK_T_IN; VIRTIO_BLK_T_OUT; VIRTIO_BLK_T_GET_ID; VIRTIO_BLK_T_FLUSH] →
  request_outcome be m c (virtio_blk_request be m c).
Proof.
  intros T. rewrite !not_elem_of_cons in T. destruct T as (T1 & T2 & T3 & T4 & _).
  pose proof T1 as T1'%Z.eqb_neq. pose proof T2 as T2'%Z.eqb_neq.
  pose proof T3 as T3'%Z.eqb_neq. pose proof T4 as T4'%Z.eqb_neq.
  start T1'. rewrite T2', T3', T4'. cbn [orb andb negb].
  destruct (Z.eqb_spec (writable c) 1) as [Ew|]; cbn [orb andb negb]; [|done].
  rewrite Z.leb_antisym. destruct (Z.ltb_spec (UINT32_MAX - 1) (payload_out c)); cbn [orb andb negb]; [done|].
  cbn [fst snd]. apply eff_unsupp; [|done]. fold hdr. rewrite !not_elem_of_cons. split_and!; try done.
  apply not_elem_of_nil.
Qed.

End Request.

Lemma request_has_outcome be m c :
  Space.mem_inv (chain_mem c) → chain_ok c → 0 < writable c →
  request_outcome be m c (virtio_blk_request be m c).
Proof.
  intros I Ok Hw. destruct (decide (readable c < sizeof_hdr)); [by apply request_short|].
  set (t := hdr_type (chain_hdr m c)).
  destruct (decide (t = VIRTIO_BLK_T_IN)); [apply request_in; done || lia|].
  destruct (decide (t = VIRTIO_BLK_T_OUT)); [apply request_out; done || lia|].
  destruct (decide (t = VIRTIO_BLK_T_GET_ID)); [apply request_id; done || lia|].
  destruct (decide (t = VIRTIO_BLK_T_FLUSH)); [apply request_flush; done || lia|].
  apply request_other; [done|done|lia|]. rewrite !not_elem_of_cons. split_and!; try done.
  apply not_elem_of_nil.
Qed.

(** C3. A block request does to the disk and to the guest's buffers exactly
    what it says.  A chain that is too short, of the wrong shape, not a whole
    number of sectors, outside the disk or a write to a read-only disk is
    refused with IOERR, with disk and memory untouched.  Otherwise a read
    fills the writable stream, in order, with the disk's bytes from the sector
    on and changes nothing on the disk; a write puts the readable stream there
    and changes no other byte of the disk; a flush changes nothing; the
    identifier is copied out; an unknown type is UNSUPP.  A
    request that is not refused fails with IOERR only if a call it made on the
    backend, for bytes of the request, came up short or failed, and then only
    the request's own sectors or buffers can have changed.  The transfer always
    terminates: the status is one of the three, never [HANG]. *)
Theorem virtio_blk_request_spec be m c :
  Space.mem_inv (chain_mem c) → chain_ok c → 0 < writable c →
  request_outcome be m c (virtio_blk_request be m c) ∧ (virtio_blk_request be m c).1.2 ≠ HANG.
Proof.
  intros I Ok Hw. pose proof (request_has_outcome be m c I Ok Hw) as O. split; [done|].
  unfold request_outcome in O. destruct (request_wf be m c); [by destruct O|by rewrite O].
Qed.

(** ** The device model *)

Lemma request_effect_readonly be m c be' m' st w :
  request_effect be m c be' m' st w → blk_readonly be' = blk_readonly be.
Proof. intros []; repeat match goal with X : same_disk _ _ |- _ => destruct X as (_ & _ & ?)
  | X : disk_outside _ _ _ _ |- _ => destruct X as (_ & ? & _) end; done. Qed.

Lemma request_readonly be m c :
  Space.mem_inv (chain_mem c) → chain_ok c → 0 < writable c →
  blk_readonly (virtio_blk_request be m c).1.1.1 = blk_readonly be.
Proof.
  intros I Ok Hw. pose proof (request_has_outcome be m c I Ok Hw) as O. unfold request_outcome in O.
  destruct (request_wf be m c); [by eapply request_effect_readonly|by rewrite O].
Qed.

Lemma virtio_blk_handler_ok : handler_ok virtio_blk_handle.
Proof.
  intros v m c I Ok. unfold virtio_blk_handle. destruct (Z.eqb_spec (writable c) 0); [done|].
  pose proof (request_readonly (backend (priv v)) m c I Ok) as R.
  destruct (virtio_blk_request (backend (priv v)) m c) as [[[be m'] st] w]. simpl in R.
  destruct (virtqueue_write _ _ m' _) as [m'' ret].
  assert (Hw : 0 < writable c) by (rewrite (chain_writable _ Ok) in *; lia).
  assert (E : ∀ d, backend d = be →
    ops_get_features (v <| priv := d |>) = ops_get_features v).
  { intros d Ed. simpl. unfold virtio_blk_get_features. simpl. by rewrite Ed, R. }
  by destruct (negb _); apply E.
Qed.

Lemma blk_features_priv (v v' : virtio_device virtio_blk_ctx) :
  priv v = priv v' → ops_get_features v = ops_get_features v'.
Proof. intros E. simpl. unfold virtio_blk_get_features. by rewrite E. Qed.

#[export] Instance virtio_blk_laws : VirtioLaws virtio_blk_ctx.
Proof.
  split; try done; [exact blk_features_priv|].
  intros g v m q v' Q. unfold v'. simpl. unfold virtio_blk_notify_queue.
    destruct (_ || _).
    { split_and!; try done. split; try done. by left. }
    exact (serve_served virtio_blk_handle g (Z.to_nat q) blk_features_priv v m
             virtio_blk_handler_ok Q).
Qed.

(** C35. A doorbell completes every request.  If the guest makes no further
    chains available while the device works (the available index stays at
    [idx] whatever else it writes), handling the notification terminates;
    either the device asks for a reset, or its status is unchanged, every
    available chain has been taken and exactly as many chains have been
    returned as taken; and if any was returned the queue interrupt was
    raised. *)
Theorem virtio_blk_completes g v m queue q0 idx :
  queues_inv v → virtio_device_ready_locked v = true → 0 ≤ queue →
  vqs v !! Z.to_nat queue = Some q0 →
  (∀ r m, avail_idx (g r 1%nat m) (default 0 (avail_ring q0)) = idx) → is_u16 idx →
  let '(v', _, ns) := virtio_blk_notify_queue g v m queue in
  (∃ r, loop (serve_body virtio_blk_handle g (Z.to_nat queue)) (mk_serve v m false 0) = inr r) ∧
  ∃ q', vqs v' !! Z.to_nat queue = Some q' ∧
    (last_used_idx q' ≠ last_used_idx q0 → NotifyQueue ∈ ns) ∧
    (has (status v') VIRTIO_STATUS_NEEDS_RESET = true ∨
     status v' = status v ∧ balanced q0 q' ∧ (vq_enabled q' = false ∨ last_avail_idx q' = idx)).
Proof.
  intros Q R Hq L Hg Hi. unfold virtio_blk_notify_queue. rewrite R.
  pose proof (lookup_lt_Some _ _ _ L). unfold nr_vqs.
  destruct (Z.leb_spec (Z.of_nat (length (vqs v))) queue); [lia|]. cbn [negb orb].
  exact (serve_completes virtio_blk_handle g (Z.to_nat queue) blk_features_priv v m q0 idx
           virtio_blk_handler_ok Q L Hg Hi).
Qed.

End Blk.

(** ** Examples *)

(** A disk of two sectors in host memory. *)
Definition ram_disk : BlockBackend hmem := {|
  blk_read b n off := (b, hm_read b off n, n);
  blk_write b buf off := (hm_write b off buf, Z.of_nat (length buf));
  blk_flush := None;
  blk_capacity _ := 1024;
  blk_readonly _ := false;
|}.

Lemma disk_slice_read b off n : disk_slice (hm_get b) off n = hm_read b off n.
Proof.
  unfold disk_slice, hm_read. rewrite <- (Z.add_0_r off) at 1. rewrite <- (fmap_add_seqZ off 0).
  rewrite <- list_fmap_compose. done.
Qed.

#[export] Instance ram_disk_laws : @BlockLaws hmem ram_disk.
Proof.
  refine {| disk := hm_get |}; simpl.
  - intros _. unfold is_u64. lia.
  - intros b x. apply hm_get_range.
  - intros b n off Hn Ho Hc. split_and!; [done..|lia| |].
    + rewrite length_hm_read. lia.
    + intros _. by rewrite disk_slice_read.
  - intros b buf off Hb Hu Ho Hc. split_and!; [done..| |].
    + intros x Hx. apply hm_get_write_out. lia.
    + intros _. rewrite disk_slice_read. by apply hm_read_write.
  - done.
Defined.

(** The guest asks for the identifier of the disk. *)
Definition example_request_mem : hmem :=
  hm_write
    (hm_write
       (hm_write ∅ 0x700000 (example_desc 0x1000 16 1 1 ++ example_desc 0x1100 21 2 0))
       0x700100 (le_put 2 0 ++ le_put 2 1 ++ le_put 2 0))
    0x701000 (le_put 4 VIRTIO_BLK_T_GET_ID ++ le_put 4 0 ++ le_put 8 0).

Definition example_request : virtqueue_chain :=
  (virtqueue_pop example_vq (fun _ => example_request_mem)).1.2.

Lemma example_request_ok :
  (virtqueue_pop example_vq (fun _ => example_request_mem)).2 = 1 ∧
  writable example_request = 21 ∧
  request_wf (H := ram_disk) ∅ example_request_mem example_request = true.
Proof. vm_compute. auto. Qed.

Lemma virtio_blk_request_witness :
  request_outcome (H := ram_disk) ∅ example_request_mem example_request
    (virtio_blk_request (H := ram_disk) ∅ example_request_mem example_request) ∧
  (virtio_blk_request (H := ram_disk) ∅ example_request_mem example_request).1.2 ≠ HANG.
Proof.
  destruct example_request_ok as (P & W & _).
  apply (virtio_blk_request_spec (H := ram_disk)).
  - exact example_ms_inv.
  - apply (virtqueue_pop_chain example_vq); [exact example_ms_inv|exact example_vq_inv|exact P].
  - rewrite W. lia.
Defined.

Definition example_blk : virtio_device virtio_blk_ctx :=
  mk_vdev VIRTIO_DEVICE_ACTIVE 0 (Some 1) example_ms
    (mk_blk (∅ : hmem) (mk_config 0 0 0 (mk_geometry 0 0 0) 0 0 0 0 0 0 0 0)) VIRTIO_ID_BLOCK
    15 (2 ^ 32) [example_vq].

Lemma virtio_blk_completes_witness :
  let g := fun _ _ _ => example_request_mem in
  let '(v', _, ns) := virtio_blk_notify_queue (H := ram_disk) g example_blk ∅ 0 in
  (∃ r, loop (serve_body (virtio_blk_handle (H := ram_disk)) g (Z.to_nat 0))
          (mk_serve example_blk ∅ false 0) = inr r) ∧
  ∃ q', vqs v' !! Z.to_nat 0 = Some q' ∧
    (last_used_idx q' ≠ last_used_idx example_vq → NotifyQueue ∈ ns) ∧
    (has (status v') VIRTIO_STATUS_NEEDS_RESET = true ∨
     status v' = status example_blk ∧ balanced example_vq q' ∧
     (vq_enabled q' = false ∨ last_avail_idx q' = 1)).
Proof.
  apply (virtio_blk_completes (H := ram_disk) (fun _ _ _ => example_request_mem) example_blk ∅ 0).
  - split; [exact example_ms_inv|]. constructor; [|constructor].
    split; [exact example_vq_inv|]. vm_compute. done.
  - reflexivity.
  - lia.
  - reflexivity.
  - intros r m. vm_compute. reflexivity.
  - unfold is_u16. lia.
Defined.

End Blk.
