(* ===== verification/VirtioNet.v ===== *)
(** * The VirtIO network device (src/hw/virtio/virtio_net.c) *)

From S2P Require Import Prelude HostMem ResPool Topology Virtqueue Virtio VirtioServe.

Module Net.
Import Vq Virtio Serve.

Definition VIRTIO_ID_NET : Z := 1.
Definition VIRTIO_NET_QUEUE_SIZE : Z := 256.
Definition VIRTIO_NET_CTRL_QUEUE_SIZE : Z := 64.
Definition NET_MAX_FRAME_SIZE : Z := 65550.

Definition VIRTIO_NET_F_MAC : Z := 5.
Definition VIRTIO_NET_F_STATUS : Z := 16.
Definition VIRTIO_NET_F_CTRL_VQ : Z := 17.
Definition VIRTIO_NET_F_CTRL_MAC_ADDR : Z := 23.
Definition VIRTIO_NET_S_LINK_UP : Z := 1.
Definition VIRTIO_NET_OK : Z := 0.
Definition VIRTIO_NET_ERR : Z := 1.
Definition VIRTIO_NET_CTRL_MAC : Z := 1.
Definition VIRTIO_NET_CTRL_MAC_ADDR_SET : Z := 1.

(** ** What the device needs of a network backend

    struct net_ops (include/modvm/io/net.h) with the binding functions of
    src/io/net.c.  [net_get_mac] returns the bytes it stored and its result. *)
Class NetBackend (N : Type) := {
  net_write : N → list Z → N * Z;
  net_get_mac : N → list Z * Z;
  net_bind_locked : N → N * Z;
  net_unbind_locked : N → N;
}.

(** ** State *)

Record virtio_net_config : Type := mk_config {
  mac : list Z;
  link_status : Z;
  max_virtqueue_pairs : Z;
  mtu : Z;
  speed : Z;
  duplex : Z;
  rss_max_key_size : Z;
  rss_max_indirection_table_length : Z;
  supported_hash_types : Z;
}.

Definition eta_config (c : virtio_net_config) : virtio_net_config :=
  mk_config (mac c) (link_status c) (max_virtqueue_pairs c) (mtu c) (speed c) (duplex c)
    (rss_max_key_size c) (rss_max_indirection_table_length c) (supported_hash_types c).
#[export] Instance set_mac : Setter mac := ltac:(derive_setter eta_config).
#[export] Instance set_link_status : Setter link_status := ltac:(derive_setter eta_config).

(** The packed structure as the guest sees it. *)
Definition config_bytes (c : virtio_net_config) : list Z :=
  mac c ++ le_put 2 (link_status c) ++ le_put 2 (max_virtqueue_pairs c) ++ le_put 2 (mtu c) ++
  le_put 4 (speed c) ++ le_put 1 (duplex c) ++ le_put 1 (rss_max_key_size c) ++
  le_put 2 (rss_max_indirection_table_length c) ++ le_put 4 (supported_hash_types c).
Definition sizeof_config : Z := 24.

(** After [memset]. *)
Definition zero_config : virtio_net_config := mk_config (replicate 6 0) 0 0 0 0 0 0 0 0.

(** struct virtio_net_hdr_v1 with only [num_buffers] set, to one. *)
Definition rx_header : list Z :=
  le_put 1 0 ++ le_put 1 0 ++ le_put 2 0 ++ le_put 2 0 ++ le_put 2 0 ++ le_put 2 0 ++ le_put 2 1.
Definition sizeof_net_hdr : Z := 12.

(** struct virtio_net_ctrl_hdr: [class] and [cmd], one byte each. *)
Definition sizeof_ctrl : Z := 2.

(** [memcpy] of [data] over the start of an array. *)
Definition overlay (data old : list Z) : list Z := data ++ drop (length data) old.

Section Net.
Context {N : Type} `{NetBackend N}.

Record virtio_net_ctx : Type := mk_net { backend : N; config : virtio_net_config; bound : bool }.

Definition eta_net (c : virtio_net_ctx) : virtio_net_ctx := mk_net (backend c) (config c) (bound c).
#[export] Instance set_backend : Setter backend := ltac:(derive_setter eta_net).
#[export] Instance set_config : Setter config := ltac:(derive_setter eta_net).
#[export] Instance set_bound : Setter bound := ltac:(derive_setter eta_net).

Abbreviation vdev := (virtio_device virtio_net_ctx).

(** ** Life cycle *)

(** The for loop over the queue sizes; [k] counts the allocations. *)
Fixpoint add_queues (allocs : nat → bool) (k : nat) (sizes : list Z) (v : vdev) : vdev * Z :=
  match sizes with
  | [] => (v, 0)
  | size :: sizes =>
      let '(v, ret) := virtio_device_add_queue_locked v size (allocs k) in
      if ret <? 0 then (v, ret) else add_queues allocs (S k) sizes v
  end.

Definition virtio_net_realize (allocs : nat → bool) (v : vdev) : vdev * Z :=
  let '(v, ret) := add_queues allocs 0
    [VIRTIO_NET_QUEUE_SIZE; VIRTIO_NET_QUEUE_SIZE; VIRTIO_NET_CTRL_QUEUE_SIZE] v in
  if ret <? 0 then (v, ret)
  else
    let ctx := priv v <| config := zero_config |> in
    let '(bytes, ret) := net_get_mac (backend ctx) in
    let ctx := ctx <| config := config ctx <| mac := overlay bytes (mac (config ctx)) |> |> in
    if ret <? 0 then (v <| priv := ctx |>, ret)
    else
      let ctx := ctx <| config := config ctx <| link_status := VIRTIO_NET_S_LINK_UP |> |> in
      let '(be, ret) := net_bind_locked (backend ctx) in
      let ctx := ctx <| backend := be |> in
      if ret <? 0 then (v <| priv := ctx |>, ret)
      else (v <| priv := ctx <| bound := true |> |>, 0).

Definition virtio_net_stop (v : vdev) : vdev :=
  let ctx := priv v in
  let ctx := if bound ctx then ctx <| backend := net_unbind_locked (backend ctx) |> else ctx in
  v <| priv := ctx <| bound := false |> |>.

(** ** Configuration *)

Definition virtio_net_get_features (v : vdev) : Z :=
  Z.lor (Z.lor (Z.lor (Z.shiftl 1 VIRTIO_NET_F_MAC) (Z.shiftl 1 VIRTIO_NET_F_STATUS))
           (Z.shiftl 1 VIRTIO_NET_F_CTRL_VQ)) (Z.shiftl 1 VIRTIO_NET_F_CTRL_MAC_ADDR).

Definition virtio_net_read_config (v : vdev) (offset size : Z) : Z :=
  let ctx := priv v in
  if (size =? 0) || (8 <? size) || (sizeof_config <? offset) || (sizeof_config - offset <? size)
  then 0
  else little_endian_to_Z 8
         (take (Z.to_nat size) (drop (Z.to_nat offset) (config_bytes (config ctx)))).

(** ** The control queue *)

(** The condition under which the status becomes OK, with its side effect on
    the MAC address. *)
Definition ctrl_command (v : vdev) (m : hmem) (chain : virtqueue_chain) : virtio_net_ctx * Z :=
  let ctx := priv v in
  if negb (has (driver_features v) (Z.shiftl 1 VIRTIO_NET_F_CTRL_MAC_ADDR))
  then (ctx, VIRTIO_NET_ERR)
  else
    let '(ctrl, ret) := virtqueue_read chain 0 m sizeof_ctrl in
    if negb (ret =? 0) then (ctx, VIRTIO_NET_ERR)
    else if negb (aget ctrl 0 =? VIRTIO_NET_CTRL_MAC)
            || negb (aget ctrl 1 =? VIRTIO_NET_CTRL_MAC_ADDR_SET)
            || negb (readable chain =? sizeof_ctrl + 6)
    then (ctx, VIRTIO_NET_ERR)
    else
      let '(bytes, ret) := virtqueue_read chain sizeof_ctrl m 6 in
      let ctx := ctx <| config := config ctx <| mac := overlay bytes (mac (config ctx)) |> |> in
      (ctx, if ret =? 0 then VIRTIO_NET_OK else VIRTIO_NET_ERR).

(** The body of the while loop of [virtio_net_handle_ctrl]. *)
Definition ctrl_handle (v : vdev) (m : hmem) (chain : virtqueue_chain) :
    virtio_net_ctx * hmem * option Z :=
  if writable chain =? 0 then (priv v, m, None)
  else
    let '(ctx, status) := ctrl_command v m chain in
    let '(m, ret) := virtqueue_write chain (writable chain - 1) m [status] in
    if negb (ret =? 0) then (ctx, m, None) else (ctx, m, Some 1).

Definition virtio_net_handle_ctrl (g : guest) (v : vdev) (m : hmem) (queue : nat) :
    vdev * hmem * list notification := serve ctrl_handle g queue v m.

(** ** Transmission *)

(** The body of the while loop of [virtio_net_notify_queue]. *)
Definition tx_handle (v : vdev) (m : hmem) (chain : virtqueue_chain) :
    virtio_net_ctx * hmem * option Z :=
  let ctx := priv v in
  let length := readable chain - sizeof_net_hdr in
  if (writable chain =? 0) && (sizeof_net_hdr <? readable chain) && (length <=? NET_MAX_FRAME_SIZE)
  then
    let '(frame, ret) := virtqueue_read chain sizeof_net_hdr m length in
    if ret =? 0
    then (ctx <| backend := (net_write (backend ctx) frame).1 |>, m, Some 0)
    else (ctx, m, Some 0)
  else (ctx, m, Some 0).

Definition virtio_net_notify_queue (g : guest) (v : vdev) (m : hmem) (queue_idx : Z) :
    vdev * hmem * list notification :=
  if negb (virtio_device_ready_locked v) || (nr_vqs v <=? queue_idx) || (queue_idx =? 0)
  then (v, m, [])
  else if queue_idx =? 2 then
    if negb (has (driver_features v) (Z.shiftl 1 VIRTIO_NET_F_CTRL_VQ)) then (v, m, [])
    else virtio_net_handle_ctrl g v m (Z.to_nat queue_idx)
  else serve tx_handle g (Z.to_nat queue_idx) v m.

(** ** Reception *)

(** [rd] is the memory as in [virtqueue_pop], [m] the memory afterwards. *)
Definition virtio_net_rx_cb (rd : nat → hmem) (v : vdev) (m : hmem) (buf : list Z) :
    vdev * hmem * list notification :=
  let len := Z.of_nat (length buf) in
  if negb (virtio_device_ready_locked v) then (v, m, [])
  else
    match vqs v !! 0%nat with
    | None => (v, m, [])
    | Some vq =>
        let '(vq, chain, ret) := virtqueue_pop vq rd in
        let v := put_queue 0 v vq in
        if ret <=? 0 then
          if ret <? 0 then let '(v, ns) := virtio_device_fail_locked v in (v, m, ns) else (v, m, [])
        else
          let '(m, written) :=
            if (readable chain =? 0) && (len <=? UINT32_MAX - sizeof_net_hdr)
               && (sizeof_net_hdr + len <=? writable chain) then
              let '(m, ret) := virtqueue_write chain 0 m rx_header in
              if negb (ret =? 0) then (m, 0)
              else
                let '(m, ret) := virtqueue_write chain sizeof_net_hdr m buf in
                if negb (ret =? 0) then (m, 0) else (m, sizeof_net_hdr + len)
            else (m, 0) in
          let '(vq, m) := virtqueue_push vq m (head chain) written in
          (put_queue 0 v vq, m, [NotifyQueue])
    end.

#[export] Instance virtio_net_ops : VirtioOps virtio_net_ctx := {|
  ops_realize := virtio_net_realize;
  ops_stop := Some virtio_net_stop;
  ops_reset := None;
  ops_get_features := virtio_net_get_features;
  ops_read_config := Some virtio_net_read_config;
  ops_write_config := None;
  ops_notify_queue := virtio_net_notify_queue;
|}.

(** [addr] and the allocation outcomes are those of [virtio_device_alloc]. *)
Definition virtio_net_create (vm_pool : pool) (ms : Space.mem_space) (be : N)
    (addr : Z) (alloc1 : bool) (alloc2 alloc3 : option Z) : pool * option vdev * list mem_event :=
  virtio_device_alloc vm_pool ms VIRTIO_ID_NET (mk_net be zero_config false) 48 addr
    alloc1 alloc2 alloc3.

(** ** The device model *)

#[export] Instance virtio_net_laws : VirtioLaws virtio_net_ctx.
Proof.
  split; try done. intros g v m q v' Q. unfold v'. simpl. unfold virtio_net_notify_queue.
  assert (Hid : served v v) by (split_and!; try done; split; try done; by left).
  destruct (_ || _ || _); [exact Hid|]. destruct (q =? 2).
  - destruct (negb _); [exact Hid|].
    exact (serve_served ctrl_handle g (Z.to_nat q) (fun _ _ _ => eq_refl) v m
             (fun _ _ _ _ _ => eq_refl) Q).
  - exact (serve_served tx_handle g (Z.to_nat q) (fun _ _ _ => eq_refl) v m
             (fun _ _ _ _ _ => eq_refl) Q).
Qed.

(** ** Reception *)

(** Whether a frame fits in the buffers of a chain. *)
Definition rx_fits (c : virtqueue_chain) (buf : list Z) : bool :=
  (readable c =? 0) && (sizeof_net_hdr + Z.of_nat (length buf) <=? writable c).

Definition rx_memory (c : virtqueue_chain) (m : hmem) (buf : list Z) : hmem :=
  stream_write (chain_mem c) m (window c true 0 (sizeof_net_hdr + Z.of_nat (length buf)))
    (rx_header ++ buf).

(** Writing the header and then the frame is writing both at once. *)
Lemma rx_writes c m buf :
  Space.mem_inv (chain_mem c) → chain_ok c → is_u32 (Z.of_nat (length buf)) →
  sizeof_net_hdr + Z.of_nat (length buf) ≤ writable c →
  ∃ m1, virtqueue_write c 0 m rx_header = (m1, 0) ∧
    virtqueue_write c sizeof_net_hdr m1 buf = (rx_memory c m buf, 0).
Proof.
  intros I Ok Hb Hw. set (n := Z.of_nat (length buf)) in *. unfold sizeof_net_hdr in *.
  rewrite virtqueue_write_exact by (done || unfold is_u64; simpl; lia).
  change (Z.of_nat (length rx_header)) with 12. destruct (decide _); [|lia].
  eexists. split; [done|]. rewrite virtqueue_write_exact by (done || word).
  fold n. destruct (decide _); [|lia]. do 2 f_equal. unfold rx_memory, sizeof_net_hdr. fold n.
  rewrite (window_split c true 0 12 (12 + n)) by lia. rewrite (chain_writable _ Ok) in *.
  rewrite stream_write_app by (rewrite length_window; [done|lia..]).
  do 2 f_equal; lia.
Qed.

(** C36. A received frame reaches the guest whole or not at all.  When the
    device is ready and the guest has a receive buffer available, the buffer
    is returned and the interrupt raised; if it is write-only and large enough
    its first bytes are the header (one buffer) followed by the frame, and
    the length returned is the header's and the frame's; otherwise no data is
    written and the length returned is zero.  Without a buffer nothing
    happens; a malformed ring makes the device ask for a reset. *)
Theorem virtio_net_rx_delivers rd v m buf q0 :
  queues_inv v → virtio_device_ready_locked v = true → vqs v !! 0%nat = Some q0 →
  Z.of_nat (length buf) ≤ NET_MAX_FRAME_SIZE →
  let '(q1, c, ret) := virtqueue_pop q0 rd in
  let '(v', m', ns) := virtio_net_rx_cb rd v m buf in
  (ret = 1 ∧
     let '(q2, m2) := virtqueue_push q1 (if rx_fits c buf then rx_memory c m buf else m) (head c)
                        (if rx_fits c buf then sizeof_net_hdr + Z.of_nat (length buf) else 0) in
     m' = m2 ∧ vqs v' !! 0%nat = Some q2 ∧ ns = [NotifyQueue] ∧ status v' = status v ∧
     last_used_idx q2 = u16 (last_used_idx q0 + 1)) ∨
  (ret = 0 ∧ v' = v ∧ m' = m ∧ ns = []) ∨
  (ret < 0 ∧ m' = m ∧ has (status v') VIRTIO_STATUS_NEEDS_RESET = true ∧ ns = [NotifyConfig]).
Proof.
  intros Q R L Hb. unfold NET_MAX_FRAME_SIZE in Hb.
  destruct (Forall_lookup_1 _ _ _ _ (proj2 Q) L) as [Iq Em].
  assert (Im : Space.mem_inv (vq_mem q0)) by (rewrite Em; apply Q).
  unfold virtio_net_rx_cb. rewrite R, L. cbn [negb]. cbv iota zeta.
  pose proof (virtqueue_pop_cases q0 rd Im Iq) as P. pose proof (pop_outcome q0 rd Im Iq) as O.
  pose proof (pop_config q0 rd Im Iq) as C.
  destruct (virtqueue_pop q0 rd) as [[q1 c] ret]. cbn [fst snd] in C.
  destruct P as [I1 P]. destruct O as (_ & On & Ou).
  destruct P as [(-> & Ck & Ecm & _)|[[-> ->]|[Hr _]]].
  - cbn [Z.leb Z.compare]. rewrite <- Ecm in Im.
    assert (En : vq_enabled q1 = true).
    { destruct C as (_ & _ & _ & -> & _). destruct (vq_enabled q0); [done|]. by destruct (On eq_refl); left. }
    match goal with |- context [let '(_, _) := (if ?b then ?x else ?y) in _] =>
      assert (E : (if b then x else y) =
        (if rx_fits c buf then (rx_memory c m buf, sizeof_net_hdr + Z.of_nat (length buf))
         else (m, 0))) end.
    { unfold rx_fits. destruct (readable c =? 0); [|done]. cbn [andb].
      destruct (Z.leb_spec (Z.of_nat (length buf)) (UINT32_MAX - sizeof_net_hdr));
        [|unfold UINT32_MAX, sizeof_net_hdr in *; lia]. cbn [andb].
      destruct (Z.leb_spec (sizeof_net_hdr + Z.of_nat (length buf)) (writable c)); [|done].
      destruct (rx_writes c m buf Im Ck ltac:(unfold is_u32; lia) ltac:(lia)) as (m1 & -> & E2).
      cbn [Z.eqb negb]. by rewrite E2. }
    rewrite E. clear E. set (fits := rx_fits c buf). clearbody fits.
    assert (Lp : ∀ q : virtqueue, <[0%nat := q]> (<[0%nat := q1]> (vqs v)) !! 0%nat = Some q).
    { intros q. apply list_lookup_insert_eq. rewrite length_insert. by eapply lookup_lt_Some. }
    destruct fits; cbv iota;
      match goal with |- context [virtqueue_push q1 ?mm ?h ?w] =>
        pose proof (push_used q1 mm h w I1 En) as [U _];
        destruct (virtqueue_push q1 mm h w) as [q2 m2] end;
      cbn [fst] in U; left; split_and!; try done; [apply Lp|by rewrite U, Ou|apply Lp|by rewrite U, Ou].
  - cbn [Z.leb Z.ltb Z.compare]. right. left. split_and!; try done.
    unfold put_queue. destruct v as [? ? ? ? ? ? ? ? qs]. cbn in *. by rewrite list_insert_id.
  - destruct (Z.leb_spec ret 0); [|lia]. destruct (Z.ltb_spec ret 0); [|lia].
    unfold virtio_device_fail_locked. right. right. split_and!; try done; [simpl; by bits|].
    assert (D : has (set_bits (status v) VIRTIO_STATUS_NEEDS_RESET) VIRTIO_STATUS_DRIVER_OK = true).
    { apply andb_prop in R as [_ R%Z.eqb_eq]. bits.
      apply (f_equal (fun z => Z.testbit z 2)) in R. revert R. bits. done. }
    simpl. by rewrite D.
Qed.

(** ** The control queue *)

(** The commands the device accepts. *)
Definition ctrl_wf (v : vdev) (m : hmem) (c : virtqueue_chain) : bool :=
  has (driver_features v) (Z.shiftl 1 VIRTIO_NET_F_CTRL_MAC_ADDR) && (readable c =? 8) &&
  bool_decide (stream_read (chain_mem c) m (window c false 0 sizeof_ctrl) =
               [VIRTIO_NET_CTRL_MAC; VIRTIO_NET_CTRL_MAC_ADDR_SET]).

Lemma ctrl_command_spec v m c :
  Space.mem_inv (chain_mem c) → chain_ok c → length (mac (config (priv v))) = 6%nat →
  ctrl_command v m c =
  if ctrl_wf v m c
  then (priv v <| config := config (priv v)
          <| mac := stream_read (chain_mem c) m (window c false sizeof_ctrl 6) |> |>, VIRTIO_NET_OK)
  else (priv v, VIRTIO_NET_ERR).
Proof.
  intros I Ok L6. unfold ctrl_command, ctrl_wf, sizeof_ctrl in *.
  destruct (has _ _); [|done]. cbn [negb andb].
  rewrite virtqueue_read_exact by (done || word). destruct (decide (0 + 2 ≤ readable c)) as [H2|H2].
  2: { destruct (Z.eqb_spec (readable c) 8); [lia|done]. }
  cbn [Z.eqb negb]. assert (Hl : length (window c false 0 2) = 2%nat).
  { rewrite length_window; rewrite <- ?(chain_readable _ Ok); lia. }
  set (l := stream_read (chain_mem c) m (window c false 0 2)).
  assert (Ll : length l = 2%nat) by (unfold l, stream_read; by rewrite length_fmap).
  destruct l as [|x [|y [|]]] eqn:El; try done. unfold aget. simpl default.
  destruct (bool_decide_reflect ([x; y] = [VIRTIO_NET_CTRL_MAC; VIRTIO_NET_CTRL_MAC_ADDR_SET])) as [E|E].
  - simplify_eq. rewrite !Z.eqb_refl, andb_true_r. cbn [negb orb].
    change (2 + 6) with 8. destruct (Z.eqb_spec (readable c) 8) as [E8|]; [|done].
    cbn [negb]. rewrite virtqueue_read_exact by (done || word).
    destruct (decide _); [|lia]. cbn [Z.eqb]. unfold overlay.
    assert (L' : length (stream_read (chain_mem c) m (window c false 2 6)) = 6%nat).
    { unfold stream_read. rewrite length_fmap, length_window; rewrite <- ?(chain_readable _ Ok); lia. }
    rewrite L', drop_ge by lia. by rewrite app_nil_r.
  - rewrite andb_false_r. destruct (Z.eqb_spec x VIRTIO_NET_CTRL_MAC), (Z.eqb_spec y VIRTIO_NET_CTRL_MAC_ADDR_SET);
      try done. by destruct E; subst.
Qed.

(** The guest sets the MAC address and reads back what it set.  On the
    control queue a command that is exactly "set the address" with six bytes,
    under the negotiated feature, replaces the address and answers OK; any
    other command leaves it alone and answers ERR; and byte for byte the
    configuration space shows the address in force. *)
Theorem virtio_net_mac_roundtrip v m c :
  Space.mem_inv (chain_mem c) → chain_ok c → 0 < writable c →
  length (mac (config (priv v))) = 6%nat → Forall is_u8 (mac (config (priv v))) →
  let '(ctx, m', len) := ctrl_handle v m c in
  len = Some 1 ∧
  m' = stream_write (chain_mem c) m (window c true (writable c - 1) 1)
         [if ctrl_wf v m c then VIRTIO_NET_OK else VIRTIO_NET_ERR] ∧
  mac (config ctx) = (if ctrl_wf v m c
                      then stream_read (chain_mem c) m (window c false sizeof_ctrl 6)
                      else mac (config (priv v))) ∧
  length (mac (config ctx)) = 6%nat ∧
  ∀ i, 0 ≤ i < 6 → virtio_net_read_config (v <| priv := ctx |>) i 1 = aget (mac (config ctx)) i.
Proof.
  intros I Ok Hw L6 B6. unfold ctrl_handle. destruct (Z.eqb_spec (writable c) 0); [lia|].
  rewrite ctrl_command_spec by done.
  assert (Hr : ctrl_wf v m c = true →
    length (stream_read (chain_mem c) m (window c false sizeof_ctrl 6)) = 6%nat).
  { intros [[_ E%Z.eqb_eq]%andb_prop _]%andb_prop. unfold stream_read, sizeof_ctrl.
    rewrite length_fmap, length_window; rewrite <- ?(chain_readable _ Ok); lia. }
  assert (Rd : ∀ ctx i, length (mac (config ctx)) = 6%nat → Forall is_u8 (mac (config ctx)) →
    0 ≤ i < 6 → virtio_net_read_config (v <| priv := ctx |>) i 1 = aget (mac (config ctx)) i).
  { intros ctx i Lm Bm Hi. unfold virtio_net_read_config, sizeof_config, config_bytes. simpl priv.
    destruct (Z.ltb_spec 24 i); [lia|]. destruct (Z.ltb_spec (24 - i) 1); [lia|].
    change ((1 =? 0) || (8 <? 1)) with false. cbn [orb]. unfold aget.
    destruct (lookup_lt_is_Some_2 (mac (config ctx)) (Z.to_nat i)) as [x Hx]; [lia|].
    rewrite drop_app_le by lia. rewrite (drop_S _ _ _ Hx), Hx. simpl.
    pose proof (Forall_lookup_1 _ _ _ _ Bm Hx) as Hu. unfold is_u8 in Hu.
    rewrite Z.lor_0_r. change (Z.ones 8) with (2 ^ 8 - 1). done. }
  destruct (ctrl_wf v m c); rewrite virtqueue_write_exact by (done || unfold is_u64; simpl; lia);
    cbn [length]; change (Z.of_nat 1) with 1; destruct (decide _); [|lia| |lia];
    cbn [Z.eqb negb]; split_and!; try done; try (by apply Hr).
  - intros i Hi. apply Rd; [by apply Hr| |done]. apply stream_read_bytes.
  - intros i Hi. by apply Rd.
Qed.

End Net.

(** ** Examples *)

(** A backend that records the frames it is given. *)
Definition wire : NetBackend (list (list Z)) := {|
  net_write n frame := (n ++ [frame], Z.of_nat (length frame));
  net_get_mac _ := ([2; 0; 0; 0; 0; 1], 0);
  net_bind_locked n := (n, 0);
  net_unbind_locked n := n;
|}.

Definition example_net : virtio_device (virtio_net_ctx (N := list (list Z))) :=
  mk_vdev VIRTIO_DEVICE_ACTIVE 0 (Some 1) example_ms (mk_net [] zero_config true) VIRTIO_ID_NET
    15 (2 ^ 32 + 2 ^ 23 + 2 ^ 17) [example_vq].

Lemma example_net_queues : queues_inv example_net.
Proof.
  split; [exact example_ms_inv|]. constructor; [|constructor].
  split; [exact example_vq_inv|]. vm_compute. done.
Qed.

(** The guest offers one receive buffer of 64 bytes. *)
Definition example_rx_mem : hmem :=
  hm_write (hm_write ∅ 0x700000 (example_desc 0x1100 64 2 0))
    0x700100 (le_put 2 0 ++ le_put 2 1 ++ le_put 2 0).

Lemma virtio_net_rx_witness :
  let '(q1, c, ret) := virtqueue_pop example_vq (fun _ => example_rx_mem) in
  let '(v', m', ns) :=
    virtio_net_rx_cb (fun _ => example_rx_mem) example_net example_rx_mem [1; 2; 3] in
  (ret = 1 ∧
     let '(q2, m2) := virtqueue_push q1
        (if rx_fits c [1; 2; 3] then rx_memory c example_rx_mem [1; 2; 3] else example_rx_mem)
        (head c) (if rx_fits c [1; 2; 3] then sizeof_net_hdr + 3 else 0) in
     m' = m2 ∧ vqs v' !! 0%nat = Some q2 ∧ ns = [NotifyQueue] ∧ status v' = status example_net ∧
     last_used_idx q2 = u16 (last_used_idx example_vq + 1)) ∨
  (ret = 0 ∧ v' = example_net ∧ m' = example_rx_mem ∧ ns = []) ∨
  (ret < 0 ∧ m' = example_rx_mem ∧ has (status v') VIRTIO_STATUS_NEEDS_RESET = true ∧
   ns = [NotifyConfig]).
Proof.
  apply (virtio_net_rx_delivers (fun _ => example_rx_mem) example_net example_rx_mem [1; 2; 3]
           example_vq).
  - exact example_net_queues.
  - reflexivity.
  - reflexivity.
  - unfold NET_MAX_FRAME_SIZE. simpl. lia.
Defined.

(** The guest sets the address 06:05:04:03:02:01. *)
Definition example_ctrl_mem : hmem :=
  hm_write
    (hm_write
       (hm_write ∅ 0x700000 (example_desc 0x1000 8 1 1 ++ example_desc 0x1100 1 2 0))
       0x700100 (le_put 2 0 ++ le_put 2 1 ++ le_put 2 0))
    0x701000 [1; 1; 6; 5; 4; 3; 2; 1].

Definition example_ctrl : virtqueue_chain :=
  (virtqueue_pop example_vq (fun _ => example_ctrl_mem)).1.2.

Lemma example_ctrl_ok :
  (virtqueue_pop example_vq (fun _ => example_ctrl_mem)).2 = 1 ∧ writable example_ctrl = 1 ∧
  ctrl_wf example_net example_ctrl_mem example_ctrl = true.
Proof. vm_compute. auto. Qed.

Lemma virtio_net_mac_witness :
  let '(ctx, m', len) := ctrl_handle example_net example_ctrl_mem example_ctrl in
  let c := example_ctrl in
  let ok := ctrl_wf example_net example_ctrl_mem c in
  len = Some 1 ∧
  m' = stream_write (chain_mem c) example_ctrl_mem (window c true (writable c - 1) 1)
         [if ok then VIRTIO_NET_OK else VIRTIO_NET_ERR] ∧
  mac (config ctx) = (if ok
                      then stream_read (chain_mem c) example_ctrl_mem (window c false sizeof_ctrl 6)
                      else mac (config (priv example_net))) ∧
  length (mac (config ctx)) = 6%nat ∧
  ∀ i, 0 ≤ i < 6 →
    virtio_net_read_config (example_net <| priv := ctx |>) i 1 = aget (mac (config ctx)) i.
Proof.
  destruct example_ctrl_ok as (P & W & _).
  apply (virtio_net_mac_roundtrip example_net example_ctrl_mem example_ctrl).
  - exact example_ms_inv.
  - apply (virtqueue_pop_chain example_vq); [exact example_ms_inv|exact example_vq_inv|exact P].
  - rewrite W. lia.
  - reflexivity.
  - repeat constructor; unfold is_u8; lia.
Defined.

End Net.
