(* ===== verification/VirtioLife.v ===== *)
(** * Ownership of VirtIO devices (src/hw/virtio/virtio.c)

    A VirtIO device is allocated by the code that configures the machine and
    belongs to the machine until a transport adopts it, which moves its clean-up
    to the transport's pool.  Whoever owns it then, it is freed once: by
    [virtio_device_destroy] while nobody has adopted it, or when the pool that
    holds its clean-up is released.  The file runs these operations in any order
    on the machine's pool and those of the transports. *)

From S2P Require Import Prelude ResPool Topology Virtqueue Virtio Block VirtioBlk VirtioNet.

Module Life.
Import Virtio.

(** ** Memory *)

#[export] Instance block_eq_dec : EqDecision block.
Proof. solve_decision. Defined.
#[export] Instance block_countable : Countable block.
Proof.
  refine (inj_countable'
    (fun b => match b with Queue a i => (a, inl i) | Resources a => (a, inr true) | Shell a => (a, inr false) end)
    (fun x => match x with (a, inl i) => Queue a i | (a, inr true) => Resources a | (a, inr false) => Shell a end) _).
  by intros [].
Defined.

(** The blocks held after a sequence of events, starting from [s]; [None] if one
    is given back that is not held, or handed out twice. *)
Fixpoint hold (s : gset block) (t : list mem_event) : option (gset block) :=
  match t with
  | [] => Some s
  | Got b :: t => if decide (b ∈ s) then None else hold ({[b]} ∪ s) t
  | Gave b :: t => if decide (b ∈ s) then hold (s ∖ {[b]}) t else None
  end.

(** The blocks of a device with [n] queues. *)
Definition blocks (a : Z) (n : nat) : list block := (Queue a <$> seq 0 n) ++ [Resources a; Shell a].

(** A device model whose stop hook leaves the device to its owner and keeps its
    queues. *)
Class StopKeeps (D : Type) `{VirtioOps D} := {
  law_stop stop v : ops_stop = Some stop →
    owner (stop v) = owner v ∧ parent_dev (stop v) = parent_dev v ∧ length (vqs (stop v)) = length (vqs v);
}.

Section Life.
Context {D : Type} `{VirtioOps D, !StopKeeps D}.

(** ** The machine *)

(** The pools by their addresses, the devices there are by theirs, what has
    happened to memory, and whether a device that is not there was used. *)
Record part : Type := mk_part { vdevs : gmap Z (virtio_device D); trace : list mem_event; fault : bool }.
Record world : Type := mk_world { pools : gmap Z pool; rest : part }.

(** The address of the machine's own pool. *)
Variable vm : Z.

Definition live (m : gmap Z (virtio_device D)) : gset block :=
  list_to_set (map_to_list m ≫= fun '(a, v) => blocks a (length (vqs v))).

Inductive event : Type :=
| NewPool (id : Z)
| Register (id : Z) (fn : Space.cleanup) (data : Z) (calloc : option Z)
| Alloc (ms : Space.mem_space) (id : Z) (d : D) (size addr : Z) (alloc1 : bool) (alloc2 alloc3 : option Z)
| AddQueue (a size : Z) (calloc : bool)
| Stop (a : Z)
| Use (a : Z) (v : virtio_device D)
| Adopt (a dev id : Z)
| Destroy (a : Z)
| Release (id : Z).

(** A clean-up function on what is not a pool; those of other things do nothing
    to VirtIO devices. *)
Definition call (fn : Space.cleanup) (data : Z) (w : part) : part :=
  match fn with
  | Space.CleanupVirtio =>
      match vdevs w !! data with
      | Some v => mk_part (delete data (vdevs w)) (trace w ++ (virtio_cleanup data v).2) (fault w)
      | None => mk_part (vdevs w) (trace w) true
      end
  | _ => w
  end.

(** When each may happen.  The allocator does not hand out the address of a
    device that is still there; a pool of 2^64 nodes cannot exist; [Use] is what
    the transport and the device model do with it otherwise, which leaves the
    owner and the list of queues. *)
Definition enabled (w : world) (e : event) : Prop :=
  match e with
  | NewPool id => pools w !! id = None
  | Register id fn _ _ => is_Some (pools w !! id) ∧ fn ≠ Space.CleanupVirtio
  | Alloc _ _ _ _ a _ _ _ => vdevs (rest w) !! a = None
  | AddQueue a _ _ | Stop a | Destroy a => is_Some (vdevs (rest w) !! a)
  | Use a v' => ∃ v, vdevs (rest w) !! a = Some v ∧
      owner v' = owner v ∧ parent_dev v' = parent_dev v ∧ length (vqs v') = length (vqs v)
  | Adopt a _ id => is_Some (vdevs (rest w) !! a) ∧ is_Some (pools w !! id) ∧ id ≠ vm
  | Release id => ∃ p, pools w !! id = Some p ∧ Z.of_nat (length (ResPool.resources p)) ≤ 2 ^ 64
  end.

Definition put_dev (w : world) (a : Z) (v : virtio_device D) (t : list mem_event) : world :=
  mk_world (pools w) (mk_part (<[a := v]> (vdevs (rest w))) (trace (rest w) ++ t) (fault (rest w))).

Definition exec (w : world) (e : event) : option world :=
  match e with
  | NewPool id => Some (mk_world (<[id := ResPool.res_pool_init id]> (pools w)) (rest w))
  | Register id fn data calloc =>
      p ← pools w !! id;
      p ← (ResPool.res_add_action (Some p) (Some fn) data calloc).1;
      Some (mk_world (<[id := p]> (pools w)) (rest w))
  | Alloc ms id d size a alloc1 alloc2 alloc3 =>
      p ← pools w !! vm;
      let '(p, r, t) := virtio_device_alloc p ms id d size a alloc1 alloc2 alloc3 in
      let m := match r with Some v => <[a := v]> (vdevs (rest w)) | None => vdevs (rest w) end in
      Some (mk_world (<[vm := p]> (pools w)) (mk_part m (trace (rest w) ++ t) (fault (rest w))))
  | AddQueue a size calloc =>
      v ← vdevs (rest w) !! a;
      let '(v', ret) := virtio_device_add_queue_locked v size calloc in
      Some (put_dev w a v' (if ret =? 0 then [Got (Queue a (length (vqs v)))] else []))
  | Stop a => v ← vdevs (rest w) !! a; Some (put_dev w a (virtio_device_stop_locked v) [])
  | Use a v => Some (put_dev w a v [])
  | Adopt a dev id =>
      v ← vdevs (rest w) !! a;
      p ← pools w !! vm;
      q ← pools w !! id;
      let '(p, q, v, _) := virtio_device_adopt_locked p q dev a v true in
      Some (mk_world (<[id := q]> (<[vm := p]> (pools w))) (rest (put_dev w a v [])))
  | Destroy a =>
      v ← vdevs (rest w) !! a;
      p ← pools w !! vm;
      let '(p, _, gave) := virtio_device_destroy p a v in
      let r := match gave with
               | Some t => mk_part (delete a (vdevs (rest w))) (trace (rest w) ++ t) (fault (rest w))
               | None => rest w
               end in
      Some (mk_world (<[vm := p]> (pools w)) r)
  | Release id =>
      p ← pools w !! id;
      match ResPool.res_release_all (fun f d '(p, r) => (p, call f d r)) (Some p) (rest w) with
      | Some (ResPool.Released p r _) => Some (mk_world (<[id := p]> (pools w)) r)
      | _ => None
      end
  end.

Fixpoint exec_all (w : world) (es : list event) : option world :=
  match es with [] => Some w | e :: es => w ← exec w e; exec_all w es end.

Inductive reach : world → Prop :=
| reach_init : reach (mk_world {[vm := ResPool.res_pool_init vm]} (mk_part ∅ [] false))
| reach_step w e w' : reach w → enabled w e → exec w e = Some w' → reach w'.

(** ** Memory of devices *)

Lemma hold_app s t1 t2 : hold s (t1 ++ t2) = hold s t1 ≫= fun s => hold s t2.
Proof.
  revert s. induction t1 as [|[b|b] t1 IH]; intros s; cbn; [done|..]; case_decide; cbn; try done; apply IH.
Qed.

Lemma hold_gave s bs : NoDup bs → (∀ b, b ∈ bs → b ∈ s) → hold s (Gave <$> bs) = Some (s ∖ list_to_set bs).
Proof.
  revert s. induction bs as [|b bs IH]; intros s Hnd Hin; cbn.
  - by rewrite difference_empty_L.
  - apply NoDup_cons in Hnd as [Hb Hnd]. rewrite decide_True by (apply Hin; by left). rewrite IH; [|done|].
    + by rewrite difference_difference_l_L.
    + intros x Hx. apply elem_of_difference. split; [apply Hin; by right|]. rewrite elem_of_singleton. by intros ->.
Qed.

(** The device a block belongs to. *)
Definition dev_of (b : block) : Z := match b with Queue a _ | Resources a | Shell a => a end.

Lemma elem_of_blocks b a n : b ∈ blocks a n → dev_of b = a.
Proof.
  unfold blocks. rewrite elem_of_app, list_elem_of_fmap. intros [(i & -> & _)|Hb]; [done|].
  apply elem_of_cons in Hb as [->|Hb]; [done|]. by apply list_elem_of_singleton in Hb as ->.
Qed.

Lemma elem_of_blocks_S b a n : b ∈ blocks a (S n) ↔ b = Queue a n ∨ b ∈ blocks a n.
Proof. unfold blocks. rewrite seq_S, fmap_app, !elem_of_app. cbn [fmap list_fmap]. rewrite list_elem_of_singleton. tauto. Qed.

Lemma queue_not_block a n : Queue a n ∉ blocks a n.
Proof.
  unfold blocks. rewrite elem_of_app, list_elem_of_fmap, elem_of_cons, list_elem_of_singleton.
  intros [(i & [= <-] & Hi%elem_of_seq)|[?|?]]; [lia|done|done].
Qed.

Lemma blocks_nodup a n : NoDup (blocks a n).
Proof.
  unfold blocks. apply NoDup_app. split; [|split].
  - apply NoDup_fmap; [by intros ? ? [=]|apply NoDup_seq].
  - intros b (i & -> & _)%list_elem_of_fmap. rewrite elem_of_cons, list_elem_of_singleton. by intros [?|?].
  - apply NoDup_cons. split; [by rewrite list_elem_of_singleton|apply NoDup_singleton].
Qed.

Lemma elem_of_live m b : b ∈ live m ↔ ∃ v, m !! dev_of b = Some v ∧ b ∈ blocks (dev_of b) (length (vqs v)).
Proof.
  unfold live. rewrite elem_of_list_to_set, list_elem_of_bind. split.
  - intros ([a v] & Hb & Hm). apply elem_of_map_to_list in Hm. pose proof (elem_of_blocks _ _ _ Hb) as <-. by exists v.
  - intros (v & Hm & Hb). exists (dev_of b, v). split; [done|]. by apply elem_of_map_to_list.
Qed.

Lemma live_delete m a v : m !! a = Some v → live (delete a m) = live m ∖ list_to_set (blocks a (length (vqs v))).
Proof.
  intros Hm. apply set_eq. intros b. rewrite elem_of_difference, !elem_of_live, elem_of_list_to_set. split.
  - intros (v' & [Hne Hv]%lookup_delete_Some & Hb). split; [by exists v'|]. intros E. by apply Hne; rewrite (elem_of_blocks _ _ _ E).
  - intros [(v' & Hv & Hb) Hn]. destruct (decide (dev_of b = a)) as [<-|Hne]; [congruence|].
    exists v'. by rewrite lookup_delete_ne by done.
Qed.

Lemma live_insert_same m a v v' : m !! a = Some v → length (vqs v') = length (vqs v) → live (<[a := v']> m) = live m.
Proof.
  intros Hm Hl. apply set_eq. intros b. rewrite !elem_of_live. destruct (decide (a = dev_of b)) as [->|Hne].
  - rewrite lookup_insert_eq, Hm. split; intros (x & [= <-] & Hb); eexists; (split; [done|]); congruence.
  - by rewrite lookup_insert_ne by done.
Qed.

Lemma live_insert_new m a v : m !! a = None → live (<[a := v]> m) = live m ∪ list_to_set (blocks a (length (vqs v))).
Proof.
  intros Hm. apply set_eq. intros b. rewrite elem_of_union, !elem_of_live, elem_of_list_to_set.
  destruct (decide (a = dev_of b)) as [->|Hne].
  - rewrite lookup_insert_eq, Hm. split; [intros (x & [= <-] & Hb); by right|].
    intros [(x & [=] & _)|Hb]. by exists v.
  - rewrite lookup_insert_ne by done. split; [by left|]. intros [Hb|Hb]; [done|]. by apply elem_of_blocks in Hb.
Qed.

Lemma live_insert_queue m a v v' :
  m !! a = Some v → length (vqs v') = S (length (vqs v)) →
  live (<[a := v']> m) = {[Queue a (length (vqs v))]} ∪ live m ∧ Queue a (length (vqs v)) ∉ live m.
Proof.
  intros Hm Hl. split.
  - apply set_eq. intros b. rewrite elem_of_union, elem_of_singleton, !elem_of_live.
    destruct (decide (a = dev_of b)) as [->|Hne].
    + rewrite lookup_insert_eq, Hm. split.
      * intros (x & [= <-] & Hb). rewrite Hl, elem_of_blocks_S in Hb. destruct Hb as [Hb|Hb]; [by left|right; by exists v].
      * intros Hb. exists v'. split; [done|]. rewrite Hl, elem_of_blocks_S.
        destruct Hb as [Hb|(x & [= <-] & Hb)]; [by left|by right].
    + rewrite lookup_insert_ne by done. split; [by right|]. intros [->|Hb]; done.
  - rewrite elem_of_live. cbn [dev_of]. rewrite Hm. intros (x & [= <-] & Hb). by apply queue_not_block in Hb.
Qed.

(** ** Invariant *)

(** Pool [id] holds the clean-up of the device at [a]. *)
Definition owns (ps : gmap Z pool) (id a : Z) : Prop :=
  ∃ p, ps !! id = Some p ∧ (Space.CleanupVirtio, a) ∈ ResPool.obligations p.

Definition pools_ok (ps : gmap Z pool) : Prop :=
  ∀ id p, ps !! id = Some p → ResPool.pool_id p = id ∧ ResPool.pool_inv p ∧ ResPool.releasing p = false.

Record inv (w : world) : Prop := {
  i_vm : is_Some (pools w !! vm);
  i_pools : pools_ok (pools w);
  i_owner : ∀ a v, vdevs (rest w) !! a = Some v →
    owns (pools w) (owner v) a ∧ (parent_dev v = None ↔ owner v = vm);
  i_owned : ∀ id a, owns (pools w) id a → ∃ v, vdevs (rest w) !! a = Some v ∧ owner v = id;
  i_fault : fault (rest w) = false;
  i_hold : hold ∅ (trace (rest w)) = Some (live (vdevs (rest w)));
}.

Lemma pools_ok_insert ps id p :
  pools_ok ps → ResPool.pool_id p = id → ResPool.pool_inv p → ResPool.releasing p = false → pools_ok (<[id := p]> ps).
Proof. intros Ho H1 H2 H3 i q [[<- <-]|[_ Hq]]%lookup_insert_Some; [done|by apply Ho]. Qed.

Lemma owns_insert ps i p id a :
  owns (<[i := p]> ps) id a ↔ id = i ∧ (Space.CleanupVirtio, a) ∈ ResPool.obligations p ∨ id ≠ i ∧ owns ps id a.
Proof.
  unfold owns. destruct (decide (id = i)) as [->|Hne].
  - rewrite lookup_insert_eq. split; [intros (q & [= <-] & Hq); by left|]. intros [[_ Hq]|[? _]]; [by exists p|done].
  - rewrite lookup_insert_ne by done. split; [by right|]. by intros [[? _]|[_ ?]].
Qed.

Lemma vm_insert (ps : gmap Z pool) id p : is_Some (ps !! vm) → is_Some (<[id := p]> ps !! vm).
Proof. intros Hv. destruct (decide (id = vm)) as [->|?]; [by rewrite lookup_insert_eq|by rewrite lookup_insert_ne]. Qed.

(** A pool is changed, but not what it owns. *)
Lemma inv_pool w id p :
  inv w → ResPool.pool_id p = id → ResPool.pool_inv p → ResPool.releasing p = false →
  (∀ a, (Space.CleanupVirtio, a) ∈ ResPool.obligations p ↔ owns (pools w) id a) →
  inv (mk_world (<[id := p]> (pools w)) (rest w)).
Proof.
  intros [] H1 H2 H3 Ho. assert (Hs : ∀ i a, owns (<[id := p]> (pools w)) i a ↔ owns (pools w) i a).
  { intros i a. rewrite owns_insert, Ho. destruct (decide (i = id)) as [->|]; tauto. }
  constructor; cbn [pools rest]; try done.
  - by apply vm_insert.
  - by apply pools_ok_insert.
  - intros a v Hv. rewrite Hs. by apply i_owner0.
  - intros i a. rewrite Hs. apply i_owned0.
Qed.

(** A device is changed, but not whose it is. *)
Lemma inv_put w a v v' t :
  inv w → vdevs (rest w) !! a = Some v → owner v' = owner v → parent_dev v' = parent_dev v →
  hold (live (vdevs (rest w))) t = Some (live (<[a := v']> (vdevs (rest w)))) → inv (put_dev w a v' t).
Proof.
  intros [] Hv Ho Hp Ht. constructor; cbn; try done.
  - intros b u [[<- <-]|[_ Hu]]%lookup_insert_Some; [rewrite Ho, Hp|]; by apply i_owner0.
  - intros id b Hb. destruct (i_owned0 id b Hb) as (u & Hu & Eu). destruct (decide (a = b)) as [<-|Hne].
    + exists v'. rewrite lookup_insert_eq. split; [done|]. congruence.
    + exists u. by rewrite lookup_insert_ne.
  - by rewrite hold_app, i_hold0.
Qed.

Lemma inv_put_same w a v v' :
  inv w → vdevs (rest w) !! a = Some v → owner v' = owner v → parent_dev v' = parent_dev v →
  length (vqs v') = length (vqs v) → inv (put_dev w a v' []).
Proof. intros I Hv Ho Hp Hl. eapply inv_put; try done. cbn. by erewrite live_insert_same. Qed.

Lemma stop_keeps v :
  let v' := virtio_device_stop_locked v in
  owner v' = owner v ∧ parent_dev v' = parent_dev v ∧ length (vqs v') = length (vqs v).
Proof.
  unfold virtio_device_stop_locked. destruct (_ && _); [done|]. destruct ops_stop as [stop|] eqn:E; [|done].
  by apply (law_stop stop (v <| vstate := VIRTIO_DEVICE_STOPPED |>)) in E.
Qed.

Lemma cleanup_blocks a v : (virtio_cleanup a v).2 = Gave <$> blocks a (length (vqs v)).
Proof.
  unfold virtio_cleanup, virtqueue_destroy_all, blocks. cbn [snd]. destruct (stop_keeps v) as (_ & _ & ->). by rewrite fmap_app.
Qed.

Lemma cleanup_ok m a v : m !! a = Some v → hold (live m) (virtio_cleanup a v).2 = Some (live (delete a m)).
Proof.
  intros Hm. rewrite cleanup_blocks, hold_gave; [by rewrite (live_delete _ _ _ Hm)|apply blocks_nodup|].
  intros b Hb. apply elem_of_live. exists v. by rewrite (elem_of_blocks _ _ _ Hb).
Qed.

(** ** Steps *)

Lemma life_register w id fn data calloc :
  inv w → is_Some (pools w !! id) → fn ≠ Space.CleanupVirtio →
  ∃ w', exec w (Register id fn data calloc) = Some w' ∧ inv w'.
Proof.
  intros I [p Hp] Hfn. cbn [exec]. rewrite Hp. cbn [mbind option_bind].
  destruct (i_pools _ I id p Hp) as (E1 & E2 & E3).
  pose proof (ResPool.add_action_keeps p (Some fn) data calloc) as K.
  pose proof (ResPool.res_add_action_or_reset_spec p fn data calloc E2 E3) as S.
  unfold ResPool.res_add_action_or_reset in S.
  destruct (ResPool.res_add_action (Some p) (Some fn) data calloc) as [[q|] ret]; [|done]. cbn in K.
  destruct K as [K1 K2]. destruct S as (S1 & S2 & _). cbn. eexists. split; [done|].
  apply inv_pool; try done; [congruence|congruence|]. intros a. transitivity ((Space.CleanupVirtio, a) ∈ ResPool.obligations p).
  - destruct (ret =? 0); [|by rewrite S2]. rewrite S2, elem_of_app, list_elem_of_singleton. split; [|by left].
    intros [?|[= ? _]]; [done|]. congruence.
  - unfold owns. rewrite Hp. split; [intros Ha; by exists p|]. by intros (? & [= <-] & ?).
Qed.

Lemma owns_lookup ps id p a : ps !! id = Some p → owns ps id a ↔ (Space.CleanupVirtio, a) ∈ ResPool.obligations p.
Proof. intros Hp. unfold owns. rewrite Hp. split; [by intros (? & [= <-] & ?)|by exists p]. Qed.

(** A device that nothing owns is not there. *)
Lemma not_owned w id a : inv w → vdevs (rest w) !! a = None → ¬ owns (pools w) id a.
Proof. intros I Ha Ho. destruct (i_owned _ I _ _ Ho) as (v & Hv & _). congruence. Qed.

Lemma live_fresh w b : vdevs (rest w) !! dev_of b = None → b ∉ live (vdevs (rest w)).
Proof. intros Hn. rewrite elem_of_live, Hn. by intros (v & ? & _). Qed.

(** The machine's pool takes a new device. *)
Lemma inv_new w p a v t :
  inv w → vdevs (rest w) !! a = None → pools w !! vm = Some p →
  ∀ p', ResPool.pool_id p' = vm → ResPool.pool_inv p' → ResPool.releasing p' = false →
  ResPool.obligations p' = ResPool.obligations p ++ [(Space.CleanupVirtio, a)] →
  owner v = vm → parent_dev v = None →
  hold (live (vdevs (rest w))) t = Some (live (<[a := v]> (vdevs (rest w)))) →
  inv (mk_world (<[vm := p']> (pools w)) (rest (put_dev w a v t))).
Proof.
  intros I Ha Hp p' P1 P2 P3 P4 Ho Hd Ht. pose proof I as [].
  assert (Hs : ∀ i b, owns (<[vm := p']> (pools w)) i b ↔ owns (pools w) i b ∨ i = vm ∧ b = a).
  { intros i b. rewrite owns_insert, P4, elem_of_app, list_elem_of_singleton, <- (owns_lookup _ _ _ _ Hp).
    destruct (decide (i = vm)) as [->|]; [|tauto]. split; [intros [[_ [?|[= ->]]]|[? _]]; tauto|]. intros [?|[_ ->]]; tauto. }
  constructor; cbn; try done.
  - by rewrite lookup_insert_eq.
  - by apply pools_ok_insert.
  - intros b u [[<- <-]|[_ Hu]]%lookup_insert_Some; rewrite Hs.
    2: { destruct (i_owner0 b u Hu). split; [by left|done]. }
    split; [by right|]. by rewrite Ho, Hd.
  - intros i b. rewrite Hs. intros [Hb|[-> ->]]; [|exists v; by rewrite lookup_insert_eq].
    destruct (i_owned0 i b Hb) as (u & Hu & Eu). exists u. rewrite lookup_insert_ne by congruence. done.
  - by rewrite hold_app, i_hold0.
Qed.

Lemma inv_trace w p t :
  inv w → pools w !! vm = Some p → hold (live (vdevs (rest w))) t = Some (live (vdevs (rest w))) →
  inv (mk_world (<[vm := p]> (pools w)) (mk_part (vdevs (rest w)) (trace (rest w) ++ t) (fault (rest w)))).
Proof.
  intros [] Hp Ht. rewrite insert_id by done. constructor; cbn; try done. by rewrite hold_app, i_hold0.
Qed.

(** Getting the blocks of a new device. *)
Lemma hold_new s a : Shell a ∉ s → Resources a ∉ s → hold s [Got (Shell a); Got (Resources a)] = Some (s ∪ list_to_set (blocks a 0)).
Proof.
  intros H1 H2. cbn. rewrite decide_False by done. rewrite decide_False; [f_equal; set_solver|].
  rewrite elem_of_union, elem_of_singleton. by intros [?|?].
Qed.

Lemma life_alloc w ms id d size a alloc1 alloc2 alloc3 :
  inv w → vdevs (rest w) !! a = None → ∃ w', exec w (Alloc ms id d size a alloc1 alloc2 alloc3) = Some w' ∧ inv w'.
Proof.
  intros I Ha. destruct (i_vm _ I) as [p Hp]. cbn [exec]. rewrite Hp. cbn [mbind option_bind].
  destruct (i_pools _ I vm p Hp) as (E1 & E2 & E3). unfold virtio_device_alloc.
  assert (Fs : Shell a ∉ live (vdevs (rest w))) by (by apply live_fresh).
  assert (Fr : Resources a ∉ live (vdevs (rest w))) by (by apply live_fresh).
  destruct alloc1; cbn [negb]; [|eexists; split; [done|]; by apply inv_trace].
  destruct (ResPool.res_zalloc _ _ _) as [? [?|]].
  2: { eexists. split; [done|]. apply inv_trace; [done|done|]. cbn. rewrite decide_False by done.
       rewrite decide_True by set_solver. f_equal. set_solver. }
  pose proof (ResPool.res_add_action_or_reset_spec p Space.CleanupVirtio a alloc3 E2 E3) as S.
  pose proof (ResPool.add_action_keeps p (Some Space.CleanupVirtio) a alloc3) as K.
  unfold ResPool.res_add_action_or_reset in *.
  destruct (ResPool.res_add_action (Some p) (Some Space.CleanupVirtio) a alloc3) as [[q|] ret]; [|done]. cbn in K.
  destruct K as [K1 K2]. destruct S as (S1 & S2 & S3 & S4). rewrite S4. set (v := mk_vdev _ _ _ _ _ _ _ _ _).
  destruct (ret =? 0).
  - eexists. split; [done|]. rewrite bool_decide_true by (rewrite S2, elem_of_app; right; by left). rewrite app_nil_r.
    eapply (inv_new w p a v); try done; [congruence|congruence|].
    rewrite hold_new, live_insert_new by done. done.
  - subst q. eexists. split; [done|]. rewrite bool_decide_false.
    2: { rewrite <- (owns_lookup _ _ _ _ Hp). by apply not_owned. }
    apply inv_trace; [done|done|]. rewrite hold_app, hold_new by done. cbn [mbind option_bind].
    rewrite cleanup_blocks, hold_gave; [f_equal|apply blocks_nodup|set_solver]. cbn. set_solver.
Qed.

Lemma life_add_queue w a size calloc :
  inv w → is_Some (vdevs (rest w) !! a) → ∃ w', exec w (AddQueue a size calloc) = Some w' ∧ inv w'.
Proof.
  intros I [v Hv]. cbn [exec]. rewrite Hv. cbn [mbind option_bind]. unfold virtio_device_add_queue_locked.
  destruct (_ || _); [eexists; split; [done|]; by eapply inv_put_same|].
  destruct (Vq.virtqueue_create _ _ _) as [vq|]; [|eexists; split; [done|]; by eapply inv_put_same].
  eexists. split; [done|]. set (v' := v <| vqs := vqs v ++ [vq] |>).
  destruct (live_insert_queue (vdevs (rest w)) a v v' Hv) as [L1 L2].
  { unfold v'. cbn. rewrite length_app. cbn. lia. }
  eapply inv_put; try done. cbn [Z.eqb hold]. rewrite decide_False by done. by rewrite L1.
Qed.

(** The clean-up of a device moves from the machine's pool to another. *)
Lemma inv_moved w a v v' id p q p' q' :
  inv w → vdevs (rest w) !! a = Some v → pools w !! vm = Some p → pools w !! id = Some q → id ≠ vm →
  owner v = vm → owner v' = id → parent_dev v' ≠ None → length (vqs v') = length (vqs v) →
  ResPool.pool_id p' = vm → ResPool.releasing p' = false → ResPool.pool_inv p' →
  ResPool.pool_id q' = id → ResPool.releasing q' = false → ResPool.pool_inv q' →
  (Space.CleanupVirtio, a) :: ResPool.obligations p' ≡ₚ ResPool.obligations p → 
  ResPool.obligations q' = ResPool.obligations q ++ [(Space.CleanupVirtio, a)] →
  (Space.CleanupVirtio, a) ∉ ResPool.obligations p' →
  inv (mk_world (<[id := q']> (<[vm := p']> (pools w))) (rest (put_dev w a v' []))).
Proof.
  intros I Hv Hp Hq Hid Ov Ov' Hpar Hl P1 P2 P3 Q1 Q2 Q3 PP PQ Pn. pose proof I as [].
  assert (Hs : ∀ i b, owns (<[id := q']> (<[vm := p']> (pools w))) i b ↔
            b = a ∧ i = id ∨ b ≠ a ∧ owns (pools w) i b).
  { intros i b. rewrite !owns_insert, PQ, elem_of_app, list_elem_of_singleton.
    assert (Ha : ∀ i, owns (pools w) i a → i = vm) by (intros j (u & Hu & <-)%i_owned0; congruence).
    destruct (decide (i = id)) as [->|Hi].
    - rewrite (owns_lookup _ _ _ _ Hq). split; [|naive_solver].
      intros [[_ [Hb|[= ->]]]|[? _]]; [|by left|done]. right. split; [|done]. intros ->.
      apply Hid, Ha. by apply (owns_lookup _ _ _ _ Hq).
    - destruct (decide (i = vm)) as [->|Hi'].
      + rewrite (owns_lookup _ _ _ _ Hp), <- PP, elem_of_cons. naive_solver.
      + split; [|naive_solver]. intros [[? _]|[_ [[? _]|[_ Hb]]]]; try done. right. split; [|done]. intros ->. by apply Hi', Ha. }
  constructor; cbn; try done.
  - by do 2 apply vm_insert.
  - by do 2 (apply pools_ok_insert; try done).
  - intros b u [[<- <-]|[Hne Hu]]%lookup_insert_Some; rewrite Hs.
    + split; [by left|]. split; [done|congruence].
    + destruct (i_owner0 b u Hu). split; [by right|done].
  - intros i b. rewrite Hs. intros [[-> ->]|[Hb Ho]]; [exists v'; by rewrite lookup_insert_eq|].
    rewrite lookup_insert_ne by done. by apply i_owned0.
  - rewrite app_nil_r, i_hold0. by erewrite live_insert_same.
Qed.

Lemma life_adopt w a dev id :
  inv w → is_Some (vdevs (rest w) !! a) → is_Some (pools w !! id) → id ≠ vm →
  ∃ w', exec w (Adopt a dev id) = Some w' ∧ inv w'.
Proof.
  intros I [v Hv] [q Hq] Hid. destruct (i_vm _ I) as [p Hp]. cbn [exec]. rewrite Hv, Hp, Hq. cbn [mbind option_bind].
  destruct (i_pools _ I vm p Hp) as (E1 & E2 & E3). destruct (i_pools _ I id q Hq) as (F1 & F2 & F3).
  assert (Same : inv (mk_world (<[id := q]> (<[vm := p]> (pools w))) (rest (put_dev w a v [])))).
  { rewrite (insert_id (pools w)), insert_id by done. by apply (inv_put_same w a v). }
  unfold virtio_device_adopt_locked. destruct (_ || _ || _ || _) eqn:G; [by eexists|].
  apply orb_false_iff in G as [G G4%negb_false_iff%Z.eqb_eq].
  pose proof (ResPool.res_transfer_action_conserves p q Space.CleanupVirtio a E2 F2) as S.
  destruct (ResPool.res_transfer_action (Some p) (Some q) (Some Space.CleanupVirtio) a) as [[[p'|] [q'|]] ret] eqn:E;
    try (exfalso; apply S; congruence).
  apply ResPool.transfer_keeps in E as (K1 & K2 & K3 & K4). destruct S as (S1 & S2 & S3 & S4); [congruence|].
  destruct (ret =? 0); [|destruct S4 as [-> ->]; by eexists]. destruct S4 as [S4 S5]. eexists. split; [done|].
  assert (P : (Space.CleanupVirtio, a) :: ResPool.obligations p' ≡ₚ ResPool.obligations p).
  { apply (Permutation_app_inv_r (ResPool.obligations q)). rewrite <- S3, S4, app_assoc.
    by rewrite (Permutation_app_comm _ [_]). }
  eapply (inv_moved w a v _ id p q p' q'); try done; cbn; congruence.
Qed.

(** Some devices are gone, and with them what owned them. *)
Lemma inv_gone w id p r (gone : Z → Prop) :
  inv w → is_Some (pools w !! id) →
  ResPool.pool_id p = id → ResPool.pool_inv p → ResPool.releasing p = false →
  (∀ b, (Space.CleanupVirtio, b) ∈ ResPool.obligations p ↔ owns (pools w) id b ∧ ¬ gone b) →
  (∀ b, gone b → owns (pools w) id b) →
  (∀ b v, vdevs r !! b = Some v ↔ vdevs (rest w) !! b = Some v ∧ ¬ gone b) →
  fault r = false → hold ∅ (trace r) = Some (live (vdevs r)) →
  inv (mk_world (<[id := p]> (pools w)) r).
Proof.
  intros I Hid P1 P2 P3 Ho Hg Hm Hf Ht. pose proof I as [].
  assert (Hs : ∀ i b, owns (<[id := p]> (pools w)) i b ↔ owns (pools w) i b ∧ ¬ gone b).
  { intros i b. rewrite owns_insert, Ho. destruct (decide (i = id)) as [->|Hi]; [tauto|].
    split; [|tauto]. intros [[? _]|[_ Hb]]; [done|]. split; [done|]. intros Gb. apply Hi.
    destruct (i_owned0 _ _ Hb) as (v & Hv & <-). destruct (i_owned0 _ _ (Hg b Gb)) as (u & Hu & <-). congruence. }
  constructor; cbn; try done.
  - by apply vm_insert.
  - by apply pools_ok_insert.
  - intros b v [Hv Gb]%Hm. rewrite Hs. destruct (i_owner0 b v Hv). tauto.
  - intros i b. rewrite Hs. intros [Hb Gb]. destruct (i_owned0 i b Hb) as (v & Hv & Ev). exists v. split; [|done]. by apply Hm.
Qed.

Lemma life_destroy w a : inv w → is_Some (vdevs (rest w) !! a) → ∃ w', exec w (Destroy a) = Some w' ∧ inv w'.
Proof.
  intros I [v Hv]. destruct (i_vm _ I) as [p Hp]. cbn [exec]. rewrite Hv, Hp. cbn [mbind option_bind].
  destruct (i_pools _ I vm p Hp) as (E1 & E2 & E3). destruct (i_owner _ I a v Hv) as [Ho Hpar].
  unfold virtio_device_destroy. destruct (parent_dev v).
  { eexists. split; [done|]. rewrite insert_id by done. by destruct w. }
  rewrite (proj1 Hpar eq_refl), (owns_lookup _ _ _ _ Hp) in Ho.
  pose proof (ResPool.res_cancel_action_spec p Space.CleanupVirtio a E2) as S.
  destruct (ResPool.res_cancel_action (Some p) (Some Space.CleanupVirtio) a) as [[p'|] ret]; [|done].
  destruct S as (S1 & S2 & S3 & S4). rewrite bool_decide_true in S4 by done. destruct S4 as [-> S4]. cbn [Z.ltb Z.compare].
  eexists. split; [done|]. pose proof (ResPool.pool_nodup _ E2) as Nd. rewrite S4 in Nd. apply NoDup_cons in Nd as [Nin _].
  apply inv_gone with (gone := fun b => b = a); cbn; try done; [congruence|congruence|..].
  - intros b. rewrite (owns_lookup _ _ _ _ Hp), S4, elem_of_cons. naive_solver.
  - intros b ->. by apply (owns_lookup _ _ _ _ Hp).
  - intros b u. rewrite lookup_delete_Some. naive_solver.
  - apply I.
  - rewrite hold_app, (i_hold _ I). by apply cleanup_ok.
Qed.

Lemma destroy_devices_left w a v w' :
  inv w → vdevs (rest w) !! a = Some v → exec w (Destroy a) = Some w' →
  vdevs (rest w') = match parent_dev v with None => delete a (vdevs (rest w)) | Some _ => vdevs (rest w) end.
Proof.
  intros I Hv. destruct (i_vm _ I) as [p Hp]. cbn [exec]. rewrite Hv, Hp. cbn [mbind option_bind].
  destruct (i_pools _ I vm p Hp) as (_ & E2 & _). destruct (i_owner _ I a v Hv) as [Ho Hpar].
  unfold virtio_device_destroy. destruct (parent_dev v); [by intros [= <-]|].
  rewrite (proj1 Hpar eq_refl), (owns_lookup _ _ _ _ Hp) in Ho.
  pose proof (ResPool.res_cancel_action_spec p Space.CleanupVirtio a E2) as S.
  destruct (ResPool.res_cancel_action (Some p) (Some Space.CleanupVirtio) a) as [[p'|] ret]; [|done].
  destruct S as (_ & _ & _ & S). rewrite bool_decide_true in S by done. destruct S as [-> _]. by intros [= <-].
Qed.

(** Running the clean-ups of a released pool. *)
Lemma calls_ok L : ∀ r,
  NoDup L → (∀ a, (Space.CleanupVirtio, a) ∈ L → is_Some (vdevs r !! a)) →
  fault r = false → hold ∅ (trace r) = Some (live (vdevs r)) →
  let r' := foldl (fun r '(f, d) => call f d r) r L in
  fault r' = false ∧ hold ∅ (trace r') = Some (live (vdevs r')) ∧
  ∀ b v, vdevs r' !! b = Some v ↔ vdevs r !! b = Some v ∧ (Space.CleanupVirtio, b) ∉ L.
Proof.
  induction L as [|[f a] L IH]; intros r Hnd Hin Hf Ht; cbn [foldl].
  { split; [done|]. split; [done|]. intros b v. split; [|tauto]. intros Hb. split; [done|]. apply not_elem_of_nil. }
  apply NoDup_cons in Hnd as [Hn Hnd].
  assert (Hrest : ∀ b, (Space.CleanupVirtio, b) ∈ L → is_Some (vdevs r !! b)) by (intros b Hb; apply Hin; by right).
  destruct (decide (f = Space.CleanupVirtio)) as [->|Hne].
  - destruct (Hin a) as [v Hv]; [by left|]. set (r1 := mk_part (delete a (vdevs r)) (trace r ++ (virtio_cleanup a v).2) (fault r)).
    assert (Ec : call Space.CleanupVirtio a r = r1) by (cbn; by rewrite Hv). rewrite Ec. destruct (IH r1) as (I1 & I2 & I3); cbn; try done.
    + intros b Hb. rewrite lookup_delete_ne; [by apply Hrest|]. by intros ->.
    + rewrite hold_app, Ht. by apply cleanup_ok.
    + split; [done|]. split; [done|]. intros b u. rewrite I3. cbn. rewrite lookup_delete_Some, elem_of_cons. naive_solver.
  - assert (Ec : call f a r = r) by (by destruct f). rewrite Ec. destruct (IH r) as (I1 & I2 & I3); try done.
    split; [done|]. split; [done|]. intros b u. rewrite I3, elem_of_cons. naive_solver.
Qed.

Lemma life_release w id :
  inv w → (∃ p, pools w !! id = Some p ∧ Z.of_nat (length (ResPool.resources p)) ≤ 2 ^ 64) →
  ∃ p' w', exec w (Release id) = Some w' ∧ inv w' ∧
    pools w' = <[id := p']> (pools w) ∧ ResPool.resources p' = [] ∧
    ∀ a v, vdevs (rest w') !! a = Some v ↔ vdevs (rest w) !! a = Some v ∧ owner v ≠ id.
Proof.
  intros I (p & Hp & Hb). destruct (i_pools _ I id p Hp) as (E1 & E2 & E3). cbn [exec]. rewrite Hp. cbn [mbind option_bind].
  rewrite ResPool.release_order by done. eexists _, _. split; [done|].
  destruct (calls_ok (reverse (ResPool.obligations p)) (rest w)) as (C1 & C2 & C3).
  - rewrite reverse_Permutation. apply E2.
  - intros a. rewrite elem_of_reverse, <- (owns_lookup _ _ _ _ Hp). intros Ha. destruct (i_owned _ I _ _ Ha) as (v & Hv & _). by exists v.
  - apply I.
  - apply I.
  - split; [|split; [done|split; [done|]]].
    + apply inv_gone with (gone := fun b => (Space.CleanupVirtio, b) ∈ ResPool.obligations p); try done; [split; cbn; constructor|..].
      * intros b. rewrite (owns_lookup _ _ _ _ Hp). split; [intros []%not_elem_of_nil|tauto].
      * intros b. by rewrite (owns_lookup _ _ _ _ Hp).
      * intros b v. rewrite C3, elem_of_reverse. done.
    + cbn. intros a v. rewrite C3, elem_of_reverse, <- (owns_lookup _ _ _ _ Hp). split; intros [Hv Ho]; (split; [done|]).
      * intros <-. apply Ho. by apply (i_owner _ I a v).
      * intros Ha. destruct (i_owned _ I id a Ha) as (u & Hu & Eu). congruence.
Qed.

(** Releasing pools one after the other. *)
Lemma life_releases ids : ∀ w, inv w → (∀ id, id ∈ ids → enabled w (Release id)) →
  ∃ w', exec_all w (Release <$> ids) = Some w' ∧ inv w' ∧ (∀ i, is_Some (pools w' !! i) ↔ is_Some (pools w !! i)) ∧
    (∀ a v, vdevs (rest w') !! a = Some v ↔ vdevs (rest w) !! a = Some v ∧ owner v ∉ ids).
Proof.
  induction ids as [|id ids IH]; intros w I He.
  { exists w. split; [done|]. split; [done|]. split; [done|]. intros a v. split; [|tauto]. intros Hv. split; [done|].
    apply not_elem_of_nil. }
  destruct (life_release w id I (He id ltac:(by left))) as (p & w1 & E & I1 & Ep & Er & Hd).
  destruct (IH w1 I1) as (w' & E' & I' & P' & H').
  - intros i Hi. cbn [enabled]. rewrite Ep. destruct (decide (i = id)) as [->|Hne].
    + exists p. rewrite lookup_insert_eq, Er. split; [done|]. simpl. lia.
    + rewrite lookup_insert_ne by done. apply He. by right.
  - exists w'. cbn [fmap list_fmap exec_all]. rewrite E. split; [done|]. split; [done|]. split.
    + intros i. rewrite P', Ep. destruct (decide (i = id)) as [->|Hne]; [|by rewrite lookup_insert_ne].
      rewrite lookup_insert_eq. destruct (He id ltac:(by left)) as (q & -> & _). split; by eexists.
    + intros a v. rewrite H', Hd, elem_of_cons. tauto.
Qed.

Lemma life_step w e : inv w → enabled w e → ∃ w', exec w e = Some w' ∧ inv w'.
Proof.
  intros I He. destruct e as [id|id fn data calloc|ms id d size a a1 a2 a3|a size calloc|a|a v|a dev id|a|id]; cbn [enabled] in He.
  - eexists. split; [done|]. apply inv_pool; try done; [split; constructor|]. intros a.
    split; [intros []%not_elem_of_nil|]. intros (p & Hp & _). congruence.
  - destruct He. by apply life_register.
  - by apply life_alloc.
  - by apply life_add_queue.
  - destruct He as [v Hv]. cbn [exec]. rewrite Hv. eexists. split; [done|].
    destruct (stop_keeps v) as (S1 & S2 & S3). by apply (inv_put_same w a v).
  - destruct He as (u & Hu & U1 & U2 & U3). eexists. split; [done|]. by apply (inv_put_same w a u).
  - destruct He as (? & ? & ?). by apply life_adopt.
  - by apply life_destroy.
  - destruct (life_release w id I He) as (_ & w' & ? & ? & _). by exists w'.
Qed.

Lemma inv_reach w : reach w → inv w.
Proof.
  induction 1 as [|w e w' _ IH He Hx].
  - constructor; cbn; try done.
    + by rewrite lookup_singleton_eq.
    + intros id p [<- <-]%lookup_singleton_Some. split; [done|]. split; [split; constructor|done].
    + intros id a (p & [<- <-]%lookup_singleton_Some & []%not_elem_of_nil).
  - destruct (life_step w e IH He) as (w'' & Hx' & I). congruence.
Qed.

(** C15. A VirtIO device is freed once, and by its owner.  However devices are
    allocated, given queues, adopted by transports, destroyed, and pools
    released, whatever fails on the way: every step that may happen goes through;
    no clean-up runs on a device that is not there; no block of memory is given
    back twice or without having been handed out, and the blocks outstanding are
    exactly those of the devices there are; each device is in exactly one
    pool, the machine's until it is adopted, and a device in a pool is there.
    [virtio_device_destroy] refuses a device that has been adopted and frees any
    other.  Releasing pools, one after the other in any order, removes exactly the
    devices they own; releasing all of them leaves no device and no block. *)
Theorem virtio_owned_once w (Hr : reach w) :
  fault (rest w) = false ∧
  hold ∅ (trace (rest w)) = Some (live (vdevs (rest w))) ∧
  (∀ a v, vdevs (rest w) !! a = Some v →
     (∀ id, owns (pools w) id a ↔ id = owner v) ∧ (parent_dev v = None ↔ owner v = vm)) ∧
  (∀ id a, owns (pools w) id a → is_Some (vdevs (rest w) !! a)) ∧
  (∀ e, enabled w e → is_Some (exec w e)) ∧
  (∀ a v w', vdevs (rest w) !! a = Some v → exec w (Destroy a) = Some w' →
     vdevs (rest w') = match parent_dev v with None => delete a (vdevs (rest w)) | Some _ => vdevs (rest w) end) ∧
  (∀ ids, (∀ id, id ∈ ids → enabled w (Release id)) →
     ∃ w', exec_all w (Release <$> ids) = Some w' ∧
       (∀ a v, vdevs (rest w') !! a = Some v ↔ vdevs (rest w) !! a = Some v ∧ owner v ∉ ids) ∧
       (∀ id a, id ∈ ids → ¬ owns (pools w') id a) ∧
       ((∀ id, is_Some (pools w !! id) → id ∈ ids) → vdevs (rest w') = ∅ ∧ hold ∅ (trace (rest w')) = Some ∅)).
Proof.
  pose proof (inv_reach w Hr) as I. split; [apply I|]. split; [apply I|]. split; [|split; [|split; [|split]]].
  - intros a v Hv. destruct (i_owner _ I a v Hv) as [Ho Hp]. split; [|done]. intros id. split; [|by intros ->].
    intros Hi. destruct (i_owned _ I id a Hi) as (u & Hu & <-). congruence.
  - intros id a Ho. destruct (i_owned _ I id a Ho) as (u & Hu & _). by exists u.
  - intros e He. destruct (life_step w e I He) as (w' & -> & _). by eexists.
  - intros a v w' Hv. by apply destroy_devices_left.
  - intros ids He. destruct (life_releases ids w I He) as (w' & E & I' & P' & Hd). exists w'. split; [done|]. split; [done|].
    split; [intros id a Hid Ha; destruct (i_owned _ I' id a Ha) as (v & [_ Hv]%Hd & <-); done|].
    intros Hall. assert (Ev : vdevs (rest w') = ∅); [|split; [done|by rewrite (i_hold _ I'), Ev]].
    apply map_empty. intros a. destruct (vdevs (rest w') !! a) as [v|] eqn:Hv; [|done]. apply Hd in Hv as [Hv Hn].
    destruct Hn. destruct (i_owner _ I a v Hv) as [(p & Hp & _) _]. apply Hall. by exists p.
Qed.
End Life.

(** The two device models. *)
#[export] Instance virtio_blk_stop_keeps {B} `{BlockBackend B} : @StopKeeps Blk.virtio_blk_ctx Blk.virtio_blk_ops.
Proof. split. intros stop v [=]. Qed.

#[export] Instance virtio_net_stop_keeps {N} `{Net.NetBackend N} : @StopKeeps Net.virtio_net_ctx Net.virtio_net_ops.
Proof. split. intros stop v [= <-]. by unfold Net.virtio_net_stop. Qed.

(** ** Example *)

Lemma example_stop_keeps : @StopKeeps unit example_ops.
Proof. split. intros stop v [=]. Qed.

(** A device is allocated, adopted by a transport and given a queue while it is
    initialised; another is allocated and destroyed; destroying the first is
    refused. *)
Definition example_active : virtio_device unit :=
  mk_vdev VIRTIO_DEVICE_INITIALIZING 20 (Some 2) Vq.example_ms tt 2 0 0 [].
Definition example_events : list (event (D := unit)) :=
  [NewPool 20; Alloc Vq.example_ms 2 tt 48 100 true (Some 500) (Some 600); Adopt 100 2 20; Use 100 example_active;
   AddQueue 100 8 true; Alloc Vq.example_ms 1 tt 48 200 true (Some 700) (Some 800); Destroy 200; Destroy 100].

Definition example_start : world (D := unit) := mk_world {[10 := ResPool.res_pool_init 10]} (mk_part ∅ [] false).
Definition example_world (n : nat) : world (D := unit) := 
  default example_start (exec_all (H := example_ops) 10 example_start (take n example_events)).

Lemma example_next n e :
  reach (H := example_ops) 10 (example_world n) → enabled 10 (example_world n) e →
  exec (H := example_ops) 10 (example_world n) e = Some (example_world (S n)) → reach (H := example_ops) 10 (example_world (S n)).
Proof. apply reach_step. Qed.

Lemma example_reach_life : reach (H := example_ops) 10 (example_world 8).
Proof.
  eapply (example_next 7 (Destroy 100)); [|eexists; vm_compute; reflexivity|vm_compute; reflexivity].
  eapply (example_next 6 (Destroy 200)); [|eexists; vm_compute; reflexivity|vm_compute; reflexivity].
  eapply (example_next 5 (Alloc Vq.example_ms 1 tt 48 200 true (Some 700) (Some 800)));
    [|vm_compute; reflexivity|vm_compute; reflexivity].
  eapply (example_next 4 (AddQueue 100 8 true)); [|eexists; vm_compute; reflexivity|vm_compute; reflexivity].
  eapply (example_next 3 (Use 100 example_active)); [|eexists; split; [vm_compute; reflexivity|done]|vm_compute; reflexivity].
  eapply (example_next 2 (Adopt 100 2 20));
    [|split; [|split; [|done]]; eexists; vm_compute; reflexivity|vm_compute; reflexivity].
  eapply (example_next 1 (Alloc Vq.example_ms 2 tt 48 100 true (Some 500) (Some 600)));
    [|vm_compute; reflexivity|vm_compute; reflexivity].
  eapply (example_next 0 (NewPool 20)); [constructor|vm_compute; reflexivity|vm_compute; reflexivity].
Qed.

Lemma virtio_owned_once_witness :
  is_Some (vdevs (rest (example_world 8)) !! 100) ∧
  ∃ w, exec_all (H := example_ops) 10 (example_world 8) [Release 20; Release 10] = Some w ∧
    vdevs (rest w) = ∅ ∧ hold ∅ (trace (rest w)) = Some ∅.
Proof.
  split; [eexists; vm_compute; reflexivity|].
  destruct (virtio_owned_once (StopKeeps0 := example_stop_keeps) 10 (example_world 8) example_reach_life)
    as (_ & _ & _ & _ & _ & _ & L).
  destruct (L [20; 10]) as (w & E & _ & _ & N).
  - intros id [->|[->|[]%not_elem_of_nil]%elem_of_cons]%elem_of_cons; eexists; (split; [vm_compute; reflexivity|done]).
  - exists w. split; [exact E|]. apply N. intros id [p Hp].
    assert (Ed : dom (pools (example_world 8)) = {[10; 20]}) by (vm_compute; reflexivity).
    assert (Hd : id ∈ dom (pools (example_world 8))) by (apply elem_of_dom; by exists p).
    rewrite Ed in Hd. set_solver.
Defined.

End Life.
