(* ===== verification/VirtioMmio.v ===== *)
(** * The memory-mapped VirtIO transport (src/hw/virtio/virtio_mmio.c)

    The register file through which a guest drives a VirtIO device: selecting
    and configuring queues, negotiating features, ringing doorbells and
    acknowledging interrupts. *)

From S2P Require Import Prelude HostMem ResPool Topology Virtqueue Virtio.

Module Mmio.
Import Vq Virtio.

Definition VIRTIO_MMIO_MAGIC : Z := 0x74726976.
Definition VIRTIO_MMIO_VERSION_1 : Z := 2.
Definition VIRTIO_VENDOR_ID : Z := 0x554D4551.

Definition VIRTIO_MMIO_MAGIC_VALUE : Z := 0x000.
Definition VIRTIO_MMIO_VERSION : Z := 0x004.
Definition VIRTIO_MMIO_DEVICE_ID : Z := 0x008.
Definition VIRTIO_MMIO_VENDOR_ID : Z := 0x00c.
Definition VIRTIO_MMIO_DEVICE_FEATURES : Z := 0x010.
Definition VIRTIO_MMIO_DEVICE_FEATURES_SEL : Z := 0x014.
Definition VIRTIO_MMIO_DRIVER_FEATURES : Z := 0x020.
Definition VIRTIO_MMIO_DRIVER_FEATURES_SEL : Z := 0x024.
Definition VIRTIO_MMIO_QUEUE_SEL : Z := 0x030.
Definition VIRTIO_MMIO_QUEUE_NUM_MAX : Z := 0x034.
Definition VIRTIO_MMIO_QUEUE_NUM : Z := 0x038.
Definition VIRTIO_MMIO_QUEUE_READY : Z := 0x044.
Definition VIRTIO_MMIO_QUEUE_NOTIFY : Z := 0x050.
Definition VIRTIO_MMIO_INTERRUPT_STATUS : Z := 0x060.
Definition VIRTIO_MMIO_INTERRUPT_ACK : Z := 0x064.
Definition VIRTIO_MMIO_STATUS : Z := 0x070.
Definition VIRTIO_MMIO_QUEUE_DESC_LOW : Z := 0x080.
Definition VIRTIO_MMIO_QUEUE_DESC_HIGH : Z := 0x084.
Definition VIRTIO_MMIO_QUEUE_AVAIL_LOW : Z := 0x090.
Definition VIRTIO_MMIO_QUEUE_AVAIL_HIGH : Z := 0x094.
Definition VIRTIO_MMIO_QUEUE_USED_LOW : Z := 0x0a0.
Definition VIRTIO_MMIO_QUEUE_USED_HIGH : Z := 0x0a4.
Definition VIRTIO_MMIO_CONFIG : Z := 0x100.
Definition VIRTIO_MMIO_INT_VRING : Z := 1.

Section Ctx.
Context {D : Type}.

(** struct virtio_mmio_ctx.  [vdev] is the device behind the pointer; [line] is
    the level last given to [irq_set_level] on [irq]. *)
Record virtio_mmio_ctx : Type := mk_mmio {
  vdev : virtio_device D;
  line : Z;
  device_features_sel : Z;
  driver_features_sel : Z;
  queue_sel : Z;
  interrupt_status : Z;
  queue_desc_lo : list Z;
  queue_desc_hi : list Z;
  queue_avail_lo : list Z;
  queue_avail_hi : list Z;
  queue_used_lo : list Z;
  queue_used_hi : list Z;
  queue_num : list Z;
  queue_ready : list bool;
}.

Definition eta_mmio (c : virtio_mmio_ctx) : virtio_mmio_ctx :=
  mk_mmio (vdev c) (line c) (device_features_sel c) (driver_features_sel c) (queue_sel c)
    (interrupt_status c) (queue_desc_lo c) (queue_desc_hi c) (queue_avail_lo c) (queue_avail_hi c)
    (queue_used_lo c) (queue_used_hi c) (queue_num c) (queue_ready c).
#[export] Instance set_vdev : Setter vdev := ltac:(derive_setter eta_mmio).
#[export] Instance set_line : Setter line := ltac:(derive_setter eta_mmio).
#[export] Instance set_device_features_sel : Setter device_features_sel := ltac:(derive_setter eta_mmio).
#[export] Instance set_driver_features_sel : Setter driver_features_sel := ltac:(derive_setter eta_mmio).
#[export] Instance set_queue_sel : Setter queue_sel := ltac:(derive_setter eta_mmio).
#[export] Instance set_interrupt_status : Setter interrupt_status := ltac:(derive_setter eta_mmio).
#[export] Instance set_queue_desc_lo : Setter queue_desc_lo := ltac:(derive_setter eta_mmio).
#[export] Instance set_queue_desc_hi : Setter queue_desc_hi := ltac:(derive_setter eta_mmio).
#[export] Instance set_queue_avail_lo : Setter queue_avail_lo := ltac:(derive_setter eta_mmio).
#[export] Instance set_queue_avail_hi : Setter queue_avail_hi := ltac:(derive_setter eta_mmio).
#[export] Instance set_queue_used_lo : Setter queue_used_lo := ltac:(derive_setter eta_mmio).
#[export] Instance set_queue_used_hi : Setter queue_used_hi := ltac:(derive_setter eta_mmio).
#[export] Instance set_queue_num : Setter queue_num := ltac:(derive_setter eta_mmio).
#[export] Instance set_queue_ready : Setter queue_ready := ltac:(derive_setter eta_mmio).

(** The context after [memset], with the device and the line put back. *)
Definition blank (v : virtio_device D) (level : Z) : virtio_mmio_ctx :=
  let zeros := replicate 8 0 in
  mk_mmio v level 0 0 0 0 zeros zeros zeros zeros zeros zeros zeros (replicate 8 false).

(** [ctx->queue_ready[i]]. *)
Definition ready_at (c : virtio_mmio_ctx) (i : Z) : bool :=
  default false (queue_ready c !! Z.to_nat i).
End Ctx.
Arguments virtio_mmio_ctx : clear implicits.

Section Mmio.
Context {D : Type} `{VirtioOps D}.

(** ** Interrupts *)

Definition virtio_mmio_transport_notify_queue (c : virtio_mmio_ctx D) : virtio_mmio_ctx D :=
  c <| interrupt_status := set_bits (interrupt_status c) VIRTIO_MMIO_INT_VRING |> <| line := 1 |>.

Definition virtio_mmio_failed (c : virtio_mmio_ctx D) : virtio_mmio_ctx D :=
  c <| interrupt_status := set_bits (interrupt_status c) 2 |> <| line := 1 |>.

Definition deliver (c : virtio_mmio_ctx D) (n : notification) : virtio_mmio_ctx D :=
  match n with
  | NotifyQueue => virtio_mmio_transport_notify_queue c
  | NotifyConfig => virtio_mmio_failed c
  end.

(** ** Registers *)

Definition virtio_mmio_read (c : virtio_mmio_ctx D) (offset size : Z) : Z :=
  let v := vdev c in
  if VIRTIO_MMIO_CONFIG <=? offset then
    match ops_read_config with
    | Some read_config => read_config v (offset - VIRTIO_MMIO_CONFIG) size
    | None => 0
    end
  else if negb (size =? 4) || negb (offset mod 4 =? 0) then 0
  else if offset =? VIRTIO_MMIO_MAGIC_VALUE then VIRTIO_MMIO_MAGIC
  else if offset =? VIRTIO_MMIO_VERSION then VIRTIO_MMIO_VERSION_1
  else if offset =? VIRTIO_MMIO_DEVICE_ID then device_id v
  else if offset =? VIRTIO_MMIO_VENDOR_ID then VIRTIO_VENDOR_ID
  else if offset =? VIRTIO_MMIO_DEVICE_FEATURES then
    let features := Z.lor (ops_get_features v) VIRTIO_F_VERSION_1 in
    if device_features_sel c =? 0 then u32 (Z.land features 0xFFFFFFFF)
    else if device_features_sel c =? 1 then u32 (Z.land (Z.shiftr features 32) 0xFFFFFFFF)
    else 0
  else if offset =? VIRTIO_MMIO_QUEUE_NUM_MAX then
    match vqs v !! Z.to_nat (queue_sel c) with
    | Some vq => virtqueue_get_max_size vq
    | None => 0
    end
  else if offset =? VIRTIO_MMIO_QUEUE_READY then
    if queue_sel c <? nr_vqs v then if ready_at c (queue_sel c) then 1 else 0 else 0
  else if offset =? VIRTIO_MMIO_INTERRUPT_STATUS then interrupt_status c
  else if offset =? VIRTIO_MMIO_STATUS then status v
  else 0.

(** [vdev->vqs[q] = vq], in place. *)
Definition put_vq (c : virtio_mmio_ctx D) (q : Z) (vq : virtqueue) : virtio_mmio_ctx D :=
  c <| vdev := vdev c <| vqs := <[Z.to_nat q := vq]> (vqs (vdev c)) |> |>.

(** [((uint64_t)hi[q] << 32) | lo[q]]. *)
Definition assemble (hi lo : list Z) (q : Z) : Z := Z.lor (u64 (Z.shiftl (aget hi q) 32)) (aget lo q).

(** Enabling a queue with the addresses and the size in the registers. *)
Definition enable_queue (c : virtio_mmio_ctx D) (q_sel : Z) (vq : virtqueue) : virtio_mmio_ctx D :=
  let desc_gpa := assemble (queue_desc_hi c) (queue_desc_lo c) q_sel in
  let avail_gpa := assemble (queue_avail_hi c) (queue_avail_lo c) q_sel in
  let used_gpa := assemble (queue_used_hi c) (queue_used_lo c) q_sel in
  if UINT16_MAX <? aget (queue_num c) q_sel then c
  else
    let '(vq, ret) := virtqueue_set_size vq (aget (queue_num c) q_sel) in
    let c := put_vq c q_sel vq in
    if negb (ret =? 0) then c
    else
      let '(vq, ret) := virtqueue_set_addrs vq desc_gpa avail_gpa used_gpa in
      let c := put_vq c q_sel vq in
      if ret =? 0 then c <| queue_ready := <[Z.to_nat q_sel := true]> (queue_ready c) |> else c.

(** The case QUEUE_READY. *)
Definition write_queue_ready (c : virtio_mmio_ctx D) (q_sel val : Z) : virtio_mmio_ctx D :=
  match vqs (vdev c) !! Z.to_nat q_sel with
  | None => c
  | Some vq =>
      let '(vq, c) :=
        if val =? 0 then
          let vq := virtqueue_disable vq in
          (vq, put_vq c q_sel vq <| queue_ready := <[Z.to_nat q_sel := false]> (queue_ready c) |>)
        else (vq, c) in
      if negb (ready_at c q_sel) && (val =? 1) then enable_queue c q_sel vq else c
  end.

(** [g] is what the guest does while a notification is handled, [m] the host
    memory before and after. *)
Definition virtio_mmio_write (g : guest) (c : virtio_mmio_ctx D) (m : hmem)
    (offset val size : Z) : virtio_mmio_ctx D * hmem :=
  let v := vdev c in
  let q_sel := queue_sel c in
  let open := (q_sel <? nr_vqs v) && negb (ready_at c q_sel) in
  if VIRTIO_MMIO_CONFIG <=? offset then
    match ops_write_config with
    | Some write_config =>
        (c <| vdev := write_config v (offset - VIRTIO_MMIO_CONFIG) (u32 val) size |>, m)
    | None => (c, m)
    end
  else if negb (size =? 4) || negb (offset mod 4 =? 0) then (c, m)
  else if offset =? VIRTIO_MMIO_DEVICE_FEATURES_SEL then
    (c <| device_features_sel := u32 val |>, m)
  else if offset =? VIRTIO_MMIO_DRIVER_FEATURES_SEL then
    (c <| driver_features_sel := u32 val |>, m)
  else if offset =? VIRTIO_MMIO_DRIVER_FEATURES then
    (c <| vdev := virtio_device_set_features_locked v (driver_features_sel c) (u32 val) |>, m)
  else if offset =? VIRTIO_MMIO_QUEUE_SEL then (c <| queue_sel := u32 val |>, m)
  else if offset =? VIRTIO_MMIO_QUEUE_NUM then
    (if open then c <| queue_num := aset (queue_num c) q_sel (u32 val) |> else c, m)
  else if offset =? VIRTIO_MMIO_QUEUE_DESC_LOW then
    (if open then c <| queue_desc_lo := aset (queue_desc_lo c) q_sel (u32 val) |> else c, m)
  else if offset =? VIRTIO_MMIO_QUEUE_DESC_HIGH then
    (if open then c <| queue_desc_hi := aset (queue_desc_hi c) q_sel (u32 val) |> else c, m)
  else if offset =? VIRTIO_MMIO_QUEUE_AVAIL_LOW then
    (if open then c <| queue_avail_lo := aset (queue_avail_lo c) q_sel (u32 val) |> else c, m)
  else if offset =? VIRTIO_MMIO_QUEUE_AVAIL_HIGH then
    (if open then c <| queue_avail_hi := aset (queue_avail_hi c) q_sel (u32 val) |> else c, m)
  else if offset =? VIRTIO_MMIO_QUEUE_USED_LOW then
    (if open then c <| queue_used_lo := aset (queue_used_lo c) q_sel (u32 val) |> else c, m)
  else if offset =? VIRTIO_MMIO_QUEUE_USED_HIGH then
    (if open then c <| queue_used_hi := aset (queue_used_hi c) q_sel (u32 val) |> else c, m)
  else if offset =? VIRTIO_MMIO_QUEUE_READY then
    (if q_sel <? nr_vqs v then write_queue_ready c q_sel val else c, m)
  else if offset =? VIRTIO_MMIO_QUEUE_NOTIFY then
    if (val <? nr_vqs v) && ready_at c val && virtio_device_ready_locked v then
      let '(v, m, ns) := ops_notify_queue g v m (u16 val) in
      (foldl deliver (c <| vdev := v |>) ns, m)
    else (c, m)
  else if offset =? VIRTIO_MMIO_INTERRUPT_ACK then
    let c := c <| interrupt_status := clr_bits (interrupt_status c) val |> in
    (if interrupt_status c =? 0 then c <| line := 0 |> else c, m)
  else if offset =? VIRTIO_MMIO_STATUS then
    let c := c <| vdev := virtio_device_set_status_locked v val |> in
    (if val =? 0 then blank (vdev c) 0 else c, m)
  else (c, m).

Definition virtio_mmio_stop (c : virtio_mmio_ctx D) : virtio_mmio_ctx D :=
  c <| vdev := virtio_device_stop_locked (vdev c) |> <| line := 0 |>.

(** struct virtio_mmio_pdata: [pdata_irq] says whether an interrupt line is
    wired. *)
Record virtio_mmio_pdata : Type := mk_pdata {
  pdata_base : Z;
  pdata_irq : bool;
  pdata_vdev : option (virtio_device D);
}.

Definition sizeof_virtio_mmio_ctx : Z := 264.

(** [dev] is the transport device with the pool [dev_pool]; [addr] the address
    of the VirtIO device; [allocs] the outcomes of the device model's
    allocations, [alloc0], [alloc1] and [alloc2] what the allocator returns to
    the context, to the region and to its cleanup action. *)
Definition virtio_mmio_realize (vm : Space.vm_ctx) (vm_pool dev_pool : pool) (dev addr : Z)
    (pdata : option virtio_mmio_pdata) (allocs : nat → bool) (alloc0 alloc1 alloc2 : option Z) :
    Space.vm_ctx * pool * pool * option (virtio_mmio_ctx D) * Z :=
  match pdata with
  | Some (mk_pdata base true (Some v)) =>
      match ResPool.res_zalloc (Some dev_pool) sizeof_virtio_mmio_ctx alloc0 with
      | (Some dev_pool, Some _) =>
          let '(vm_pool, dev_pool, v, ret) :=
            virtio_device_adopt_locked vm_pool dev_pool dev addr v true in
          if ret <? 0 then (vm, vm_pool, dev_pool, None, ret)
          else
            let '(v, ret) := virtio_device_realize_locked allocs v in
            let c := blank v 0 in
            if ret <? 0 then (vm, vm_pool, dev_pool, Some c, ret)
            else
              match Space.io_map_register_region_locked vm Space.IO_MMIO base 0x200 dev dev_pool
                      true alloc1 alloc2 with
              | (vm, dev_pool, ERR_PTR e) => (vm, vm_pool, dev_pool, Some c, e)
              | (vm, dev_pool, Ptr _) => (vm, vm_pool, dev_pool, Some c, 0)
              end
      | (Some dev_pool, None) => (vm, vm_pool, dev_pool, None, - VM_ENOMEM)
      | (None, _) => (vm, vm_pool, dev_pool, None, - VM_ENOMEM)
      end
  | _ => (vm, vm_pool, dev_pool, None, - VM_EINVAL)
  end.

(** ** Invariant *)

(** What the registers of a queue and the queue itself have to do with each
    other. *)
Definition queue_matches (c : virtio_mmio_ctx D) (i : Z) (q : virtqueue) : Prop :=
  if ready_at c i then
    vq_enabled q = true ∧ queue_size q = aget (queue_num c) i ∧
    desc_table q = Space.mem_map_range (vq_mem q)
      (assemble (queue_desc_hi c) (queue_desc_lo c) i) (16 * queue_size q) false ∧
    avail_ring q = Space.mem_map_range (vq_mem q)
      (assemble (queue_avail_hi c) (queue_avail_lo c) i) (6 + 2 * queue_size q) false ∧
    used_ring q = Space.mem_map_range (vq_mem q)
      (assemble (queue_used_hi c) (queue_used_lo c) i) (6 + 8 * queue_size q) true
  else vq_enabled q = false.

Record arrays_ok (c : virtio_mmio_ctx D) : Prop := {
  len_num : length (queue_num c) = 8%nat;
  len_desc_lo : length (queue_desc_lo c) = 8%nat;
  len_desc_hi : length (queue_desc_hi c) = 8%nat;
  len_avail_lo : length (queue_avail_lo c) = 8%nat;
  len_avail_hi : length (queue_avail_hi c) = 8%nat;
  len_used_lo : length (queue_used_lo c) = 8%nat;
  len_used_hi : length (queue_used_hi c) = 8%nat;
  len_ready : length (queue_ready c) = 8%nat;
}.

Record mmio_inv (c : virtio_mmio_ctx D) : Prop := {
  mmio_line : line c = if interrupt_status c =? 0 then 0 else 1;
  mmio_regs : is_u32 (driver_features_sel c) ∧ is_u32 (queue_sel c);
  mmio_words : Forall is_u32 (queue_desc_lo c ++ queue_desc_hi c ++ queue_avail_lo c ++
    queue_avail_hi c ++ queue_used_lo c ++ queue_used_hi c ++ queue_num c);
  mmio_arrays : arrays_ok c;
  mmio_protocol : protocol_inv (vdev c);
  mmio_queues : queues_inv (vdev c);
  mmio_count : (length (vqs (vdev c)) ≤ 8)%nat;
  mmio_match : ∀ i q, vqs (vdev c) !! i = Some q → queue_matches c (Z.of_nat i) q;
}.

Context `{!VirtioLaws D}.

(** ** Lemmas: parts of the context *)

(** Everything but the interrupt state. *)
Definition same_regs (c c' : virtio_mmio_ctx D) : Prop :=
  driver_features_sel c' = driver_features_sel c ∧ queue_sel c' = queue_sel c ∧
  queue_desc_lo c' = queue_desc_lo c ∧ queue_desc_hi c' = queue_desc_hi c ∧
  queue_avail_lo c' = queue_avail_lo c ∧ queue_avail_hi c' = queue_avail_hi c ∧
  queue_used_lo c' = queue_used_lo c ∧ queue_used_hi c' = queue_used_hi c ∧
  queue_num c' = queue_num c ∧ queue_ready c' = queue_ready c.

Lemma same_regs_trans c1 c2 c3 : same_regs c1 c2 → same_regs c2 c3 → same_regs c1 c3.
Proof. unfold same_regs. intros H1 H2. destruct_and!. split_and!; congruence. Qed.

Lemma queue_matches_config c c' i q q' :
  same_regs c c' → same_config q q' → queue_matches c i q → queue_matches c' i q'.
Proof.
  intros (_ & _ & E1 & E2 & E3 & E4 & E5 & E6 & E7 & E8) (C1 & C2 & C3 & C4 & C5 & C6 & C7).
  unfold queue_matches, ready_at. by rewrite E1, E2, E3, E4, E5, E6, E7, E8, C1, C2, C4, C5, C6, C7.
Qed.

(** Changing the device, with its queues' configuration kept. *)
Lemma mmio_inv_device c c' :
  mmio_inv c → same_regs c c' → line c' = (if interrupt_status c' =? 0 then 0 else 1) →
  protocol_inv (vdev c') → queues_inv (vdev c') →
  Forall2 same_config (vqs (vdev c)) (vqs (vdev c')) → mmio_inv c'.
Proof.
  intros [I1 I2 I3 I4 I5 I6 I7 I8] S L P Q C. pose proof S as (E9 & E10 & E1 & E2 & E3 & E4 & E5 & E6 & E7 & E8).
  split; [done|by rewrite E9, E10|by rewrite E1, E2, E3, E4, E5, E6, E7| |done|done| |].
  - destruct I4. split; congruence.
  - by rewrite <- (Forall2_length _ _ _ C).
  - intros i q' Hq'. destruct (Forall2_lookup_r _ _ _ _ _ C Hq') as (q & Hq & Cq).
    apply (queue_matches_config c c' (Z.of_nat i) q q' S Cq). by apply I8.
Qed.

Lemma deliver_regs c n : same_regs c (deliver c n) ∧ vdev (deliver c n) = vdev c ∧
  line (deliver c n) = (if interrupt_status (deliver c n) =? 0 then 0 else 1).
Proof.
  assert (N : ∀ x b, Z.testbit (set_bits x b) (Z.log2 b) = true → (set_bits x b =? 0) = false).
  { intros x b Hb. apply Z.eqb_neq. intros E. rewrite E, Z.bits_0 in Hb. done. }
  destruct n; (split; [done|split; [done|]]); simpl; rewrite N; try done; bits; done.
Qed.

Lemma deliver_all ns : ∀ c, line c = (if interrupt_status c =? 0 then 0 else 1) →
  let c' := foldl deliver c ns in
  same_regs c c' ∧ vdev c' = vdev c ∧ line c' = (if interrupt_status c' =? 0 then 0 else 1).
Proof.
  induction ns as [|n ns IH]; intros c L; [done|]. simpl.
  destruct (deliver_regs c n) as (S1 & V1 & L1). destruct (IH (deliver c n) L1) as (S2 & V2 & L2).
  split_and!; [by eapply same_regs_trans|congruence|done].
Qed.

(** ** Lemmas: the queue registers *)

(** The registers of every queue but [q] are kept. *)
Definition regs_except (c c' : virtio_mmio_ctx D) (q : Z) : Prop :=
  vdev c' = vdev c ∧ line c' = line c ∧ interrupt_status c' = interrupt_status c ∧
  driver_features_sel c' = driver_features_sel c ∧ queue_sel c' = queue_sel c ∧
  queue_ready c' = queue_ready c ∧
  ∀ j, 0 ≤ j → j ≠ q →
    aget (queue_desc_lo c') j = aget (queue_desc_lo c) j ∧
    aget (queue_desc_hi c') j = aget (queue_desc_hi c) j ∧
    aget (queue_avail_lo c') j = aget (queue_avail_lo c) j ∧
    aget (queue_avail_hi c') j = aget (queue_avail_hi c) j ∧
    aget (queue_used_lo c') j = aget (queue_used_lo c) j ∧
    aget (queue_used_hi c') j = aget (queue_used_hi c) j ∧
    aget (queue_num c') j = aget (queue_num c) j.

Lemma mmio_inv_regs c c' q :
  mmio_inv c → regs_except c c' q → ready_at c q = false →
  Forall is_u32 (queue_desc_lo c' ++ queue_desc_hi c' ++ queue_avail_lo c' ++
    queue_avail_hi c' ++ queue_used_lo c' ++ queue_used_hi c' ++ queue_num c') →
  arrays_ok c' → mmio_inv c'.
Proof.
  intros [I1 I2 I3 I4 I5 I6 I7 I8] (E1 & E2 & E3 & E4 & E5 & E6 & Ej) R W A.
  split; rewrite ?E1, ?E2, ?E3, ?E4, ?E5; try done.
  intros i vq Hi. specialize (I8 i vq Hi). unfold queue_matches, ready_at in *. rewrite E6.
  destruct (decide (Z.of_nat i = q)) as [<-|Hne]; [by rewrite R in *|].
  unfold assemble. destruct (Ej (Z.of_nat i) ltac:(lia) Hne) as (-> & -> & -> & -> & -> & -> & ->).
  done.
Qed.

Lemma mmio_inv_sels c c' :
  mmio_inv c → is_u32 (driver_features_sel c') → is_u32 (queue_sel c') →
  c' = c <| driver_features_sel := driver_features_sel c' |> <| queue_sel := queue_sel c' |> →
  mmio_inv c'.
Proof.
  intros [I1 I2 I3 I4 I5 I6 I7 I8] Hd Hq E. rewrite E. split; try done.
  by destruct I4.
Qed.

(** [set_register I] proves the invariant of an update of one register array. *)
Local Ltac set_register I Hq R :=
  let W := fresh "W" in
  eapply mmio_inv_regs; [exact I| |exact R| |];
  [ split_and!; try done; intros j Hj Hne; simpl; rewrite ?aget_aset_ne by lia; done
  | pose proof (mmio_words _ I) as W; rewrite !Forall_app in *; simpl; destruct_and!;
    split_and!; try done; apply Forall_aset; [done|apply u32_range]
  | destruct (mmio_arrays _ I); split; simpl; rewrite ?length_aset; done ].

Lemma mmio_inv_num c q x : mmio_inv c → 0 ≤ q → ready_at c q = false →
  mmio_inv (c <| queue_num := aset (queue_num c) q (u32 x) |>).
Proof. intros I Hq R. set_register I Hq R. Qed.
Lemma mmio_inv_desc_lo c q x : mmio_inv c → 0 ≤ q → ready_at c q = false →
  mmio_inv (c <| queue_desc_lo := aset (queue_desc_lo c) q (u32 x) |>).
Proof. intros I Hq R. set_register I Hq R. Qed.
Lemma mmio_inv_desc_hi c q x : mmio_inv c → 0 ≤ q → ready_at c q = false →
  mmio_inv (c <| queue_desc_hi := aset (queue_desc_hi c) q (u32 x) |>).
Proof. intros I Hq R. set_register I Hq R. Qed.
Lemma mmio_inv_avail_lo c q x : mmio_inv c → 0 ≤ q → ready_at c q = false →
  mmio_inv (c <| queue_avail_lo := aset (queue_avail_lo c) q (u32 x) |>).
Proof. intros I Hq R. set_register I Hq R. Qed.
Lemma mmio_inv_avail_hi c q x : mmio_inv c → 0 ≤ q → ready_at c q = false →
  mmio_inv (c <| queue_avail_hi := aset (queue_avail_hi c) q (u32 x) |>).
Proof. intros I Hq R. set_register I Hq R. Qed.
Lemma mmio_inv_used_lo c q x : mmio_inv c → 0 ≤ q → ready_at c q = false →
  mmio_inv (c <| queue_used_lo := aset (queue_used_lo c) q (u32 x) |>).
Proof. intros I Hq R. set_register I Hq R. Qed.
Lemma mmio_inv_used_hi c q x : mmio_inv c → 0 ≤ q → ready_at c q = false →
  mmio_inv (c <| queue_used_hi := aset (queue_used_hi c) q (u32 x) |>).
Proof. intros I Hq R. set_register I Hq R. Qed.

(** ** Lemmas: enabling and disabling a queue *)

Definition update_queue (c : virtio_mmio_ctx D) (q : Z) (vq : virtqueue) (b : bool) :
    virtio_mmio_ctx D :=
  put_vq c q vq <| queue_ready := <[Z.to_nat q := b]> (queue_ready c) |>.

Lemma ready_at_lookup c q :
  0 ≤ q < 8 → arrays_ok c → queue_ready c !! Z.to_nat q = Some (ready_at c q).
Proof.
  intros Hq A. unfold ready_at. destruct (lookup_lt_is_Some_2 (queue_ready c) (Z.to_nat q)) as [b ->];
    [|done]. rewrite (len_ready _ A). lia.
Qed.

Lemma put_vq_update c q vq :
  0 ≤ q < 8 → arrays_ok c → put_vq c q vq = update_queue c q vq (ready_at c q).
Proof.
  intros Hq A. unfold update_queue. rewrite list_insert_id by (by apply ready_at_lookup).
  by destruct c.
Qed.

Lemma mmio_inv_update c q vq vq' b :
  mmio_inv c → 0 ≤ q → vqs (vdev c) !! Z.to_nat q = Some vq →
  vq_inv vq' → vq_mem vq' = vq_mem vq → queue_matches (update_queue c q vq' b) q vq' →
  mmio_inv (update_queue c q vq' b).
Proof.
  intros [I1 I2 I3 I4 I5 I6 I7 I8] Hq L Iq Em M. split; try done.
  - destruct I4. split; try done. simpl. by rewrite length_insert.
  - destruct I5. split; try done. simpl. by rewrite (law_features_priv _ (vdev c)).
  - destruct I6 as [Im F]. split; [done|]. apply Forall_insert; [done|]. split; [done|].
    rewrite Em. by apply (Forall_lookup_1 _ _ _ _ F L).
  - simpl. by rewrite length_insert.
  - intros i q' Hi. simpl in Hi. destruct (decide (i = Z.to_nat q)) as [->|Hne].
    + rewrite list_lookup_insert_eq in Hi by (by eapply lookup_lt_Some). simplify_eq.
      rewrite Z2Nat.id by done. exact M.
    + rewrite list_lookup_insert_ne in Hi by done. specialize (I8 i q' Hi).
      revert I8. unfold queue_matches, ready_at. simpl.
      rewrite list_lookup_insert_ne by lia. done.
Qed.

Lemma update_queue_ready c q vq b : 0 ≤ q < 8 → arrays_ok c → ready_at (update_queue c q vq b) q = b.
Proof.
  intros Hq A. unfold ready_at. simpl. rewrite list_lookup_insert_eq; [done|].
  rewrite (len_ready _ A). lia.
Qed.

Lemma assemble_range hi lo q :
  Forall is_u32 hi → Forall is_u32 lo → is_u64 (assemble hi lo q).
Proof.
  intros Hh Hl. unfold assemble. apply lor_range; [lia|apply u64_range|].
  pose proof (aget_range is_u32 lo q ltac:(unfold is_u32; lia) Hl). word.
Qed.

Lemma put_vq_twice c q vq1 vq2 : put_vq (put_vq c q vq1) q vq2 = put_vq c q vq2.
Proof. unfold put_vq. destruct c as [v ? ? ? ? ? ? ? ? ? ? ? ? ?]. simpl. by rewrite list_insert_insert_eq. Qed.

Lemma enable_queue_inv c q vq :
  mmio_inv c → 0 ≤ q → vqs (vdev c) !! Z.to_nat q = Some vq → ready_at c q = false →
  mmio_inv (enable_queue c q vq).
Proof.
  intros I Hq L R. unfold enable_queue. cbv zeta.
  assert (Hq8 : 0 ≤ q < 8) by (apply lookup_lt_Some in L; pose proof (mmio_count _ I); lia).
  pose proof (mmio_arrays _ I) as A. pose proof (mmio_queues _ I) as [Im F].
  destruct (Forall_lookup_1 _ _ _ _ F L) as [Iq Em]. rewrite <- Em in Im.
  pose proof (mmio_match _ I _ _ L) as M. rewrite Z2Nat.id in M by done.
  unfold queue_matches in M. rewrite R in M.
  destruct (UINT16_MAX <? aget (queue_num c) q) eqn:Hn; [done|]. apply Z.ltb_ge in Hn.
  pose proof (mmio_words _ I) as W. rewrite !Forall_app in W. destruct W as (W1 & W2 & W3 & W4 & W5 & W6 & W7).
  assert (Hnum : is_u16 (aget (queue_num c) q)).
  { pose proof (aget_range is_u32 _ q ltac:(unfold is_u32; lia) W7). word. }
  destruct (vq_step_inv vq _ Im (vqs_size vq _ Hnum) Iq) as [Iq1 Em1].
  pose proof (set_size_cases vq (aget (queue_num c) q) M) as Ns.
  destruct (virtqueue_set_size vq _) as [vq1 ret1]. cbn [fst snd] in *. destruct Ns as (N1 & _ & N2).
  assert (I1 : ∀ vq', vq' = vq1 → mmio_inv (put_vq c q vq')).
  { intros vq' ->. rewrite put_vq_update, R by done. apply (mmio_inv_update c q vq); try done.
    unfold queue_matches. by rewrite update_queue_ready. }
  destruct (Z.eqb_spec ret1 0) as [->|]; cbn [negb]; [|by apply I1].
  destruct (virtqueue_set_addrs vq1 _ _ _) as [vq2 ret2] eqn:E2. rewrite put_vq_twice.
  destruct (Z.eqb_spec ret2 0) as [->|Hne]; [|by eapply I1, set_addrs_fail].
  change (mmio_inv (update_queue c q vq2 true)).
  pose proof (set_addrs_inv vq1 _ _ _ Iq1 (assemble_range _ _ q W2 W1) (assemble_range _ _ q W4 W3)
    (assemble_range _ _ q W6 W5)) as Iq2. rewrite E2 in Iq2.
  apply set_addrs_ok in E2 as (S1 & S2 & S3 & S4 & S5 & S6).
  apply (mmio_inv_update c q vq); try done; [congruence|].
  unfold queue_matches. rewrite update_queue_ready by done.
  rewrite S2, S3. split_and!; try done. by apply N2.
Qed.

Lemma write_queue_ready_inv c q val :
  mmio_inv c → 0 ≤ q → mmio_inv (write_queue_ready c q val).
Proof.
  intros I Hq. unfold write_queue_ready. destruct (vqs (vdev c) !! Z.to_nat q) as [vq|] eqn:L; [|done].
  assert (Hq8 : 0 ≤ q < 8) by (apply lookup_lt_Some in L; pose proof (mmio_count _ I); lia).
  pose proof (mmio_queues _ I) as [Im F]. destruct (Forall_lookup_1 _ _ _ _ F L) as [Iq Em].
  rewrite <- Em in Im. destruct (Z.eqb_spec val 0) as [->|_].
  - rewrite andb_false_r. change (mmio_inv (update_queue c q (virtqueue_disable vq) false)).
    apply (mmio_inv_update c q vq); try done; [by apply (vq_step_inv vq); [|constructor|]|].
    unfold queue_matches. rewrite update_queue_ready; [done..|]. apply (mmio_arrays _ I).
  - destruct (ready_at c q) eqn:R; [done|]. cbn [negb andb]. destruct (val =? 1); [|done].
    by apply enable_queue_inv.
Qed.

(** ** The register file under any guest *)

Lemma blank_inv v :
  protocol_inv v → queues_inv v → (length (vqs v) ≤ 8)%nat →
  Forall (fun q => vq_enabled q = false) (vqs v) → mmio_inv (blank v 0).
Proof.
  intros P Q Hl F. split; try done.
  - simpl. repeat (constructor; [unfold is_u32; lia|]). constructor.
  - intros i q Hi. unfold queue_matches.
    assert (R : ready_at (blank v 0) (Z.of_nat i) = false).
    { unfold ready_at. rewrite Nat2Z.id. change (queue_ready (blank v 0)) with (replicate 8 false).
      destruct (replicate 8 false !! i) eqn:E; [|done]. by apply lookup_replicate in E as [-> _]. }
    rewrite R. by apply (Forall_lookup_1 _ _ _ _ F Hi).
Qed.

(** A guest write that the register file is meant for: in particular a status
    value is not a non-zero value whose low byte is zero. *)
Definition write_ok (offset val : Z) : Prop :=
  is_u64 val ∧ (offset = VIRTIO_MMIO_STATUS → u8 val = 0 → val = 0).

Lemma write_status_inv c val :
  mmio_inv c → (u8 val = 0 → val = 0) →
  let c' := c <| vdev := virtio_device_set_status_locked (vdev c) val |> in
  mmio_inv (if val =? 0 then blank (vdev c') 0 else c').
Proof.
  intros I Hv. destruct (core_exec_inv (vdev c) (EvStatus val) Logic.I (mmio_protocol _ I) (mmio_queues _ I))
    as [P Q]. simpl core_exec in *. cbv zeta. destruct (Z.eqb_spec val 0) as [->|Hne].
  - apply blank_inv; try done; simpl vdev; rewrite reset_vqs by done.
    + rewrite length_fmap. apply (mmio_count _ I).
    + by apply Forall_fmap, Forall_true.
  - apply (mmio_inv_device c); try done; [apply (mmio_line _ I)|].
    simpl. unfold virtio_device_set_status_locked.
    destruct (Z.eqb_spec (u8 val) 0); [by destruct Hne, Hv|]. simpl. reflexivity.
Qed.

Lemma write_notify_inv g c m q :
  mmio_inv c → mmio_inv (foldl deliver (c <| vdev := (ops_notify_queue g (vdev c) m q).1.1 |>)
    (ops_notify_queue g (vdev c) m q).2).
Proof.
  intros I. destruct (law_notify g (vdev c) m q (mmio_queues _ I)) as (C & Q & O).
  destruct (ops_notify_queue g (vdev c) m q) as [[v' m'] ns]. simpl in *.
  pose proof (deliver_all ns (c <| vdev := v' |>)) as Dl.
  destruct (Dl (mmio_line _ I)) as (S & V & L).
  apply (mmio_inv_device c); [done|exact S|done|..]; rewrite V; [|done|apply C].
  by apply (protocol_inv_change true (vdev c)); [| |apply I].
Qed.

Lemma virtio_mmio_write_inv g c m offset val size :
  mmio_inv c → write_ok offset val → mmio_inv (virtio_mmio_write g c m offset val size).1.
Proof.
  intros I [Hv Hs]. pose proof (mmio_regs _ I) as [Rd Rq]. pose proof (mmio_line _ I) as Ln.
  unfold virtio_mmio_write. cbv zeta.
  destruct (VIRTIO_MMIO_CONFIG <=? offset).
  { destruct ops_write_config as [write|] eqn:E; [|done].
    destruct (law_write write (vdev c) (offset - VIRTIO_MMIO_CONFIG) (u32 val) size E) as (C & Eq & O).
    pose proof (core_exec_inv (vdev c) (EvWriteConfig (offset - VIRTIO_MMIO_CONFIG) (u32 val) size)
      Logic.I (mmio_protocol _ I) (mmio_queues _ I)) as [P Q]. simpl in P, Q. rewrite E in P, Q.
    apply (mmio_inv_device c); try done. apply C. }
  destruct (_ || _); [done|].
  destruct (_ =? VIRTIO_MMIO_DEVICE_FEATURES_SEL).
  { apply (mmio_inv_device c); try done; apply I. }
  destruct (_ =? VIRTIO_MMIO_DRIVER_FEATURES_SEL).
  { apply (mmio_inv_sels c); [done|apply u32_range|done|by destruct c]. }
  destruct (_ =? VIRTIO_MMIO_DRIVER_FEATURES).
  { pose proof (core_exec_inv (vdev c) (EvFeatures (driver_features_sel c) (u32 val))
      (conj Rd (u32_range val)) (mmio_protocol _ I) (mmio_queues _ I)) as [P Q].
    apply (mmio_inv_device c); try done. simpl. unfold virtio_device_set_features_locked.
    destruct (_ || _ || _); reflexivity. }
  destruct (_ =? VIRTIO_MMIO_QUEUE_SEL).
  { apply (mmio_inv_sels c); [done|done|apply u32_range|by destruct c]. }
  assert (Op : ∀ f, (ready_at c (queue_sel c) = false → mmio_inv f) →
    mmio_inv (if (queue_sel c <? nr_vqs (vdev c)) && negb (ready_at c (queue_sel c)) then f else c)).
  { intros f Hf. destruct (_ && negb _) eqn:E; [|done]. apply andb_prop in E as [_ E%negb_true_iff]. auto. }
  assert (Hq0 : 0 ≤ queue_sel c) by word.
  destruct (_ =? VIRTIO_MMIO_QUEUE_NUM); [by apply Op; intros; apply mmio_inv_num|].
  destruct (_ =? VIRTIO_MMIO_QUEUE_DESC_LOW); [by apply Op; intros; apply mmio_inv_desc_lo|].
  destruct (_ =? VIRTIO_MMIO_QUEUE_DESC_HIGH); [by apply Op; intros; apply mmio_inv_desc_hi|].
  destruct (_ =? VIRTIO_MMIO_QUEUE_AVAIL_LOW); [by apply Op; intros; apply mmio_inv_avail_lo|].
  destruct (_ =? VIRTIO_MMIO_QUEUE_AVAIL_HIGH); [by apply Op; intros; apply mmio_inv_avail_hi|].
  destruct (_ =? VIRTIO_MMIO_QUEUE_USED_LOW); [by apply Op; intros; apply mmio_inv_used_lo|].
  destruct (_ =? VIRTIO_MMIO_QUEUE_USED_HIGH); [by apply Op; intros; apply mmio_inv_used_hi|].
  destruct (_ =? VIRTIO_MMIO_QUEUE_READY).
  { destruct (_ <? _); [|done]. by apply write_queue_ready_inv. }
  destruct (_ =? VIRTIO_MMIO_QUEUE_NOTIFY).
  { destruct (_ && _ && _); [|done]. pose proof (write_notify_inv g c m (u16 val) I) as N.
    by destruct (ops_notify_queue g (vdev c) m (u16 val)) as [[v' m'] ns]. }
  destruct (_ =? VIRTIO_MMIO_INTERRUPT_ACK).
  { cbn [fst]. set (x := clr_bits (interrupt_status c) val).
    change (interrupt_status (c <| interrupt_status := x |>)) with x.
    destruct (x =? 0) eqn:Ex; apply (mmio_inv_device c); try done; try apply I; simpl; rewrite Ex;
      [done|]. rewrite Ln. destruct (Z.eqb_spec (interrupt_status c) 0) as [E0|]; [|done].
    unfold x in Ex. by rewrite E0 in Ex. }
  destruct (Z.eqb_spec offset VIRTIO_MMIO_STATUS); [|done].
  apply (write_status_inv c val I). by apply Hs.
Qed.

(** A sequence of guest writes, each with what the guest does meanwhile. *)
Record mmio_op : Type := mk_op { op_guest : guest; op_offset : Z; op_val : Z; op_size : Z }.

Definition mmio_run (st : virtio_mmio_ctx D * hmem) (ops : list mmio_op) :
    virtio_mmio_ctx D * hmem :=
  foldl (fun st op => virtio_mmio_write (op_guest op) st.1 st.2 (op_offset op) (op_val op) (op_size op))
    st ops.

Lemma mmio_run_inv ops : ∀ c m,
  mmio_inv c → Forall (fun op => write_ok (op_offset op) (op_val op)) ops →
  mmio_inv (mmio_run (c, m) ops).1.
Proof.
  induction ops as [|op ops IH]; intros c m I Ok; [done|]. apply Forall_cons in Ok as [Hop Ok].
  unfold mmio_run. cbn [foldl fst snd].
  pose proof (virtio_mmio_write_inv (op_guest op) c m (op_offset op) (op_val op) (op_size op) I Hop) as I'.
  destruct (virtio_mmio_write _ c m _ _ _) as [c' m']. by apply IH.
Qed.

(** C4. The transport and the device behind it never disagree.  From a freshly
    realized device, through any sequence of register writes of any size and
    value (a status write being a byte) and whatever the guest does to memory
    meanwhile: the interrupt line is high exactly while an interrupt is
    pending; a queue is enabled exactly if its ready register says so, and
    then its size and its three rings are those the address registers of the
    queue spell, mapped in guest RAM; and the device keeps its protocol and
    queue invariants. *)
Theorem virtio_mmio_reachable v m ops :
  status v = 0 → driver_features v = 0 → queues_inv v → (length (vqs v) ≤ 8)%nat →
  Forall (fun q => vq_enabled q = false) (vqs v) →
  Forall (fun op => write_ok (op_offset op) (op_val op)) ops →
  mmio_inv (mmio_run (blank v 0, m) ops).1.
Proof.
  intros Es Ef Q Hl F Ok.
  assert (I : mmio_inv (blank v 0)) by (apply blank_inv; [split; rewrite ?Es, ?Ef; done|done..]).
  by apply mmio_run_inv.
Qed.

(** C39. A status write whose low byte is zero but which is not zero resets
    half of the device.  The value is cut to a byte on its way to the device,
    which resets itself and disables every queue; the transport tests the
    uncut value and keeps its queue-ready flags, its pending interrupts and
    the interrupt line, so a queue that was ready is afterwards ready in the
    register and disabled in the device. *)
Theorem virtio_mmio_truncated_reset g c m val :
  mmio_inv c → u8 val = 0 → val ≠ 0 →
  let '(c', _) := virtio_mmio_write g c m VIRTIO_MMIO_STATUS val 4 in
  status (vdev c') = 0 ∧
  (∀ i q, vqs (vdev c') !! i = Some q → vq_enabled q = false) ∧
  queue_ready c' = queue_ready c ∧ interrupt_status c' = interrupt_status c ∧ line c' = line c ∧
  ∀ i q, vqs (vdev c) !! i = Some q → ready_at c (Z.of_nat i) = true → ¬ mmio_inv c'.
Proof.
  intros I E Hne. unfold virtio_mmio_write. cbn -[virtio_device_set_status_locked].
  apply Z.eqb_neq in Hne as ->.
  set (v' := virtio_device_set_status_locked (vdev c) val). cbn [fst snd].
  assert (Ds : ∀ i q, vqs v' !! i = Some q → vq_enabled q = false).
  { intros i q Hq. unfold v' in Hq. rewrite reset_vqs in Hq by done.
    apply list_lookup_fmap_Some in Hq as (q0 & -> & _). done. }
  split_and!; try done.
  - simpl. unfold v', virtio_device_set_status_locked. rewrite E. cbn [Z.eqb]. cbv zeta.
    destruct ops_reset as [reset|] eqn:Er; [|done].
    match goal with |- status (reset ?x) = _ => destruct (law_reset reset x Er) as (C & _) end.
    by destruct (ch_status _ _ _ C) as [->|[? _]].
  - intros i q Hq R I'. destruct (lookup_lt_is_Some_2 (vqs v') i) as [q' Hq'].
    { unfold v'. rewrite reset_vqs, length_fmap by done. by eapply lookup_lt_Some. }
    pose proof (mmio_match _ I' i q' Hq') as M. unfold queue_matches in M.
    change (ready_at (c <| vdev := v' |>) (Z.of_nat i)) with (ready_at c (Z.of_nat i)) in M.
    rewrite R in M. destruct M as [M _]. by rewrite (Ds i q' Hq') in M.
Qed.

End Mmio.

(** ** Examples *)

Definition example_fresh : virtqueue :=
  mk_vq example_ms 2 2 false false 0 0 None None None (replicate 2 (mk_buf 0 0 false)).

Definition example_mdev : virtio_device unit :=
  mk_vdev VIRTIO_DEVICE_ACTIVE 0 (Some 1) example_ms tt 2 0 0 [example_fresh].

Lemma example_mdev_queues : queues_inv example_mdev.
Proof.
  split; [exact example_ms_inv|]. constructor; [|constructor].
  split; [|done]. apply (create_inv example_ms 2); [unfold is_u16; lia|reflexivity].
Qed.

(** A driver that sets up queue 0. *)
Definition example_ops_list : list mmio_op :=
  (fun '(off, val) => mk_op (fun _ _ m => m) off val 4) <$>
  [(VIRTIO_MMIO_STATUS, 3); (VIRTIO_MMIO_QUEUE_SEL, 0); (VIRTIO_MMIO_QUEUE_NUM, 2);
   (VIRTIO_MMIO_QUEUE_AVAIL_LOW, 0x100); (VIRTIO_MMIO_QUEUE_USED_LOW, 0x200);
   (VIRTIO_MMIO_QUEUE_READY, 1)].

Lemma example_ops_ok : Forall (fun op => write_ok (op_offset op) (op_val op)) example_ops_list.
Proof. repeat constructor; vm_compute; done. Qed.

Lemma virtio_mmio_reachable_witness :
  mmio_inv (H := example_ops) (mmio_run (H := example_ops) (blank example_mdev 0, ∅) example_ops_list).1.
Proof.
  apply (virtio_mmio_reachable (H := example_ops) (VirtioLaws0 := example_laws)); try reflexivity.
  - exact example_mdev_queues.
  - simpl. lia.
  - repeat constructor.
  - exact example_ops_ok.
Defined.

Definition example_ctx : virtio_mmio_ctx unit :=
  (mmio_run (H := example_ops) (blank example_mdev 0, ∅) example_ops_list).1.

Lemma example_ctx_inv : mmio_inv (H := example_ops) example_ctx.
Proof.
  apply (mmio_run_inv (H := example_ops) (VirtioLaws0 := example_laws)); [|exact example_ops_ok].
  apply (blank_inv (H := example_ops)); [split; done|exact example_mdev_queues|simpl; lia|].
  repeat constructor.
Qed.

Lemma example_ctx_ready :
  ready_at example_ctx 0 = true ∧ status (vdev example_ctx) = 3 ∧
  length (vqs (vdev example_ctx)) = 1%nat.
Proof. vm_compute. auto. Qed.

Lemma virtio_mmio_truncated_reset_witness :
  let '(c', _) := virtio_mmio_write (H := example_ops) (fun _ _ m => m) example_ctx ∅
                    VIRTIO_MMIO_STATUS 0x100 4 in
  status (vdev c') = 0 ∧
  (∀ i q, vqs (vdev c') !! i = Some q → vq_enabled q = false) ∧
  queue_ready c' = queue_ready example_ctx ∧
  interrupt_status c' = interrupt_status example_ctx ∧ line c' = line example_ctx ∧
  ∀ i q, vqs (vdev example_ctx) !! i = Some q → ready_at example_ctx (Z.of_nat i) = true →
    ¬ mmio_inv (H := example_ops) c'.
Proof.
  apply (virtio_mmio_truncated_reset (H := example_ops) (VirtioLaws0 := example_laws)
           (fun _ _ m => m) example_ctx ∅ 0x100).
  - exact example_ctx_inv.
  - reflexivity.
  - lia.
Defined.

End Mmio.
