(* ===== verification/Pci.v ===== *)
(** * The PCI bus (src/hw/pci/pci.c, include/modvm/hw/pci/pci.h)

    Attaching endpoints to a bus, placing their BARs in guest address space,
    and routing configuration accesses and interrupts.  A BAR is an I/O region
    of the machine (Topology.v); an endpoint holds the address of the region
    structure. *)

From S2P Require Import Prelude ResPool Topology.

Module Pci.
Import Space.

Definition PCI_CONFIG_SPACE_SIZE : Z := 256.
Definition PCI_INTERRUPT_LINE : Z := 0x3C.
Definition PCI_INTERRUPT_PIN : Z := 0x3D.
Definition PCI_AUTO_DEVFN : Z := 0xFF.
Definition INVALID_GPA : Z := UINT64_MAX.

Definition PCI_SLOT (devfn : Z) : Z := Z.shiftr devfn 3.
Definition TO_PCI_DEVFN (slot func : Z) : Z := u8 (Z.lor (Z.shiftl slot 3) (Z.land func 7)).

(** ** State *)

Record bar : Type := mk_bar { region : option Z; probe : bool }.

(** struct pci_device; [attached] says that [bus] is not NULL and [owner] is the
    device that owns the function. *)
Record pci_device : Type := mk_pci {
  attached : bool;
  owner : Z;
  devfn : Z;
  interrupt_pin : Z;
  irq_level : bool;
  bars : list bar;
  config_space : list Z;
}.

Record pci_bus : Type := mk_bus {
  devices : list pci_device;
  bus_owner : Z;
  mmio_base : Z;
  mmio_limit : Z;
}.

Definition eta_bar (b : bar) : bar := mk_bar (region b) (probe b).
#[export] Instance set_region : Setter region := ltac:(derive_setter eta_bar).
#[export] Instance set_probe : Setter probe := ltac:(derive_setter eta_bar).

Definition eta_pci (d : pci_device) : pci_device :=
  mk_pci (attached d) (owner d) (devfn d) (interrupt_pin d) (irq_level d) (bars d) (config_space d).
#[export] Instance set_attached : Setter attached := ltac:(derive_setter eta_pci).
#[export] Instance set_devfn : Setter devfn := ltac:(derive_setter eta_pci).
#[export] Instance set_irq_level : Setter irq_level := ltac:(derive_setter eta_pci).
#[export] Instance set_bars : Setter bars := ltac:(derive_setter eta_pci).
#[export] Instance set_config_space : Setter config_space := ltac:(derive_setter eta_pci).

Definition eta_bus (b : pci_bus) : pci_bus :=
  mk_bus (devices b) (bus_owner b) (mmio_base b) (mmio_limit b).
#[export] Instance set_devices : Setter devices := ltac:(derive_setter eta_bus).

(** The region structure at an address. *)
Definition region_at (vm : vm_ctx) (addr : Z) : option io_region :=
  find (fun r => reg_addr r =? addr) (io_list (io vm) IO_MMIO).

(** The region of a BAR. *)
Definition bar_region (vm : vm_ctx) (d : pci_device) (i : Z) : option io_region :=
  match bars d !! Z.to_nat i with
  | Some b => match region b with Some addr => region_at vm addr | None => None end
  | None => None
  end.

(** [dev->config_space[k] = v >> (8 * (k - off))] for four bytes. *)
Definition put_dword (cfg : list Z) (off v : Z) : list Z :=
  aset (aset (aset (aset cfg off (u8 v)) (off + 1) (u8 (Z.shiftr v 8))) (off + 2)
          (u8 (Z.shiftr v 16))) (off + 3) (u8 (Z.shiftr v 24)).

(** [(dev->config_space[4] & 2) != 0] *)
Definition memory_enabled (d : pci_device) : bool := has (aget (config_space d) 4) 2.

Definition pci_bus_init_locked (owner mmio_base mmio_size : Z) : option pci_bus * Z :=
  if (2 ^ 32 <? mmio_base) || (2 ^ 32 - mmio_base <? mmio_size) then (None, - VM_EINVAL)
  else (Some (mk_bus [] owner mmio_base (gpa_add mmio_base mmio_size)), 0).

(** ** Placing a BAR *)

(** The two loops that look for something in the way: the end of the last
    region that overlaps [base, base + size), or of RAM that ends later. *)
Definition obstacle (vm : vm_ctx) (base size : Z) : Z :=
  let next :=
    foldl (fun next reg =>
      if (base <? u64 (Space.base reg + io_size reg)) && (Space.base reg <? u64 (base + size))
      then u64 (Space.base reg + io_size reg) else next)
      base (io_list (io vm) IO_MMIO) in
  foldl (fun next ram =>
    if (base <? u64 (ram_gpa ram + ram_size ram)) && (ram_gpa ram <? u64 (base + size))
       && (next <? u64 (ram_gpa ram + ram_size ram))
    then u64 (ram_gpa ram + ram_size ram) else next)
    next (regions (mem vm)).

(** One round of the search: the next candidate, or the result. *)
Definition search_body (vm : vm_ctx) (bus : pci_bus) (size : Z) (base : Z) : Z + option Z :=
  if UINT32_MAX - (size - 1) <? base then inr None
  else
    let base := clr_bits (u64 (base + size - 1)) (size - 1) in
    if (mmio_limit bus <? u64 (base + size)) || (2 ^ 32 <? u64 (base + size)) then inr None
    else
      let next := obstacle vm base size in
      if next =? base then inr (Some base) else inl next.

Definition search (vm : vm_ctx) (bus : pci_bus) (size : Z) : option Z :=
  match loop (search_body vm bus size) (mmio_base bus) with inr r => r | inl _ => None end.

(** [pool] is the resource pool of [dev->owner]; [alloc1] and [alloc2] are
    those of [io_map_register_region_locked]. *)
Definition pci_register_bar_locked (vm : vm_ctx) (bus : pci_bus)
    (pool : ResPool.res_pool (Fn := cleanup)) (dev : pci_device) (index size requested_base : Z)
    (alloc1 alloc2 : option Z) :
    vm_ctx * ResPool.res_pool (Fn := cleanup) * pci_device * Z :=
  if negb (attached dev) || (6 <=? index) || (size <? 16) || negb (Z.land size (size - 1) =? 0)
  then (vm, pool, dev, - VM_EINVAL)
  else if match bars dev !! Z.to_nat index with Some (mk_bar (Some _) _) => true | _ => false end
  then (vm, pool, dev, - VM_EEXIST)
  else
    let base := if requested_base =? INVALID_GPA then search vm bus size else Some requested_base in
    match base with
    | None => (vm, pool, dev, - VM_ENOSPC)
    | Some base =>
        if negb (base mod size =? 0) || (2 ^ 32 - size <? base) then (vm, pool, dev, - VM_EINVAL)
        else
          match io_map_register_region_locked vm IO_MMIO base size (owner dev) pool true
                  alloc1 alloc2 with
          | (vm, pool, ERR_PTR e) => (vm, pool, dev, e)
          | (vm, pool, Ptr reg) =>
              let dev := dev <| bars :=
                alter (fun b => b <| region := Some (reg_addr reg) |>) (Z.to_nat index) (bars dev) |> in
              let vm := io_region_set_enabled vm reg (memory_enabled dev) in
              (vm, pool, dev <| config_space := put_dword (config_space dev) (0x10 + index * 4) base |>, 0)
          end
    end.

Section Bus.
(** The host bridge behind the bus: [set_irq_cb] with its closure. *)
Context {B : Type}.
Variable set_irq_cb : option (B → pci_device → Z → B).

(** The optional callbacks of struct pci_device_ops. *)
Variable ops_read_config : option (pci_device → Z → Z → Z).
Variable ops_write_config : option (pci_device → Z → Z → Z → pci_device).

(** ** Interrupts *)

Definition pci_device_set_irq_locked (bridge : B) (dev : pci_device) (level : Z) : B * pci_device :=
  if negb (attached dev) then (bridge, dev)
  else
    let dev := dev <| irq_level := negb (level =? 0) |> in
    let level := if has (aget (config_space dev) 5) 4 then 0 else level in
    (match set_irq_cb with Some cb => cb bridge dev level | None => bridge end, dev).

(** ** Attaching an endpoint *)

(** The first slot from [slot] on, of those below 32, with no device. *)
Fixpoint free_slot (bus : pci_bus) (slot : Z) (n : nat) : option Z :=
  match n with
  | O => None
  | S n =>
      if existsb (fun pos => PCI_SLOT (devfn pos) =? slot) (devices bus)
      then free_slot bus (slot + 1) n else Some slot
  end.

(** [same_vm] says that owner and bus belong to one machine; [addr] is the
    address of the endpoint structure and [alloc] what the allocator returns
    to [res_add_action].  The third component is [owner->parent], if set. *)
Definition pci_device_register_locked (bus : pci_bus) (pool : ResPool.res_pool (Fn := cleanup))
    (dev : pci_device) (same_vm : bool) (addr : Z) (alloc : option Z) :
    pci_bus * ResPool.res_pool (Fn := cleanup) * pci_device * option Z * Z :=
  if negb same_vm || (4 <? interrupt_pin dev) then (bus, pool, dev, None, - VM_EINVAL)
  else if attached dev then (bus, pool, dev, None, - VM_EBUSY)
  else
    match (if devfn dev =? PCI_AUTO_DEVFN
           then match free_slot bus 1 31 with
                | Some slot => Some (dev <| devfn := TO_PCI_DEVFN slot 0 |>)
                | None => None
                end
           else Some dev) with
    | None => (bus, pool, dev, None, - VM_ENOSPC)
    | Some dev =>
        if existsb (fun pos => devfn pos =? devfn dev) (devices bus)
        then (bus, pool, dev, None, - VM_EBUSY)
        else
          let dev := dev <| attached := true |> in
          let dev := dev <| config_space :=
            aset (aset (config_space dev) PCI_INTERRUPT_PIN (interrupt_pin dev))
              PCI_INTERRUPT_LINE 0 |> in
          match ResPool.res_add_action (Some pool) (Some CleanupPciDevice) addr alloc with
          | (Some pool, ret) =>
              if ret <? 0 then (bus, pool, dev <| attached := false |>, None, ret)
              else (bus <| devices := devices bus ++ [dev] |>, pool, dev,
                    if owner dev =? bus_owner bus then None else Some (bus_owner bus), 0)
          | (None, ret) => (bus, pool, dev <| attached := false |>, None, ret)
          end
    end.

(** [pci_unregister] of the endpoint with a devfn. *)
Definition pci_unregister (bus : pci_bus) (bridge : B) (dev : pci_device) :
    pci_bus * B * pci_device :=
  let '(bridge, dev) := pci_device_set_irq_locked bridge dev 0 in
  (bus <| devices := filter (fun d => devfn d ≠ devfn dev) (devices bus) |>, bridge,
   dev <| attached := false |> <| bars := (fun _ => mk_bar None false) <$> bars dev |>).

(** ** Configuration space *)

Definition pci_bus_find_device (bus : pci_bus) (fn : Z) : option pci_device :=
  find (fun pos => devfn pos =? fn) (devices bus).

(** The guard common to both directions. *)
Definition config_access_ok (offset size : Z) : bool :=
  ((size =? 1) || (size =? 2) || (size =? 4)) && (offset mod size =? 0)
  && (offset + size <=? PCI_CONFIG_SPACE_SIZE).

(** One byte of the read loop. *)
Definition config_byte (vm : vm_ctx) (d : pci_device) (off : Z) : Z :=
  let byte := aget (config_space d) off in
  if (0x10 <=? off) && (off <? 0x28) then
    let i := (off - 0x10) / 4 in
    match bars d !! Z.to_nat i with
    | Some b =>
        match bar_region vm d i with
        | Some reg =>
            if probe b then u8 (Z.shiftr (u32 (Z.lnot (u32 (io_size reg - 1)))) ((off mod 4) * 8))
            else byte
        | None => byte
        end
    | None => byte
    end
  else byte.

Definition pci_bus_read_config_locked (vm : vm_ctx) (bus : pci_bus) (fn offset size : Z) : Z :=
  if negb (config_access_ok offset size) then UINT32_MAX
  else
    match pci_bus_find_device bus fn with
    | None => UINT32_MAX
    | Some d =>
        match ops_read_config with
        | Some read_config =>
            if 0x40 <=? offset then read_config d offset size
            else foldl (fun value i => Z.lor value (Z.shiftl (config_byte vm d (offset + i)) (i * 8)))
                   0 (seqZ 0 size)
        | None =>
            foldl (fun value i => Z.lor value (Z.shiftl (config_byte vm d (offset + i)) (i * 8)))
              0 (seqZ 0 size)
        end
    end.

(** Assigning through the pointer the lookup returned. *)
Definition put_device (bus : pci_bus) (d : pci_device) : pci_bus :=
  bus <| devices := (fun pos => if devfn pos =? devfn d then d else pos) <$> devices bus |>.

(** A write to a BAR register. *)
Definition write_bar (vm : vm_ctx) (d : pci_device) (offset val size : Z) : vm_ctx * pci_device :=
  let i := (offset - 0x10) / 4 in
  match bar_region vm d i with
  | None => (vm, d)
  | Some reg =>
      let set_probe b := d <| bars := alter (fun x => x <| probe := b |>) (Z.to_nat i) (bars d) |> in
      if (size =? 4) && (val =? UINT32_MAX) then (vm, set_probe true)
      else
        let d := set_probe false in
        let shift := (offset mod 4) * 8 in
        let mask := Z.shiftr UINT32_MAX (32 - size * 8) in
        let base := u32 (Z.lor (clr_bits (Space.base reg) (u32 (Z.shiftl mask shift)))
                           (u32 (Z.shiftl (Z.land val mask) shift))) in
        let base := clr_bits base (u32 (io_size reg - 1)) in
        let '(vm, ret) := io_map_relocate_region_locked vm reg base in
        if negb (ret =? 0) then (vm, d)
        else (vm, d <| config_space := put_dword (config_space d) (0x10 + i * 4) base |>)
  end.

(** One byte of the write loop. *)
Definition write_byte (val : Z) (offset : Z) (cfg : list Z) (i : Z) : list Z :=
  let off := offset + i in
  let byte := u8 (Z.shiftr val (i * 8)) in
  let cfg := if off =? 4 then aset cfg off (Z.land byte 6) else cfg in
  let cfg := if off =? 5 then aset cfg off (Z.land byte 4) else cfg in
  if off =? PCI_INTERRUPT_LINE then aset cfg off byte else cfg.

(** The loop that switches the decoding of every BAR. *)
Definition enable_bars (vm : vm_ctx) (d : pci_device) : vm_ctx :=
  foldl (fun vm b =>
    match region b with
    | Some addr =>
        match region_at vm addr with
        | Some reg => io_region_set_enabled vm reg (memory_enabled d)
        | None => vm
        end
    | None => vm
    end) vm (bars d).

Definition pci_bus_write_config_locked (vm : vm_ctx) (bus : pci_bus) (bridge : B)
    (fn offset val size : Z) : vm_ctx * pci_bus * B :=
  if negb (config_access_ok offset size) then (vm, bus, bridge)
  else
    match pci_bus_find_device bus fn with
    | None => (vm, bus, bridge)
    | Some d =>
        if 0x40 <=? offset then
          match ops_write_config with
          | Some write_config => (vm, put_device bus (write_config d offset val size), bridge)
          | None => (vm, bus, bridge)
          end
        else if (0x10 <=? offset) && (offset <? 0x28) then
          let '(vm, d) := write_bar vm d offset val size in (vm, put_device bus d, bridge)
        else
          let d := d <| config_space := foldl (write_byte val offset) (config_space d) (seqZ 0 size) |> in
          if (offset <? 6) && (4 <? offset + size) then
            let vm := enable_bars vm d in
            let '(bridge, d) :=
              pci_device_set_irq_locked bridge d (if irq_level d then 1 else 0) in
            (vm, put_device bus d, bridge)
          else (vm, put_device bus d, bridge)
    end.

End Bus.

(** ** Lemmas: the search for a place *)

(** Nothing in the machine overlaps [base, base + size). *)
Definition free_at (vm : vm_ctx) (base size : Z) : Prop :=
  (∀ r, r ∈ io_list (io vm) IO_MMIO → apart base size (Space.base r) (io_size r)) ∧
  (∀ r, r ∈ regions (mem vm) → apart base size (ram_gpa r) (ram_size r)).

(** A loop that remembers the last hit, or the last hit beyond what it has. *)
Lemma foldl_last {A} (f : A → bool) (g : A → Z) l : ∀ x,
  let n := foldl (fun n r => if f r then g r else n) x l in
  (n = x ∧ ∀ r, r ∈ l → f r = false) ∨ ∃ r, r ∈ l ∧ f r = true ∧ n = g r.
Proof.
  induction l as [|y l IH]; intros x; simpl; [left; split; [done|]; intros r Hr; inversion Hr|].
  destruct (IH (if f y then g y else x)) as [[-> Hn]|(r & Hr & Hf & ->)].
  - destruct (f y) eqn:Ey; [right; exists y; by split; [left|]|left].
    split; [done|]. intros r [->|Hr]%elem_of_cons; auto.
  - right. exists r. by split; [right|].
Qed.

Lemma foldl_beyond {A} (f : A → bool) (g : A → Z) l : ∀ x,
  let n := foldl (fun n r => if f r && (n <? g r) then g r else n) x l in
  (n = x ∧ ∀ r, r ∈ l → f r = true → g r ≤ x) ∨ (x < n ∧ ∃ r, r ∈ l ∧ f r = true ∧ n = g r).
Proof.
  induction l as [|y l IH]; intros x; simpl; [left; split; [done|]; intros r Hr; inversion Hr|].
  destruct (f y && (x <? g y)) eqn:E.
  - apply andb_prop in E as [Ey Hy%Z.ltb_lt].
    destruct (IH (g y)) as [[-> Hn]|(Hlt & r & Hr & Hf & En)]; right.
    + split; [done|]. exists y. by split; [left|].
    + split; [lia|]. exists r. by split; [right|].
  - destruct (IH x) as [[-> Hn]|(Hlt & r & Hr & Hf & En)]; [left|right].
    + split; [done|]. intros r [->|Hr]%elem_of_cons Hf; [|auto].
      rewrite Hf in E. by apply Z.ltb_ge in E.
    + split; [done|]. exists r. by split; [right|].
Qed.

(** Something that overlaps [base, base + size) and ends at [n]. *)
Definition blocks (vm : vm_ctx) (base size n : Z) : Prop :=
  ∃ s len, base < s + len ∧ s < base + size ∧ n = s + len ∧ n ≤ UINT64_MAX ∧
    ((∃ r, r ∈ io_list (io vm) IO_MMIO ∧ Space.base r = s ∧ io_size r = len) ∨
     (∃ r, r ∈ regions (mem vm) ∧ ram_gpa r = s ∧ ram_size r = len)).

Lemma obstacle_spec vm base size :
  topology_inv vm → 0 ≤ base → 0 < size → base + size ≤ 2 ^ 32 →
  let n := obstacle vm base size in
  (n = base ∧ free_at vm base size) ∨ blocks vm base size n.
Proof.
  intros I Hb Hs Hm. assert (Sp : span_ok base size) by (unfold span_ok; word).
  pose proof (topo_io vm IO_MMIO I) as [Fi _]. pose proof (mem_span _ (topo_mem _ I)) as Fm.
  rewrite Forall_forall in Fi. rewrite Forall_forall in Fm. unfold obstacle. cbv zeta.
  set (fi := fun reg => (base <? u64 (Space.base reg + io_size reg)) && (Space.base reg <? u64 (base + size))).
  set (gi := fun reg => u64 (Space.base reg + io_size reg)).
  set (fm := fun ram => (base <? u64 (ram_gpa ram + ram_size ram)) && (ram_gpa ram <? u64 (base + size))).
  set (gm := fun ram => u64 (ram_gpa ram + ram_size ram)).
  assert (Bi : ∀ r, r ∈ io_list (io vm) IO_MMIO → fi r = true → blocks vm base size (gi r)).
  { intros r Hr Hf. destruct (Fi r Hr) as [S _]. unfold fi, gi, span_ok in *. rewrite !u64_small in * by word.
    apply andb_prop in Hf as [?%Z.ltb_lt ?%Z.ltb_lt]. exists (Space.base r), (io_size r).
    split_and!; try lia. left. by exists r. }
  assert (Bm : ∀ r, r ∈ regions (mem vm) → fm r = true → blocks vm base size (gm r)).
  { intros r Hr Hf. pose proof (Fm r Hr) as S. unfold fm, gm, span_ok in *. rewrite !u64_small in * by word.
    apply andb_prop in Hf as [?%Z.ltb_lt ?%Z.ltb_lt]. exists (ram_gpa r), (ram_size r).
    split_and!; try lia. right. by exists r. }
  destruct (foldl_last fi gi (io_list (io vm) IO_MMIO) base) as [[Ei Ni]|(r & Hr & Hf & Ei)];
    cbv zeta in Ei; unfold fi at 1, gi at 1 in Ei; rewrite Ei.
  - destruct (foldl_beyond fm gm (regions (mem vm)) base) as [[Em Nm]|(Hlt & r & Hr & Hf & Em)];
      cbv zeta in Em; unfold fm at 1, gm at 1 2 in Em.
    + left. split; [exact Em|]. split; intros r Hr.
      * apply overlap_apart; [done|by apply Fi|]. by apply Ni.
      * apply overlap_apart; [done|by apply Fm|]. destruct (fm r) eqn:Hf; [|done].
        specialize (Nm r Hr Hf). destruct (Bm r Hr Hf) as (s & len & ? & ? & E & _). unfold gm in *. lia.
    + right. fold (gm r) in Em. rewrite Em. by apply Bm.
  - destruct (foldl_beyond fm gm (regions (mem vm)) (gi r)) as [[Em Nm]|(Hlt & r' & Hr' & Hf' & Em)];
      cbv zeta in Em; unfold fm at 1, gm at 1 2 in Em; right; rewrite Em; auto.
Qed.

(** No multiple of [size] between [base] and what blocks it is free. *)
Lemma blocks_skip vm base size n b' :
  topology_inv vm → blocks vm base size n → base ≤ b' < n → 0 < size → ¬ free_at vm b' size.
Proof.
  intros I (s & len & H1 & H2 & -> & _ & H) Hb Hs [Fi Fm].
  destruct H as [(r & Hr & <- & <-)|(r & Hr & <- & <-)];
    [specialize (Fi r Hr)|specialize (Fm r Hr)]; unfold apart in *; [|].
  - pose proof (topo_io vm IO_MMIO I) as [F _]. rewrite Forall_forall in F.
    destruct (F r Hr) as [[_ [Hp _]] _]. lia.
  - pose proof (mem_span _ (topo_mem _ I)) as F. rewrite Forall_forall in F.
    destruct (F r Hr) as (_ & Hp & _). lia.
Qed.

(** One candidate of the search. *)
Lemma search_body_spec vm bus k b :
  topology_inv vm → 0 ≤ k ≤ 31 → 0 ≤ b ≤ UINT64_MAX →
  let size := 2 ^ k in
  match search_body vm bus size b with
  | inl n => b < n ≤ UINT64_MAX ∧ ∀ b', b ≤ b' < n → b' mod size = 0 → ¬ free_at vm b' size
  | inr (Some r) => b ≤ r ∧ r mod size = 0 ∧ r + size ≤ mmio_limit bus ∧ r + size ≤ 2 ^ 32 ∧
      free_at vm r size ∧ ∀ b', b ≤ b' < r → b' mod size ≠ 0
  | inr None => ∀ b', b ≤ b' → b' mod size = 0 → b' + size ≤ 2 ^ 32 → mmio_limit bus < b' + size
  end.
Proof.
  intros I Hk Hb size. assert (Hs : 1 ≤ size ≤ 2 ^ 31).
  { unfold size. pose proof (Z.pow_pos_nonneg 2 k). pose proof (Z.pow_le_mono_r 2 k 31). lia. }
  assert (Es : size = 2 ^ k) by done. clearbody size.
  unfold search_body. destruct (Z.ltb_spec (UINT32_MAX - (size - 1)) b) as [Hlt|Hle]; [intros; word|].
  rewrite (u64_small (b + size - 1)) by word. cbv zeta.
  replace (clr_bits (b + size - 1) (size - 1)) with (b + size - 1 - (b + size - 1) mod size)
    by (rewrite Es; symmetry; apply clr_low_bits; lia).
  destruct (round_up b size ltac:(lia)) as (R1 & R2 & R3). cbv zeta in *.
  set (a := b + size - 1 - (b + size - 1) mod size) in *. clearbody a.
  rewrite (u64_small (a + size)) by word.
  destruct (Z.ltb_spec (mmio_limit bus) (a + size)); cbn [orb].
  { intros b' Hb' Hm _. specialize (R3 b' Hm Hb'). lia. }
  destruct (Z.ltb_spec (2 ^ 32) (a + size)).
  { intros b' Hb' Hm Hx. specialize (R3 b' Hm Hb'). lia. }
  destruct (obstacle_spec vm a size I ltac:(lia) ltac:(lia) ltac:(lia)) as [[-> Fr]|Bl].
  - rewrite Z.eqb_refl. split_and!; try done; [lia|]. intros b' Hb' Hm. specialize (R3 b' Hm). lia.
  - pose proof Bl as (s & len & B1 & B2 & B3 & B4 & _).
    destruct (Z.eqb_spec (obstacle vm a size) a); [lia|]. split; [lia|].
    intros b' Hb' Hm. specialize (R3 b' Hm ltac:(lia)).
    apply (blocks_skip vm a size (obstacle vm a size)); [done..|lia|lia].
Qed.

(** BAR placement is first fit and complete: the search terminates, and
    returns the lowest address of the window that is a multiple of the size
    and where the BAR overlaps neither a mapped region nor RAM; it reports
    "no space" only if there is none. *)
Theorem pci_bar_first_fit vm bus size :
  topology_inv vm → 0 ≤ mmio_base bus → mmio_limit bus ≤ 2 ^ 32 → is_u32 size → 16 ≤ size →
  Z.land size (size - 1) = 0 →
  (∃ r, loop (search_body vm bus size) (mmio_base bus) = inr r) ∧
  let fits b := mmio_base bus ≤ b ∧ b mod size = 0 ∧ b + size ≤ mmio_limit bus ∧ free_at vm b size in
  match search vm bus size with
  | Some b => fits b ∧ ∀ b', fits b' → b ≤ b'
  | None => ∀ b', ¬ fits b'
  end.
Proof.
  intros I Hb Hl Hu H16 Hp. destruct (pow2_test size ltac:(lia) Hp) as (k & Hk & E).
  assert (Hk31 : 0 ≤ k ≤ 31).
  { split; [done|]. apply Z.lt_succ_r. apply (Z.pow_lt_mono_r_iff 2); [lia..|]. unfold is_u32 in Hu. lia. }
  unfold search. destruct (decide (mmio_base bus ≤ UINT64_MAX)) as [Hm|Hm].
  2: { assert (Es : search_body vm bus size (mmio_base bus) = inr None).
       { unfold search_body. destruct (Z.ltb_spec (UINT32_MAX - (size - 1)) (mmio_base bus)); [done|word]. }
       unfold loop. rewrite (loop_upto_stop _ _ _ _ Es). split; [by eexists|]. intros b' (? & _ & ? & _). word. }
  destruct (loop_total (search_body vm bus size)
    (fun b => mmio_base bus ≤ b ≤ UINT64_MAX ∧
       ∀ b', mmio_base bus ≤ b' < b → b' mod size = 0 → ¬ free_at vm b' size)
    (fun b => UINT64_MAX - b)
    (fun r => let fits b := mmio_base bus ≤ b ∧ b mod size = 0 ∧ b + size ≤ mmio_limit bus ∧
                            free_at vm b size in
       match r with Some b => fits b ∧ ∀ b', fits b' → b ≤ b' | None => ∀ b', ¬ fits b' end)
    (mmio_base bus)) as (r & Er & Hr).
  - intros b (Hbb & Hn). pose proof (search_body_spec vm bus k b I Hk31 ltac:(lia)) as Sb.
    cbv zeta in Sb. rewrite <- E in Sb.
    destruct (search_body vm bus size b) as [n|[r|]].
    + destruct Sb as [Hlt Hs]. split; [split; [lia|]|lia]. intros b' Hb' Hd.
      destruct (decide (b' < b)); [apply Hn; [lia|done]|apply Hs; [lia|done]].
    + destruct Sb as (S1 & S2 & S3 & S4 & S5 & S6). split; [split_and!; [lia|done..]|].
      intros b' (F1 & F2 & F3 & F4). destruct (decide (b' < b)); [by destruct (Hn b'); [lia|..]|].
      destruct (decide (b' < r)); [by destruct (S6 b'); [lia|]|lia].
    + intros fits b' (F1 & F2 & F3 & F4). destruct (decide (b' < b)); [by destruct (Hn b'); [lia|..]|].
      specialize (Sb b' ltac:(lia) F2 ltac:(lia)). lia.
  - split; [lia|]. intros; lia.
  - word.
  - rewrite Er. split; [by eexists|]. done.
Qed.

(** ** Invariant *)

(** The doubleword of a configuration space, as the read loop assembles it. *)
Definition dword (cfg : list Z) (off : Z) : Z :=
  foldl (fun value i => Z.lor value (Z.shiftl (aget cfg (off + i)) (i * 8))) 0 (seqZ 0 4).

(** The region of BAR [i] of [d], and what the registers say of it. *)
Definition bar_ok (vm : vm_ctx) (d : pci_device) (i : nat) (addr : Z) : Prop :=
  ∃ reg k, region_at vm addr = Some reg ∧ io_size reg = 2 ^ k ∧ 4 ≤ k ≤ 31 ∧
    Space.base reg mod 2 ^ k = 0 ∧ Space.base reg + 2 ^ k ≤ 2 ^ 32 ∧
    dword (config_space d) (0x10 + Z.of_nat i * 4) = Space.base reg ∧
    enabled reg = memory_enabled d.

Definition dev_ok (d : pci_device) : Prop :=
  length (bars d) = 6%nat ∧ length (config_space d) = 256%nat.

(** [d] has the region at [addr] in BAR [i]. *)
Definition has_bar (d : pci_device) (i : nat) (addr : Z) : Prop :=
  ∃ b, bars d !! i = Some b ∧ region b = Some addr.

Record pci_inv (vm : vm_ctx) (bus : pci_bus) : Prop := {
  pci_topo : topology_inv vm;
  pci_devfns : NoDup (devfn <$> devices bus);
  pci_devs : Forall dev_ok (devices bus);
  pci_bars : ∀ d i addr, d ∈ devices bus → has_bar d i addr → bar_ok vm d i addr;
  pci_owned : ∀ d d' i i' addr, d ∈ devices bus → d' ∈ devices bus →
    has_bar d i addr → has_bar d' i' addr → devfn d = devfn d' ∧ i = i';
}.

(** ** Lemmas: bytes and doublewords *)

Lemma assemble_bytes v (f : Z → Z) :
  (∀ i, 0 ≤ i < 4 → f i = u8 (Z.shiftr v (i * 8))) →
  foldl (fun value i => Z.lor value (Z.shiftl (f i) (i * 8))) 0 (seqZ 0 4) = u32 v.
Proof.
  intros Hf. change (seqZ 0 4) with [0; 1; 2; 3]. cbn [foldl]. rewrite !Hf by lia.
  apply Z.bits_inj'. intros n Hn. unfold u32. rewrite !Z.lor_spec, Z.bits_0. cbn [orb].
  rewrite !Z.shiftl_spec, !testbit_u8 by lia.
  assert (Sh : ∀ k, 0 ≤ k → Z.testbit (Z.shiftr v k) (n - k) = (k <=? n) && Z.testbit v n).
  { intros k Hk. destruct (Z.leb_spec k n).
    - rewrite Z.shiftr_spec by lia. by rewrite Z.sub_add.
    - by rewrite Z.testbit_neg_r by lia. }
  rewrite !Sh by lia.
  destruct (Z.lt_ge_cases n 32).
  - rewrite Z.mod_pow2_bits_low by lia.
    destruct (Z.leb_spec (0 * 8) n), (Z.leb_spec (1 * 8) n), (Z.leb_spec (2 * 8) n), (Z.leb_spec (3 * 8) n),
      (Z.ltb_spec (n - 0 * 8) 8), (Z.ltb_spec (n - 1 * 8) 8), (Z.ltb_spec (n - 2 * 8) 8),
      (Z.ltb_spec (n - 3 * 8) 8); try lia; cbn [andb orb]; by rewrite ?andb_true_r, ?andb_false_r, ?orb_false_r.
  - rewrite Z.mod_pow2_bits_high by lia.
    destruct (Z.ltb_spec (n - 0 * 8) 8), (Z.ltb_spec (n - 1 * 8) 8), (Z.ltb_spec (n - 2 * 8) 8),
      (Z.ltb_spec (n - 3 * 8) 8); try lia; by rewrite ?andb_false_r.
Qed.

Lemma length_put_dword cfg off v : length (put_dword cfg off v) = length cfg.
Proof. unfold put_dword. by rewrite !length_aset. Qed.

Lemma aget_put_dword cfg off v i :
  0 ≤ off → off + 4 ≤ Z.of_nat (length cfg) → 0 ≤ i < 4 →
  aget (put_dword cfg off v) (off + i) = u8 (Z.shiftr v (i * 8)).
Proof.
  intros Ho Hl Hi. unfold put_dword.
  assert (i = 0 ∨ i = 1 ∨ i = 2 ∨ i = 3) as [->|[->|[->| ->]]] by lia;
    repeat first [rewrite aget_aset_eq by (rewrite ?length_aset; lia)
                 | rewrite aget_aset_ne by lia]; try done.
  rewrite Z.add_0_r. rewrite aget_aset_eq by lia. by rewrite Z.shiftr_0_r.
Qed.

Lemma aget_put_dword_ne cfg off v j :
  0 ≤ off → 0 ≤ j → j < off ∨ off + 4 ≤ j → aget (put_dword cfg off v) j = aget cfg j.
Proof. intros. unfold put_dword. by rewrite !aget_aset_ne by lia. Qed.

Lemma dword_put cfg off v :
  0 ≤ off → off + 4 ≤ Z.of_nat (length cfg) → dword (put_dword cfg off v) off = u32 v.
Proof. intros. apply assemble_bytes. intros i Hi. by apply aget_put_dword. Qed.

Lemma dword_ext cfg cfg' off :
  (∀ i, 0 ≤ i < 4 → aget cfg' (off + i) = aget cfg (off + i)) → dword cfg' off = dword cfg off.
Proof.
  intros E. unfold dword. change (seqZ 0 4) with [0; 1; 2; 3]. cbn [foldl]. by rewrite !E by lia.
Qed.

(** ** Lemmas: regions *)

Lemma region_at_Some vm a reg :
  topology_inv vm → region_at vm a = Some reg →
  reg ∈ io_list (io vm) IO_MMIO ∧ reg_addr reg = a ∧ type reg = IO_MMIO ∧
  span_ok (Space.base reg) (io_size reg).
Proof.
  intros I E. apply find_Some_elem in E as [Hin E%Z.eqb_eq].
  pose proof (topo_io vm IO_MMIO I) as [F _]. rewrite Forall_forall in F.
  destruct (F reg Hin). done.
Qed.

Lemma region_at_update vm addr f a :
  (∀ r, reg_addr (f r) = reg_addr r) →
  region_at (vm <| io := set_io_list (io vm) IO_MMIO
                           (io_list_update addr f (io_list (io vm) IO_MMIO)) |>) a =
  (fun r => if a =? addr then f r else r) <$> region_at vm a.
Proof.
  intros Hf. unfold region_at.
  change (find (fun r => reg_addr r =? a) (io_list_update addr f (io_list (io vm) IO_MMIO)) =
    (fun r => if a =? addr then f r else r) <$> find (fun r => reg_addr r =? a) (io_list (io vm) IO_MMIO)).
  induction (io_list (io vm) IO_MMIO) as [|r l IH]; [done|]. simpl.
  assert (E : reg_addr (if reg_addr r =? addr then f r else r) = reg_addr r)
    by (destruct (reg_addr r =? addr); [apply Hf|done]).
  rewrite E. destruct (Z.eqb_spec (reg_addr r) a) as [->|]; [done|exact IH].
Qed.

Lemma region_at_set_enabled vm reg on a :
  topology_inv vm → region_at vm (reg_addr reg) = Some reg →
  region_at (io_region_set_enabled vm reg on) a =
  (fun r => if a =? reg_addr reg then r <| enabled := on |> else r) <$> region_at vm a.
Proof.
  intros I E. destruct (region_at_Some _ _ _ I E) as (_ & _ & T & _).
  unfold io_region_set_enabled. rewrite T. by apply region_at_update.
Qed.

(** The loop over the BARs, on any list of them. *)
Definition enable_step (on : bool) (vm : vm_ctx) (b : bar) : vm_ctx :=
  match region b with
  | Some addr =>
      match region_at vm addr with
      | Some reg => io_region_set_enabled vm reg on
      | None => vm
      end
  | None => vm
  end.

Lemma enable_step_spec on b vm a :
  topology_inv vm →
  topology_inv (enable_step on vm b) ∧
  region_at (enable_step on vm b) a =
    (fun r => if bool_decide (region b = Some a) then r <| enabled := on |> else r) <$> region_at vm a.
Proof.
  intros I. unfold enable_step. destruct (region b) as [addr|] eqn:Eb.
  2: { split; [done|]. rewrite bool_decide_false by done. by destruct (region_at vm a). }
  destruct (region_at vm addr) as [reg|] eqn:Er.
  - destruct (region_at_Some _ _ _ I Er) as (_ & Ea & _). split; [by apply set_enabled_inv|].
    rewrite region_at_set_enabled by (by rewrite ?Ea). rewrite Ea.
    destruct (Z.eqb_spec a addr) as [->|]; [by rewrite bool_decide_true|].
    rewrite bool_decide_false by congruence. done.
  - split; [done|]. destruct (bool_decide_reflect (Some addr = Some a)); simplify_eq; [by rewrite Er|].
    by destruct (region_at vm a).
Qed.

(** Is the region at [a] that of one of the BARs? *)
Definition in_bars (a : Z) (l : list bar) : bool := existsb (fun b => bool_decide (region b = Some a)) l.

Lemma enable_list_spec on l : ∀ vm a,
  topology_inv vm →
  topology_inv (foldl (enable_step on) vm l) ∧
  region_at (foldl (enable_step on) vm l) a =
    (fun r => if in_bars a l then r <| enabled := on |> else r) <$> region_at vm a.
Proof.
  induction l as [|b l IH]; intros vm a I; simpl.
  - split; [done|]. by destruct (region_at vm a).
  - destruct (enable_step_spec on b vm a I) as [I1 E1].
    destruct (IH (enable_step on vm b) a I1) as [I2 E2]. split; [done|]. rewrite E2, E1.
    destruct (region_at vm a) as [r|]; [|done]. simpl. f_equal.
    by destruct (bool_decide _), (in_bars a l).
Qed.

(** ** Lemmas: changing one endpoint *)

Lemma elem_put_device bus d x :
  x ∈ devices (put_device bus d) →
  (x = d ∧ ∃ y, y ∈ devices bus ∧ devfn y = devfn d) ∨ (x ∈ devices bus ∧ devfn x ≠ devfn d).
Proof.
  simpl. rewrite list_elem_of_fmap. intros (y & -> & Hy).
  destruct (Z.eqb_spec (devfn y) (devfn d)); [left; split; [done|by exists y]|right; done].
Qed.

Lemma devfn_inj bus x y :
  NoDup (devfn <$> devices bus) → x ∈ devices bus → y ∈ devices bus → devfn x = devfn y → x = y.
Proof.
  induction (devices bus) as [|z l IH]; [intros _ ? ?%elem_of_nil; done|].
  rewrite fmap_cons, NoDup_cons, !elem_of_cons. intros [Hz N] [->|H1] [->|H2] E; auto.
  - contradict Hz. rewrite E. by apply list_elem_of_fmap_2.
  - contradict Hz. rewrite <- E. by apply list_elem_of_fmap_2.
Qed.

(** The endpoint [d] becomes [d'], which may have a BAR [n] that is new. *)
Lemma pci_inv_extend vm bus vm' d d' n :
  pci_inv vm bus → d ∈ devices bus → devfn d' = devfn d → dev_ok d' →
  (∀ i a, has_bar d' i a → has_bar d i a ∨ (i = n ∧ region_at vm a = None)) → topology_inv vm' →
  (∀ i a, has_bar d' i a → bar_ok vm' d' i a) →
  (∀ a, (∀ i, ¬ has_bar d i a) → region_at vm a ≠ None → region_at vm' a = region_at vm a) →
  pci_inv vm' (put_device bus d').
Proof.
  intros [I1 I2 I3 I4 I5] Hd Ef Ok Hb I' Hok Hout. rewrite Forall_forall in I3.
  (* an endpoint of the new bus has the BARs of one of the old bus *)
  assert (Old : ∀ x, x ∈ devices (put_device bus d') → ∃ y, y ∈ devices bus ∧ devfn y = devfn x ∧
    ∀ i a, has_bar x i a → has_bar y i a ∨ (devfn x = devfn d ∧ i = n ∧ region_at vm a = None)).
  { intros x [[-> _]|[Hx _]]%elem_put_device; [exists d|exists x]; split_and!; try done; [|by left].
    intros i a Ha. destruct (Hb i a Ha) as [?|[? ?]]; [by left|by right]. }
  split; [done| | | |].
  - assert (E : devfn <$> devices (put_device bus d') = devfn <$> devices bus); [|by rewrite E].
    simpl. rewrite <- list_fmap_compose. apply list_fmap_ext. intros _ x _. simpl.
    destruct (Z.eqb_spec (devfn x) (devfn d')); congruence.
  - apply Forall_forall. intros x [[-> _]|[Hx _]]%elem_put_device; auto.
  - intros x i a [[-> _]|[Hx Hne]]%elem_put_device Ha; [by apply Hok|].
    destruct (I4 x i a Hx Ha) as (reg & k & E & R). exists reg, k. split; [|done]. rewrite <- E.
    apply Hout; [|by rewrite E]. intros j Hj. destruct (I5 _ _ _ _ _ Hx Hd Ha Hj). congruence.
  - intros x x' i i' a Hx Hx' Ha Ha'. destruct (Old x Hx) as (y & Hy & E & B).
    destruct (Old x' Hx') as (y' & Hy' & E' & B'). rewrite <- E, <- E'.
    destruct (B _ _ Ha) as [Hya|(? & ? & N)], (B' _ _ Ha') as [Hya'|(? & ? & N')]; [|exfalso..|].
    + exact (I5 _ _ _ _ _ Hy Hy' Hya Hya').
    + destruct (I4 _ _ _ Hy Hya) as (? & ? & ? & _). congruence.
    + destruct (I4 _ _ _ Hy' Hya') as (? & ? & ? & _). congruence.
    + split; congruence.
Qed.

Lemma pci_inv_update vm bus vm' d d' :
  pci_inv vm bus → d ∈ devices bus → devfn d' = devfn d → dev_ok d' →
  (∀ i a, has_bar d' i a → has_bar d i a) → topology_inv vm' →
  (∀ i a, has_bar d' i a → bar_ok vm' d' i a) →
  (∀ a, (∀ i, ¬ has_bar d i a) → region_at vm' a = region_at vm a) →
  pci_inv vm' (put_device bus d').
Proof. intros. apply (pci_inv_extend vm bus vm' d d' 0); auto. Qed.

(** Setting [probe] keeps the BARs. *)
Lemma has_bar_probe d n v i a :
  has_bar (d <| bars := alter (fun x => x <| probe := v |>) n (bars d) |>) i a ↔ has_bar d i a.
Proof.
  unfold has_bar. simpl. destruct (decide (i = n)) as [->|Hne].
  - rewrite list_lookup_alter_eq. split.
    + intros (b & Hb & Er). destruct (bars d !! n) as [b0|]; [|done]. simplify_eq/=. by exists b0.
    + intros (b & -> & Er). by eexists.
  - by rewrite list_lookup_alter_ne.
Qed.

(** BARs after a change of the configuration space outside the registers. *)
Lemma bar_ok_config vm d d' i a :
  bar_ok vm d i a → memory_enabled d' = memory_enabled d →
  dword (config_space d') (0x10 + Z.of_nat i * 4) = dword (config_space d) (0x10 + Z.of_nat i * 4) →
  bar_ok vm d' i a.
Proof. intros (reg & k & E & R) Em Ew. exists reg, k. by rewrite Em, Ew. Qed.

(** ** Lemmas: writing a BAR *)

Lemma pci_inv_keep vm bus d d' :
  pci_inv vm bus → d ∈ devices bus → devfn d' = devfn d → dev_ok d' →
  (∀ i a, has_bar d' i a → has_bar d i a) → memory_enabled d' = memory_enabled d →
  (∀ i, (i < 6)%nat → dword (config_space d') (0x10 + Z.of_nat i * 4) =
                      dword (config_space d) (0x10 + Z.of_nat i * 4)) →
  pci_inv vm (put_device bus d').
Proof.
  intros I Hd Ef Ok Hb Em Ew. apply (pci_inv_update vm bus vm d); try done; [apply I|].
  intros i a Ha. pose proof (pci_bars _ _ I d i a Hd (Hb i a Ha)) as B.
  apply (bar_ok_config vm d); [done..|]. apply Ew. destruct Ha as (b & Hl & _).
  apply lookup_lt_Some in Hl. by rewrite (proj1 Ok) in Hl.
Qed.

Lemma dev_ok_probe d n v :
  dev_ok d → dev_ok (d <| bars := alter (fun x => x <| probe := v |>) n (bars d) |>).
Proof. intros [H1 H2]. split; [|done]. simpl. by rewrite length_alter. Qed.

Lemma bar_base_range x k :
  0 ≤ k ≤ 32 → let nb := clr_bits (u32 x) (u32 (2 ^ k - 1)) in
  0 ≤ nb ∧ nb mod 2 ^ k = 0 ∧ nb + 2 ^ k ≤ 2 ^ 32.
Proof.
  intros Hk. assert (Hp : 0 < 2 ^ k ≤ 2 ^ 32).
  { split; [apply Z.pow_pos_nonneg; lia|apply Z.pow_le_mono_r; lia]. }
  rewrite (u32_small (2 ^ k - 1)) by word. rewrite clr_low_bits by lia. cbv zeta.
  pose proof (u32_range x) as Hx. unfold is_u32 in Hx. set (y := u32 x) in *. clearbody y.
  pose proof (Z.mod_pos_bound y (2 ^ k) ltac:(lia)).
  assert (E : y - y mod 2 ^ k = 2 ^ k * (y / 2 ^ k)) by (rewrite (Z.mod_eq y (2 ^ k)) by lia; lia).
  pose proof (Z.div_pos y (2 ^ k) ltac:(lia) ltac:(lia)).
  rewrite E. split_and!; [nia|rewrite Z.mul_comm; apply Z.mod_mul; lia|].
  assert (E32 : 2 ^ 32 = 2 ^ k * 2 ^ (32 - k)) by (rewrite <- Z.pow_add_r by lia; f_equal; lia).
  assert (y / 2 ^ k < 2 ^ (32 - k)); [apply Z.div_lt_upper_bound; [lia|rewrite <- E32; lia]|].
  nia.
Qed.

Lemma relocate_bar vm bus d n addr reg k nb d' :
  pci_inv vm bus → d ∈ devices bus → has_bar d n addr → region_at vm addr = Some reg →
  io_size reg = 2 ^ k → 4 ≤ k ≤ 31 → 0 ≤ nb → nb mod 2 ^ k = 0 → nb + 2 ^ k ≤ 2 ^ 32 →
  devfn d' = devfn d → dev_ok d' → (∀ i a, has_bar d' i a → has_bar d i a) →
  config_space d' = put_dword (config_space d) (0x10 + Z.of_nat n * 4) nb →
  (io_map_relocate_region_locked vm reg nb).2 = 0 →
  pci_inv (io_map_relocate_region_locked vm reg nb).1 (put_device bus d').
Proof.
  intros I Hd Hn Er Ek Hk4 H0 Hm H32 Ef Ok Hb Ec R.
  destruct (region_at_Some _ _ _ (pci_topo _ _ I) Er) as (Hin & Ea & T & Sp).
  assert (Hk : 0 < 2 ^ k) by (rewrite <- Ek; apply Sp).
  pose proof (relocate_inv vm reg nb (pci_topo _ _ I) ltac:(word) ltac:(by rewrite T)) as I'.
  pose proof (relocate_cases vm reg nb (pci_topo _ _ I) ltac:(word) ltac:(by rewrite T)) as C.
  destruct (io_map_relocate_region_locked vm reg nb) as [vm' ret]. cbn [fst snd] in *. subst ret.
  destruct C as [[? _]|(_ & E & _)]; [lia|]. rewrite T, Ea in E.
  assert (At : ∀ a, region_at vm' a = (fun r => if a =? addr then r <| Space.base := nb |> else r) <$> region_at vm a).
  { intros a. rewrite E. by apply region_at_update. }
  assert (Hn6 : (n < 6)%nat).
  { destruct Hn as (b & Hl%lookup_lt_Some & _). pose proof (pci_devs _ _ I) as F.
    rewrite Forall_forall in F. by rewrite (proj1 (F d Hd)) in Hl. }
  assert (L256 : length (config_space d) = 256%nat) 
    by (rewrite <- (length_put_dword _ (0x10 + Z.of_nat n * 4) nb), <- Ec; apply Ok).
  apply (pci_inv_update vm bus vm' d); try done.
  - intros i a Ha. pose proof (Hb i a Ha) as Hia.
    destruct (pci_bars _ _ I d i a Hd Hia) as (r & k' & Er' & Ek' & K1 & K2 & K3 & K4 & K5).
    assert (Em : memory_enabled d' = memory_enabled d).
    { unfold memory_enabled. rewrite Ec, aget_put_dword_ne by lia. done. }
    destruct (decide (a = addr)) as [->|Hne].
    + assert (i = n) as -> by (destruct (pci_owned _ _ I d d i n addr); done).
      rewrite Er in Er'. simplify_eq. rewrite Ek in Ek'.
      exists (r <| Space.base := nb |>), k. rewrite At, Er, Z.eqb_refl. split_and!; try done; [lia..| |by rewrite Em].
      rewrite Ec, dword_put by lia. rewrite u32_small by word. done.
    + exists r, k'. rewrite At, Er'. simpl. destruct (Z.eqb_spec a addr); [done|].
      split_and!; try done; [lia..| |by rewrite Em].
      rewrite <- K4, Ec. apply dword_ext. intros j Hj. apply aget_put_dword_ne; [lia..|].
      assert (i ≠ n); [|lia]. intros ->. destruct Hia as (b & Hl & Hr), Hn as (b' & Hl' & Hr'). congruence.
  - intros a Ha. rewrite At. destruct (Z.eqb_spec a addr) as [->|]; [by destruct (Ha n)|].
    by destruct (region_at vm a).
Qed.

Lemma bar_region_Some vm d i reg :
  bar_region vm d i = Some reg →
  ∃ addr, has_bar d (Z.to_nat i) addr ∧ region_at vm addr = Some reg.
Proof.
  unfold bar_region. intros E. destruct (bars d !! Z.to_nat i) as [b|] eqn:Eb; [|done].
  destruct (region b) as [addr|] eqn:Er; [|done]. exists addr. split; [by exists b|done].
Qed.

Lemma write_bar_inv vm bus d offset val size :
  pci_inv vm bus → d ∈ devices bus → 0x10 ≤ offset < 0x28 →
  let r := write_bar vm d offset val size in
  pci_inv r.1 (put_device bus r.2) ∧ devfn r.2 = devfn d.
Proof.
  intros I Hd Ho. pose proof (pci_devs _ _ I) as F. rewrite Forall_forall in F.
  pose proof (F d Hd) as Ok. unfold write_bar. cbv zeta.
  assert (Hn : 0 ≤ (offset - 16) / 4) by (apply Z.div_pos; lia).
  destruct (bar_region vm d ((offset - 16) / 4)) as [reg|] eqn:Er.
  2: { split; [|done]. by apply (pci_inv_keep vm bus d). }
  destruct (bar_region_Some _ _ _ _ Er) as (addr & Ha & Era). set (i := (offset - 16) / 4) in *. clearbody i.
  assert (Pr : ∀ v, pci_inv vm (put_device bus (d <| bars := alter (fun x => x <| probe := v |>) (Z.to_nat i) (bars d) |>))).
  { intros v. apply (pci_inv_keep vm bus d); try done; [by apply dev_ok_probe|].
    intros. by apply has_bar_probe in H. }
  destruct (_ && _); [split; [apply Pr|done]|].
  destruct (pci_bars _ _ I d _ addr Hd Ha) as (reg' & k & Er' & Ek & K1 & _).
  rewrite Era in Er'. injection Er' as <-. rewrite Ek.
  match goal with |- context [clr_bits (u32 ?x) (u32 (2 ^ k - 1))] =>
    pose proof (bar_base_range x k ltac:(lia)) as (N1 & N2 & N3);
    set (nb := clr_bits (u32 x) (u32 (2 ^ k - 1))) in * end.
  clearbody nb.
  pose proof (relocate_bar vm bus d (Z.to_nat i) addr reg k nb
    (d <| bars := alter (fun x => x <| probe := false |>) (Z.to_nat i) (bars d) |>
       <| config_space := put_dword (config_space d) (0x10 + i * 4) nb |>)) as R.
  pose proof (relocate_cases vm reg nb (pci_topo _ _ I)) as C.
  destruct (io_map_relocate_region_locked vm reg nb) as [vm' ret]. cbn [fst snd] in *.
  destruct (region_at_Some _ _ _ (pci_topo _ _ I) Era) as (Hin & Ea & T & Sp).
  specialize (C ltac:(word) ltac:(by rewrite T)).
  destruct (Z.eqb_spec ret 0) as [->|Hr]; cbn [negb fst snd].
  - split; [|done]. apply R; try done.
    + destruct (dev_ok_probe d (Z.to_nat i) false Ok) as [O1 O2]. split; [done|].
      simpl. by rewrite length_put_dword.
    + intros j a Hj. by apply (has_bar_probe d (Z.to_nat i) false).
    + simpl. by rewrite Z2Nat.id.
  - destruct C as [[_ ->]|(-> & _)]; [|done]. split; [apply Pr|done].
Qed.

(** ** Lemmas: the command register *)

Lemma write_byte_other val offset cfg l : ∀ j,
  0 ≤ offset → (∀ i, i ∈ l → 0 ≤ i) → 0 ≤ j →
  (j ≠ 4 ∧ j ≠ 5 ∧ j ≠ PCI_INTERRUPT_LINE) ∨ (∀ i, i ∈ l → j ≠ offset + i) →
  aget (foldl (write_byte val offset) cfg l) j = aget cfg j.
Proof.
  revert cfg. induction l as [|i l IH]; intros cfg j Ho Hl Hj Hd; [done|]. cbn [foldl].
  pose proof (Hl i ltac:(by left)). rewrite IH; [|done|intros ? ?; apply Hl; by right|done|].
  - unfold write_byte, PCI_INTERRUPT_LINE in *. cbv zeta.
    assert (Hne : j ≠ offset + i ∨ (j ≠ 4 ∧ j ≠ 5 ∧ j ≠ 0x3c))
      by (destruct Hd as [?|Hd]; [by right|left; apply Hd; by left]).
    destruct (Z.eqb_spec (offset + i) 4), (Z.eqb_spec (offset + i) 5), (Z.eqb_spec (offset + i) 0x3c);
      rewrite ?aget_aset_ne by lia; done.
  - destruct Hd as [?|Hd]; [by left|right]. intros k Hk. apply Hd. by right.
Qed.

Lemma length_write_bytes val offset l : ∀ cfg, length (foldl (write_byte val offset) cfg l) = length cfg.
Proof.
  induction l as [|i l IH]; intros cfg; [done|]. cbn [foldl]. rewrite IH. unfold write_byte. cbv zeta.
  destruct (_ =? _), (_ =? _), (_ =? _); by rewrite ?length_aset.
Qed.

(** The decoding switch follows the command register. *)
Lemma enable_bars_inv vm bus d d' :
  pci_inv vm bus → d ∈ devices bus → devfn d' = devfn d → dev_ok d' → bars d' = bars d →
  (∀ i, (i < 6)%nat → dword (config_space d') (0x10 + Z.of_nat i * 4) =
                      dword (config_space d) (0x10 + Z.of_nat i * 4)) →
  pci_inv (enable_bars vm d') (put_device bus d').
Proof.
  intros I Hd Ef Ok Eb Ew.
  pose proof (fun a => enable_list_spec (memory_enabled d') (bars d') vm a (pci_topo _ _ I)) as En.
  change (foldl (enable_step (memory_enabled d')) vm (bars d')) with (enable_bars vm d') in En.
  assert (Hb : ∀ i a, has_bar d' i a ↔ has_bar d i a) by (intros; unfold has_bar; by rewrite Eb).
  apply (pci_inv_update vm bus _ d); try done; [intros; by apply Hb|by destruct (En 0)| |].
  - intros i a Ha. destruct (pci_bars _ _ I d i a Hd (proj1 (Hb i a) Ha)) as (reg & k & Er & R & K1 & K2 & K3 & K4 & K5).
    destruct (En a) as [_ Ea]. destruct Ha as (b & Hl & Hr).
    assert (In : in_bars a (bars d') = true).
    { apply existsb_exists. exists b. split; [|by rewrite bool_decide_true].
      apply list_elem_of_In. by apply list_elem_of_lookup_2 in Hl. }
    rewrite In, Er in Ea. exists (reg <| enabled := memory_enabled d' |>), k.
    split; [exact Ea|]. split_and!; try done; [lia..|]. rewrite Ew; [done|].
    apply lookup_lt_Some in Hl. by rewrite (proj1 Ok) in Hl.
  - intros a Ha. destruct (En a) as [_ ->].
    assert (In : in_bars a (bars d') = false).
    { apply not_true_is_false. intros (b & Hin & Hr%bool_decide_eq_true)%existsb_exists.
      apply list_elem_of_In, list_elem_of_lookup in Hin as [i Hi]. apply (Ha i), Hb. by exists b. }
    rewrite In. by destruct (region_at vm a).
Qed.

(** ** Lemmas: registration *)

Lemma search_nonneg vm bus size b : search vm bus size = Some b → 0 ≤ b.
Proof.
  unfold search. intros E.
  pose proof (loop_inv (search_body vm bus size) (fun _ => True)
    (fun r => match r with Some b => 0 ≤ b | None => True end) (mmio_base bus)) as H.
  destruct (loop _ _) as [|r]; [done|]. subst r. apply H; [|done]. clear H. intros x _. unfold search_body.
  destruct (_ <? _); [done|]. cbv zeta. destruct (_ || _); [done|]. destruct (_ =? _); [|done].
  apply (clr_bits_range _ _ 64); [lia|apply u64_range].
Qed.

Lemma region_at_snoc vm reg a :
  region_at (vm <| io := set_io_list (io vm) IO_MMIO (io_list (io vm) IO_MMIO ++ [reg]) |>) a =
  match region_at vm a with
  | Some r => Some r
  | None => if reg_addr reg =? a then Some reg else None
  end.
Proof.
  unfold region_at.
  change (find (fun r => reg_addr r =? a) (io_list (io vm) IO_MMIO ++ [reg]) =
    match find (fun r => reg_addr r =? a) (io_list (io vm) IO_MMIO) with
    | Some r => Some r | None => if reg_addr reg =? a then Some reg else None end).
  induction (io_list (io vm) IO_MMIO) as [|r l IH]; [done|]. simpl. by destruct (reg_addr r =? a).
Qed.

Lemma region_at_None vm a : a ∉ (reg_addr <$> io_list (io vm) IO_MMIO) → region_at vm a = None.
Proof.
  intros Hn. apply find_all_false. intros r Hr. apply Z.eqb_neq. intros <-.
  apply Hn. by apply list_elem_of_fmap_2.
Qed.

Lemma has_bar_add d n addr i a :
  has_bar (d <| bars := alter (fun x => x <| region := Some addr |>) n (bars d) |>) i a →
  (i ≠ n ∧ has_bar d i a) ∨ (i = n ∧ a = addr).
Proof.
  intros (x & Hl & Hr). simpl in Hl. destruct (decide (i = n)) as [->|Hne].
  - rewrite list_lookup_alter_eq in Hl. destruct (bars d !! n); [|done]. simplify_eq/=. by right.
  - rewrite list_lookup_alter_ne in Hl by done. left. split; [done|]. by exists x.
Qed.

Lemma bar_added vm bus vm1 d n addr b k :
  pci_inv vm bus → d ∈ devices bus → (n < 6)%nat → 4 ≤ k ≤ 31 → b mod 2 ^ k = 0 → 0 ≤ b →
  b + 2 ^ k ≤ 2 ^ 32 → topology_inv vm1 → addr ∉ (reg_addr <$> io_list (io vm) IO_MMIO) →
  let reg := mk_io addr (owner d) b (2 ^ k) IO_MMIO true in
  vm1 = vm <| io := set_io_list (io vm) IO_MMIO (io_list (io vm) IO_MMIO ++ [reg]) |> →
  let d1 := d <| bars := alter (fun x => x <| region := Some addr |>) n (bars d) |> in
  pci_inv (io_region_set_enabled vm1 reg (memory_enabled d1))
    (put_device bus (d1 <| config_space := put_dword (config_space d1) (0x10 + Z.of_nat n * 4) b |>)).
Proof.
  intros I Hd Hn Hk Hm H0 H32 I1 Hfr reg E1 d1. pose proof (pci_devs _ _ I) as F.
  rewrite Forall_forall in F. destruct (F d Hd) as [O1 O2]. clear F.
  pose proof (region_at_None vm addr Hfr) as Nn.
  assert (R1 : ∀ a, region_at vm1 a = match region_at vm a with
    | Some r => Some r | None => if addr =? a then Some reg else None end).
  { intros a. rewrite E1. apply region_at_snoc. }
  assert (Ra : region_at vm1 addr = Some reg) by (by rewrite R1, Nn, Z.eqb_refl).
  pose proof (fun a => region_at_set_enabled vm1 reg (memory_enabled d1) a I1 Ra) as Re.
  assert (Re' : ∀ a, a ≠ addr → region_at (io_region_set_enabled vm1 reg (memory_enabled d1)) a = region_at vm a).
  { intros a Ha. rewrite Re, R1. cbn [reg reg_addr]. destruct (Z.eqb_spec a addr); [done|].
    destruct (Z.eqb_spec addr a); [done|]. by destruct (region_at vm a). }
  pose proof (has_bar_add d n addr) as Hb. fold d1 in Hb.
  assert (Em : aget (put_dword (config_space d) (0x10 + Z.of_nat n * 4) b) 4 = aget (config_space d) 4)
    by (apply aget_put_dword_ne; lia).
  apply (pci_inv_extend vm bus _ d _ n); try done.
  - split; simpl; [by rewrite length_alter|by rewrite length_put_dword].
  - intros i a [[_ ?]|[-> ->]]%Hb; [by left|right; done].
  - by apply set_enabled_inv.
  - intros i a Ha. destruct (Hb i a Ha) as [[Hne Hia]|[-> ->]].
    + destruct (pci_bars _ _ I d i a Hd Hia) as (r & k' & Er & Ek' & K1 & K2 & K3 & K4 & K5).
      exists r, k'. rewrite Re' by congruence. split_and!; try done; [lia..| |].
      * rewrite <- K4. simpl. apply dword_ext. intros j Hj. apply aget_put_dword_ne; lia.
      * rewrite K5. unfold memory_enabled. simpl. by rewrite Em.
    + exists (reg <| enabled := memory_enabled d1 |>), k. rewrite Re, Ra. cbn [reg reg_addr].
      rewrite Z.eqb_refl. split_and!; try done; [lia..| |].
      * simpl. rewrite dword_put by lia. apply u32_small. word.
      * simpl. unfold memory_enabled. simpl. by rewrite Em.
  - intros a _ Ha. apply Re'. congruence.
Qed.

Lemma register_bar_inv vm bus pool d index size requested_base a1 a2 :
  pci_inv vm bus → d ∈ devices bus → 0 ≤ index → is_u32 size → is_u64 requested_base →
  fresh_alloc vm a1 →
  let '(vm', _, d', _) := pci_register_bar_locked vm bus pool d index size requested_base a1 a2 in
  pci_inv vm' (put_device bus d').
Proof.
  intros I Hd Hi Hs Hr Hf. pose proof (pci_devs _ _ I) as F. rewrite Forall_forall in F.
  destruct (F d Hd) as [O1 O2]. clear F.
  assert (Same : pci_inv vm (put_device bus d)) by by apply (pci_inv_keep vm bus d).
  unfold pci_register_bar_locked.
  destruct (_ || _ || _ || _) eqn:G; [done|].
  apply orb_false_elim in G as [[[_ G1%Z.leb_gt]%orb_false_elim G2%Z.ltb_ge]%orb_false_elim G3].
  apply negb_false_iff, Z.eqb_eq in G3.
  destruct (pow2_test size ltac:(lia) G3) as (k & Hk & Ek).
  match goal with |- context [if ?c then (vm, pool, d, - VM_EEXIST) else _] => destruct c end; [done|].
  cbv zeta.
  assert (Bn : ∀ b, (if requested_base =? INVALID_GPA then search vm bus size else Some requested_base)
    = Some b → 0 ≤ b).
  { intros b. destruct (_ =? _); [apply search_nonneg|]. intros [= <-]. apply Hr. }
  destruct (if requested_base =? INVALID_GPA then search vm bus size else Some requested_base)
    as [b|]; [|done].
  specialize (Bn b eq_refl).
  destruct (negb _ || _) eqn:G; [done|].
  apply orb_false_elim in G as [G4%negb_false_iff%Z.eqb_eq G5%Z.ltb_ge].
  pose proof (register_cases vm IO_MMIO b size (owner d) pool true a1 a2 (pci_topo _ _ I)
    ltac:(word) ltac:(word) Hf) as C.
  pose proof (register_inv vm IO_MMIO b size (owner d) pool true a1 a2 (pci_topo _ _ I)
    ltac:(word) ltac:(word) Hf) as I'.
  destruct (io_map_register_region_locked _ _ _ _ _ _ _ _ _) as [[vm1 p1] [reg|e]];
    [|by destruct C as [_ ->]].
  destruct C as (E1 & (addr & -> & Hfr) & Sp & _). cbn [fst snd reg_addr] in *.
  pose proof (bar_added vm bus vm1 d (Z.to_nat index) addr b k I Hd) as A. cbv zeta in A.
  rewrite Z2Nat.id, <- Ek in A by done. apply A; try done; [lia| |lia].
  assert (2 ^ 4 ≤ 2 ^ k < 2 ^ 32) as [? ?] by (unfold is_u32 in Hs; lia).
  split; [apply (Z.pow_le_mono_r_iff 2)|apply Z.lt_succ_r, (Z.pow_lt_mono_r_iff 2)]; lia.
Qed.

Lemma register_device_inv vm bus pool dev same_vm addr alloc :
  pci_inv vm bus → dev_ok dev → Forall (fun b => region b = None) (bars dev) →
  let '(bus', _, _, _, _) := pci_device_register_locked bus pool dev same_vm addr alloc in
  pci_inv vm bus'.
Proof.
  intros I [O1 O2] Nb. unfold pci_device_register_locked.
  destruct (_ || _); [done|]. destruct (attached dev); [done|].
  set (od := if devfn dev =? PCI_AUTO_DEVFN then _ else _).
  assert (Od : ∀ d, od = Some d → length (config_space d) = 256%nat ∧ bars d = bars dev).
  { unfold od. intros d. destruct (_ =? _); [|by intros [= <-]].
    destruct (free_slot bus 1 31); [|done]. by intros [= <-]. }
  destruct od as [d|]; [|done]. destruct (Od d eq_refl) as [E1 E2]. clear Od.
  destruct (existsb _ _) eqn:Ex; [done|]. cbv zeta.
  destruct (ResPool.res_add_action _ _ _ _) as [[p'|] ret]; [|done].
  destruct (ret <? 0); [done|]. match goal with |- pci_inv vm (bus <| devices := _ ++ [?x] |>) => set (d1 := x) end.
  assert (Ed : devfn d1 = devfn d) by done. assert (Eb : bars d1 = bars dev) by done.
  assert (Nh : ∀ i a, ¬ has_bar d1 i a).
  { intros i a (b & Hl & Hr). rewrite Eb in Hl. apply list_elem_of_lookup_2 in Hl.
    rewrite Forall_forall in Nb. by rewrite Nb in Hr. }
  assert (Ok : dev_ok d1).
  { split; [by rewrite Eb|]. simpl. by rewrite !length_aset. }
  clearbody d1. destruct I as [I1 I2 I3 I4 I5]. split; simpl; [done| | | |].
  - rewrite fmap_app, NoDup_app. split_and!; [done| |apply NoDup_singleton].
    intros x (y & -> & Hy)%list_elem_of_fmap Hx%list_elem_of_singleton.
    pose proof (existsb_false_elem _ _ _ Ex Hy) as F. apply Z.eqb_neq in F. congruence.
  - apply Forall_app. by rewrite Forall_singleton.
  - intros x i a [Hx| ->%list_elem_of_singleton]%elem_of_app Ha; [by apply I4|by destruct (Nh i a)].
  - intros x x' i i' a [Hx| ->%list_elem_of_singleton]%elem_of_app
      [Hx'| ->%list_elem_of_singleton]%elem_of_app Ha Ha'; [|by destruct (Nh _ _ Ha')|by destruct (Nh _ _ Ha)..].
    by apply (I5 _ _ _ _ a).
Qed.

Lemma write_config_inv {B} (cb : option (B → pci_device → Z → B)) vm bus bridge fn offset val size :
  pci_inv vm bus → 0 ≤ offset →
  let '(vm', bus', _) := pci_bus_write_config_locked cb None vm bus bridge fn offset val size in
  pci_inv vm' bus'.
Proof.
  intros I Ho. unfold pci_bus_write_config_locked.
  destruct (config_access_ok offset size) eqn:G; cbn [negb]; [|done].
  destruct (pci_bus_find_device bus fn) as [d|] eqn:Ef; [|done].
  apply find_Some_elem in Ef as [Hd _].
  destruct (0x40 <=? offset); [done|].
  destruct ((0x10 <=? offset) && (offset <? 0x28)) eqn:Eb.
  { apply andb_prop in Eb as [?%Z.leb_le ?%Z.ltb_lt].
    pose proof (write_bar_inv vm bus d offset val size I Hd ltac:(lia)) as [W _].
    by destruct (write_bar vm d offset val size). }
  pose proof (pci_devs _ _ I) as F. rewrite Forall_forall in F. destruct (F d Hd) as [O1 O2]. clear F.
  set (cfg := foldl _ _ _). cbv zeta.
  pose proof (write_byte_other val offset (config_space d) (seqZ 0 size)) as Wb. fold cfg in Wb.
  assert (Lc : length cfg = 256%nat) by (unfold cfg; by rewrite length_write_bytes).
  assert (Sq : ∀ i, i ∈ seqZ 0 size → 0 ≤ i) by (intros i Hi%elem_of_seqZ; lia).
  assert (Ew : ∀ i, (i < 6)%nat → dword cfg (0x10 + Z.of_nat i * 4) = dword (config_space d) (0x10 + Z.of_nat i * 4)).
  { intros i Hi. apply dword_ext. intros j Hj. apply Wb; try done; [lia|left]. unfold PCI_INTERRUPT_LINE. lia. }
  clearbody cfg. clear Eb. destruct (_ && _) eqn:Ec.
  - unfold pci_device_set_irq_locked. destruct (negb _); cbv zeta.
    + by apply (enable_bars_inv vm bus d).
    + match goal with |- pci_inv _ (put_device bus ?x) => by apply (enable_bars_inv vm bus d x) end.
  - apply (pci_inv_keep vm bus d); try done. unfold memory_enabled. simpl. rewrite Wb; try done.
    right. intros i Hi%elem_of_seqZ. apply andb_false_iff in Ec as [?%Z.ltb_ge|?%Z.ltb_ge]; lia.
Qed.

(** ** Reading a BAR *)

Lemma find_device_elem bus d :
  NoDup (devfn <$> devices bus) → d ∈ devices bus → pci_bus_find_device bus (devfn d) = Some d.
Proof.
  intros N Hd. apply find_unique; [done|by apply Z.eqb_refl|]. intros y Hy E%Z.eqb_eq.
  by apply (devfn_inj bus).
Qed.

Lemma probe_value k : 0 ≤ k ≤ 31 → u32 (Z.lnot (u32 (2 ^ k - 1))) = 2 ^ 32 - 2 ^ k.
Proof.
  intros Hk. assert (1 ≤ 2 ^ k ≤ 2 ^ 31).
  { pose proof (Z.pow_pos_nonneg 2 k). pose proof (Z.pow_le_mono_r 2 k 31). lia. }
  rewrite (u32_small (2 ^ k - 1)) by word. unfold Z.lnot, u32.
  replace (Z.pred (- (2 ^ k - 1))) with (2 ^ 32 - 2 ^ k + (-1) * 2 ^ 32) by lia.
  rewrite Z.mod_add by lia. apply Z.mod_small. lia.
Qed.

Lemma read_bar vm bus d i addr reg :
  pci_inv vm bus → d ∈ devices bus → has_bar d i addr → region_at vm addr = Some reg →
  pci_bus_read_config_locked None vm bus (devfn d) (0x10 + Z.of_nat i * 4) 4 =
  if match bars d !! i with Some b => probe b | None => false end
  then 2 ^ 32 - io_size reg else Space.base reg.
Proof.
  intros I Hd (b & Hl & Hr) Er. pose proof (pci_devs _ _ I) as F. rewrite Forall_forall in F.
  destruct (F d Hd) as [O1 O2]. pose proof (lookup_lt_Some _ _ _ Hl) as Hi. rewrite O1 in Hi.
  destruct (pci_bars _ _ I d i addr Hd ltac:(by exists b)) as (reg' & k & Er' & Ek & K1 & K2 & K3 & K4 & _).
  rewrite Er in Er'. injection Er' as <-. unfold pci_bus_read_config_locked.
  assert (Ea : config_access_ok (0x10 + Z.of_nat i * 4) 4 = true).
  { unfold config_access_ok, PCI_CONFIG_SPACE_SIZE. cbn [Z.eqb Pos.eqb orb andb].
    apply andb_true_intro. split; [apply Z.eqb_eq|apply Z.leb_le; lia].
    replace (0x10 + Z.of_nat i * 4) with ((4 + Z.of_nat i) * 4) by lia. apply Z.mod_mul. lia. }
  rewrite Ea. cbn [negb]. rewrite find_device_elem; [|apply I|done]. rewrite Hl.
  assert (Cb : ∀ j, 0 ≤ j < 4 → config_byte vm d (0x10 + Z.of_nat i * 4 + j) =
    if probe b then u8 (Z.shiftr (2 ^ 32 - io_size reg) (j * 8))
    else aget (config_space d) (0x10 + Z.of_nat i * 4 + j)).
  { intros j Hj. unfold config_byte.
    destruct (Z.leb_spec 0x10 (0x10 + Z.of_nat i * 4 + j)); [|lia].
    destruct (Z.ltb_spec (0x10 + Z.of_nat i * 4 + j) 0x28); [|lia]. cbn [andb].
    replace ((0x10 + Z.of_nat i * 4 + j - 0x10) / 4) with (Z.of_nat i)
      by (apply (Z.div_unique _ 4 _ j); lia).
    replace ((0x10 + Z.of_nat i * 4 + j) mod 4) with j by (apply (Z.mod_unique _ 4 (4 + Z.of_nat i)); lia).
    unfold bar_region. rewrite Nat2Z.id, Hl, Hr, Er. cbv zeta. rewrite Ek, probe_value by lia. done. }
  destruct (probe b) eqn:Ep.
  - rewrite (assemble_bytes (2 ^ 32 - io_size reg)) by done.
    apply u32_small. rewrite Ek. pose proof (Z.pow_le_mono_r 2 k 31). pose proof (Z.pow_pos_nonneg 2 k). word.
  - rewrite <- K4. unfold dword. change (seqZ 0 4) with [0; 1; 2; 3]. cbn [foldl]. by rewrite !Cb by lia.
Qed.

(** ** The bus *)

(** What happens to a bus and the machine around it: an endpoint registers,
    registers a BAR, or the guest writes its configuration space. *)
Inductive pci_step {B : Type} : vm_ctx * pci_bus → vm_ctx * pci_bus → Prop :=
  | step_device vm bus pool dev same_vm addr alloc bus' pool' dev' parent ret :
      dev_ok dev → Forall (fun b => region b = None) (bars dev) →
      pci_device_register_locked bus pool dev same_vm addr alloc = (bus', pool', dev', parent, ret) →
      pci_step (vm, bus) (vm, bus')
  | step_bar vm bus pool dev index size requested_base a1 a2 vm' pool' dev' ret :
      dev ∈ devices bus → 0 ≤ index → is_u32 size → is_u64 requested_base → fresh_alloc vm a1 →
      pci_register_bar_locked vm bus pool dev index size requested_base a1 a2 = (vm', pool', dev', ret) →
      pci_step (vm, bus) (vm', put_device bus dev')
  | step_config (set_irq_cb : option (B → pci_device → Z → B)) vm bus bridge fn offset val size
      vm' bus' bridge' :
      0 ≤ offset →
      pci_bus_write_config_locked set_irq_cb None vm bus bridge fn offset val size = (vm', bus', bridge') →
      pci_step (vm, bus) (vm', bus').

Lemma pci_step_inv {B} s s' : pci_step (B := B) s s' → pci_inv s.1 s.2 → pci_inv s'.1 s'.2.
Proof.
  intros [vm bus pool dev same_vm addr alloc bus' pool' dev' parent ret Ok Nb E
         |vm bus pool dev index size rb a1 a2 vm' pool' dev' ret Hd Hi Hs Hr Hf E
         |cb vm bus bridge fn offset val size vm' bus' bridge' Ho E] I; cbn [fst snd] in *.
  - pose proof (register_device_inv vm bus pool dev same_vm addr alloc I Ok Nb) as R. by rewrite E in R.
  - pose proof (register_bar_inv vm bus pool dev index size rb a1 a2 I Hd Hi Hs Hr Hf) as R.
    by rewrite E in R.
  - pose proof (write_config_inv cb vm bus bridge fn offset val size I Ho) as R. by rewrite E in R.
Qed.

Lemma pci_reach_inv {B} s s' : rtc (pci_step (B := B)) s s' → pci_inv s.1 s.2 → pci_inv s'.1 s'.2.
Proof. induction 1; [done|]. intros I. apply IHrtc. by apply (pci_step_inv (B := B) x). Qed.

(** C13. What the guest programs is what the bus decodes.  After any sequence
    of endpoint registrations, BAR registrations and guest writes to
    configuration space, starting from an empty bus on a well-formed machine:
    the machine is still well formed (no two regions overlap and none overlaps
    RAM); functions have different numbers; and each BAR has a region of its
    own, naturally aligned below 4 GiB, that decodes exactly when the memory
    bit of the command register is set, and reading the BAR register returns
    the address of that region, or the size mask while the guest probes. *)
Theorem pci_bars_coherent {B} vm0 bus0 vm bus :
  topology_inv vm0 → devices bus0 = [] → rtc (pci_step (B := B)) (vm0, bus0) (vm, bus) →
  topology_inv vm ∧ NoDup (devfn <$> devices bus) ∧
  (∀ d d' i i' addr, d ∈ devices bus → d' ∈ devices bus → has_bar d i addr → has_bar d' i' addr →
     devfn d = devfn d' ∧ i = i') ∧
  ∀ d i addr, d ∈ devices bus → has_bar d i addr →
    ∃ reg, region_at vm addr = Some reg ∧
      Space.base reg mod io_size reg = 0 ∧ Space.base reg + io_size reg ≤ 2 ^ 32 ∧
      enabled reg = memory_enabled d ∧
      pci_bus_read_config_locked None vm bus (devfn d) (0x10 + Z.of_nat i * 4) 4 =
        if match bars d !! i with Some b => probe b | None => false end
        then 2 ^ 32 - io_size reg else Space.base reg.
Proof.
  intros I0 E0 R. assert (I : pci_inv vm bus).
  { apply (pci_reach_inv _ _ R). split; simpl; rewrite ?E0; [done|constructor|constructor|..]; set_solver. }
  split_and!; [apply I|apply I|apply (pci_owned _ _ I)|]. intros d i addr Hd Ha.
  destruct (pci_bars _ _ I d i addr Hd Ha) as (reg & k & Er & Ek & K1 & K2 & K3 & K4 & K5).
  exists reg. rewrite Ek. split_and!; try done. rewrite <- Ek. by apply (read_bar vm bus d i addr).
Qed.

(** ** Witnesses *)

Definition example_bus : pci_bus := mk_bus [] 7 0x8000 0xb000.

Definition example_pci : pci_device :=
  mk_pci false 9 PCI_AUTO_DEVFN 1 false (replicate 6 (mk_bar None false)) (replicate 256 0).

Lemma pci_bar_first_fit_witness :
  search example_machine example_bus 0x1000 = Some 0xa000 ∧
  ∀ b, 0x8000 ≤ b → b mod 0x1000 = 0 → b + 0x1000 ≤ 0xb000 → free_at example_machine b 0x1000 → 0xa000 ≤ b.
Proof.
  assert (E : search example_machine example_bus 0x1000 = Some 0xa000) by (vm_compute; reflexivity).
  split; [exact E|].
  destruct (pci_bar_first_fit example_machine example_bus 0x1000 example_machine_inv) as [_ H];
    [vm_compute; congruence..|unfold is_u32; lia|lia|vm_compute; reflexivity|].
  rewrite E in H. destruct H as [_ H]. intros b H1 H2 H3 H4. exact (H b (conj H1 (conj H2 (conj H3 H4)))).
Defined.

(** The endpoint registers, gets a BAR of 4 KiB, the guest enables memory
    decoding and moves the BAR. *)
Definition example_pci1 := (pci_device_register_locked example_bus (ResPool.mk_pool 0 [] false) example_pci
  true 0x7000 (Some 0x7100)).1.1.1.1.
Definition example_pci_dev (bus : pci_bus) : pci_device :=
  match devices bus with d :: _ => d | [] => example_pci end.
Definition example_pci2 := pci_register_bar_locked example_machine example_pci1 (ResPool.mk_pool 0 [] false)
  (example_pci_dev example_pci1) 0 0x1000 INVALID_GPA (Some 0x7200) (Some 0x7300).
Definition example_pci3 :=
  pci_bus_write_config_locked (B := unit) None None example_pci2.1.1.1
    (put_device example_pci1 example_pci2.1.2) tt 8 4 2 2.
Definition example_pci4 :=
  pci_bus_write_config_locked (B := unit) None None example_pci3.1.1 example_pci3.1.2 tt 8 0x10 0xe0000000 4.

Lemma example_fresh : fresh_alloc example_machine (Some 0x7200).
Proof. intros a t [= <-]. destruct t; apply (bool_decide_unpack _); vm_compute; exact I. Qed.

Lemma pci_bars_coherent_witness :
  ∃ reg, region_at example_pci4.1.1 (0x7200 + 48) = Some reg ∧ enabled reg = true ∧
    pci_bus_read_config_locked None example_pci4.1.1 example_pci4.1.2 8 0x10 4 = Space.base reg.
Proof.
  destruct (pci_bars_coherent (B := unit) example_machine example_bus example_pci4.1.1 example_pci4.1.2)
    as (_ & _ & _ & H).
  - exact example_machine_inv.
  - reflexivity.
  - eapply rtc_l; [|eapply rtc_l; [|eapply rtc_l; [|eapply rtc_l; [|apply rtc_refl]]]].
    + eapply (step_device _ _ (ResPool.mk_pool 0 [] false) example_pci true 0x7000 (Some 0x7100) example_pci1
        _ _ _ _); [split; reflexivity|repeat constructor|vm_compute; reflexivity].
    + eapply (step_bar _ _ (ResPool.mk_pool 0 [] false) (example_pci_dev example_pci1) 0 0x1000 INVALID_GPA
        (Some 0x7200) (Some 0x7300) example_pci2.1.1.1 example_pci2.1.1.2 example_pci2.1.2 example_pci2.2);
        [vm_compute; left|lia|unfold is_u32; lia|vm_compute; split; congruence|exact example_fresh|].
      vm_compute; reflexivity.
    + eapply (step_config None _ _ tt 8 4 2 2 example_pci3.1.1 example_pci3.1.2 tt); [lia|vm_compute; reflexivity].
    + eapply (step_config None _ _ tt 8 0x10 0xe0000000 4 _ _ tt); [lia|vm_compute; reflexivity].
  - destruct (H (example_pci_dev example_pci4.1.2) 0%nat (0x7200 + 48)) as (reg & H1 & _ & _ & H2 & H3);
      [vm_compute; left|eexists; split; vm_compute; reflexivity|].
    exists reg. split; [exact H1|]. split; [rewrite H2; vm_compute; reflexivity|].
    replace (match bars (example_pci_dev example_pci4.1.2) !! 0%nat with Some b => probe b | None => false end)
      with false in H3 by (vm_compute; reflexivity).
    replace (devfn (example_pci_dev example_pci4.1.2)) with 8 in H3 by (vm_compute; reflexivity).
    exact H3.
Defined.

End Pci.
