(* ===== verification/VirtioPci.v ===== *)
(** * The PCI VirtIO transport (src/hw/virtio/virtio_pci.c)

    The capability list a guest discovers the device by, and BAR 0 behind it:
    the common configuration, the doorbell, the interrupt status and the
    device configuration. *)

From S2P Require Import Prelude HostMem ResPool Topology Virtqueue Virtio VirtioMmio Pci.

Module VPci.
Import Vq Virtio Pci.

Definition VIRTIO_PCI_CAP_COMMON_CFG : Z := 1.
Definition VIRTIO_PCI_CAP_NOTIFY_CFG : Z := 2.
Definition VIRTIO_PCI_CAP_ISR_CFG : Z := 3.
Definition VIRTIO_PCI_CAP_DEVICE_CFG : Z := 4.

(** Offsets in struct virtio_pci_common_cfg, whose first 24 bytes are struct
    virtio_pci_global_cfg and whose last 32 are struct virtio_pci_queue_cfg. *)
Definition device_feature_select : Z := 0.
Definition device_feature : Z := 4.
Definition guest_feature_select : Z := 8.
Definition guest_feature : Z := 12.
Definition msix_config : Z := 16.
Definition num_queues : Z := 18.
Definition device_status : Z := 20.
Definition queue_select : Z := 22.
Definition queue_size_off : Z := 24.
Definition sizeof_global_cfg : Z := 24.
Definition sizeof_queue_cfg : Z := 32.
Definition sizeof_common_cfg : Z := 56.

(** Offsets in struct virtio_pci_queue_cfg. *)
Definition q_size : Z := 0.
Definition q_msix_vector : Z := 2.
Definition q_enable : Z := 4.
Definition q_notify_off : Z := 6.
Definition q_desc_lo : Z := 8.
Definition q_desc_hi : Z := 12.
Definition q_avail_lo : Z := 16.
Definition q_avail_hi : Z := 20.
Definition q_used_lo : Z := 24.
Definition q_used_hi : Z := 28.

Section Ctx.
Context {D B : Type}.

(** struct virtio_pci_ctx.  [vdev] is the device behind the pointer, [bridge]
    what the interrupt closure of the bus refers to; the two configuration
    structures are kept as their bytes. *)
Record virtio_pci_ctx : Type := mk_vpci {
  pci_dev : pci_device;
  bridge : B;
  vdev : virtio_device D;
  common_cfg : list Z;
  queues : list (list Z);
  isr_status : Z;
}.

Definition eta_vpci (c : virtio_pci_ctx) : virtio_pci_ctx :=
  mk_vpci (pci_dev c) (bridge c) (vdev c) (common_cfg c) (queues c) (isr_status c).
#[export] Instance set_pci_dev : Setter pci_dev := ltac:(derive_setter eta_vpci).
#[export] Instance set_bridge : Setter bridge := ltac:(derive_setter eta_vpci).
#[export] Instance set_vdev : Setter vdev := ltac:(derive_setter eta_vpci).
#[export] Instance set_common_cfg : Setter common_cfg := ltac:(derive_setter eta_vpci).
#[export] Instance set_queues : Setter queues := ltac:(derive_setter eta_vpci).
#[export] Instance set_isr_status : Setter isr_status := ltac:(derive_setter eta_vpci).

(** [ctx->queues[q]]. *)
Definition queue_cfg (c : virtio_pci_ctx) (q : Z) : list Z := default [] (queues c !! Z.to_nat q).
End Ctx.
Arguments virtio_pci_ctx : clear implicits.

Section Transport.
Context {D B : Type} `{VirtioOps D}.
Variable set_irq_cb : option (B → pci_device → Z → B).

Abbreviation ctx := (virtio_pci_ctx D B).

(** ** Interrupts *)

(** [pci_device_set_irq_locked(&ctx->pci_dev, level)]. *)
Definition set_irq (c : ctx) (level : Z) : ctx :=
  let '(b, d) := pci_device_set_irq_locked set_irq_cb (bridge c) (pci_dev c) level in
  c <| bridge := b |> <| pci_dev := d |>.

Definition virtio_pci_transport_notify_queue (c : ctx) : ctx :=
  set_irq (c <| isr_status := set_bits (isr_status c) 1 |>) 1.

Definition virtio_pci_failed (c : ctx) : ctx :=
  set_irq (c <| isr_status := set_bits (isr_status c) 2 |>) 1.

Definition deliver (c : ctx) (n : notification) : ctx :=
  match n with
  | NotifyQueue => virtio_pci_transport_notify_queue c
  | NotifyConfig => virtio_pci_failed c
  end.

(** ** Reading BAR 0 *)

(** The common configuration. *)
Definition common_read (c : ctx) (offset size : Z) : Z :=
  let v := vdev c in
  if (offset =? device_status) && (size =? 1) then status v
  else if offset =? device_feature then
    let features := Z.lor (ops_get_features v) VIRTIO_F_VERSION_1 in
    if get_le (common_cfg c) device_feature_select 4 =? 0 then u32 (Z.land features 0xFFFFFFFF)
    else if get_le (common_cfg c) device_feature_select 4 =? 1
    then u32 (Z.land (Z.shiftr features 32) 0xFFFFFFFF)
    else 0
  else if offset =? guest_feature then
    let selector := get_le (common_cfg c) guest_feature_select 4 in
    if selector <? 2 then u32 (Z.shiftr (driver_features v) (selector * 32)) else 0
  else if queue_size_off <=? offset then
    let q := get_le (common_cfg c) queue_select 2 in
    let off := offset - queue_size_off in
    if (nr_vqs v <=? q) || (sizeof_queue_cfg <? off + size) then 0
    else get_le (queue_cfg c q) off size
  else if sizeof_global_cfg <? offset + size then 0
  else if (size =? 1) || (size =? 2) || (size =? 4) then get_le (common_cfg c) offset size
  else 0.

Definition virtio_pci_bar0_read (c : ctx) (offset size : Z) : ctx * Z :=
  if offset <? sizeof_common_cfg then (c, common_read c offset size)
  else if offset =? 0x200 then
    let val := isr_status c in
    (set_irq (c <| isr_status := 0 |>) 0, val)
  else if 0x300 <=? offset then
    (c, match ops_read_config with
        | Some read_config => read_config (vdev c) (offset - 0x300) size
        | None => 0
        end)
  else (c, 0).

(** ** Writing BAR 0 *)

(** [((uint64_t)le32_to_cpu(q->hi) << 32) | le32_to_cpu(q->lo)]. *)
Definition assemble (q : list Z) (hi lo : Z) : Z :=
  Z.lor (u64 (Z.shiftl (get_le q hi 4) 32)) (get_le q lo 4).

(** The two calls that enable queue [q_sel]; is the second result false, the
    first is as far as they came. *)
Definition enable_queue (v : virtio_device D) (q : list Z) (q_sel : Z) (vq : virtqueue) :
    virtio_device D * bool :=
  let put vq := v <| vqs := <[Z.to_nat q_sel := vq]> (vqs v) |> in
  let '(vq, ret) := virtqueue_set_size vq (get_le q q_size 2) in
  if negb (ret =? 0) then (put vq, false)
  else
    let '(vq, ret) := virtqueue_set_addrs vq (assemble q q_desc_hi q_desc_lo)
                        (assemble q q_avail_hi q_avail_lo) (assemble q q_used_hi q_used_lo) in
    (put vq, ret =? 0).

(** The fields of the selected queue; [off] is an offset in its structure. *)
Definition queue_write (c : ctx) (q_sel off val size : Z) : ctx :=
  let v := vdev c in
  let q := queue_cfg c q_sel in
  match vqs v !! Z.to_nat q_sel with
  | None => c
  | Some vq =>
      if sizeof_queue_cfg <? off + size then c
      else if ((off <? 8) && (negb (size =? 2) || negb (off mod 2 =? 0))) ||
              ((8 <=? off) && negb (((size =? 4) && (off mod 4 =? 0)) || ((size =? 8) && (off mod 8 =? 0))))
      then c
      else if negb (get_le q q_enable 2 =? 0) then c
      else if (off =? q_notify_off) || (off =? q_msix_vector) then c
      else if (off =? q_size) &&
              ((val =? 0) || negb (Z.land val (val - 1) =? 0) || (virtqueue_get_max_size vq <? val))
      then c
      else
        let '(v, go) :=
          if off =? q_enable
          then if negb (val =? 1) then (v, false) else enable_queue v q q_sel vq
          else (v, true) in
        let c := c <| vdev := v |> in
        if go then c <| queues := <[Z.to_nat q_sel := put_le q off size val]> (queues c) |> else c
  end.

(** The loop that gives the first queues their values after a reset. *)
Definition queue_defaults (qs : list (list Z)) (vq : list virtqueue) : list (list Z) :=
  ((fun vq => put_le (put_le (replicate 32 0) q_size 2 (virtqueue_get_max_size vq)) q_msix_vector 2 0xffff)
     <$> vq) ++ drop (length vq) qs.

Definition common_defaults (cfg : list Z) (v : virtio_device D) : list Z :=
  put_le (put_le cfg num_queues 2 (nr_vqs v)) msix_config 2 0xffff.

(** The fields about the whole device. *)
Definition global_write (c : ctx) (offset val size : Z) : ctx :=
  let v := vdev c in
  if negb (((size =? 4) && ((offset =? 0) || (offset =? 8) || (offset =? 12)))
           || ((size =? 1) && (offset =? 20)) || ((size =? 2) && (offset =? 22)))
  then c
  else if sizeof_global_cfg <? offset + size then c
  else if offset =? guest_feature then
    c <| vdev := virtio_device_set_features_locked v (get_le (common_cfg c) guest_feature_select 4) (u32 val) |>
  else
    let c :=
      if size =? 1 then c <| vdev := virtio_device_set_status_locked v val |>
      else c <| common_cfg := put_le (common_cfg c) offset size val |> in
    if (offset =? device_status) && (val =? 0) then
      let v := vdev c in
      let c := c <| common_cfg := common_defaults (replicate 24 0) v |> in
      let c := set_irq (c <| isr_status := 0 |>) 0 in
      c <| queues := queue_defaults (queues c) (vqs v) |>
    else c.

(** [g] is what the guest does while a notification is handled, [m] the host
    memory before and after. *)
Definition virtio_pci_bar0_write (g : guest) (c : ctx) (m : hmem) (offset val size : Z) : ctx * hmem :=
  let v := vdev c in
  if offset <? sizeof_common_cfg then
    if queue_size_off <=? offset
    then (queue_write c (get_le (common_cfg c) queue_select 2) (offset - queue_size_off) val size, m)
    else (global_write c offset val size, m)
  else if offset =? 0x100 then
    let q_sel := u16 val in
    if (q_sel <? nr_vqs v) && negb (get_le (queue_cfg c q_sel) q_enable 2 =? 0)
       && virtio_device_ready_locked v
    then
      let '(v, m, ns) := ops_notify_queue g v m q_sel in
      (foldl deliver (c <| vdev := v |>) ns, m)
    else (c, m)
  else if 0x300 <=? offset then
    match ops_write_config with
    | Some write_config => (c <| vdev := write_config v (offset - 0x300) (u32 val) size |>, m)
    | None => (c, m)
    end
  else (c, m).

Definition virtio_pci_stop (c : ctx) : ctx :=
  set_irq (c <| vdev := virtio_device_stop_locked (vdev c) |>) 0.

(** ** Configuration space *)

(** struct virtio_pci_cap, as the [memcpy] lays it out at [at]. *)
Definition put_cap (cfg : list Z) (at_ vndr next len type bar offset length : Z) : list Z :=
  let cfg := aset (aset (aset (aset cfg at_ vndr) (at_ + 1) next) (at_ + 2) len) (at_ + 3) type in
  let cfg := aset (aset cfg (at_ + 4) bar) (at_ + 5) 0 in
  let cfg := aset (aset cfg (at_ + 6) 0) (at_ + 7) 0 in
  put_le (put_le cfg (at_ + 8) 4 offset) (at_ + 12) 4 length.

Definition virtio_pci_build_config_space (cfg : list Z) (device_id : Z) : list Z :=
  let '(class_code, subclass) :=
    if device_id =? 1 then (0x02, 0x00) else if device_id =? 2 then (0x01, 0x80) else (0xFF, 0xFF) in
  (* PCI header type 0 *)
  let cfg := put_le cfg 0x00 2 0x1AF4 in
  let cfg := put_le cfg 0x02 2 (0x1040 + device_id) in
  let cfg := put_le cfg 0x04 2 0x0002 in
  let cfg := put_le cfg 0x06 2 0x0010 in
  let cfg := aset cfg 0x08 0x01 in
  let cfg := aset cfg 0x09 0x00 in
  let cfg := aset cfg 0x0A subclass in
  let cfg := aset cfg 0x0B class_code in
  let cfg := put_le cfg 0x2C 2 0x1AF4 in
  let cfg := put_le cfg 0x2E 2 device_id in
  let cfg := aset cfg 0x34 0x40 in
  (* the four capabilities *)
  let cfg := put_cap cfg 0x40 0x09 0x50 16 VIRTIO_PCI_CAP_COMMON_CFG 0 0x000 0x100 in
  let cfg := put_cap cfg 0x50 0x09 0x68 20 VIRTIO_PCI_CAP_NOTIFY_CFG 0 0x100 0x100 in
  let cfg := put_le cfg 0x60 4 0 in
  let cfg := put_cap cfg 0x68 0x09 0x78 16 VIRTIO_PCI_CAP_ISR_CFG 0 0x200 1 in
  put_cap cfg 0x78 0x09 0x00 16 VIRTIO_PCI_CAP_DEVICE_CFG 0 0x300 0x100.

(** ** Realizing the transport *)

(** struct virtio_pci_pdata; [pdata_bus] says whether the bus is given, which
    is then the argument [bus] of the realization. *)
Record virtio_pci_pdata : Type := mk_pdata {
  pdata_bus : bool;
  pdata_vdev : option (virtio_device D);
  pdata_devfn : Z;
  pdata_interrupt_pin : Z;
  pdata_bar0_base : Z;
}.

Definition sizeof_virtio_pci_ctx : Z := 704.

(** The context and the registers once the device model is realized. *)
Definition fresh_ctx (v : virtio_device D) (b : B) (dev fn pin : Z) : ctx :=
  let pci := mk_pci false dev fn pin false (replicate 6 (mk_bar None false)) (replicate 256 0) in
  let c := mk_vpci pci b v (replicate 24 0) (replicate 8 (replicate 32 0)) 0 in
  let c := c <| common_cfg := common_defaults (common_cfg c) v |> in
  let c := c <| queues := queue_defaults (queues c) (vqs v) |> in
  c <| pci_dev := pci <| config_space :=
         virtio_pci_build_config_space (config_space pci) (device_id v) |> |>.

(** [dev] is the transport device with the pool [dev_pool], [same_vm] says that
    it belongs to the machine of the bus; [addr] is the address of the VirtIO
    device; [allocs] are the outcomes of the device model's allocations,
    [alloc0] to [alloc3] what the allocator returns to the context, to the
    endpoint's cleanup action, to the region and to its cleanup action. *)
Definition virtio_pci_realize (vm : Space.vm_ctx) (vm_pool dev_pool : pool) (bus : pci_bus) (b : B)
    (dev addr : Z) (same_vm : bool) (pdata : option virtio_pci_pdata) (allocs : nat → bool)
    (alloc0 alloc1 alloc2 alloc3 : option Z) :
    Space.vm_ctx * pool * pool * pci_bus * option ctx * Z :=
  match pdata with
  | Some (mk_pdata true (Some v) fn pin bar0_base) =>
      match ResPool.res_zalloc (Some dev_pool) sizeof_virtio_pci_ctx alloc0 with
      | (Some dev_pool, Some ctx_addr) =>
          let '(vm_pool, dev_pool, v, ret) :=
            virtio_device_adopt_locked vm_pool dev_pool dev addr v true in
          if ret <? 0 then (vm, vm_pool, dev_pool, bus, None, ret)
          else
            let '(v, ret) := virtio_device_realize_locked allocs v in
            let c := fresh_ctx v b dev fn pin in
            if ret <? 0 then (vm, vm_pool, dev_pool, bus, Some c, ret)
            else
              let '(bus, dev_pool, pci, _, ret) :=
                pci_device_register_locked bus dev_pool (pci_dev c) same_vm ctx_addr alloc1 in
              let c := c <| pci_dev := pci |> in
              if ret <? 0 then (vm, vm_pool, dev_pool, bus, Some c, ret)
              else
                let '(vm, dev_pool, pci, ret) :=
                  pci_register_bar_locked vm bus dev_pool pci 0 0x1000 bar0_base alloc2 alloc3 in
                let c := c <| pci_dev := pci |> in
                (vm, vm_pool, dev_pool, put_device bus pci, Some c, if ret <? 0 then ret else 0)
      | (Some dev_pool, None) => (vm, vm_pool, dev_pool, bus, None, - VM_ENOMEM)
      | (None, _) => (vm, vm_pool, dev_pool, bus, None, - VM_ENOMEM)
      end
  | _ => (vm, vm_pool, dev_pool, bus, None, - VM_EINVAL)
  end.

End Transport.

(** ** Invariant *)

(** What the registers of a queue and the queue itself have to do with each
    other. *)
Definition queue_matches (r : list Z) (q : virtqueue) : Prop :=
  is_pow2_size (get_le r q_size 2) ∧ get_le r q_size 2 ≤ max_size q ∧
  if get_le r q_enable 2 =? 0 then vq_enabled q = false
  else
    vq_enabled q = true ∧ queue_size q = get_le r q_size 2 ∧
    desc_table q = Space.mem_map_range (vq_mem q) (assemble r q_desc_hi q_desc_lo) (16 * queue_size q) false ∧
    avail_ring q = Space.mem_map_range (vq_mem q) (assemble r q_avail_hi q_avail_lo) (6 + 2 * queue_size q) false ∧
    used_ring q = Space.mem_map_range (vq_mem q) (assemble r q_used_hi q_used_lo) (6 + 8 * queue_size q) true.

(** A structure of [n] bytes. *)
Definition bytes (n : nat) (l : list Z) : Prop := length l = n ∧ Forall is_u8 l.

Section Reach.
Context {D B : Type} `{VirtioOps D}.
Variable set_irq_cb : option (B → pci_device → Z → B).

Record vpci_inv (c : virtio_pci_ctx D B) : Prop := {
  vp_attached : attached (pci_dev c) = true;
  vp_irq : irq_level (pci_dev c) = negb (isr_status c =? 0);
  vp_common : bytes 24 (common_cfg c);
  vp_queues : length (queues c) = 8%nat ∧ Forall (bytes 32) (queues c);
  vp_num : get_le (common_cfg c) num_queues 2 = nr_vqs (vdev c);
  vp_protocol : protocol_inv (vdev c);
  vp_device : queues_inv (vdev c);
  vp_count : (length (vqs (vdev c)) ≤ 8)%nat;
  vp_match : ∀ i q r, vqs (vdev c) !! i = Some q → queues c !! i = Some r → queue_matches r q;
}.

Context `{!VirtioLaws D}.

(** ** Lemmas: changing a part of the context *)

Lemma cfg_matches_config r q q' : same_config q q' → queue_matches r q → queue_matches r q'.
Proof.
  intros (C1 & C2 & C3 & C4 & C5 & C6 & C7). unfold queue_matches. by rewrite C1, C2, C3, C4, C5, C6, C7.
Qed.

(** The device changes, with its queues' configuration kept, or the
    interrupt state does. *)
Lemma vpci_inv_device c c' :
  vpci_inv c → common_cfg c' = common_cfg c → queues c' = queues c →
  attached (pci_dev c') = true → irq_level (pci_dev c') = negb (isr_status c' =? 0) →
  protocol_inv (vdev c') → queues_inv (vdev c') →
  Forall2 same_config (vqs (vdev c)) (vqs (vdev c')) → vpci_inv c'.
Proof.
  intros [I1 I2 I3 I4 I5 I6 I7 I8 I9] E1 E2 A L P Q C. pose proof (Forall2_length _ _ _ C) as Len.
  split; rewrite ?E1, ?E2; try done.
  - rewrite I5. unfold nr_vqs. by rewrite Len.
  - by rewrite <- Len.
  - intros i q' r Hq' Hr. destruct (Forall2_lookup_r _ _ _ _ _ C Hq') as (q & Hq & Cq).
    apply (cfg_matches_config r q q' Cq). by apply (I9 i).
Qed.

Lemma set_irq_spec (c : virtio_pci_ctx D B) level :
  attached (pci_dev c) = true →
  let c' := set_irq set_irq_cb c level in
  attached (pci_dev c') = true ∧ irq_level (pci_dev c') = negb (level =? 0) ∧
  common_cfg c' = common_cfg c ∧ queues c' = queues c ∧ vdev c' = vdev c ∧ isr_status c' = isr_status c.
Proof.
  intros A. unfold set_irq, pci_device_set_irq_locked. rewrite A. cbn [negb]. cbv zeta. done.
Qed.

(** One queue and its registers change. *)
Lemma vpci_inv_queue c i vq vq' r' :
  vpci_inv c → vqs (vdev c) !! i = Some vq → vq_inv vq' → vq_mem vq' = vq_mem vq →
  bytes 32 r' → queue_matches r' vq' →
  vpci_inv (c <| vdev := vdev c <| vqs := <[i := vq']> (vqs (vdev c)) |> |>
              <| queues := <[i := r']> (queues c) |>).
Proof.
  intros [I1 I2 I3 [I4 I4'] I5 I6 I7 I8 I9] L Iq Em Br M. split; try done.
  - simpl. rewrite length_insert. split; [done|]. by apply Forall_insert.
  - simpl. rewrite I5. unfold nr_vqs. simpl. by rewrite length_insert.
  - destruct I6. split; try done. simpl. by rewrite (law_features_priv _ (vdev c)).
  - destruct I7 as [Im F]. split; [done|]. apply Forall_insert; [done|]. split; [done|].
    rewrite Em. by apply (Forall_lookup_1 _ _ _ _ F L).
  - simpl. by rewrite length_insert.
  - intros j q r Hq Hr. simpl in Hq, Hr. destruct (decide (j = i)) as [->|Hne].
    + rewrite list_lookup_insert_eq in Hq by (by eapply lookup_lt_Some).
      rewrite list_lookup_insert_eq in Hr by (apply lookup_lt_Some in L; lia). by simplify_eq.
    + rewrite list_lookup_insert_ne in Hq by done. rewrite list_lookup_insert_ne in Hr by done. by apply (I9 j).
Qed.

(** ** Lemmas: the queue registers *)

Lemma put_le_bytes n l off k v : 0 ≤ k → bytes n l → bytes n (put_le l off k v).
Proof. intros Hk [Hl Hb]. split; [by rewrite length_put_le|by apply put_le_u8]. Qed.

Lemma cfg_assemble_range (r : list Z) hi lo : Forall is_u8 r → is_u64 (assemble r hi lo).
Proof.
  intros Hr. unfold assemble. apply lor_range; [lia|apply u64_range|].
  pose proof (get_le_range r lo 4 ltac:(lia) Hr). word.
Qed.

(** The registers of queue [i] and what they say. *)
Lemma queue_cfg_lookup c i vq :
  vpci_inv c → vqs (vdev c) !! i = Some vq →
  let r := queue_cfg c (Z.of_nat i) in
  queues c !! i = Some r ∧ bytes 32 r ∧ queue_matches r vq.
Proof.
  intros I L. destruct (vp_queues _ I) as [Hl F].
  destruct (lookup_lt_is_Some_2 (queues c) i) as [r Hr].
  { apply lookup_lt_Some in L. pose proof (vp_count _ I). lia. }
  unfold queue_cfg. rewrite Nat2Z.id, Hr. split; [done|]. split; [by apply (Forall_lookup_1 _ _ _ _ F Hr)|].
  by apply (vp_match _ I i).
Qed.

(** Enabling a queue from its registers. *)
Lemma enable_queue_spec (v : virtio_device D) r i vq :
  Space.mem_inv (vq_mem vq) → vq_inv vq → bytes 32 r → queue_matches r vq → get_le r q_enable 2 = 0 →
  let '(v', go) := enable_queue v r (Z.of_nat i) vq in
  ∃ vq', v' = v <| vqs := <[i := vq']> (vqs v) |> ∧ vq_inv vq' ∧ vq_mem vq' = vq_mem vq ∧
    if go then queue_matches (put_le r q_enable 2 1) vq' else queue_matches r vq'.
Proof.
  intros Im Iq [Hl Hr] (M1 & M2 & En) E. rewrite E in En. cbn [Z.eqb] in En.
  unfold enable_queue. rewrite Nat2Z.id.
  assert (Hn : is_u16 (get_le r q_size 2)) by (apply (get_le_range r q_size 2); [lia|done]).
  destruct (vq_step_inv vq _ Im (vqs_size vq _ Hn) Iq) as [Iq1 Em1].
  assert (Mx : max_size (virtqueue_set_size vq (get_le r q_size 2)).1 = max_size vq)
    by (unfold virtqueue_set_size; by destruct (_ || _ || _ || _)).
  pose proof (set_size_cases vq (get_le r q_size 2) En) as N.
  destruct (virtqueue_set_size vq _) as [vq1 ret1]. cbn [fst snd] in *. destruct N as (N1 & _ & N2).
  assert (R1 : queue_matches r vq1) by (unfold queue_matches; by rewrite E, Mx).
  destruct (Z.eqb_spec ret1 0) as [->|]; cbn [negb]; [|by exists vq1].
  pose proof (set_addrs_inv vq1 _ _ _ Iq1 (cfg_assemble_range r q_desc_hi q_desc_lo Hr)
    (cfg_assemble_range r q_avail_hi q_avail_lo Hr) (cfg_assemble_range r q_used_hi q_used_lo Hr)) as Iq2.
  destruct (virtqueue_set_addrs vq1 _ _ _) as [vq2 ret2] eqn:E2. cbn [fst] in Iq2. exists vq2.
  assert (Mx2 : max_size vq2 = max_size vq1).
  { revert E2. unfold virtqueue_set_addrs. repeat case_match; by intros [= <- _]. }
  destruct (Z.eqb_spec ret2 0) as [->|Hne].
  2: { apply set_addrs_fail in E2 as ->; [|done]. done. }
  apply set_addrs_ok in E2 as (S1 & S2 & S3 & S4 & S5 & S6). split_and!; try done; [congruence|].
  assert (Fe : ∀ off n, 0 ≤ off → 0 ≤ n → off + n ≤ 4 ∨ 6 ≤ off →
    get_le (put_le r q_enable 2 1) off n = get_le r off n).
  { intros. apply get_le_put_ne; unfold q_enable; lia. }
  unfold queue_matches, assemble, q_enable, q_size, q_desc_hi, q_desc_lo, q_avail_hi, q_avail_lo,
    q_used_hi, q_used_lo in *.
  rewrite get_le_put by lia. rewrite !Fe by lia. change (1 mod 2 ^ (8 * 2) =? 0) with false. cbv iota.
  rewrite S2, S3, Mx2, Mx, N2 by done. rewrite N2 in S4, S5, S6 by done. done.
Qed.

(** The words a guest may write to a queue's structure. *)
Lemma queue_write_inv c q_sel off val size :
  vpci_inv c → 0 ≤ q_sel → 0 ≤ off → 0 ≤ val → vpci_inv (queue_write c q_sel off val size).
Proof.
  intros I Hs Ho Hv. unfold queue_write. destruct (vqs (vdev c) !! Z.to_nat q_sel) as [vq|] eqn:L; [|done].
  destruct (queue_cfg_lookup c _ vq I L) as (Hr & Br & M). rewrite Z2Nat.id in * by done.
  set (r := queue_cfg c q_sel) in *. clearbody r. cbv zeta.
  destruct (Z.ltb_spec sizeof_queue_cfg (off + size)) as [|Hsz]; [done|].
  destruct (_ || _) eqn:Al; [done|].
  destruct (Z.eqb_spec (get_le r q_enable 2) 0) as [En|]; cbn [negb]; [|done].
  destruct ((off =? q_notify_off) || (off =? q_msix_vector)); [done|].
  pose proof (vp_device _ I) as [Im F]. destruct (Forall_lookup_1 _ _ _ _ F L) as [Iq Em].
  rewrite <- Em in Im. pose proof M as (M1 & M2 & M3). rewrite En in M3. cbn [Z.eqb] in M3.
  destruct Br as [Lr Ur].
  assert (Hs2 : off < 8 → size = 2 ∧ (off = 0 ∨ off = 2 ∨ off = 4 ∨ off = 6)).
  { intros Hlt. apply orb_false_elim in Al as [Al _].
    destruct (Z.ltb_spec off 8); [|lia]. destruct (Z.eqb_spec size 2); [|done].
    destruct (Z.eqb_spec (off mod 2) 0) as [[k ->]%Z.mod_divide|]; lia || done. }
  assert (Hs4 : 8 ≤ off → 0 ≤ size).
  { intros Hge. apply orb_false_elim in Al as [_ Al]. destruct (Z.leb_spec 8 off); [|lia].
    destruct (Z.eqb_spec size 4); [lia|]. destruct (Z.eqb_spec size 8); [lia|done]. }
  assert (Hs0 : 0 ≤ size) by lia. clear Al.
  destruct ((off =? q_size) && _) eqn:Sz; [done|].
  destruct (Z.eqb_spec off q_enable) as [->|He].
  - unfold q_enable in *. destruct (Hs2 ltac:(lia)) as [-> _].
    destruct (Z.eqb_spec val 1) as [->|]; cbn [negb]; [|by destruct c].
    pose proof (enable_queue_spec (vdev c) r (Z.to_nat q_sel) vq Im Iq (conj Lr Ur) M En) as Sp.
    rewrite Z2Nat.id in Sp by done.
    destruct (enable_queue (vdev c) r q_sel vq) as [v' go]. destruct Sp as (vq' & -> & Iq' & Em' & Mq).
    destruct go.
    + apply (vpci_inv_queue c _ vq); [done..|by apply put_le_bytes|done].
    + pose proof (vpci_inv_queue c _ vq vq' r I L Iq' Em' (conj Lr Ur) Mq) as R.
      by rewrite list_insert_id in R.
  - cbv zeta. pose proof (vpci_inv_queue c _ vq vq (put_le r off size val) I L Iq eq_refl
      ltac:(by apply put_le_bytes)) as R. rewrite (list_insert_id (vqs (vdev c))) in R by done.
    replace (vdev c <| vqs := vqs (vdev c) |>) with (vdev c) in R by (by destruct (vdev c)).
    apply R. clear R. unfold queue_matches.
    assert (Ke : get_le (put_le r off size val) q_enable 2 = get_le r q_enable 2).
    { apply get_le_put_ne; unfold q_enable in *; try lia. }
    rewrite Ke, En. cbn [Z.eqb].
    assert (is_pow2_size (get_le (put_le r off size val) q_size 2) ∧
            get_le (put_le r off size val) q_size 2 ≤ max_size vq) as [? ?]; [|done].
    destruct (decide (off = 0)) as [->|Hne].
    + destruct (Hs2 ltac:(lia)) as [-> _]. unfold q_size in *. rewrite get_le_put by lia.
      cbn [Z.eqb andb] in Sz. apply orb_false_elim in Sz as [[Z1%Z.eqb_neq Z2%negb_false_iff%Z.eqb_eq]%orb_false_elim Z3%Z.ltb_ge].
      pose proof (vq_max _ Iq) as [_ Mm]. unfold virtqueue_get_max_size in *.
      rewrite Z.mod_small by word. unfold is_pow2_size. split; [|done]. split; [lia|done].
    + rewrite get_le_put_ne by (unfold q_size; lia). done.
Qed.

(** ** Lemmas: the reset values *)

Lemma defaults_match q :
  vq_inv q → vq_enabled q = false →
  queue_matches (put_le (put_le (replicate 32 0) q_size 2 (max_size q)) q_msix_vector 2 0xffff) q.
Proof.
  intros I En. destruct (vq_max _ I) as [Mp Mm]. unfold queue_matches.
  assert (Es : get_le (put_le (put_le (replicate 32 0) q_size 2 (max_size q)) q_msix_vector 2 0xffff) q_size 2
    = max_size q).
  { rewrite get_le_put_ne, get_le_put by (unfold q_size, q_msix_vector; simpl; lia).
    destruct Mp. apply Z.mod_small. word. }
  assert (Ee : get_le (put_le (put_le (replicate 32 0) q_size 2 (max_size q)) q_msix_vector 2 0xffff) q_enable 2
    = 0) by (by rewrite !get_le_put_ne by (unfold q_size, q_msix_vector, q_enable; lia)).
  rewrite Es, Ee. cbn [Z.eqb]. split_and!; [done|lia|done].
Qed.

Lemma zeros_bytes n : bytes n (replicate n 0).
Proof. split; [apply length_replicate|]. apply Forall_replicate. unfold is_u8. lia. Qed.

(** The registers have their reset values and no interrupt is pending. *)
Lemma vpci_inv_defaults c qs :
  attached (pci_dev c) = true → irq_level (pci_dev c) = false → isr_status c = 0 →
  common_cfg c = common_defaults (replicate 24 0) (vdev c) → queues c = queue_defaults qs (vqs (vdev c)) →
  length qs = 8%nat → Forall (bytes 32) qs → protocol_inv (vdev c) → queues_inv (vdev c) →
  (length (vqs (vdev c)) ≤ 8)%nat → Forall (fun q => vq_enabled q = false) (vqs (vdev c)) → vpci_inv c.
Proof.
  intros A L S Ec Eq Hq Bq P Q Hl En. destruct Q as [Im F].
  split; rewrite ?Ec, ?Eq; try done.
  - by rewrite L, S.
  - by apply put_le_bytes, put_le_bytes, zeros_bytes.
  - unfold queue_defaults. rewrite length_app, length_fmap, length_drop. split; [lia|].
    apply Forall_app. split; [|by apply Forall_drop]. apply Forall_fmap, Forall_true. intros q.
    by apply put_le_bytes, put_le_bytes, zeros_bytes.
  - unfold common_defaults. rewrite get_le_put_ne, get_le_put by (unfold num_queues, msix_config; simpl; lia).
    apply Z.mod_small. unfold nr_vqs. lia.
  - intros i q r Li Hr. unfold queue_defaults in Hr.
    rewrite lookup_app_l in Hr by (rewrite length_fmap; by eapply lookup_lt_Some).
    rewrite list_lookup_fmap, Li in Hr. simplify_eq/=. apply defaults_match.
    + by apply (Forall_lookup_1 _ _ _ _ F Li).
    + by apply (Forall_lookup_1 _ _ _ _ En Li).
Qed.

(** ** Lemmas: guest accesses *)

Lemma status_write_inv c val :
  vpci_inv c → (u8 val = 0 → val = 0) →
  let c' := c <| vdev := virtio_device_set_status_locked (vdev c) val |> in
  vpci_inv (if val =? 0 then
      let v := vdev c' in
      let c := c' <| common_cfg := common_defaults (replicate 24 0) v |> in
      let c := set_irq set_irq_cb (c <| isr_status := 0 |>) 0 in
      c <| queues := queue_defaults (queues c) (vqs v) |>
    else c').
Proof.
  intros I Hv. destruct (core_exec_inv (vdev c) (EvStatus val) Logic.I (vp_protocol _ I) (vp_device _ I))
    as [P Q]. simpl core_exec in *. cbv zeta.
  set (v := virtio_device_set_status_locked (vdev c) val) in *.
  change (vdev (c <| vdev := v |>)) with v.
  destruct (Z.eqb_spec val 0) as [->|Hne].
  - set (c1 := c <| vdev := v |> <| common_cfg := common_defaults (replicate 24 0) v |> <| isr_status := 0 |>).
    destruct (set_irq_spec c1 0 (vp_attached _ I)) as (S1 & S2 & S3 & S4 & S5 & S6).
    set (c2 := set_irq set_irq_cb c1 0) in *. clearbody c2.
    apply (vpci_inv_defaults _ (queues c2)); simpl; rewrite ?S5, ?S4; try done; try apply (vp_queues _ I).
    + change (vdev c1) with v. unfold v. rewrite reset_vqs, length_fmap by done. apply (vp_count _ I).
    + change (vdev c1) with v. unfold v. rewrite reset_vqs by done. by apply Forall_fmap, Forall_true.
  - apply (vpci_inv_device c); try done; [apply I|apply I|].
    simpl. unfold v, virtio_device_set_status_locked.
    destruct (Z.eqb_spec (u8 val) 0); [by destruct Hne, Hv|]. simpl. reflexivity.
Qed.

(** A write of [size] bytes carries that many. *)
Definition access_ok (offset val size : Z) : Prop := 0 ≤ offset ∧ 0 ≤ size ∧ 0 ≤ val < 2 ^ (8 * size).

Lemma global_write_inv c offset val size :
  vpci_inv c → access_ok offset val size → vpci_inv (global_write set_irq_cb c offset val size).
Proof.
  intros I (Ho & Hs & Hv). unfold global_write. cbv zeta. destruct (vp_common _ I) as [Lc Uc].
  destruct (negb _) eqn:G; [done|]. apply negb_false_iff in G.
  destruct (sizeof_global_cfg <? offset + size); [done|].
  destruct (Z.eqb_spec offset guest_feature) as [->|Hg].
  { clear G. pose proof (core_exec_inv (vdev c) (EvFeatures (get_le (common_cfg c) guest_feature_select 4) (u32 val))
      (conj (get_le_range _ _ 4 ltac:(lia) Uc) (u32_range val)) (vp_protocol _ I) (vp_device _ I)) as [P Q].
    apply (vpci_inv_device c); try done; [apply I|apply I|]. simpl. unfold virtio_device_set_features_locked.
    destruct (_ || _ || _); reflexivity. }
  destruct (Z.eqb_spec size 1) as [->|Hs1].
  - assert (offset = device_status) as ->.
    { unfold device_status. destruct (Z.eqb_spec offset 20); [done|]. by rewrite andb_false_r in G. }
    rewrite Z.eqb_refl. cbn [andb]. apply (status_write_inv c val I). intros E.
    rewrite u8_small in E; [done|exact Hv].
  - assert (Hd : offset ≠ device_status ∧ (offset + size ≤ num_queues ∨ num_queues + 2 ≤ offset)).
    { unfold device_status, num_queues. destruct (Z.eqb_spec size 1); [done|]. cbn [andb] in G.
      destruct (Z.eqb_spec size 4), (Z.eqb_spec size 2),
        (Z.eqb_spec offset 0), (Z.eqb_spec offset 8), (Z.eqb_spec offset 12), (Z.eqb_spec offset 22);
        cbn [orb andb] in G; lia. }
    destruct Hd as [Hd1 Hd2]. destruct (Z.eqb_spec offset device_status); [done|]. cbn [andb].
    destruct I as [I1 I2 I3 I4 I5 I6 I7 I8 I9]. split; try done; [by apply put_le_bytes|].
    simpl. rewrite get_le_put_ne; [done|lia|lia|lia|unfold num_queues; lia|lia].
Qed.

Lemma deliver_inv ns : ∀ c, vpci_inv c → vpci_inv (foldl (deliver set_irq_cb) c ns).
Proof.
  induction ns as [|n ns IH]; intros c I; [done|]. cbn [foldl]. apply IH.
  assert (One : ∀ b, b = 1 ∨ b = 2 →
    vpci_inv (set_irq set_irq_cb (c <| isr_status := set_bits (isr_status c) b |>) 1)).
  { intros b Hb. set (x := set_bits (isr_status c) b).
    assert (Hx : (x =? 0) = false).
    { apply Z.eqb_neq. intros E. unfold x, set_bits in E. apply Z.lor_eq_0_iff in E. lia. }
    clearbody x. set (c1 := c <| isr_status := x |>).
    destruct (set_irq_spec c1 1 (vp_attached _ I)) as (S1 & S2 & S3 & S4 & S5 & S6).
    apply (vpci_inv_device c); rewrite ?S3, ?S4, ?S5, ?S2, ?S6; try done; [|apply I|apply I].
    simpl. by rewrite Hx. }
  destruct n; apply One; lia.
Qed.

Lemma bar0_read_inv c offset size : vpci_inv c → vpci_inv (virtio_pci_bar0_read set_irq_cb c offset size).1.
Proof.
  intros I. unfold virtio_pci_bar0_read. destruct (_ <? _); [done|].
  destruct (offset =? 0x200); [|by destruct (_ <=? _)]. cbn [fst].
  set (c1 := c <| isr_status := 0 |>). destruct (set_irq_spec c1 0 (vp_attached _ I)) as (S1 & S2 & S3 & S4 & S5 & S6).
  apply (vpci_inv_device c); rewrite ?S3, ?S4, ?S5, ?S2, ?S6; try done; apply I.
Qed.

Lemma bar0_write_inv g c m offset val size :
  vpci_inv c → access_ok offset val size → vpci_inv (virtio_pci_bar0_write set_irq_cb g c m offset val size).1.
Proof.
  intros I A. unfold virtio_pci_bar0_write. cbv zeta. destruct (_ <? sizeof_common_cfg).
  { destruct (Z.leb_spec queue_size_off offset).
    - apply queue_write_inv; [done| |lia|apply A].
      apply (get_le_range _ _ 2); [lia|]. apply (vp_common _ I).
    - by apply global_write_inv. }
  destruct (offset =? 0x100).
  { destruct (_ && _ && _); [|done].
    destruct (law_notify g (vdev c) m (u16 val) (vp_device _ I)) as (C & Q & O).
    destruct (ops_notify_queue g (vdev c) m (u16 val)) as [[v' m'] ns]. simpl in *.
    apply deliver_inv. apply (vpci_inv_device c); try done; [apply I|apply I| |apply C].
    by apply (protocol_inv_change true (vdev c)); [| |apply I]. }
  destruct (0x300 <=? offset); [|done]. destruct ops_write_config as [write|] eqn:E; [|done].
  destruct (law_write write (vdev c) (offset - 0x300) (u32 val) size E) as (C & Eq & O).
  pose proof (core_exec_inv (vdev c) (EvWriteConfig (offset - 0x300) (u32 val) size)
    Logic.I (vp_protocol _ I) (vp_device _ I)) as [P Q]. simpl in P, Q. rewrite E in P, Q.
  apply (vpci_inv_device c); try done; [apply I|apply I|apply C].
Qed.

(** A sequence of guest accesses to BAR 0, each write with what the guest does
    meanwhile. *)
Inductive bar_access : Type :=
| BarRead (offset size : Z)
| BarWrite (g : guest) (offset val size : Z).

Definition bar_exec (st : virtio_pci_ctx D B * hmem) (a : bar_access) : virtio_pci_ctx D B * hmem :=
  match a with
  | BarRead offset size => ((virtio_pci_bar0_read set_irq_cb st.1 offset size).1, st.2)
  | BarWrite g offset val size => virtio_pci_bar0_write set_irq_cb g st.1 st.2 offset val size
  end.

Definition bar_ok_access (a : bar_access) : Prop :=
  match a with BarRead _ _ => True | BarWrite _ offset val size => access_ok offset val size end.

Lemma bar_run_inv l : ∀ st,
  vpci_inv st.1 → Forall bar_ok_access l → vpci_inv (foldl bar_exec st l).1.
Proof.
  induction l as [|a l IH]; intros [c m] I F; [done|]. apply Forall_cons in F as [Ha F]. cbn [foldl].
  apply IH; [|done]. destruct a as [offset size|g offset val size]; simpl in *.
  - by apply bar0_read_inv.
  - by apply bar0_write_inv.
Qed.

(** C5. The PCI transport and the device behind it never disagree.  From a
    freshly realized device, through any sequence of reads and writes of BAR 0
    and whatever the guest does to memory meanwhile: the function asserts its
    interrupt exactly while the interrupt status is not zero; the number of
    queues the guest reads is the device's; the size register of a queue is a
    power of two the queue has room for; a queue is enabled exactly if its
    enable register says so, and then its size and its three rings are those
    its registers spell, mapped in guest RAM; and the device keeps its
    protocol and queue invariants. *)
Theorem virtio_pci_reachable v b dev fn pin d m l :
  status v = 0 → driver_features v = 0 → queues_inv v → (length (vqs v) ≤ 8)%nat →
  Forall (fun q => vq_enabled q = false) (vqs v) →
  attached d = true → irq_level d = false → Forall bar_ok_access l →
  vpci_inv (foldl bar_exec (fresh_ctx v b dev fn pin <| pci_dev := d |>, m) l).1.
Proof.
  intros Es Ef Q Hl F A L Ok. apply bar_run_inv; [|done].
  apply (vpci_inv_defaults _ (replicate 8 (replicate 32 0))); try done.
  - apply Forall_replicate, zeros_bytes.
  - split; simpl; rewrite ?Es, ?Ef; done.
Qed.

End Reach.

(** ** Witness *)

Definition example_endpoint : pci_device :=
  mk_pci true 9 8 1 false (replicate 6 (mk_bar None false)) (replicate 256 0).

Definition example_vpci : virtio_pci_ctx unit unit :=
  fresh_ctx Mmio.example_mdev tt 9 8 1 <| pci_dev := example_endpoint |>.

(** A driver that sets up queue 0, and reads the interrupt status. *)
Definition example_accesses : list bar_access :=
  [BarWrite (fun _ _ m => m) 20 3 1; BarWrite (fun _ _ m => m) 22 0 2; BarWrite (fun _ _ m => m) 24 2 2;
   BarWrite (fun _ _ m => m) 40 0x100 4; BarWrite (fun _ _ m => m) 48 0x200 4;
   BarWrite (fun _ _ m => m) 28 1 2; BarRead 0x200 1].

Lemma virtio_pci_reachable_witness :
  vpci_inv (H := example_ops) (foldl (bar_exec (H := example_ops) None) (example_vpci, ∅) example_accesses).1 ∧
  get_le (queue_cfg (foldl (bar_exec (H := example_ops) None) (example_vpci, ∅) example_accesses).1 0) q_enable 2 = 1.
Proof.
  split; [|vm_compute; reflexivity].
  apply (virtio_pci_reachable (H := example_ops) (VirtioLaws0 := example_laws) None); try reflexivity.
  - exact Mmio.example_mdev_queues.
  - simpl. lia.
  - repeat constructor.
  - repeat constructor; unfold access_ok; lia.
Defined.

End VPci.
