(* ===== verification/VirtioTransports.v ===== *)
(** * The two VirtIO transports against each other

    A driver sets up a queue through the registers of virtio_mmio.c or through
    the common configuration of virtio_pci.c; both do the same to the device. *)

From S2P Require Import Prelude HostMem ResPool Topology Virtqueue Virtio VirtioMmio Pci VirtioPci.

Module Transports.
Import Vq Virtio Mmio.
#[local] Existing Instances VPci.set_vdev VPci.set_queues.

Section Agree.
Context {D B : Type} `{VirtioOps D}.
Variable set_irq_cb : option (B → Pci.pci_device → Z → B).
Variable g : guest.

(** What setting up a queue means: the size, then the three rings. *)
Definition setup_queue (v : virtio_device D) (q : nat) (vq : virtqueue) (n d a u : Z) :
    virtio_device D * bool :=
  let put vq := v <| vqs := <[q := vq]> (vqs v) |> in
  let '(vq, ret) := virtqueue_set_size vq n in
  if negb (ret =? 0) then (put vq, false)
  else let '(vq, ret) := virtqueue_set_addrs vq d a u in (put vq, ret =? 0).

(** The register writes of a driver. *)
Definition mmio_setup (c : virtio_mmio_ctx D) (m : hmem) (q n d a u : Z) :
    virtio_mmio_ctx D * hmem :=
  foldl (fun st '(off, val) => virtio_mmio_write g st.1 st.2 off val 4) (c, m)
    [(VIRTIO_MMIO_QUEUE_SEL, q); (VIRTIO_MMIO_QUEUE_NUM, n);
     (VIRTIO_MMIO_QUEUE_DESC_LOW, u32 d); (VIRTIO_MMIO_QUEUE_DESC_HIGH, Z.shiftr d 32);
     (VIRTIO_MMIO_QUEUE_AVAIL_LOW, u32 a); (VIRTIO_MMIO_QUEUE_AVAIL_HIGH, Z.shiftr a 32);
     (VIRTIO_MMIO_QUEUE_USED_LOW, u32 u); (VIRTIO_MMIO_QUEUE_USED_HIGH, Z.shiftr u 32);
     (VIRTIO_MMIO_QUEUE_READY, 1)].

Definition pci_setup (c : VPci.virtio_pci_ctx D B) (m : hmem) (q n d a u : Z) :
    VPci.virtio_pci_ctx D B * hmem :=
  foldl (fun st '(off, val, size) => VPci.virtio_pci_bar0_write set_irq_cb g st.1 st.2 off val size) (c, m)
    ((VPci.queue_select, q, 2) ::
     ((fun '(off, val, size) => (VPci.queue_size_off + off, val, size)) <$>
      [(VPci.q_size, n, 2);
       (VPci.q_desc_lo, u32 d, 4); (VPci.q_desc_hi, Z.shiftr d 32, 4);
       (VPci.q_avail_lo, u32 a, 4); (VPci.q_avail_hi, Z.shiftr a 32, 4);
       (VPci.q_used_lo, u32 u, 4); (VPci.q_used_hi, Z.shiftr u 32, 4)]) ++
     [(VPci.queue_size_off + VPci.q_enable, 1, 2)]).

(** ** Lemmas *)

Lemma halves x : is_u64 x → Z.lor (u64 (Z.shiftl (u32 (Z.shiftr x 32)) 32)) (u32 (u32 x)) = x.
Proof.
  intros Hx. assert (Hh : is_u32 (Z.shiftr x 32)).
  { rewrite Z.shiftr_div_pow2 by lia. unfold is_u32, is_u64 in *. split; [apply Z.div_pos; lia|].
    apply Z.div_lt_upper_bound; lia. }
  rewrite (u32_small (Z.shiftr x 32)) by done. rewrite (u32_small (u32 x)) by apply u32_range.
  rewrite u64_small.
  - apply Z.bits_inj'. intros i Hi. rewrite Z.lor_spec, Z.shiftl_spec by lia. unfold u32.
    destruct (Z.lt_ge_cases i 32).
    + rewrite Z.testbit_neg_r, Z.mod_pow2_bits_low by lia. done.
    + rewrite Z.shiftr_spec, Z.sub_add, Z.mod_pow2_bits_high by lia. apply orb_false_r.
  - rewrite Z.shiftl_mul_pow2 by lia. word.
Qed.

Lemma foldl_step {A S} (f : S → A → S) x l s : foldl f s (x :: l) = foldl f (f s x) l.
Proof. done. Qed.

(** The writes to the registers of a queue that is selected and not ready. *)
Lemma mmio_regs_write (c : virtio_mmio_ctx D) m q :
  queue_sel c = q → 0 ≤ q < nr_vqs (vdev c) → ready_at c q = false →
  ∀ val,
  virtio_mmio_write g c m VIRTIO_MMIO_QUEUE_NUM val 4 =
    (c <| queue_num := aset (queue_num c) q (u32 val) |>, m) ∧
  virtio_mmio_write g c m VIRTIO_MMIO_QUEUE_DESC_LOW val 4 =
    (c <| queue_desc_lo := aset (queue_desc_lo c) q (u32 val) |>, m) ∧
  virtio_mmio_write g c m VIRTIO_MMIO_QUEUE_DESC_HIGH val 4 =
    (c <| queue_desc_hi := aset (queue_desc_hi c) q (u32 val) |>, m) ∧
  virtio_mmio_write g c m VIRTIO_MMIO_QUEUE_AVAIL_LOW val 4 =
    (c <| queue_avail_lo := aset (queue_avail_lo c) q (u32 val) |>, m) ∧
  virtio_mmio_write g c m VIRTIO_MMIO_QUEUE_AVAIL_HIGH val 4 =
    (c <| queue_avail_hi := aset (queue_avail_hi c) q (u32 val) |>, m) ∧
  virtio_mmio_write g c m VIRTIO_MMIO_QUEUE_USED_LOW val 4 =
    (c <| queue_used_lo := aset (queue_used_lo c) q (u32 val) |>, m) ∧
  virtio_mmio_write g c m VIRTIO_MMIO_QUEUE_USED_HIGH val 4 =
    (c <| queue_used_hi := aset (queue_used_hi c) q (u32 val) |>, m).
Proof.
  intros Es Hq Hr val. unfold virtio_mmio_write. cbv zeta. rewrite Es, Hr.
  destruct (Z.ltb_spec q (nr_vqs (vdev c))); [|lia]. cbn [andb negb]. done.
Qed.

(** The last write, with the addresses in the registers. *)
Lemma mmio_ready_spec (c : virtio_mmio_ctx D) m q vq n d a u :
  queue_sel c = q → 0 ≤ q < nr_vqs (vdev c) → length (queue_ready c) = 8%nat → q < 8 →
  ready_at c q = false → vqs (vdev c) !! Z.to_nat q = Some vq → is_u16 n →
  aget (queue_num c) q = n → assemble (queue_desc_hi c) (queue_desc_lo c) q = d →
  assemble (queue_avail_hi c) (queue_avail_lo c) q = a →
  assemble (queue_used_hi c) (queue_used_lo c) q = u →
  let '(v', go) := setup_queue (vdev c) (Z.to_nat q) vq n d a u in
  let c' := (virtio_mmio_write g c m VIRTIO_MMIO_QUEUE_READY 1 4).1 in
  vdev c' = v' ∧ ready_at c' q = go.
Proof.
  intros Es Hq Hl H8 Hr L Hn En Ed Ea Eu. unfold virtio_mmio_write. cbv zeta.
  change (VIRTIO_MMIO_CONFIG <=? VIRTIO_MMIO_QUEUE_READY) with false. cbn -[write_queue_ready setup_queue nr_vqs].
  rewrite Es. destruct (Z.ltb_spec q (nr_vqs (vdev c))); [|lia]. unfold write_queue_ready, setup_queue.
  rewrite L. cbn [Z.eqb]. rewrite Hr. cbn [negb andb]. unfold enable_queue. rewrite En, Ed, Ea, Eu. cbv zeta.
  destruct (Z.ltb_spec UINT16_MAX n); [word|].
  destruct (virtqueue_set_size vq n) as [vq1 ret1]. destruct (ret1 =? 0); cbn [negb]; [|done].
  destruct (virtqueue_set_addrs vq1 d a u) as [vq2 ret2]. rewrite put_vq_twice.
  destruct (ret2 =? 0); [|done]. split; [done|]. unfold ready_at. simpl.
  by rewrite list_lookup_insert_eq by (rewrite Hl; lia).
Qed.

(** [reg_write m q Hq Hr] takes one write to a register of the queue. *)
Local Ltac reg_write m q Hq Hr :=
  rewrite foldl_step; cbn [fst snd];
  match goal with |- context [virtio_mmio_write _ ?c _ _ ?val 4] =>
    destruct (mmio_regs_write c m q eq_refl Hq Hr val) as (W1 & W2 & W3 & W4 & W5 & W6 & W7);
    rewrite ?W1, ?W2, ?W3, ?W4, ?W5, ?W6, ?W7; clear W1 W2 W3 W4 W5 W6 W7 end.

Lemma mmio_setup_spec (c : virtio_mmio_ctx D) m q vq n d a u :
  0 ≤ q < nr_vqs (vdev c) → (length (vqs (vdev c)) ≤ 8)%nat → arrays_ok c →
  ready_at c q = false → vqs (vdev c) !! Z.to_nat q = Some vq → is_u16 n →
  is_u64 d → is_u64 a → is_u64 u →
  let '(v', go) := setup_queue (vdev c) (Z.to_nat q) vq n d a u in
  let c' := (mmio_setup c m q n d a u).1 in
  vdev c' = v' ∧ ready_at c' q = go.
Proof.
  intros Hq Hl A Hr L Hn Hd Ha Hu.
  assert (Hq8 : 0 ≤ q < 8) by (unfold nr_vqs in Hq; lia).
  unfold mmio_setup. rewrite foldl_step. cbn [fst snd].
  change (virtio_mmio_write g c m VIRTIO_MMIO_QUEUE_SEL q 4) with (c <| queue_sel := u32 q |>, m).
  rewrite (u32_small q) by (unfold is_u32; lia).
  do 7 reg_write m q Hq Hr.
  rewrite foldl_step. cbn [foldl fst snd].
  assert (As : ∀ lo hi x, length lo = 8%nat → length hi = 8%nat → is_u64 x →
    assemble (aset hi q (u32 (Z.shiftr x 32))) (aset lo q (u32 (u32 x))) q = x).
  { intros lo hi x Hlo Hhi Hx. unfold assemble. rewrite !aget_aset_eq by lia. by apply halves. }
  match goal with |- context [virtio_mmio_write _ ?c7 _ _ 1 4] =>
    pose proof (mmio_ready_spec c7 m q vq n d a u) as R end.
  destruct A. refine (R eq_refl Hq _ _ Hr L Hn _ _ _ _); clear R; [done|lia| |by apply As..].
  cbn. rewrite aget_aset_eq by lia. apply u32_small. word.
Qed.

(** Queue [q] is selected, the device is [v] and the registers of the queue
    are [r]. *)
Definition pci_at (c : VPci.virtio_pci_ctx D B) (q : Z) (v : virtio_device D) (r : list Z) : Prop :=
  get_le (VPci.common_cfg c) VPci.queue_select 2 = q ∧ VPci.vdev c = v ∧
  VPci.queues c !! Z.to_nat q = Some r.

(** A write a driver may do to the registers of a queue. *)
Definition field_ok (vq : virtqueue) (w : Z * Z * Z) : Prop :=
  let '(off, val, size) := w in
  (off = VPci.q_size ∧ size = 2 ∧ is_pow2_size val ∧ val ≤ max_size vq) ∨
  (off ∈ [8; 12; 16; 20; 24; 28] ∧ size = 4).

Lemma pci_field_write c m q v vq r off val size :
  pci_at c q v r → vqs v !! Z.to_nat q = Some vq → get_le r VPci.q_enable 2 = 0 →
  field_ok vq (off, val, size) →
  ∃ c', VPci.virtio_pci_bar0_write set_irq_cb g c m (VPci.queue_size_off + off) val size = (c', m) ∧
    pci_at c' q v (put_le r off size val).
Proof.
  intros (Es & Ev & Er) L En Ho. unfold field_ok in Ho.
  assert (Hr : 0 ≤ off ≤ 28) by (rewrite !elem_of_cons, elem_of_nil in Ho; unfold VPci.q_size in Ho; lia).
  unfold VPci.virtio_pci_bar0_write, VPci.queue_size_off, VPci.sizeof_common_cfg.
  destruct (Z.ltb_spec (24 + off) 56); [|lia]. destruct (Z.leb_spec 24 (24 + off)); [|lia].
  eexists. split; [reflexivity|]. rewrite Es. replace (24 + off - 24) with off by lia.
  assert (W : VPci.queue_write c q off val size = c <| VPci.vdev := VPci.vdev c |>
    <| VPci.queues := <[Z.to_nat q := put_le r off size val]> (VPci.queues c) |>).
  { unfold VPci.queue_write. rewrite Ev, L. unfold VPci.queue_cfg. rewrite Er. cbn [default]. cbv zeta.
    unfold id. rewrite En. cbn [Z.eqb negb].
    destruct Ho as [(-> & -> & [Hp Hp'] & Hm)|[Ho ->]].
    - unfold VPci.q_size, virtqueue_get_max_size. cbn. rewrite Hp'.
      destruct (Z.eqb_spec val 0); [lia|]. destruct (Z.ltb_spec (max_size vq) val); [lia|]. done.
    - rewrite !elem_of_cons, elem_of_nil in Ho.
      destruct Ho as [->|[->|[->|[->|[->|[->|[]]]]]]]; done. }
  rewrite W. split_and!; [exact Es|exact Ev|]. simpl. rewrite list_lookup_insert_eq; [done|].
  by eapply lookup_lt_Some.
Qed.

Lemma pci_fields_write m q v vq ws : ∀ c r,
  pci_at c q v r → vqs v !! Z.to_nat q = Some vq → get_le r VPci.q_enable 2 = 0 →
  Forall (field_ok vq) ws →
  ∃ c', foldl (fun st '(off, val, size) => VPci.virtio_pci_bar0_write set_irq_cb g st.1 st.2 off val size) (c, m)
          ((fun '(off, val, size) => (VPci.queue_size_off + off, val, size)) <$> ws) = (c', m) ∧
    pci_at c' q v (foldl (fun r '(off, val, size) => put_le r off size val) r ws).
Proof.
  induction ws as [|[[off val] size] ws IH]; intros c r P L En F; [by exists c|].
  apply Forall_cons in F as [Hw F]. rewrite fmap_cons, !foldl_step. cbn [fst snd].
  destruct (pci_field_write c m q v vq r off val size P L En Hw) as (c1 & -> & P1).
  apply (IH c1); [done|done| |done]. rewrite get_le_put_ne; [done|..];
    unfold field_ok in Hw; rewrite !elem_of_cons, elem_of_nil in Hw; unfold VPci.q_size, VPci.q_enable in *; lia.
Qed.

(** The last write, with the addresses in the registers. *)
Lemma pci_enable_write c m q v vq r n d a u :
  pci_at c q v r → 0 ≤ q → vqs v !! Z.to_nat q = Some vq → get_le r VPci.q_enable 2 = 0 →
  length r = 32%nat → get_le r VPci.q_size 2 = n →
  VPci.assemble r VPci.q_desc_hi VPci.q_desc_lo = d → VPci.assemble r VPci.q_avail_hi VPci.q_avail_lo = a →
  VPci.assemble r VPci.q_used_hi VPci.q_used_lo = u →
  let '(v', go) := setup_queue v (Z.to_nat q) vq n d a u in
  let c' := (VPci.virtio_pci_bar0_write set_irq_cb g c m (VPci.queue_size_off + VPci.q_enable) 1 2).1 in
  VPci.vdev c' = v' ∧ get_le (VPci.queue_cfg c' q) VPci.q_enable 2 = if go then 1 else 0.
Proof.
  intros (Es & Ev & Er) Hq L En Hl E1 E2 E3 E4. unfold VPci.virtio_pci_bar0_write.
  change (VPci.queue_size_off + VPci.q_enable) with 28. cbn -[VPci.queue_write setup_queue get_le].
  rewrite Es. change (28 - VPci.queue_size_off) with 4.
  assert (Qc : VPci.queue_cfg c q = r) by (unfold VPci.queue_cfg; by rewrite Er).
  unfold VPci.queue_write. rewrite Ev, L, Qc. cbv zeta. rewrite En.
  change (VPci.sizeof_queue_cfg <? 4 + 2) with false. change (4 mod 2 =? 0) with true.
  cbn -[get_le setup_queue VPci.enable_queue VPci.queue_cfg].
  unfold VPci.enable_queue, setup_queue. rewrite E1, E2, E3, E4. rewrite <- Qc in En.
  destruct (virtqueue_set_size vq n) as [vq1 ret1]. destruct (ret1 =? 0); cbn [negb]; [|done].
  destruct (virtqueue_set_addrs vq1 d a u) as [vq2 ret2]. destruct (ret2 =? 0); [|done].
  split; [done|]. unfold VPci.queue_cfg. simpl.
  rewrite list_lookup_insert_eq by (by eapply lookup_lt_Some). simpl.
  rewrite get_le_put by (unfold VPci.q_enable; lia). done.
Qed.

Lemma pci_setup_spec c m q vq r n d a u :
  VPci.bytes 24 (VPci.common_cfg c) → 0 ≤ q < 8 → vqs (VPci.vdev c) !! Z.to_nat q = Some vq →
  VPci.queues c !! Z.to_nat q = Some r → length r = 32%nat → get_le r VPci.q_enable 2 = 0 →
  is_pow2_size n → n ≤ max_size vq → max_size vq ≤ UINT16_MAX → is_u64 d → is_u64 a → is_u64 u →
  let '(v', go) := setup_queue (VPci.vdev c) (Z.to_nat q) vq n d a u in
  let c' := (pci_setup c m q n d a u).1 in
  VPci.vdev c' = v' ∧ get_le (VPci.queue_cfg c' q) VPci.q_enable 2 = if go then 1 else 0.
Proof.
  intros [Lc _] Hq L Lr Hl En Hp Hn Hm Hd Ha Hu. unfold pci_setup. cbv zeta.
  set (v := VPci.vdev c) in *. rewrite foldl_step. cbn [fst snd].
  assert (P : ∃ c0, VPci.virtio_pci_bar0_write set_irq_cb g c m VPci.queue_select q 2 = (c0, m) ∧ pci_at c0 q v r).
  { eexists. split; [reflexivity|]. split_and!; [|done|done].
    change (get_le (put_le (VPci.common_cfg c) 22 2 q) 22 2 = q).
    rewrite get_le_put by lia. apply Z.mod_small. lia. }
  destruct P as (c0 & -> & P). clearbody v. clear Lr Lc c. rewrite foldl_app.
  match goal with |- context [_ <$> ?l] =>
    destruct (pci_fields_write m q v vq l c0 r P L En) as (c1 & -> & P1) end.
  { constructor; [left; done|]. repeat (constructor; [right; split; [apply (bool_decide_unpack _); vm_compute; exact I|done]|]).
    constructor. }
  rewrite foldl_step. cbn [foldl fst snd] in *. destruct Hp as [Hp0 Hp].
  apply (pci_enable_write c1 m q v vq _ n d a u P1); try done; [lia|..];
    unfold VPci.assemble, VPci.q_enable, VPci.q_size, VPci.q_desc_hi, VPci.q_desc_lo, VPci.q_avail_hi,
      VPci.q_avail_lo, VPci.q_used_hi, VPci.q_used_lo in *; rewrite ?length_put_le by lia; try done;
    repeat first [rewrite get_le_put by (rewrite ?length_put_le by lia; lia)
                 | rewrite get_le_put_ne by lia]; try done; try by apply halves.
  apply Z.mod_small. word.
Qed.

(** C6. The two transports do the same to a device.  A driver that selects a
    queue that is not in use, writes a size that is a power of two the queue
    has room for and three ring addresses, and then enables the queue, leaves
    the same device behind the memory-mapped registers and behind BAR 0; the
    ready register of one and the enable register of the other then read the
    same, and they are set exactly if the rings were accepted. *)
Theorem virtio_transports_agree (cm : virtio_mmio_ctx D) (cp : VPci.virtio_pci_ctx D B) m q vq n d a u :
  mmio_inv cm → VPci.vpci_inv cp → VPci.vdev cp = vdev cm →
  0 ≤ q → vqs (vdev cm) !! Z.to_nat q = Some vq → vq_enabled vq = false →
  is_pow2_size n → n ≤ max_size vq → is_u64 d → is_u64 a → is_u64 u →
  let '(v', go) := setup_queue (vdev cm) (Z.to_nat q) vq n d a u in
  let cm' := (mmio_setup cm m q n d a u).1 in
  let cp' := (pci_setup cp m q n d a u).1 in
  vdev cm' = v' ∧ VPci.vdev cp' = v' ∧ ready_at cm' q = go ∧
  get_le (VPci.queue_cfg cp' q) VPci.q_enable 2 = if go then 1 else 0.
Proof.
  intros Im Ip Ev Hq L En Hp Hn Hd Ha Hu.
  pose proof (lookup_lt_Some _ _ _ L) as Hl. pose proof (mmio_count _ Im) as H8.
  pose proof (mmio_match _ Im _ _ L) as M. rewrite Z2Nat.id in M by done. unfold queue_matches in M.
  assert (Hr : ready_at cm q = false) by (destruct (ready_at cm q); [destruct M; congruence|done]).
  destruct (Forall_lookup_1 _ _ _ _ (proj2 (mmio_queues _ Im)) L) as [Iq _]. pose proof (vq_max _ Iq) as [_ Hm].
  rewrite <- Ev in L. destruct (VPci.queue_cfg_lookup cp _ vq Ip L) as (Lr & [Br _] & (_ & _ & Mp)).
  assert (Ee : get_le (VPci.queue_cfg cp (Z.of_nat (Z.to_nat q))) VPci.q_enable 2 = 0).
  { destruct (Z.eqb_spec (get_le (VPci.queue_cfg cp (Z.of_nat (Z.to_nat q))) VPci.q_enable 2) 0); [done|].
    destruct Mp; congruence. }
  pose proof (pci_setup_spec cp m q vq _ n d a u (VPci.vp_common _ Ip) ltac:(lia) L Lr Br Ee Hp Hn Hm Hd Ha Hu) as Sp.
  rewrite Ev in L, Sp. destruct Hp as [Hp0 Hp].
  pose proof (mmio_setup_spec cm m q vq n d a u ltac:(unfold nr_vqs; lia) H8 (mmio_arrays _ Im) Hr L
    ltac:(word) Hd Ha Hu) as Sm.
  destruct (setup_queue (vdev cm) (Z.to_nat q) vq n d a u) as [v' go]. destruct Sm, Sp. done.
Qed.

End Agree.
(** ** Witness *)

Lemma virtio_transports_agree_witness :
  let '(v', go) := setup_queue example_mdev 0 example_fresh 2 0 0x100 0x200 in
  let cm' := (mmio_setup (H := example_ops) (fun _ _ m => m) (blank example_mdev 0) ∅ 0 2 0 0x100 0x200).1 in
  let cp' := (pci_setup (H := example_ops) None (fun _ _ m => m) VPci.example_vpci ∅ 0 2 0 0x100 0x200).1 in
  vdev cm' = v' ∧ VPci.vdev cp' = v' ∧ ready_at cm' 0 = go ∧
  get_le (VPci.queue_cfg cp' 0) VPci.q_enable 2 = if go then 1 else 0.
Proof.
  apply (virtio_transports_agree (H := example_ops) None (fun _ _ m => m) (blank example_mdev 0)
           VPci.example_vpci ∅ 0 example_fresh 2 0 0x100 0x200).
  - apply (blank_inv (H := example_ops)); [split; done|exact example_mdev_queues|simpl; lia|repeat constructor].
  - apply (VPci.bar_run_inv (H := example_ops) (VirtioLaws0 := example_laws) None [] (VPci.example_vpci, ∅));
      [|constructor].
    apply (VPci.vpci_inv_defaults (H := example_ops) _ (replicate 8 (replicate 32 0))); try reflexivity;
      [apply Forall_replicate, VPci.zeros_bytes|split; done|exact example_mdev_queues|simpl; lia|repeat constructor].
  - reflexivity.
  - lia.
  - reflexivity.
  - reflexivity.
  - split; [lia|reflexivity].
  - vm_compute. congruence.
  - unfold is_u64. lia.
  - unfold is_u64. lia.
  - unfold is_u64. lia.
Defined.

End Transports.
