(* ===== verification/PioBridge.v ===== *)
(** * The PCI host bridge behind I/O ports (src/hw/pci/pio_bridge.c, src/core/irq.c)

    The two configuration ports through which a guest reaches the bus, and the
    interrupt router that merges the functions' INTx pins into four lines. *)

From S2P Require Import Prelude ResPool Topology Pci.

Module Bridge.
Import Space Pci.

(** ** State *)

(** The part of struct pio_bridge_ctx that the interrupt closure works on.
    [pirq] holds, for a line that is wired, the level last given to
    [irq_set_level]. *)
Record router : Type := mk_router { asserted : list (list Z); pirq : list (option Z) }.

Definition eta_router (r : router) : router := mk_router (asserted r) (pirq r).
#[export] Instance set_asserted : Setter asserted := ltac:(derive_setter eta_router).
#[export] Instance set_pirq : Setter pirq := ltac:(derive_setter eta_router).

(** struct pio_bridge_ctx; the endpoint [host_bridge] is among the devices of
    [bus]. *)
Record pio_bridge_ctx : Type := mk_bridge { config_addr : Z; bus : pci_bus; lines : router }.

Definition eta_bridge (c : pio_bridge_ctx) : pio_bridge_ctx :=
  mk_bridge (config_addr c) (bus c) (lines c).
#[export] Instance set_config_addr : Setter config_addr := ltac:(derive_setter eta_bridge).
#[export] Instance set_bus : Setter bus := ltac:(derive_setter eta_bridge).
#[export] Instance set_lines : Setter lines := ltac:(derive_setter eta_bridge).

(** ** Interrupt routing *)

(** [irq_set_level(ctx->pirq[i], level)], for a line that may be NULL. *)
Definition irq_set_level (irq : option Z) (level : Z) : option Z := (fun _ => level) <$> irq.

(** [ctx->asserted[i]]. *)
Definition sources (r : router) (i : Z) : list Z := default [] (asserted r !! Z.to_nat i).

Definition pio_bridge_set_irq_cb (r : router) (d : pci_device) (level : Z) : router :=
  let pin := interrupt_pin d in
  if (pin =? 0) || (4 <? pin) then r
  else
    let slot := PCI_SLOT (devfn d) in
    let pirq_idx := (slot + pin - 1) mod 4 in
    let source := devfn d in
    let bit := u64 (Z.shiftl 1 (source mod 64)) in
    let words := sources r pirq_idx in
    let word := aget words (source / 64) in
    let words := aset words (source / 64) (if level =? 0 then clr_bits word bit else set_bits word bit) in
    let r := r <| asserted := <[Z.to_nat pirq_idx := words]> (asserted r) |> in
    let asserted := foldl (fun a i => a || negb (aget words i =? 0)) false [0; 1; 2; 3] in
    r <| pirq := alter (fun irq => irq_set_level irq (if asserted then 1 else 0))
                   (Z.to_nat pirq_idx) (pirq r) |>.

(** ** The configuration ports *)

Definition pio_bridge_read (vm : vm_ctx) (c : pio_bridge_ctx) (offset size : Z) : Z :=
  if offset =? 0 then if size =? 4 then config_addr c else UINT64_MAX
  else if 4 <=? offset then
    if negb (has (config_addr c) 0x80000000) then UINT64_MAX
    else
      let bus_num := Z.land (Z.shiftr (config_addr c) 16) 0xFF in
      let fn := Z.land (Z.shiftr (config_addr c) 8) 0xFF in
      let reg := u8 (Z.land (config_addr c) 0xFC + (offset - 4)) in
      if negb (bus_num =? 0) then UINT64_MAX
      else pci_bus_read_config_locked None vm (bus c) fn reg size
  else UINT64_MAX.

Definition pio_bridge_write (vm : vm_ctx) (c : pio_bridge_ctx) (offset val size : Z) :
    vm_ctx * pio_bridge_ctx :=
  if offset =? 0 then (vm, if size =? 4 then c <| config_addr := u32 val |> else c)
  else if 4 <=? offset then
    if negb (has (config_addr c) 0x80000000) then (vm, c)
    else
      let bus_num := Z.land (Z.shiftr (config_addr c) 16) 0xFF in
      let fn := Z.land (Z.shiftr (config_addr c) 8) 0xFF in
      let reg := u8 (Z.land (config_addr c) 0xFC + (offset - 4)) in
      if negb (bus_num =? 0) then (vm, c)
      else
        let '(vm, b, l) :=
          pci_bus_write_config_locked (Some pio_bridge_set_irq_cb) None vm (bus c) (lines c) fn reg
            (u32 val) size in
        (vm, c <| bus := b |> <| lines := l |>)
  else (vm, c).

(** ** Realizing the bridge *)

(** struct pio_bridge_pdata; [pdata_pirq] says which lines are wired. *)
Record pio_bridge_pdata : Type := mk_pdata {
  config_addr_port : Z;
  pdata_mmio_base : Z;
  pdata_mmio_size : Z;
  pdata_pirq : list bool;
}.

Definition sizeof_pio_bridge_ctx : Z := 632.

(** The endpoint the bridge itself is, as it is before it registers. *)
Definition host_bridge (dev : Z) : pci_device :=
  let cfg := replicate 256 0 in
  let cfg := aset (aset (aset (aset cfg 0x00 0x36) 0x01 0x1b) 0x02 0x08) 0x0b 0x06 in
  mk_pci false dev (TO_PCI_DEVFN 0 0) 0 false (replicate 6 (mk_bar None false)) cfg.

(** [dev] is the bridge device with the pool [dev_pool]; [alloc0] to [alloc3]
    are what the allocator returns to the context, to the endpoint's cleanup
    action, to the region and to its cleanup action. *)
Definition pio_bridge_realize (vm : vm_ctx) (dev_pool : ResPool.res_pool (Fn := cleanup)) (dev : Z)
    (pdata : option pio_bridge_pdata) (alloc0 alloc1 alloc2 alloc3 : option Z) :
    vm_ctx * ResPool.res_pool (Fn := cleanup) * option pio_bridge_ctx * Z :=
  match pdata with
  | None => (vm, dev_pool, None, - VM_EINVAL)
  | Some plat =>
      match ResPool.res_zalloc (Some dev_pool) sizeof_pio_bridge_ctx alloc0 with
      | (Some dev_pool, Some addr) =>
          match pci_bus_init_locked dev (pdata_mmio_base plat) (pdata_mmio_size plat) with
          | (None, ret) => (vm, dev_pool, None, ret)
          | (Some bus, _) =>
              let '(bus, dev_pool, _, _, ret) :=
                pci_device_register_locked bus dev_pool (host_bridge dev) true (addr + 64) alloc1 in
              if ret <? 0 then (vm, dev_pool, None, ret)
              else
                let c := mk_bridge 0 bus
                  (mk_router (replicate 4 (replicate 4 0))
                     ((fun wired : bool => if wired then Some 0 else None) <$> pdata_pirq plat)) in
                match io_map_register_region_locked vm IO_PIO (config_addr_port plat) 8 dev dev_pool
                        true alloc2 alloc3 with
                | (vm, dev_pool, ERR_PTR e) => (vm, dev_pool, Some c, e)
                | (vm, dev_pool, Ptr _) => (vm, dev_pool, Some c, 0)
                end
          end
      | (Some dev_pool, None) => (vm, dev_pool, None, - VM_ENOMEM)
      | (None, _) => (vm, dev_pool, None, - VM_ENOMEM)
      end
  end.

(** ** Invariant *)

(** The line a function's pin is routed to. *)
Definition routed (d : pci_device) (p : Z) : Prop :=
  1 ≤ interrupt_pin d ≤ 4 ∧ (PCI_SLOT (devfn d) + interrupt_pin d - 1) mod 4 = p.

(** The function wants an interrupt and INTx is not disabled. *)
Definition asserting (d : pci_device) : bool :=
  irq_level d && negb (has (aget (config_space d) 5) 4).

(** The bit of function [s] in the set of line [p]. *)
Definition source_bit (r : router) (p s : Z) : bool :=
  Z.testbit (aget (sources r p) (s / 64)) (s mod 64).

(** A line is wired-or of its words. *)
Definition any_source (words : list Z) : bool :=
  foldl (fun a i => a || negb (aget words i =? 0)) false [0; 1; 2; 3].

Record router_ok (r : router) : Prop := {
  ro_rows : length (asserted r) = 4%nat;
  ro_words : Forall (fun w => length w = 4%nat ∧ Forall is_u64 w) (asserted r);
  ro_level : ∀ p l, 0 ≤ p < 4 → pirq r !! Z.to_nat p = Some (Some l) →
    l = if any_source (sources r p) then 1 else 0;
}.

Record routed_inv (b : pci_bus) (r : router) : Prop := {
  rt_router : router_ok r;
  rt_devfns : NoDup (devfn <$> devices b);
  rt_devs : Forall (fun d => attached d = true ∧ is_u8 (devfn d) ∧ is_u8 (interrupt_pin d)) (devices b);
  rt_bits : ∀ p s, 0 ≤ p < 4 → is_u8 s →
    source_bit r p s = true ↔ ∃ d, d ∈ devices b ∧ devfn d = s ∧ routed d p ∧ asserting d = true;
}.

(** ** Lemmas: the bit sets *)

Lemma sources_ok r p : router_ok r → 0 ≤ p < 4 → length (sources r p) = 4%nat ∧ Forall is_u64 (sources r p).
Proof.
  intros R Hp. unfold sources. destruct (lookup_lt_is_Some_2 (asserted r) (Z.to_nat p)) as [w Hw].
  { rewrite (ro_rows _ R). lia. }
  rewrite Hw. by apply (Forall_lookup_1 _ _ _ _ (ro_words _ R) Hw).
Qed.

Lemma testbit_u64_bit s i : is_u8 s → 0 ≤ i → Z.testbit (u64 (Z.shiftl 1 (s mod 64))) i = (i =? s mod 64).
Proof.
  intros Hs Hi. pose proof (Z.mod_pos_bound s 64 ltac:(lia)). rewrite Z.shiftl_1_l, u64_small.
  - rewrite Z.pow2_bits_eqb by lia. apply Z.eqb_sym.
  - split; [apply Z.pow_nonneg; lia|apply Z.pow_lt_mono_r; lia].
Qed.

(** What the closure does to one bit. *)
Lemma source_bit_cb r d level p s :
  router_ok r → is_u8 (devfn d) → 1 ≤ interrupt_pin d ≤ 4 → 0 ≤ p < 4 → is_u8 s →
  source_bit (pio_bridge_set_irq_cb r d level) p s =
  if bool_decide ((PCI_SLOT (devfn d) + interrupt_pin d - 1) mod 4 = p ∧ s = devfn d)
  then negb (level =? 0) else source_bit r p s.
Proof.
  intros R Hd Hpin Hp Hs. unfold pio_bridge_set_irq_cb.
  destruct (Z.eqb_spec (interrupt_pin d) 0); [lia|]. destruct (Z.ltb_spec 4 (interrupt_pin d)); [lia|].
  cbn [orb]. cbv zeta. set (x := (PCI_SLOT (devfn d) + interrupt_pin d - 1) mod 4).
  assert (Hx : 0 ≤ x < 4) by (apply Z.mod_pos_bound; lia). clearbody x.
  destruct (sources_ok r x R Hx) as [L4 U]. unfold source_bit, sources at 1. cbn [asserted].
  change (asserted (_ <| pirq := _ |>)) with
    (<[Z.to_nat x := aset (sources r x) (devfn d / 64)
        (if level =? 0 then clr_bits (aget (sources r x) (devfn d / 64)) (u64 (Z.shiftl 1 (devfn d mod 64)))
         else set_bits (aget (sources r x) (devfn d / 64)) (u64 (Z.shiftl 1 (devfn d mod 64))))]> (asserted r)).
  destruct (decide (x = p)) as [->|Hne].
  2: { rewrite bool_decide_false by tauto. rewrite list_lookup_insert_ne by lia. done. }
  rewrite list_lookup_insert_eq by (rewrite (ro_rows _ R); lia). cbn [default from_option id].
  unfold is_u8 in *.
  assert (Hw : 0 ≤ devfn d / 64 < 4) by (split; [apply Z.div_pos|apply Z.div_lt_upper_bound]; lia).
  assert (Hw' : 0 ≤ s / 64 < 4) by (split; [apply Z.div_pos|apply Z.div_lt_upper_bound]; lia).
  pose proof (Z.mod_pos_bound s 64 ltac:(lia)).
  destruct (decide (s / 64 = devfn d / 64)) as [E|E].
  - rewrite E, aget_aset_eq by lia.
    destruct (decide (s = devfn d)) as [->|Hs'].
    + rewrite bool_decide_true by done. destruct (level =? 0);
        rewrite ?testbit_clr_bits, ?testbit_set_bits, testbit_u64_bit, Z.eqb_refl by (try done; lia);
        [apply andb_false_r|apply orb_true_r].
    + rewrite bool_decide_false by tauto.
      assert (Hm : s mod 64 ≠ devfn d mod 64).
      { intros Em. apply Hs'. rewrite (Z.div_mod s 64), (Z.div_mod (devfn d) 64) by lia. congruence. }
      apply Z.eqb_neq in Hm. unfold sources. destruct (level =? 0);
        rewrite ?testbit_clr_bits, ?testbit_set_bits, testbit_u64_bit, Hm by (try done; lia);
        [apply andb_true_r|apply orb_false_r].
  - rewrite aget_aset_ne by lia. rewrite bool_decide_false; [done|]. intros [_ ->]. done.
Qed.

Lemma cb_router_ok r d level :
  router_ok r → is_u8 (devfn d) → router_ok (pio_bridge_set_irq_cb r d level).
Proof.
  intros R Hd. unfold pio_bridge_set_irq_cb. destruct (_ || _); [done|]. cbv zeta.
  set (x := (PCI_SLOT (devfn d) + interrupt_pin d - 1) mod 4).
  assert (Hx : 0 ≤ x < 4) by (apply Z.mod_pos_bound; lia). clearbody x.
  destruct (sources_ok r x R Hx) as [L4 U]. set (w := aget (sources r x) (devfn d / 64)).
  assert (Hw : is_u64 w) by (apply (aget_range is_u64); [unfold is_u64; lia|done]). clearbody w.
  set (words := aset (sources r x) _ _).
  assert (W : length words = 4%nat ∧ Forall is_u64 words).
  { unfold words. rewrite length_aset. split; [done|]. apply Forall_aset; [done|]. destruct (level =? 0).
    - by apply clr_bits_range.
    - apply lor_range; [lia|done|apply u64_range]. }
  clearbody words. destruct R as [R1 R2 R3]. split; simpl.
  - by rewrite length_insert.
  - by apply Forall_insert.
  - intros p l Hp Hl. unfold sources. simpl. destruct (decide (p = x)) as [->|Hne].
    + rewrite list_lookup_alter_eq in Hl. rewrite list_lookup_insert_eq by lia. simpl.
      destruct (pirq r !! Z.to_nat x) as [[l0|]|]; by simplify_eq/=.
    + rewrite list_lookup_alter_ne in Hl by lia. rewrite list_lookup_insert_ne by lia. by apply R3.
Qed.

(** ** Lemmas: one endpoint changes *)

(** The endpoint [d] becomes [d'] and its bit follows. *)
Lemma routed_inv_put b r d d' r' :
  routed_inv b r → d ∈ devices b → devfn d' = devfn d → interrupt_pin d' = interrupt_pin d →
  attached d' = true → router_ok r' →
  (∀ p s, 0 ≤ p < 4 → is_u8 s → source_bit r' p s =
     if bool_decide (s = devfn d) && bool_decide (routed d p) then asserting d' else source_bit r p s) →
  routed_inv (put_device b d') r'.
Proof.
  intros [R N F I] Hd Ef Ep Ea R' Hb.
  assert (Rt : ∀ p, routed d' p ↔ routed d p) by (intros p; unfold routed; by rewrite Ef, Ep).
  assert (Hin : d' ∈ devices (put_device b d')).
  { simpl. apply list_elem_of_fmap. exists d. by rewrite Ef, Z.eqb_refl. }
  split; [done| | |].
  - assert (E : devfn <$> devices (put_device b d') = devfn <$> devices b); [|by rewrite E].
    simpl. rewrite <- list_fmap_compose. apply list_fmap_ext. intros _ x _. simpl.
    destruct (Z.eqb_spec (devfn x) (devfn d')); congruence.
  - rewrite Forall_forall in F. apply Forall_forall. intros x [[-> _]|[Hx _]]%elem_put_device; [|by apply F].
    rewrite Ef, Ep. split; [done|apply (F d Hd)].
  - intros p s Hp Hs. rewrite Hb by done. destruct (bool_decide_reflect (s = devfn d)) as [->|Hne]; cbn [andb].
    + destruct (bool_decide_reflect (routed d p)) as [Hr|Hr].
      * split; [intros A; exists d'; by rewrite Rt|].
        intros (x & [[-> _]|[_ Hx]]%elem_put_device & Ex & _ & A); congruence.
      * rewrite I by done. split; [intros (x & Hx & Ex & Rx & _)|intros (x & Hx & Ex & Rx & _)]; exfalso.
        -- assert (x = d) as -> by (by apply (devfn_inj b)). done.
        -- apply elem_put_device in Hx as [[-> _]|[_ Hx]]; [by apply Hr, Rt|congruence].
    + rewrite I by done. split; intros (x & Hx & Ex & Rx & A); exists x; split_and!; try done.
      * simpl. apply list_elem_of_fmap. exists x. destruct (Z.eqb_spec (devfn x) (devfn d')); [congruence|done].
      * apply elem_put_device in Hx as [[-> _]|[Hx _]]; [congruence|done].
Qed.

(** Nothing that matters to the lines changes. *)
Lemma routed_inv_keep b r d d' :
  routed_inv b r → d ∈ devices b → devfn d' = devfn d → interrupt_pin d' = interrupt_pin d →
  attached d' = true → asserting d' = asserting d → routed_inv (put_device b d') r.
Proof.
  intros I Hd Ef Ep Ea As. apply (routed_inv_put b r d); try done; [apply I|]. intros p s Hp Hs.
  destruct (bool_decide_reflect (s = devfn d)) as [->|], (bool_decide_reflect (routed d p)) as [Hr|]; try done.
  cbn [andb]. rewrite As. apply eq_true_iff_eq. rewrite (rt_bits _ _ I) by done. split.
  - intros (x & Hx & Ex & _ & A). by assert (x = d) as -> by (by apply (devfn_inj b); [apply I|..]).
  - intros A. by exists d.
Qed.

(** The closure after the endpoint's state has changed to [d']. *)
Lemma routed_inv_cb b r d d' level :
  routed_inv b r → d ∈ devices b → devfn d' = devfn d → interrupt_pin d' = interrupt_pin d →
  attached d' = true → asserting d' = negb (level =? 0) →
  routed_inv (put_device b d') (pio_bridge_set_irq_cb r d' level).
Proof.
  intros I Hd Ef Ep Ea As. pose proof (rt_devs _ _ I) as F. rewrite Forall_forall in F.
  destruct (F d Hd) as (_ & Hf & Hp8).
  apply (routed_inv_put b r d); try done; [apply cb_router_ok; [apply I|by rewrite Ef]|]. intros p s Hp Hs.
  destruct (decide (1 ≤ interrupt_pin d ≤ 4)) as [Hv|Hv].
  - rewrite source_bit_cb by (rewrite ?Ef, ?Ep; try done; apply I). rewrite Ef, Ep, As.
    rewrite <- bool_decide_and.
    destruct (bool_decide_reflect ((PCI_SLOT (devfn d) + interrupt_pin d - 1) mod 4 = p ∧ s = devfn d)) as [[E1 E2]|Hn].
    + by rewrite bool_decide_true.
    + rewrite bool_decide_false; [done|]. intros [-> [_ E]]. tauto.
  - assert (Ecb : pio_bridge_set_irq_cb r d' level = r).
    { unfold pio_bridge_set_irq_cb. rewrite Ep. unfold is_u8 in Hp8.
      destruct (Z.eqb_spec (interrupt_pin d) 0); [done|]. destruct (Z.ltb_spec 4 (interrupt_pin d)); [done|]. lia. }
    rewrite Ecb, (bool_decide_false (routed d p)) by (by intros [? _]). by rewrite andb_false_r.
Qed.

Lemma set_irq_routed b r d d0 level :
  routed_inv b r → d ∈ devices b → devfn d0 = devfn d → interrupt_pin d0 = interrupt_pin d →
  attached d0 = true →
  let '(r', d') := pci_device_set_irq_locked (Some pio_bridge_set_irq_cb) r d0 level in
  routed_inv (put_device b d') r'.
Proof.
  intros I Hd Ef Ep Ea. unfold pci_device_set_irq_locked. rewrite Ea. cbn [negb]. cbv zeta.
  apply (routed_inv_cb b r d); try done. unfold asserting. simpl.
  destruct (has (aget (config_space d0) 5) 4); [apply andb_false_r|apply andb_true_r].
Qed.

(** A BAR write leaves everything the lines depend on. *)
Lemma write_bar_fields vm d offset val size :
  0x10 ≤ offset →
  let d' := (write_bar vm d offset val size).2 in
  devfn d' = devfn d ∧ interrupt_pin d' = interrupt_pin d ∧ attached d' = attached d ∧
  asserting d' = asserting d.
Proof.
  intros Ho. unfold write_bar. cbv zeta. destruct (bar_region _ _ _) as [reg|]; [|done].
  destruct (_ && _); [done|]. destruct (io_map_relocate_region_locked _ _ _) as [vm' ret].
  destruct (negb _); [done|]. split_and!; try done. unfold asserting. simpl.
  rewrite aget_put_dword_ne; [done|..]; pose proof (Z.div_pos (offset - 16) 4 ltac:(lia) ltac:(lia)); lia.
Qed.

Lemma write_config_routed vm b r fn offset val size :
  routed_inv b r → 0 ≤ offset →
  let '(_, b', r') :=
    pci_bus_write_config_locked (Some pio_bridge_set_irq_cb) None vm b r fn offset val size in
  routed_inv b' r'.
Proof.
  intros I Ho. unfold pci_bus_write_config_locked. destruct (negb _); [done|].
  destruct (pci_bus_find_device b fn) as [d|] eqn:Ef; [|done]. apply find_Some_elem in Ef as [Hd _].
  pose proof (rt_devs _ _ I) as F. rewrite Forall_forall in F. destruct (F d Hd) as (Ha & _).
  destruct (0x40 <=? offset); [done|].
  destruct ((0x10 <=? offset) && (offset <? 0x28)) eqn:Eb.
  { apply andb_prop in Eb as [Hb%Z.leb_le _].
    destruct (write_bar_fields vm d offset val size Hb) as (E1 & E2 & E3 & E4).
    destruct (write_bar vm d offset val size) as [vm' d']. cbn [snd] in *.
    apply (routed_inv_keep b r d); try done. congruence. }
  clear Eb. cbv zeta. set (d1 := d <| config_space := _ |>).
  destruct ((offset <? 6) && (4 <? offset + size)) eqn:Ec.
  - pose proof (set_irq_routed b r d d1 (if irq_level d1 then 1 else 0) I Hd eq_refl eq_refl Ha) as S.
    by destruct (pci_device_set_irq_locked _ r d1 _).
  - apply (routed_inv_keep b r d); try done. unfold asserting. simpl. rewrite write_byte_other; try done.
    + intros i Hi%elem_of_seqZ. lia.
    + right. intros i Hi%elem_of_seqZ. apply andb_false_iff in Ec as [?%Z.ltb_ge|?%Z.ltb_ge]; lia.
Qed.

(** An endpoint that is new to the bus has no bit, and asserts nothing. *)
Lemma register_routed b r pool dev same_vm addr alloc :
  routed_inv b r → irq_level dev = false → is_u8 (devfn dev) → is_u8 (interrupt_pin dev) →
  let '(b', _, _, _, _) := pci_device_register_locked b pool dev same_vm addr alloc in
  routed_inv b' r.
Proof.
  intros I Hi Hf Hp. unfold pci_device_register_locked.
  destruct (_ || _); [done|]. destruct (attached dev); [done|].
  set (od := if devfn dev =? PCI_AUTO_DEVFN then _ else _).
  assert (Od : ∀ d, od = Some d →
    is_u8 (devfn d) ∧ interrupt_pin d = interrupt_pin dev ∧ irq_level d = irq_level dev).
  { unfold od. intros d. destruct (_ =? _); [|by intros [= <-]].
    destruct (free_slot b 1 31); [|done]. intros [= <-]. simpl. split; [apply u8_range|done]. }
  destruct od as [d|]; [|done]. destruct (Od d eq_refl) as (E1 & E2 & E3). clear Od.
  destruct (existsb _ _) eqn:Ex; [done|]. cbv zeta.
  destruct (ResPool.res_add_action _ _ _ _) as [[p'|] ret]; [|done]. destruct (ret <? 0); [done|].
  match goal with |- routed_inv (b <| devices := _ ++ [?x] |>) _ => set (d1 := x) end.
  assert (D1 : devfn d1 = devfn d ∧ attached d1 = true ∧ interrupt_pin d1 = interrupt_pin dev ∧ asserting d1 = false).
  { unfold asserting. simpl. by rewrite E2, E3, Hi. }
  clearbody d1. destruct D1 as (D1 & D2 & D3 & D4). destruct I as [R N F I]. split; simpl; [done|..].
  - rewrite fmap_app, NoDup_app. split_and!; [done| |apply NoDup_singleton].
    intros x (y & -> & Hy)%list_elem_of_fmap Hx%list_elem_of_singleton.
    pose proof (existsb_false_elem _ _ _ Ex Hy) as E. apply Z.eqb_neq in E. congruence.
  - apply Forall_app. rewrite Forall_singleton. split; [done|]. by rewrite D1, D3.
  - intros p s Hp0 Hs. rewrite I by done. split; intros (x & Hx & Rx).
    + exists x. by rewrite elem_of_app; split; [left|].
    + apply elem_of_app in Hx as [Hx| ->%list_elem_of_singleton]; [by exists x|].
      destruct Rx as (_ & _ & A). congruence.
Qed.

(** Removing an endpoint lowers its pin first. *)
Lemma unregister_routed b r d :
  routed_inv b r → d ∈ devices b →
  let '(b', r', _) := pci_unregister (Some pio_bridge_set_irq_cb) b r d in routed_inv b' r'.
Proof.
  intros I Hd. pose proof (rt_devs _ _ I) as F0. rewrite Forall_forall in F0. destruct (F0 d Hd) as (Ha & Hf & _).
  pose proof (set_irq_routed b r d d 0 I Hd eq_refl eq_refl Ha) as S. unfold pci_unregister.
  destruct (pci_device_set_irq_locked _ r d 0) as [r' d'] eqn:E.
  assert (D : devfn d' = devfn d ∧ asserting d' = false).
  { revert E. unfold pci_device_set_irq_locked. rewrite Ha. by intros [= _ <-]. }
  destruct D as [D1 D2]. clear E. destruct S as [R N F I'].
  assert (El : ∀ x, x ∈ filter (fun d0 => devfn d0 ≠ devfn d') (devices b) ↔
    x ∈ devices (put_device b d') ∧ devfn x ≠ devfn d').
  { intros x. rewrite list_elem_of_filter. split.
    - intros [Hne Hx]. split; [|done]. simpl. apply list_elem_of_fmap. exists x.
      destruct (Z.eqb_spec (devfn x) (devfn d')); [done|]. done.
    - intros [[[-> _]|[Hx _]]%elem_put_device Hne]; done. }
  split; simpl; [done|..].
  - eapply sublist_NoDup; [apply (rt_devfns _ _ I)|]. apply fmap_sublist, sublist_filter.
  - rewrite Forall_forall in F. apply Forall_forall. intros x Hx%El. apply F, Hx.
  - intros p s Hp Hs. rewrite I' by done. split.
    + intros (x & Hx & Ex & Rx & A). exists x. split; [|done]. apply El. split; [done|]. intros E.
      assert (x = d') as -> by (apply (devfn_inj (put_device b d')); [done|done| |done];
        simpl; apply list_elem_of_fmap; exists d; rewrite D1, Z.eqb_refl; done). congruence.
    + intros (x & Hx%El & Rx). exists x. split; [apply Hx|done].
Qed.

(** ** The lines *)

Lemma any_source_bit r p :
  router_ok r → 0 ≤ p < 4 → any_source (sources r p) = true ↔ ∃ s, is_u8 s ∧ source_bit r p s = true.
Proof.
  intros R Hp. destruct (sources_ok r p R Hp) as [L4 U]. unfold any_source, source_bit.
  set (w := sources r p) in *. clearbody w. split.
  - intros A. assert (∃ i, 0 ≤ i < 4 ∧ aget w i ≠ 0) as (i & Hi & Hw).
    { revert A. cbn [foldl]. rewrite orb_false_l, !orb_true_iff, !negb_true_iff, !Z.eqb_neq.
      intros [[[?|?]|?]|?]; [exists 0|exists 1|exists 2|exists 3]; split; done || lia. }
    pose proof (aget_range is_u64 w i ltac:(unfold is_u64; lia) U) as Ru. unfold is_u64 in Ru.
    assert (Hlog : 0 ≤ Z.log2 (aget w i) < 64) by (split; [apply Z.log2_nonneg|apply Z.log2_lt_pow2; lia]).
    exists (i * 64 + Z.log2 (aget w i)). split; [unfold is_u8; lia|].
    rewrite (Z.add_comm (i * 64)), Z.div_add, Z.mod_add, Z.div_small, Z.mod_small by lia. cbn [Z.add].
    apply Z.bit_log2. lia.
  - intros (s & Hs & Hb). unfold is_u8 in Hs.
    assert (Hi : 0 ≤ s / 64 < 4) by (split; [apply Z.div_pos|apply Z.div_lt_upper_bound]; lia).
    assert (Hn : aget w (s / 64) ≠ 0) by (intros E; by rewrite E, Z.bits_0 in Hb).
    cbn [foldl]. rewrite orb_false_l, !orb_true_iff, !negb_true_iff, !Z.eqb_neq.
    assert (s / 64 = 0 ∨ s / 64 = 1 ∨ s / 64 = 2 ∨ s / 64 = 3) as [E|[E|[E|E]]] by lia; rewrite E in Hn; tauto.
Qed.

(** What happens to the bridge: a guest access to its ports, a function that
    changes its interrupt level, an endpoint that comes or goes. *)
Inductive bridge_step : vm_ctx * pio_bridge_ctx → vm_ctx * pio_bridge_ctx → Prop :=
| bs_write vm c offset val size :
    0 ≤ offset → bridge_step (vm, c) (pio_bridge_write vm c offset val size)
| bs_irq vm c d level r' d' :
    d ∈ devices (bus c) →
    pci_device_set_irq_locked (Some pio_bridge_set_irq_cb) (lines c) d level = (r', d') →
    bridge_step (vm, c) (vm, c <| bus := put_device (bus c) d' |> <| lines := r' |>)
| bs_register vm c pool dev same_vm addr alloc b' pool' dev' parent ret :
    irq_level dev = false → is_u8 (devfn dev) → is_u8 (interrupt_pin dev) →
    pci_device_register_locked (bus c) pool dev same_vm addr alloc = (b', pool', dev', parent, ret) →
    bridge_step (vm, c) (vm, c <| bus := b' |>)
| bs_unregister vm c d b' r' d' :
    d ∈ devices (bus c) →
    pci_unregister (Some pio_bridge_set_irq_cb) (bus c) (lines c) d = (b', r', d') →
    bridge_step (vm, c) (vm, c <| bus := b' |> <| lines := r' |>).

Definition bridge_inv (s : vm_ctx * pio_bridge_ctx) : Prop := routed_inv (bus s.2) (lines s.2).

Lemma bridge_step_inv s s' : bridge_step s s' → bridge_inv s → bridge_inv s'.
Proof.
  intros [vm c offset val size Ho|vm c d level r' d' Hd E
         |vm c pool dev same_vm addr alloc b' pool' dev' parent ret Hi Hf Hp E|vm c d b' r' d' Hd E] I;
    unfold bridge_inv in *; cbn [fst snd] in *.
  - unfold pio_bridge_write. cbv zeta. destruct (_ =? 0); [by destruct (_ =? _)|].
    destruct (4 <=? offset); [|done]. destruct (negb _); [done|]. destruct (negb _); [done|].
    match goal with |- context [pci_bus_write_config_locked _ _ vm _ _ ?fn ?reg ?v size] =>
      pose proof (write_config_routed vm (bus c) (lines c) fn reg v size I ltac:(apply u8_range)) as W;
      by destruct (pci_bus_write_config_locked _ _ vm (bus c) (lines c) fn reg v size) as [[? ?] ?] end.
  - pose proof (rt_devs _ _ I) as F. rewrite Forall_forall in F. destruct (F d Hd) as (Ha & _).
    pose proof (set_irq_routed _ _ d d level I Hd eq_refl eq_refl Ha) as S. by rewrite E in S.
  - pose proof (register_routed _ _ pool dev same_vm addr alloc I Hi Hf Hp) as R. by rewrite E in R.
  - pose proof (unregister_routed _ _ d I Hd) as R. by rewrite E in R.
Qed.

Lemma bridge_reach_inv s s' : rtc bridge_step s s' → bridge_inv s → bridge_inv s'.
Proof. induction 1; [done|]. intros I. apply IHrtc. by apply (bridge_step_inv x). Qed.

Lemma fresh_router_inv b l :
  devices b = [] → routed_inv b (mk_router (replicate 4 (replicate 4 0))
    ((fun wired : bool => if wired then Some 0 else None) <$> l)).
Proof.
  intros E.
  assert (Z0 : ∀ p i, aget (sources (mk_router (replicate 4 (replicate 4 0))
      ((fun wired : bool => if wired then Some 0 else None) <$> l)) p) i = 0).
  { intros p i. unfold sources, aget. cbn [asserted].
    destruct (_ !! Z.to_nat p) as [w|] eqn:Ew; [|done]. apply lookup_replicate in Ew as [-> _]. cbn [default from_option id].
    destruct (_ !! Z.to_nat i) as [x|] eqn:Ex; [|done]. by apply lookup_replicate in Ex as [-> _]. }
  split; [split|rewrite E; constructor..|].
  - done.
  - repeat (constructor; [split; [done|repeat (constructor; [unfold is_u64; lia|])]; constructor|]). constructor.
  - intros p x Hp Hx. simpl in Hx. apply list_lookup_fmap_Some in Hx as ([] & Hx & _); [|done].
    unfold any_source. cbn [foldl]. rewrite !Z0. by injection Hx as ->.
  - intros p s Hp Hs. unfold source_bit. rewrite Z0, Z.bits_0, E. split; [done|].
    intros (d & Hd & _). by apply elem_of_nil in Hd.
Qed.

Lemma realize_inv vm0 pool dev plat a0 a1 a2 a3 vm pool' c :
  pio_bridge_realize vm0 pool dev (Some plat) a0 a1 a2 a3 = (vm, pool', Some c, 0) → bridge_inv (vm, c).
Proof.
  unfold pio_bridge_realize. destruct (ResPool.res_zalloc _ _ _) as [[p0|] [addr|]]; try done.
  destruct (pci_bus_init_locked _ _ _) as [[b|] ret0] eqn:Eb; [|done].
  assert (Nb : devices b = []).
  { revert Eb. unfold pci_bus_init_locked. destruct (_ || _); [done|]. by intros [= <- _]. }
  pose proof (register_routed b _ p0 (host_bridge dev) true (addr + 64) a1 (fresh_router_inv b (pdata_pirq plat) Nb)
    eq_refl ltac:(vm_compute; done) ltac:(vm_compute; done)) as R.
  destruct (pci_device_register_locked b p0 (host_bridge dev) true (addr + 64) a1) as [[[[b1 p1] ?] ?] ret].
  destruct (ret <? 0); [done|].
  destruct (io_map_register_region_locked _ _ _ _ _ _ _ _ _) as [[vm1 p2] [reg|e]]; by intros [= <- _ <-].
Qed.

(** C37. Each interrupt line of the host bridge is the OR of the functions
    routed to it.  From a realized bridge, after any sequence of guest accesses
    to its ports, changes of a function's interrupt level, and endpoints
    registering and unregistering: the level last put on a wired line is 0 or
    1, and it is 1 exactly if a function on the bus whose slot and pin are
    routed to that line asserts its interrupt and has INTx enabled in its
    command register. *)
Theorem pio_bridge_wired_or vm0 pool dev plat a0 a1 a2 a3 vm1 pool1 c0 vm c p l :
  pio_bridge_realize vm0 pool dev (Some plat) a0 a1 a2 a3 = (vm1, pool1, Some c0, 0) →
  rtc bridge_step (vm1, c0) (vm, c) →
  0 ≤ p < 4 → pirq (lines c) !! Z.to_nat p = Some (Some l) →
  (l = 0 ∨ l = 1) ∧
  (l = 1 ↔ ∃ d, d ∈ devices (bus c) ∧ 1 ≤ interrupt_pin d ≤ 4 ∧
     (PCI_SLOT (devfn d) + interrupt_pin d - 1) mod 4 = p ∧
     irq_level d = true ∧ has (aget (config_space d) 5) 4 = false).
Proof.
  intros E Rt Hp Hl. pose proof (bridge_reach_inv _ _ Rt (realize_inv _ _ _ _ _ _ _ _ _ _ _ E)) as I.
  unfold bridge_inv in I. cbn [snd] in I. pose proof (ro_level _ (rt_router _ _ I) p l Hp Hl) as ->.
  pose proof (any_source_bit _ p (rt_router _ _ I) Hp) as A.
  split; [destruct (any_source _); auto|]. transitivity (any_source (sources (lines c) p) = true).
  { destruct (any_source _); split; done || lia. }
  rewrite A. pose proof (rt_devs _ _ I) as F. rewrite Forall_forall in F. split.
  - intros (s & Hs & (d & Hd & _ & [R1 R2] & As)%(rt_bits _ _ I)); [|done..]. exists d.
    unfold asserting in As. apply andb_prop in As as [? ?%negb_true_iff]. done.
  - intros (d & Hd & R1 & R2 & L & X). exists (devfn d). destruct (F d Hd) as (_ & Hf & _).
    split; [done|]. apply (rt_bits _ _ I); [done..|]. exists d. unfold asserting. by rewrite L, X.
Qed.

(** ** Witness *)

Definition example_plat : pio_bridge_pdata := mk_pdata 0xcf8 0xc0000000 0x1000000 [true; true; true; false].
Definition example_pool : ResPool.res_pool (Fn := cleanup) := ResPool.mk_pool 3 [] false.
Definition example_realized :=
  pio_bridge_realize example_machine example_pool 3 (Some example_plat)
    (Some 0xa000) (Some 0xb000) (Some 0xc000) (Some 0xd000).
Definition example_bridge0 : pio_bridge_ctx :=
  default (mk_bridge 0 (mk_bus [] 0 0 0) (mk_router [] [])) example_realized.1.2.

(** An endpoint comes and asserts its interrupt. *)
Definition example_registered :=
  pci_device_register_locked (bus example_bridge0) example_pool example_pci true 0x7000 (Some 0x7100).
Definition example_bridge1 : pio_bridge_ctx := example_bridge0 <| bus := example_registered.1.1.1.1 |>.
Definition example_raised :=
  pci_device_set_irq_locked (Some pio_bridge_set_irq_cb) (lines example_bridge1) example_registered.1.1.2 1.
Definition example_bridge2 : pio_bridge_ctx :=
  example_bridge1 <| bus := put_device (bus example_bridge1) example_raised.2 |> <| lines := example_raised.1 |>.

Lemma pio_bridge_wired_or_witness :
  pirq (lines example_bridge2) !! 1%nat = Some (Some 1) ∧
  ∃ d, d ∈ devices (bus example_bridge2) ∧ (PCI_SLOT (devfn d) + interrupt_pin d - 1) mod 4 = 1 ∧
    irq_level d = true.
Proof.
  split; [vm_compute; reflexivity|].
  destruct (pio_bridge_wired_or example_machine example_pool 3 example_plat
    (Some 0xa000) (Some 0xb000) (Some 0xc000) (Some 0xd000) example_realized.1.1.1 example_realized.1.1.2
    example_bridge0 example_realized.1.1.1 example_bridge2 1 1) as [_ [H _]].
  - vm_compute. reflexivity.
  - eapply rtc_l; [|eapply rtc_l; [|apply rtc_refl]].
    + eapply (bs_register _ example_bridge0 example_pool example_pci true 0x7000 (Some 0x7100)
        example_registered.1.1.1.1); [reflexivity|vm_compute; split; congruence|vm_compute; split; congruence|].
      vm_compute. reflexivity.
    + eapply (bs_irq _ example_bridge1 example_registered.1.1.2 1 example_raised.1 example_raised.2);
        [vm_compute; right; left|vm_compute; reflexivity].
  - lia.
  - vm_compute. reflexivity.
  - destruct (H eq_refl) as (d & H1 & _ & H2 & H3 & _). exists d. split; [exact H1|]. split; [exact H2|exact H3].
Defined.

End Bridge.
