(* ===== verification/MpTable.v ===== *)
(** * The multiprocessor table of the PC board (src/hw/board/x86_64/mptable.c)

    The table a guest finds at 0xf0000: its processors, its two buses, its
    interrupt controller and how the pins of PCI functions and the ISA
    interrupts reach it.  Structures are the bytes they are copied as. *)

From S2P Require Import Prelude HostMem Topology Pci.

Module Mp.
Import Space Pci.

Definition PC_MAX_VCPUS : Z := 254.
Definition MP_BASE : Z := 0xf0000.
Definition MP_BIOS_SIZE : Z := 0x10000.
Definition MP_IOAPIC_ID : Z := PC_MAX_VCPUS.
Definition MP_INT_PCI : Z := 0xf.
Definition MP_INT_ISA : Z := 5.

(** ** The structures *)

Definition sizeof_mp_float : Z := 16.
Definition sizeof_mp_header : Z := 44.

Definition mp_cpu (id version flags signature features : Z) : list Z :=
  [0; id; version; flags] ++ le_put 4 signature ++ le_put 4 features ++ le_put 4 0 ++ le_put 4 0.

Definition mp_bus (id : Z) (name : list Z) : list Z := [1; id] ++ name.

Definition mp_ioapic (id version flags address : Z) : list Z := [2; id; version; flags] ++ le_put 4 address.

Definition mp_irq (type interrupt_type flags bus source destination pin : Z) : list Z :=
  [type; interrupt_type] ++ le_put 2 flags ++ [bus; source; destination; pin].

(** "PCI   ", "ISA   ", "PCMP", "MODVM   ", "MODVM PC    " and "_MP_". *)
Definition name_pci : list Z := [0x50; 0x43; 0x49; 0x20; 0x20; 0x20].
Definition name_isa : list Z := [0x49; 0x53; 0x41; 0x20; 0x20; 0x20].
Definition sig_table : list Z := [0x50; 0x43; 0x4d; 0x50].
Definition oem_id : list Z := [0x4d; 0x4f; 0x44; 0x56; 0x4d; 0x20; 0x20; 0x20].
Definition product_id : list Z :=
  [0x4d; 0x4f; 0x44; 0x56; 0x4d; 0x20; 0x50; 0x43; 0x20; 0x20; 0x20; 0x20].
Definition sig_float : list Z := [0x5f; 0x4d; 0x50; 0x5f].

(** ** Building the table *)

Definition checksum (m : hmem) (data size : Z) : Z :=
  let sum := foldl (fun sum i => u8 (sum + hm_get m (data + i))) 0 (seqZ 0 size) in
  u8 (- sum).

(** [p] and [count] with the memory they are about. *)
Record cursor : Type := mk_cursor { mem : hmem; p : Z; count : Z }.

Definition APPEND (c : cursor) (entry : list Z) : cursor :=
  mk_cursor (hm_write (mem c) (p c) entry) (p c + Z.of_nat (length entry)) (u32 (count c + 1)).

Definition has_pin (d : pci_device) : bool := negb (interrupt_pin d =? 0) && (interrupt_pin d <=? 4).

(** The interrupt entry of a function. *)
Definition pci_route (d : pci_device) : list Z :=
  mp_irq 3 0 MP_INT_PCI 0
    (u8 (Z.lor (Z.shiftl (PCI_SLOT (devfn d)) 2) (interrupt_pin d - 1)))
    MP_IOAPIC_ID (aget (config_space d) PCI_INTERRUPT_LINE).

(** One function: its entry, and its interrupt in [pci_irqs]. *)
Definition append_function (st : cursor * Z) (d : pci_device) : cursor * Z :=
  let '(c, pci_irqs) := st in
  let irq := aget (config_space d) PCI_INTERRUPT_LINE in
  if negb (has_pin d) then st
  else
    (APPEND c (pci_route d),
     if irq <? 16 then u16 (Z.lor pci_irqs (u32 (Z.shiftl 1 irq))) else pci_irqs).

Definition isa_route (irq : Z) : list Z := mp_irq 3 0 MP_INT_ISA 1 irq MP_IOAPIC_ID irq.

(** One ISA interrupt. *)
Definition append_isa (pci_irqs : Z) (c : cursor) (irq : Z) : cursor :=
  if (irq =? 2) || has pci_irqs (Z.shiftl 1 irq) then c else APPEND c (isa_route irq).

Definition cpu_entry (i : Z) : list Z := mp_cpu i 0x14 (if i =? 0 then 3 else 1) 0x600 0x201.

(** All entries, one after the other. *)
Definition append_entries (m : hmem) (start nr_vcpus : Z) (devs : list pci_device) : cursor :=
  let c := mk_cursor m start 0 in
  let c := foldl (fun c i => APPEND c (cpu_entry i)) c (seqZ 0 nr_vcpus) in
  let c := APPEND c (mp_bus 0 name_pci) in
  let c := APPEND c (mp_bus 1 name_isa) in
  let c := APPEND c (mp_ioapic MP_IOAPIC_ID 0x11 1 0xfec00000) in
  let '(c, pci_irqs) := foldl append_function (c, 0) devs in
  let c := foldl (append_isa pci_irqs) c (seqZ 0 16) in
  APPEND c (mp_irq 4 1 0 1 0 0xff 1).

(** The header of the table and the floating pointer, once the entries end at
    [p c]; [table] and [fp] are their addresses. *)
Definition write_headers (c : cursor) (fp table : Z) : hmem :=
  let m := hm_write (mem c) table sig_table in
  let m := hm_write m (table + 4) (le_put 2 (p c - table)) in
  let m := hm_write m (table + 6) [4] in
  let m := hm_write m (table + 8) oem_id in
  let m := hm_write m (table + 16) product_id in
  let m := hm_write m (table + 34) (le_put 2 (count c)) in
  let m := hm_write m (table + 36) (le_put 4 0xfee00000) in
  let m := hm_write m (table + 7) [checksum m table (p c - table)] in
  let m := hm_write m fp sig_float in
  let m := hm_write m (fp + 4) (le_put 4 (MP_BASE + sizeof_mp_float)) in
  let m := hm_write m (fp + 8) [1] in
  let m := hm_write m (fp + 9) [4] in
  hm_write m (fp + 10) [checksum m fp sizeof_mp_float].

(** The size reserved: all routes, sixteen ISA interrupts and one more. *)
Definition table_size (nr_vcpus : Z) (devs : list pci_device) : Z :=
  let routes := Z.of_nat (length (filter (fun d => has_pin d = true) devs)) in
  sizeof_mp_float + sizeof_mp_header + nr_vcpus * 20 + 2 * 8 + 8 + (routes + 16 + 1) * 8.

(** [m] is the host memory, [ms] the guest's address space, [devs] the
    functions of the bus. *)
Definition pc_build_mptable (m : hmem) (ms : mem_space) (nr_vcpus : Z) (devs : list pci_device) : hmem * Z :=
  if (nr_vcpus =? 0) || (MP_IOAPIC_ID <? nr_vcpus) then (m, - VM_EINVAL)
  else
    let size := table_size nr_vcpus devs in
    if MP_BIOS_SIZE <? size then (m, - VM_ENOSPC)
    else
      match mem_map_range ms MP_BASE size true with
      | None => (m, - VM_ENOSPC)
      | Some fp =>
          let m := hm_write m fp (replicate (Z.to_nat size) 0) in
          let table := fp + sizeof_mp_float in
          let c := append_entries m (table + sizeof_mp_header) nr_vcpus devs in
          (write_headers c fp table, 0)
      end.

(** ** What a guest reads *)

(** The entries of a table, walked by their types, and where they end. *)
Fixpoint mp_walk (m : hmem) (a : Z) (n : nat) : list (list Z) * Z :=
  match n with
  | O => ([], a)
  | S n =>
      let len := if hm_get m a =? 0 then 20 else 8 in
      let '(l, e) := mp_walk m (a + len) n in (hm_read m a len :: l, e)
  end.

(** The sum of the bytes of a range, modulo 256. *)
Definition byte_sum (m : hmem) (a n : Z) : Z :=
  foldl (fun sum i => u8 (sum + hm_get m (a + i))) 0 (seqZ 0 n).

(** The meaning of an entry, as the MultiProcessor Specification lays its bytes
    out: the polarity and the trigger mode of an interrupt are two bits each, 1
    for active high and edge-triggered, 3 for active low and level-triggered. *)
Record mp_interrupt : Type := mk_interrupt {
  i_type : Z;
  i_polarity : Z;
  i_trigger : Z;
  i_bus : Z;
  i_source : Z;
  i_apic : Z;
  i_input : Z;
}.

Inductive mp_entry : Type :=
| Processor (apic_id apic_version : Z) (enabled bootstrap : bool) (signature features : Z)
| Bus (id : Z) (name : list Z)
| IoApic (id version : Z) (enabled : bool) (address : Z)
| IoInterrupt (i : mp_interrupt)
| LocalInterrupt (i : mp_interrupt).

Definition decode_interrupt (b : list Z) : mp_interrupt :=
  let flags := get_le b 2 2 in
  mk_interrupt (aget b 1) (flags mod 4) (flags / 4 mod 4) (aget b 4) (aget b 5) (aget b 6) (aget b 7).

Definition decode (b : list Z) : option mp_entry :=
  match aget b 0 with
  | 0 => Some (Processor (aget b 1) (aget b 2) (Z.testbit (aget b 3) 0) (Z.testbit (aget b 3) 1) (get_le b 4 4) (get_le b 8 4))
  | 1 => Some (Bus (aget b 1) (take 6 (drop 2 b)))
  | 2 => Some (IoApic (aget b 1) (aget b 2) (Z.testbit (aget b 3) 0) (get_le b 4 4))
  | 3 => Some (IoInterrupt (decode_interrupt b))
  | 4 => Some (LocalInterrupt (decode_interrupt b))
  | _ => None
  end.

(** The functions with a pin, and what the table is to say of the machine.  The
    source of a PCI interrupt is four times the slot, the function number divided
    by eight, plus the pin counted from zero. *)
Definition with_pin (devs : list pci_device) : list pci_device := filter (fun d => 1 ≤ interrupt_pin d ≤ 4) devs.

Definition machine_entries (nr_vcpus : Z) (devs : list pci_device) : list mp_entry :=
  let line d := aget (config_space d) PCI_INTERRUPT_LINE in
  ((fun i => Processor i 0x14 true (bool_decide (i = 0)) 0x600 0x201) <$> seqZ 0 nr_vcpus) ++
  [Bus 0 [80; 67; 73; 32; 32; 32]; Bus 1 [73; 83; 65; 32; 32; 32]; IoApic 254 0x11 true 0xfec00000] ++
  ((fun d => IoInterrupt (mk_interrupt 0 3 3 0 (4 * (devfn d / 8) + interrupt_pin d - 1) 254 (line d))) <$> with_pin devs) ++
  ((fun irq => IoInterrupt (mk_interrupt 0 1 1 1 irq 254 irq)) <$>
     filter (fun irq => irq ≠ 2 ∧ irq ∉ line <$> with_pin devs) (seqZ 0 16)) ++
  [LocalInterrupt (mk_interrupt 1 0 0 1 0 0xff 1)].

(** The entries that are appended. *)
Definition mp_entries (nr_vcpus : Z) (devs : list pci_device) : list (list Z) :=
  let routed := filter (fun d => has_pin d = true) devs in
  let pci_irqs := (fun d => aget (config_space d) PCI_INTERRUPT_LINE) <$> routed in
  (cpu_entry <$> seqZ 0 nr_vcpus) ++
  [mp_bus 0 name_pci; mp_bus 1 name_isa; mp_ioapic MP_IOAPIC_ID 0x11 1 0xfec00000] ++
  (pci_route <$> routed) ++
  (isa_route <$> filter (fun irq => irq ≠ 2 ∧ irq ∉ pci_irqs) (seqZ 0 16)) ++
  [mp_irq 4 1 0 1 0 0xff 1].

(** ** Lemmas: the entries *)

Lemma append_all l : ∀ m a n,
  0 ≤ n → n + Z.of_nat (length l) < 2 ^ 32 →
  foldl APPEND (mk_cursor m a n) l =
  mk_cursor (hm_write m a (concat l)) (a + Z.of_nat (length (concat l))) (n + Z.of_nat (length l)).
Proof.
  induction l as [|e l IH]; intros m a n Hn Hl; simpl in *.
  - f_equal; lia.
  - unfold APPEND at 2. simpl. rewrite u32_small by (unfold is_u32; lia). rewrite IH by lia.
    rewrite hm_write_app, length_app. f_equal; lia.
Qed.

Lemma append_fmap {A} (f : A → list Z) l : ∀ c, foldl (fun c x => APPEND c (f x)) c l = foldl APPEND c (f <$> l).
Proof. induction l as [|x l IH]; intros c; [done|]. simpl. apply IH. Qed.

(** The functions with a pin, and the interrupts they use. *)
Lemma append_functions devs : ∀ c irqs,
  is_u16 irqs → Forall (fun d => is_u8 (aget (config_space d) PCI_INTERRUPT_LINE)) devs →
  let routed := filter (fun d => has_pin d = true) devs in
  ∃ irqs', foldl append_function (c, irqs) devs = (foldl APPEND c (pci_route <$> routed), irqs') ∧
    ∀ i, 0 ≤ i < 16 → Z.testbit irqs' i =
      Z.testbit irqs i || bool_decide (i ∈ (fun d => aget (config_space d) PCI_INTERRUPT_LINE) <$> routed).
Proof.
  induction devs as [|d devs IH]; intros c irqs Hi F; cbv zeta.
  - exists irqs. split; [done|]. intros i _. by rewrite bool_decide_false, orb_false_r by apply not_elem_of_nil.
  - apply Forall_cons in F as [Hd F]. cbn [foldl append_function]. rewrite filter_cons.
    destruct (has_pin d) eqn:Ep; cbn [negb].
    2: { rewrite decide_False by done. by apply IH. }
    rewrite decide_True by done. set (irq := aget (config_space d) PCI_INTERRUPT_LINE) in *.
    set (irqs1 := if irq <? 16 then _ else _).
    assert (H1 : is_u16 irqs1 ∧ ∀ i, 0 ≤ i < 16 → Z.testbit irqs1 i = Z.testbit irqs i || (i =? irq)).
    { unfold irqs1. destruct (Z.ltb_spec irq 16) as [Hlt|Hge].
      - split; [apply u16_range|]. intros i Hr. unfold u16. rewrite Z.mod_pow2_bits_low, Z.lor_spec by lia.
        unfold is_u8 in Hd. rewrite Z.shiftl_1_l, u32_small.
        + rewrite Z.pow2_bits_eqb by lia. by rewrite Z.eqb_sym.
        + split; [apply Z.pow_nonneg; lia|apply Z.pow_lt_mono_r; lia].
      - split; [done|]. intros i Hr. destruct (Z.eqb_spec i irq); [lia|]. by rewrite orb_false_r. }
    destruct H1 as [U1 B1]. destruct (IH (APPEND c (pci_route d)) irqs1 U1 F) as (irqs' & E & B).
    exists irqs'. split; [exact E|]. intros i Hr. rewrite B, B1 by done. rewrite <- orb_assoc. f_equal.
    rewrite fmap_cons. fold irq. destruct (Z.eqb_spec i irq) as [->|Hne]; cbn [orb].
    + by rewrite bool_decide_true by left.
    + apply bool_decide_ext. rewrite elem_of_cons. tauto.
Qed.

Lemma append_isas irqs (used : list Z) l : ∀ c,
  (∀ i, i ∈ l → 0 ≤ i < 16) → (∀ i, 0 ≤ i < 16 → Z.testbit irqs i = bool_decide (i ∈ used)) →
  foldl (append_isa irqs) c l = foldl APPEND c (isa_route <$> filter (fun irq => irq ≠ 2 ∧ irq ∉ used) l).
Proof.
  induction l as [|i l IH]; intros c Hl B; [done|]. cbn [foldl]. rewrite filter_cons.
  pose proof (Hl i ltac:(by left)) as Hi. unfold append_isa at 2.
  rewrite Z.shiftl_1_l, has_pow2, B by lia. rewrite IH; [|intros; apply Hl; by right|done].
  destruct (Z.eqb_spec i 2) as [->|Hne]; cbn [orb].
  - by rewrite decide_False by tauto.
  - destruct (bool_decide_reflect (i ∈ used)); [by rewrite decide_False by tauto|].
    by rewrite decide_True by done.
Qed.

Lemma append_entries_spec m start nr devs :
  Forall (fun d => is_u8 (aget (config_space d) PCI_INTERRUPT_LINE)) devs →
  append_entries m start nr devs = foldl APPEND (mk_cursor m start 0) (mp_entries nr devs).
Proof.
  intros F. unfold append_entries, mp_entries. cbv zeta. rewrite append_fmap, !foldl_app. cbn [foldl].
  set (c := APPEND (APPEND (APPEND _ _) _) _). clearbody c.
  destruct (append_functions devs c 0 ltac:(unfold is_u16; lia) F) as (irqs & E & B). rewrite E.
  rewrite (append_isas irqs ((fun d => aget (config_space d) PCI_INTERRUPT_LINE) <$> filter (fun d => has_pin d = true) devs)).
  - done.
  - intros i Hi%elem_of_seqZ. lia.
  - intros i Hi. rewrite B by done. by rewrite Z.bits_0.
Qed.

(** ** Lemmas: what the entries mean *)

(** The fields of a function that are bytes. *)
Definition function_ok (d : pci_device) : Prop :=
  is_u8 (devfn d) ∧ is_u8 (interrupt_pin d) ∧ is_u8 (aget (config_space d) PCI_INTERRUPT_LINE).

Lemma with_pin_eq devs : Forall function_ok devs → filter (fun d => has_pin d = true) devs = with_pin devs.
Proof.
  unfold with_pin. induction 1 as [|d devs (_ & Hp & _) F IH]; [done|]. rewrite !filter_cons, IH.
  unfold has_pin. apply decide_ext. unfold is_u8 in Hp. rewrite andb_true_iff, negb_true_iff, Z.eqb_neq, Z.leb_le. lia.
Qed.

Lemma decode_cpu i : decode (cpu_entry i) = Some (Processor i 0x14 true (bool_decide (i = 0)) 0x600 0x201).
Proof.
  unfold cpu_entry. destruct (Z.eqb_spec i 0) as [->|Hi]; [reflexivity|]. rewrite bool_decide_eq_false_2 by done.
  generalize i. intros j. reflexivity.
Qed.

Lemma source_eq slot pin : 0 ≤ slot < 32 → 1 ≤ pin ≤ 4 → u8 (Z.lor (Z.shiftl slot 2) (pin - 1)) = 4 * slot + pin - 1.
Proof.
  intros Hs Hp. assert (C : Forall (fun s => Forall (fun q => u8 (Z.lor (Z.shiftl s 2) (q - 1)) = 4 * s + q - 1) (seqZ 1 4)) (seqZ 0 32)).
  { apply (bool_decide_unpack _). vm_compute. done. }
  rewrite Forall_forall in C. specialize (C slot ltac:(apply elem_of_seqZ; lia)). rewrite Forall_forall in C. apply C.
  apply elem_of_seqZ. lia.
Qed.

Lemma decode_pci d :
  function_ok d → 1 ≤ interrupt_pin d ≤ 4 →
  decode (pci_route d) = Some (IoInterrupt (mk_interrupt 0 3 3 0 (4 * (devfn d / 8) + interrupt_pin d - 1) 254
    (aget (config_space d) PCI_INTERRUPT_LINE))).
Proof.
  intros (Hd & _ & _) Hp. unfold pci_route, PCI_SLOT. rewrite Z.shiftr_div_pow2 by lia. change (2 ^ 3) with 8.
  assert (Hs : 0 ≤ devfn d / 8 < 32) by (unfold is_u8 in Hd; split; [apply Z.div_pos|apply Z.div_lt_upper_bound]; lia).
  rewrite source_eq by done. generalize (4 * (devfn d / 8) + interrupt_pin d - 1) (aget (config_space d) PCI_INTERRUPT_LINE).
  intros source line. reflexivity.
Qed.

Lemma decode_isa irq : decode (isa_route irq) = Some (IoInterrupt (mk_interrupt 0 1 1 1 irq 254 irq)).
Proof. reflexivity. Qed.

Lemma decode_entries nr devs : Forall function_ok devs → decode <$> mp_entries nr devs = Some <$> machine_entries nr devs.
Proof.
  intros F. unfold mp_entries, machine_entries. cbv zeta. rewrite (with_pin_eq _ F), !fmap_app, <- !list_fmap_compose.
  rewrite Forall_forall in F. apply (f_equal2 app); [|apply (f_equal2 app); [reflexivity|apply (f_equal2 app); [|apply (f_equal2 app); [|reflexivity]]]];
    apply list_fmap_ext.
  - intros _ i _. apply decode_cpu.
  - intros _ d Hd%list_elem_of_lookup_2. apply list_elem_of_filter in Hd as [Hp Hd]. by apply decode_pci; [apply F|].
  - intros _ irq _. apply decode_isa.
Qed.

(** An entry's first byte is its type, which tells its length. *)
Definition entry_ok (e : list Z) : Prop :=
  Forall is_u8 e ∧
  match e with t :: _ => Z.of_nat (length e) = if t =? 0 then 20 else 8 | [] => False end.

Lemma bytes_app l l' : Forall is_u8 l → Forall is_u8 l' → Forall is_u8 (l ++ l').
Proof. intros. by apply Forall_app. Qed.

Lemma length_mp_irq type itype flags bus source dest pin :
  length (mp_irq type itype flags bus source dest pin) = 8%nat.
Proof. unfold mp_irq. rewrite !length_app. pose proof (length_le_put 2 flags). cbn [length]. lia. Qed.

Lemma length_cpu_entry i : length (cpu_entry i) = 20%nat.
Proof.
  unfold cpu_entry, mp_cpu. rewrite !length_app. pose proof (length_le_put 4 0x600).
  pose proof (length_le_put 4 0x201). pose proof (length_le_put 4 0). cbn [length]. lia.
Qed.

Lemma mp_irq_ok type itype flags bus source dest pin :
  0 < type < 256 → is_u8 itype → is_u8 bus → is_u8 source → is_u8 dest → is_u8 pin →
  entry_ok (mp_irq type itype flags bus source dest pin).
Proof.
  intros. split.
  - apply bytes_app; [repeat constructor; unfold is_u8 in *; lia|].
    apply bytes_app; [by apply le_put_bytes|]. repeat constructor; unfold is_u8 in *; lia.
  - change (Z.of_nat (length (mp_irq type itype flags bus source dest pin)) = if type =? 0 then 20 else 8).
    rewrite length_mp_irq. destruct (Z.eqb_spec type 0); lia.
Qed.

Lemma cpu_entry_ok i : is_u8 i → entry_ok (cpu_entry i).
Proof.
  intros Hi. split.
  - apply bytes_app; [repeat constructor; unfold is_u8 in *; try lia; by destruct (i =? 0)|].
    repeat apply bytes_app; by apply le_put_bytes.
  - change (Z.of_nat (length (cpu_entry i)) = 20). by rewrite length_cpu_entry.
Qed.

Lemma mp_entries_ok nr devs :
  nr ≤ 254 → Forall (fun d => is_u8 (aget (config_space d) PCI_INTERRUPT_LINE)) devs →
  Forall entry_ok (mp_entries nr devs).
Proof.
  intros Hn F. unfold mp_entries. cbv zeta. rewrite !Forall_app, !Forall_fmap. split_and!.
  - apply Forall_forall. intros i Hi%elem_of_seqZ. apply cpu_entry_ok. unfold is_u8. lia.
  - repeat (constructor; [split; [vm_compute; repeat (constructor; [done|]); constructor|vm_compute; reflexivity]|]).
    constructor.
  - rewrite Forall_forall in F. apply Forall_forall. intros d [_ Hd]%list_elem_of_filter.
    apply mp_irq_ok; try (unfold is_u8, MP_IOAPIC_ID, PC_MAX_VCPUS; lia); [apply u8_range|by apply F].
  - apply Forall_forall. intros i [_ Hi%elem_of_seqZ]%list_elem_of_filter.
    apply mp_irq_ok; unfold is_u8, MP_IOAPIC_ID, PC_MAX_VCPUS; lia.
  - constructor; [|constructor]. apply mp_irq_ok; unfold is_u8; lia.
Qed.

(** A guest that walks the bytes of entries finds them. *)
Lemma mp_walk_concat m l : ∀ a,
  Forall entry_ok l → hm_read m a (Z.of_nat (length (concat l))) = concat l →
  mp_walk m a (length l) = (l, a + Z.of_nat (length (concat l))).
Proof.
  induction l as [|e l IH]; intros a F E; simpl in *; [f_equal; lia|].
  apply Forall_cons in F as [[Be Le] F]. destruct e as [|t e]; [done|].
  rewrite length_app, Nat2Z.inj_add, hm_read_app in E by lia.
  apply app_inj_1 in E as [E1 E2]; [|by rewrite length_hm_read, Nat2Z.id].
  assert (T : hm_get m a = t).
  { rewrite hm_read_cons in E1 by (simpl; lia). by injection E1. }
  rewrite T, <- Le, IH by done. rewrite E1, length_app. f_equal. lia.
Qed.

Lemma length_concat_sized {A} (l : list (list A)) n : Forall (fun e => length e = n) l → length (concat l) = (n * length l)%nat.
Proof.
  induction 1 as [|e l He _ IH]; [simpl; lia|]. cbn [concat length]. rewrite length_app, He, IH. lia.
Qed.

(** All entries fit in what was reserved for them. *)
Lemma mp_entries_size nr devs :
  0 ≤ nr →
  let l := mp_entries nr devs in
  sizeof_mp_float + sizeof_mp_header + Z.of_nat (length (concat l)) ≤ table_size nr devs ∧
  8 * Z.of_nat (length l) ≤ Z.of_nat (length (concat l)).
Proof.
  intros Hn. unfold mp_entries, table_size, sizeof_mp_float, sizeof_mp_header. cbv zeta.
  set (devs' := filter _ devs). set (isas := filter _ (seqZ 0 16)).
  assert (Hi : (length isas ≤ 16)%nat).
  { unfold isas. etransitivity; [apply sublist_length, sublist_filter|]. by rewrite length_seqZ. }
  clearbody devs' isas. rewrite !concat_app, !length_app, !length_fmap, length_seqZ.
  rewrite (length_concat_sized (cpu_entry <$> _) 20), (length_concat_sized (pci_route <$> _) 8),
    (length_concat_sized (isa_route <$> _) 8).
  - rewrite !length_fmap, length_seqZ. cbn [concat]. rewrite !length_app, length_mp_irq.
    unfold mp_ioapic, mp_bus. rewrite !length_app. pose proof (length_le_put 4 0xfec00000).
    cbn [length name_pci name_isa]. lia.
  - apply Forall_fmap, Forall_true. intros i. apply length_mp_irq.
  - apply Forall_fmap, Forall_true. intros d. apply length_mp_irq.
  - apply Forall_fmap, Forall_true. intros i. apply length_cpu_entry.
Qed.

(** ** Lemmas: checksums *)

Definition sum_of (g : Z → Z) (l : list Z) : Z := foldr (fun i t => g i + t) 0 l.

Lemma foldl_sum g l : ∀ x, u8 (foldl (fun sum i => u8 (sum + g i)) x l) = u8 (x + sum_of g l).
Proof.
  induction l as [|i l IH]; intros x; simpl; [by rewrite Z.add_0_r|]. rewrite IH. unfold u8.
  rewrite Zplus_mod_idemp_l. f_equal. lia.
Qed.

Lemma byte_sum_eq m a n : u8 (byte_sum m a n) = u8 (sum_of (fun i => hm_get m (a + i)) (seqZ 0 n)).
Proof. unfold byte_sum. by rewrite foldl_sum. Qed.

Lemma byte_sum_u8 m a n : byte_sum m a n = u8 (byte_sum m a n).
Proof.
  assert (H : ∀ g l x, is_u8 x → is_u8 (foldl (fun sum i : Z => u8 (sum + g i)) x l)).
  { intros g l. induction l as [|i l IH]; intros x Hx; [done|]. apply IH, u8_range. }
  symmetry. apply u8_small, H. unfold is_u8. lia.
Qed.

Lemma sum_of_ext g g' l : (∀ i, i ∈ l → g' i = g i) → sum_of g' l = sum_of g l.
Proof.
  induction l as [|i l IH]; intros E; [done|]. simpl. rewrite E by left. f_equal. apply IH. intros. apply E. by right.
Qed.

Lemma sum_of_update g g' l k :
  NoDup l → k ∈ l → (∀ i, i ∈ l → i ≠ k → g' i = g i) → g k = 0 → sum_of g' l = sum_of g l + g' k.
Proof.
  induction l as [|i l IH]; intros N Hk E Z0; [by apply elem_of_nil in Hk|].
  apply NoDup_cons in N as [Hi N]. simpl. apply elem_of_cons in Hk as [->|Hk].
  - rewrite (sum_of_ext g g'); [lia|]. intros j Hj. apply E; [by right|]. intros ->. done.
  - rewrite IH; [|done|done|intros; apply E; [by right|done]|done].
    rewrite (E i); [lia|by left|]. intros ->. done.
Qed.

Lemma byte_sum_ext m m' a n :
  (∀ i, 0 ≤ i < n → hm_get m' (a + i) = hm_get m (a + i)) → byte_sum m' a n = byte_sum m a n.
Proof.
  intros E. rewrite (byte_sum_u8 m'), (byte_sum_u8 m), !byte_sum_eq. f_equal. apply sum_of_ext.
  intros i Hi%elem_of_seqZ. apply E. lia.
Qed.

(** Writing the checksum where a zero was makes the sum zero. *)
Lemma checksum_zero m a n k :
  0 ≤ k < n → hm_get m (a + k) = 0 → byte_sum (hm_write m (a + k) [checksum m a n]) a n = 0.
Proof.
  intros Hk Z0. rewrite byte_sum_u8, byte_sum_eq.
  assert (Hc : hm_get (hm_write m (a + k) [checksum m a n]) (a + k) = checksum m a n).
  { unfold hm_get. simpl. rewrite lookup_insert_eq. apply u8_small, u8_range. }
  rewrite (sum_of_update (fun i => hm_get m (a + i)) _ _ k); cbv beta; rewrite ?Hc; try done.
  - unfold checksum. fold (byte_sum m a n). unfold u8. rewrite Zplus_mod_idemp_r.
    rewrite <- (Zplus_mod_idemp_l (sum_of _ _)). fold (u8 (sum_of (fun i => hm_get m (a + i)) (seqZ 0 n))).
    rewrite <- byte_sum_eq, <- byte_sum_u8. by rewrite Z.add_opp_diag_r.
  - apply NoDup_seqZ.
  - apply elem_of_seqZ. lia.
  - intros i Hi%elem_of_seqZ Hne. apply hm_get_write_out. simpl. lia.
Qed.

(** ** Lemmas: the headers *)

(** Side conditions of writes elsewhere. *)
Local Ltac elsewhere :=
  rewrite ?length_le_put by lia;
  cbn [length sig_table oem_id product_id sig_float Z.of_nat Pos.of_succ_nat Pos.succ]; lia.
Local Ltac skip :=
  repeat first [rewrite hm_read_write_out by elsewhere | rewrite le_get_write_out by elsewhere
               | rewrite hm_get_write_out by elsewhere].

Record headers_ok (m' m : hmem) (fp n k : Z) : Prop := {
  hd_float : hm_read m' fp 4 = sig_float ∧ le_get m' (fp + 4) 4 = MP_BASE + sizeof_mp_float ∧
    byte_sum m' fp sizeof_mp_float = 0;
  hd_table : hm_read m' (fp + 16) 4 = sig_table ∧ le_get m' (fp + 16 + 4) 2 = n ∧
    le_get m' (fp + 16 + 34) 2 = k ∧ le_get m' (fp + 16 + 36) 4 = 0xfee00000;
  hd_sum : byte_sum m' (fp + 16) n = 0;
  hd_out : ∀ x, x < fp ∨ fp + 60 ≤ x → hm_get m' x = hm_get m x;
}.

Lemma write_headers_spec c fp :
  44 ≤ p c - (fp + 16) < 2 ^ 16 → 0 ≤ count c < 2 ^ 16 →
  (∀ x, fp ≤ x < fp + 60 → hm_get (mem c) x = 0) →
  headers_ok (write_headers c fp (fp + 16)) (mem c) fp (p c - (fp + 16)) (count c).
Proof.
  intros Hn Hk Z0. unfold write_headers. cbv zeta. set (n := p c - (fp + 16)) in *. clearbody n.
  set (k := count c) in *. clearbody k. set (m0 := mem c) in *. clearbody m0.
  set (m7 := hm_write (hm_write (hm_write (hm_write (hm_write (hm_write (hm_write m0 _ _) _ _) _ _) _ _) _ _) _ _) _ _).
  assert (Z7 : hm_get m7 (fp + 16 + 7) = 0) by (unfold m7; skip; apply Z0; lia).
  pose proof (checksum_zero m7 (fp + 16) n 7 ltac:(lia) Z7) as C7.
  set (m8 := hm_write m7 _ _) in *.
  set (m12 := hm_write (hm_write (hm_write (hm_write m8 _ _) _ _) _ _) _ _).
  assert (Z12 : hm_get m12 (fp + 10) = 0) by (unfold m12, m8, m7; skip; apply Z0; lia).
  pose proof (checksum_zero m12 fp 16 10 ltac:(lia) Z12) as C12.
  split.
  - split_and!; [| |exact C12].
    + unfold m12. skip. change 4 with (Z.of_nat (length sig_float)). apply hm_read_write. by repeat constructor.
    + unfold m12. skip. by rewrite le_get_put by lia.
  - split_and!.
    + unfold m12, m8, m7. skip. change 4 with (Z.of_nat (length sig_table)) at 1. apply hm_read_write. by repeat constructor.
    + unfold m12, m8, m7. skip. rewrite le_get_put by lia. apply Z.mod_small. lia.
    + unfold m12, m8, m7. skip. rewrite le_get_put by lia. apply Z.mod_small. lia.
    + unfold m12, m8, m7. skip. by rewrite le_get_put by lia.
  - rewrite <- C7. apply byte_sum_ext. intros i Hi. unfold m12. skip. done.
  - intros x Hx. unfold m12, m8, m7. skip. done.
Qed.

(** C38. The table a guest finds is the machine's.  With no processor or more
    than 254 building fails with -EINVAL, and with -ENOSPC if the bytes that all
    entries may need, sixteen ISA interrupts among them, are more than 64 KiB or
    are not RAM; then nothing changes.  Otherwise it succeeds, and nothing
    outside those bytes changes; the floating pointer at 0xf0000 has its
    signature, points to the table behind it and its bytes sum to zero; so has
    the table, over the length its header gives; and a walk over as many entries
    as the header counts, each as long as its type says, ends exactly where the
    table ends and reads: every processor with its number as its APIC, enabled,
    the first as the bootstrap processor; the two buses; the I/O APIC; for every
    function with an interrupt pin a level-triggered interrupt from its slot and
    pin to the input its interrupt line names; for each of the ISA interrupts 0
    to 15 but 2, the cascade, and but those that functions use, an edge-triggered
    one to the input of the same number; and the NMI. *)
Theorem pc_build_mptable_roundtrip m ms nr devs :
  0 ≤ nr → Forall function_ok devs →
  let '(m', ret) := pc_build_mptable m ms nr devs in
  let size := 16 + 44 + 20 * nr + 8 * (3 + Z.of_nat (length (with_pin devs)) + 17) in
  if (nr =? 0) || (254 <? nr) then m' = m ∧ ret = - VM_EINVAL
  else
    match (if 0x10000 <? size then None else mem_map_range ms 0xf0000 size true) with
    | None => m' = m ∧ ret = - VM_ENOSPC
    | Some fp =>
        let table := fp + 16 in
        let length := le_get m' (table + 4) 2 in
        let entries := le_get m' (table + 34) 2 in
        ret = 0 ∧
        (∀ x, x < fp ∨ fp + size ≤ x → hm_get m' x = hm_get m x) ∧
        hm_read m' fp 4 = [0x5f; 0x4d; 0x50; 0x5f] ∧ le_get m' (fp + 4) 4 = 0xf0010 ∧ byte_sum m' fp 16 = 0 ∧
        hm_read m' table 4 = [0x50; 0x43; 0x4d; 0x50] ∧ le_get m' (table + 36) 4 = 0xfee00000 ∧
        byte_sum m' table length = 0 ∧
        mp_walk m' (table + 44) (Z.to_nat entries) = (mp_entries nr devs, table + length) ∧
        decode <$> mp_entries nr devs = Some <$> machine_entries nr devs
    end.
Proof.
  intros Hnr F. assert (Fl : Forall (fun d => is_u8 (aget (config_space d) PCI_INTERRUPT_LINE)) devs).
  { eapply Forall_impl; [exact F|]. by intros d (_ & _ & ?). }
  pose proof (decode_entries nr devs F) as De. unfold pc_build_mptable, MP_BIOS_SIZE. change MP_IOAPIC_ID with 254.
  destruct (Z.eqb_spec nr 0); [done|]. destruct (Z.ltb_spec 254 nr); [done|]. cbn [orb]. cbv zeta.
  assert (Es : table_size nr devs = 16 + 44 + 20 * nr + 8 * (3 + Z.of_nat (length (with_pin devs)) + 17)).
  { unfold table_size, sizeof_mp_float, sizeof_mp_header. rewrite with_pin_eq by done. lia. }
  rewrite <- Es. destruct (Z.ltb_spec 0x10000 (table_size nr devs)); [done|]. change MP_BASE with 0xf0000.
  destruct (mem_map_range ms 0xf0000 (table_size nr devs) true) as [fp|]; [|done].
  rewrite append_entries_spec by done. pose proof (mp_entries_ok nr devs ltac:(lia) Fl) as Ok.
  destruct (mp_entries_size nr devs ltac:(lia)) as [S1 S2]. unfold sizeof_mp_float, sizeof_mp_header in *.
  set (l := mp_entries nr devs) in *. clearbody l. clear Es. set (size := table_size nr devs) in *. clearbody size.
  set (m0 := hm_write m fp (replicate (Z.to_nat size) 0)). rewrite append_all by lia. set (c := mk_cursor _ _ _).
  pose proof (write_headers_spec c fp) as Sp. cbn [c p count mem] in Sp. rewrite Z.add_0_l in *.
  destruct Sp as [(H1 & H2 & H3) (H4 & H5 & H6 & H9) H7 H8]; [lia|lia| |].
  { intros x Hx. rewrite hm_get_write_out by lia. unfold m0. by apply hm_get_zeros; lia. }
  rewrite H5, H6. split_and!; try done.
  - intros x Hx. rewrite H8, hm_get_write_out by lia. apply hm_get_write_out. rewrite length_replicate. lia.
  - rewrite Nat2Z.id, mp_walk_concat; [f_equal; lia|done|].
    rewrite <- (hm_read_write m0 (fp + 16 + 44) (concat l)) at 2.
    + apply list_fmap_ext. intros j i Hi. apply lookup_seqZ in Hi as [-> Hi]. apply H8. lia.
    + apply Forall_concat. eapply Forall_impl; [exact Ok|]. by intros e [? _].
Qed.

(** ** Witness *)

Definition example_bios : mem_space := mk_space [mk_ram 0xf0000 0x10000 0x700000 0] 0x10000 0x1000.

Lemma pc_build_mptable_roundtrip_witness :
  let '(m', ret) := pc_build_mptable ∅ example_bios 2 [example_pci] in
  ret = 0 ∧
  decode <$> (mp_walk m' (0x700010 + 44) (Z.to_nat (le_get m' (0x700010 + 34) 2))).1 = Some <$> machine_entries 2 [example_pci].
Proof.
  pose proof (pc_build_mptable_roundtrip ∅ example_bios 2 [example_pci]) as H.
  assert (Em : mem_map_range example_bios 0xf0000 (16 + 44 + 20 * 2 + 8 * (3 + Z.of_nat (length (with_pin [example_pci])) + 17)) true
    = Some 0x700000) by (vm_compute; reflexivity).
  destruct (pc_build_mptable ∅ example_bios 2 [example_pci]) as [m' ret]. cbv zeta in H. rewrite Em in H.
  destruct H as (H1 & _ & _ & _ & _ & _ & _ & _ & H2 & H3).
  - lia.
  - repeat constructor; vm_compute; congruence.
  - split; [exact H1|]. change (0x700000 + 16) with 0x700010 in H2. rewrite H2. exact H3.
Defined.

End Mp.
