(* ===== verification/IoCtx.v ===== *)
(** * Delivery of host input (src/io/ctx.c, src/io/receiver.c, src/io/binding.h)

    Native threads post deliveries to one queue, and one runner takes them
    from there and calls the device under the device lock.  A binding ties the
    deliveries to a device; it is closed and dropped while deliveries may
    still be queued or running.

    Each section of the code under the queue lock is one function of the
    shared state; a step of the system is such a section with what its thread
    does around it.  [None] is a fault: a binding used after it was freed, or a
    failed [BUG_ON]. *)

From S2P Require Import Prelude.

Module Io.

Inductive io_work_kind : Type := IO_DATA | IO_CONTROL.

#[export] Instance io_work_kind_eq : EqDecision io_work_kind.
Proof. solve_decision. Defined.

(** ** State *)

(** struct io_delivery at its address; [d_receive] says whether [receive] or
    [notify] is set, [d_consumed] whether [consumed] is. *)
Record io_delivery : Type := mk_delivery {
  d_addr : Z;
  d_receive : bool;
  d_consumed : bool;
  d_error : Z;
  d_bytes : list Z;
}.

Record io_work : Type := mk_work { binding : Z; kind : io_work_kind; data : io_delivery }.

Record io_binding : Type := mk_binding { refs : Z; open : bool; enabled : bool }.

Definition eta_binding (b : io_binding) : io_binding := mk_binding (refs b) (open b) (enabled b).
#[export] Instance set_refs : Setter refs := ltac:(derive_setter eta_binding).
#[export] Instance set_open : Setter open := ltac:(derive_setter eta_binding).
#[export] Instance set_enabled : Setter enabled := ltac:(derive_setter eta_binding).

(** struct io_ctx, with the bindings that are allocated ([heap]), and the
    deliveries passed to [release] so far. *)
Record io_ctx : Type := mk_io {
  work : list io_work;
  stopped : bool;
  error : Z;
  bindings : Z;
  heap : gmap Z io_binding;
  released : list io_delivery;
}.

Definition eta_io (c : io_ctx) : io_ctx :=
  mk_io (work c) (stopped c) (error c) (bindings c) (heap c) (released c).
#[export] Instance set_work : Setter work := ltac:(derive_setter eta_io).
#[export] Instance set_stopped : Setter stopped := ltac:(derive_setter eta_io).
#[export] Instance set_error : Setter error := ltac:(derive_setter eta_io).
#[export] Instance set_bindings : Setter bindings := ltac:(derive_setter eta_io).
#[export] Instance set_heap : Setter heap := ltac:(derive_setter eta_io).
#[export] Instance set_released : Setter released := ltac:(derive_setter eta_io).

Definition io_ctx_empty : io_ctx := mk_io [] false 0 0 ∅ [].

(** [alloc] says whether there is memory; the others are what the two mutexes
    and the condition return, 0 or an error. *)
Definition io_ctx_create (alloc : bool) (device_lock queue_lock ready : Z) : err_ptr io_ctx :=
  if negb alloc then ERR_PTR (- VM_ENOMEM)
  else if device_lock <? 0 then ERR_PTR device_lock
  else if queue_lock <? 0 then ERR_PTR queue_lock
  else if ready <? 0 then ERR_PTR ready
  else Ptr io_ctx_empty.

(** ** Bindings *)

(** [alloc] is the address [calloc] returns. *)
Definition io_binding_create_locked (io : io_ctx) (alloc : option Z) : io_ctx * err_ptr Z :=
  match alloc with
  | None => (io, ERR_PTR (- VM_ENOMEM))
  | Some b =>
      if stopped io then (io, ERR_PTR (- VM_ESHUTDOWN))
      else
        let io := io <| bindings := u32 (bindings io + 1) |> in
        (io <| heap := <[b := mk_binding 1 true true]> (heap io) |>, Ptr b)
  end.

Definition io_binding_put (io : io_ctx) (b : Z) : option io_ctx :=
  r ← heap io !! b;
  if refs r =? 1 then
    if open r then None
    else Some (io <| bindings := u32 (bindings io - 1) |> <| heap := delete b (heap io) |>)
  else Some (io <| heap := <[b := r <| refs := u32 (refs r - 1) |>]> (heap io) |>).

Definition io_binding_is_open (io : io_ctx) (b : Z) : option bool := open <$> heap io !! b.

(** The loop over the cancelled work. *)
Fixpoint cancel (io : io_ctx) (b : Z) (cancelled : list io_work) : option io_ctx :=
  match cancelled with
  | [] => Some io
  | w :: cancelled =>
      let io := io <| released := released io ++ [data w] |> in
      io ← io_binding_put io b;
      cancel io b cancelled
  end.

Definition io_binding_close_locked (io : io_ctx) (b : Z) : option io_ctx :=
  r ← heap io !! b;
  let io := io <| heap := <[b := r <| open := false |>]> (heap io) |> in
  let cancelled := filter (fun w => binding w = b) (work io) in
  let io := io <| work := filter (fun w => binding w ≠ b) (work io) |> in
  cancel io b cancelled.

(** [alloc] says whether [malloc] finds memory for the work. *)
Definition io_binding_post (io : io_ctx) (b : Z) (d : io_delivery) (k : io_work_kind) (alloc : bool) :
    option (io_ctx * Z) :=
  if negb alloc then Some (io <| released := released io ++ [d] |>, - VM_ENOMEM)
  else
    r ← heap io !! b;
    if stopped io || negb (open r) then Some (io <| released := released io ++ [d] |>, - VM_ESHUTDOWN)
    else
      let io := io <| heap := <[b := r <| refs := u32 (refs r + 1) |>]> (heap io) |> in
      Some (io <| work := work io ++ [mk_work b k d] |>, 0).

Definition io_binding_set_enabled_locked (io : io_ctx) (b : Z) (on : bool) : option io_ctx :=
  r ← heap io !! b;
  Some (io <| heap := <[b := r <| enabled := on |>]> (heap io) |>).

(** ** The context *)

Definition io_ctx_stop (io : io_ctx) : io_ctx := io <| stopped := true |>.

(** The second result is what is passed to [fatal]. *)
Definition io_ctx_fail (io : io_ctx) (err : Z) : io_ctx * option Z :=
  let report := (err <? 0) && (error io =? 0) in
  let io := if report then io <| error := err |> else io in
  (io <| stopped := true |>, if report then Some err else None).

(** [BUG_ON(io->bindings || !list_empty(&io->work))]. *)
Definition io_ctx_destroy (io : io_ctx) : option unit :=
  if negb (bindings io =? 0) || negb (bool_decide (work io = [])) then None else Some ().

(** The scan for work that may run: the first such element and the others. *)
Fixpoint take_work (h : gmap Z io_binding) (l : list io_work) : option (option (io_work * list io_work)) :=
  match l with
  | [] => Some None
  | pending :: l =>
      r ← h !! binding pending;
      if enabled r || bool_decide (kind pending = IO_CONTROL) then Some (Some (pending, l))
      else
        found ← take_work h l;
        Some (match found with Some (w, l) => Some (w, pending :: l) | None => None end)
  end.

(** The runner, from the device lock on to the call of [run]: the work it
    took, and whether it calls it. *)
Definition runner_take (io : io_ctx) : option (io_ctx * option (io_work * bool)) :=
  if stopped io then Some (io, None)
  else
    found ← take_work (heap io) (work io);
    match found with
    | None => Some (io, None)
    | Some (w, rest) =>
        let io := io <| work := rest |> in
        is_open ← io_binding_is_open io (binding w);
        Some (io, Some (w, is_open))
    end.

(** [deliver] after the callback has returned: is [consumed] called? *)
Definition deliver_end (io : io_ctx) (b : Z) (d : io_delivery) : option bool :=
  if d_consumed d then io_binding_is_open io b else Some false.

(** The rest of the runner's turn. *)
Definition runner_finish (io : io_ctx) (w : io_work) (run : bool) : option (io_ctx * bool) :=
  consumed ← if run then deliver_end io (binding w) (data w) else Some false;
  let io := io <| released := released io ++ [data w] |> in
  io ← io_binding_put io (binding w);
  Some (io, consumed).

(** ** Receivers *)

(** [alloc_receiver] and [alloc] are the outcomes of the two allocations. *)
Definition io_receiver_create_locked (io : io_ctx) (limit : Z) (alloc_receiver : bool) (alloc : option Z) :
    io_ctx * err_ptr Z :=
  if limit =? 0 then (io, ERR_PTR (- VM_EINVAL))
  else if negb alloc_receiver then (io, ERR_PTR (- VM_ENOMEM))
  else io_binding_create_locked io alloc.

(** [io_receiver_submit] up to the result of the post: the code returned, and
    the error the thread then reports to [io_ctx_fail].  [alloc] is the address
    of the delivery, [alloc_work] says whether there is memory for the work. *)
Definition io_receiver_submit (io : io_ctx) (b limit : Z) (buf : list Z) (consumed : bool)
    (alloc : option Z) (alloc_work : bool) : option (io_ctx * Z * option Z) :=
  let len := Z.of_nat (length buf) in
  if (len =? 0) || (limit <? len) then Some (io, - VM_EINVAL, None)
  else
    match alloc with
    | None => Some (io, - VM_ENOMEM, Some (- VM_ENOMEM))
    | Some a =>
        '(io, ret) ← io_binding_post io b (mk_delivery a true consumed 0 buf) IO_DATA alloc_work;
        Some (io, ret, if (ret <? 0) && negb (ret =? - VM_ESHUTDOWN) then Some ret else None)
    end.

Definition io_receiver_notify (io : io_ctx) (b err : Z) (alloc : option Z) (alloc_work : bool) :
    option (io_ctx * option Z) :=
  match alloc with
  | None => Some (io, Some (if err <? 0 then err else - VM_ENOMEM))
  | Some a =>
      '(io, ret) ← io_binding_post io b (mk_delivery a false false err []) IO_CONTROL alloc_work;
      Some (io, if (ret <? 0) && negb (ret =? - VM_ESHUTDOWN)
                then Some (if err <? 0 then err else ret) else None)
  end.

(** ** The system

    [receivers] are the bindings whose owner has not dropped its reference,
    with the limit of their receiver; [running] is the work the runner has
    taken; [accepted] and [calls] are the work that was queued and the work
    whose callback was called, in order, since its binding was created. *)
Record system : Type := mk_sys {
  ctx : io_ctx;
  receivers : gmap Z Z;
  running : option (io_work * bool);
  accepted : list io_work;
  calls : list io_work;
}.

Definition eta_sys (s : system) : system :=
  mk_sys (ctx s) (receivers s) (running s) (accepted s) (calls s).
#[export] Instance set_ctx : Setter ctx := ltac:(derive_setter eta_sys).
#[export] Instance set_receivers : Setter receivers := ltac:(derive_setter eta_sys).
#[export] Instance set_running : Setter running := ltac:(derive_setter eta_sys).
#[export] Instance set_accepted : Setter accepted := ltac:(derive_setter eta_sys).
#[export] Instance set_calls : Setter calls := ltac:(derive_setter eta_sys).

Inductive event : Type :=
| Create (limit : Z) (alloc_receiver : bool) (alloc : option Z)
| Submit (b : Z) (buf : list Z) (consumed : bool) (alloc : option Z) (alloc_work : bool)
| Notify (b err : Z) (alloc : option Z) (alloc_work : bool)
| SetEnabled (b : Z) (on : bool)
| Close (b : Z)
| Destroy (b : Z)
| Take
| Finish
| Stop
| Failure (err : Z).

(** When a step can happen: a producer and the device use a receiver only
    until it is destroyed, which comes after it was closed; the runner does one
    thing after the other; fewer than 2^32 - 2 deliveries are under way, and as
    many bindings. *)
Definition enabled_step (s : system) (e : event) : Prop :=
  match e with
  | Create _ _ None => True
  | Create _ _ (Some b) => heap (ctx s) !! b = None ∧ Z.of_nat (size (heap (ctx s))) < 2 ^ 32 - 1
  | Submit b _ _ _ _ | Notify b _ _ _ =>
      is_Some (receivers s !! b) ∧ Z.of_nat (length (work (ctx s))) < 2 ^ 32 - 3
  | SetEnabled b _ | Close b => is_Some (receivers s !! b)
  | Destroy b => is_Some (receivers s !! b) ∧ io_binding_is_open (ctx s) b = Some false
  | Take => running s = None
  | Finish => is_Some (running s)
  | Stop | Failure _ => True
  end.

(** The work that a post added. *)
Definition queued (io io' : io_ctx) : list io_work := drop (length (work io)) (work io').

Definition exec (s : system) (e : event) : option system :=
  let io := ctx s in
  match e with
  | Create limit alloc_receiver alloc =>
      let '(io, r) := io_receiver_create_locked io limit alloc_receiver alloc in
      Some (match r with
            | Ptr b => mk_sys io (<[b := limit]> (receivers s)) (running s)
                         (filter (fun w => binding w ≠ b) (accepted s)) (filter (fun w => binding w ≠ b) (calls s))
            | ERR_PTR _ => s <| ctx := io |>
            end)
  | Submit b buf consumed alloc alloc_work =>
      limit ← receivers s !! b;
      '(io', _, _) ← io_receiver_submit io b limit buf consumed alloc alloc_work;
      Some (s <| ctx := io' |> <| accepted := accepted s ++ queued io io' |>)
  | Notify b err alloc alloc_work =>
      '(io', _) ← io_receiver_notify io b err alloc alloc_work;
      Some (s <| ctx := io' |> <| accepted := accepted s ++ queued io io' |>)
  | SetEnabled b on => io ← io_binding_set_enabled_locked io b on; Some (s <| ctx := io |>)
  | Close b => io ← io_binding_close_locked io b; Some (s <| ctx := io |>)
  | Destroy b =>
      io ← io_binding_put io b;
      Some (s <| ctx := io |> <| receivers := delete b (receivers s) |>)
  | Take =>
      '(io, taken) ← runner_take io;
      let s := s <| ctx := io |> <| running := taken |> in
      Some (match taken with Some (w, true) => s <| calls := calls s ++ [w] |> | _ => s end)
  | Finish =>
      match running s with
      | Some (w, run) => '(io, _) ← runner_finish io w run; Some (s <| ctx := io |> <| running := None |>)
      | None => None
      end
  | Stop => Some (s <| ctx := io_ctx_stop io |>)
  | Failure err => Some (s <| ctx := (io_ctx_fail io err).1 |>)
  end.

Definition fresh_system : system := mk_sys io_ctx_empty ∅ None [] [].

(** A run: each event happens when it can. *)
Inductive reach : system → Prop :=
| reach_fresh : reach fresh_system
| reach_step s e s' : reach s → enabled_step s e → exec s e = Some s' → reach s'.

(** ** Invariant *)

(** The references to a binding: its owner's, and one for each delivery that
    is queued or running. *)
Definition owner_ref (own : gmap Z Z) (b : Z) : Z := match own !! b with Some _ => 1 | None => 0 end.
Definition count (b : Z) (l : list io_work) : Z := Z.of_nat (length (filter (fun w => binding w = b) l)).

Record binding_inv (io : io_ctx) (own : gmap Z Z) (out : list io_work) : Prop := {
  inv_refs : ∀ b r, heap io !! b = Some r → refs r = owner_ref own b + count b out;
  inv_live : ∀ w, w ∈ out → is_Some (heap io !! binding w);
  inv_owned : ∀ b, is_Some (own !! b) → is_Some (heap io !! b);
  inv_open : ∀ b r, heap io !! b = Some r → open r = true → is_Some (own !! b);
  inv_count : bindings io = Z.of_nat (size (heap io)) ∧ Z.of_nat (size (heap io)) < 2 ^ 32;
  inv_few : Z.of_nat (length out) ≤ 2 ^ 32 - 2;
}.

Definition outstanding (s : system) : list io_work := work (ctx s) ++ option_list (fst <$> running s).

Record sys_inv (s : system) : Prop := {
  sys_binding : binding_inv (ctx s) (receivers s) (outstanding s);
  sys_queued : ∀ w, w ∈ work (ctx s) → io_binding_is_open (ctx s) (binding w) = Some true;
  sys_few : Z.of_nat (length (work (ctx s))) ≤ 2 ^ 32 - 3;
}.

(** ** Lemmas *)

Lemma count_cons b w l : count b (w :: l) = (if decide (binding w = b) then 1 else 0) + count b l.
Proof. unfold count. rewrite filter_cons. destruct (decide _); [rewrite length_cons|]; lia. Qed.

Lemma count_app b l l' : count b (l ++ l') = count b l + count b l'.
Proof. unfold count. rewrite filter_app, length_app. lia. Qed.

Lemma count_nonneg b l : 0 ≤ count b l ≤ Z.of_nat (length l).
Proof. unfold count. pose proof (length_filter (fun w => binding w = b) l). lia. Qed.

Lemma count_elem b l w : w ∈ l → binding w = b → 0 < count b l.
Proof.
  intros Hw E. unfold count. destruct (filter _ l) eqn:F; [|rewrite length_cons; lia].
  assert (Hf : w ∈ filter (fun w => binding w = b) l) by (apply list_elem_of_filter; done).
  rewrite F in Hf. by apply elem_of_nil in Hf.
Qed.

Lemma owner_ref_nonneg own b : 0 ≤ owner_ref own b ≤ 1.
Proof. unfold owner_ref. destruct (own !! b); lia. Qed.

(** Dropping one reference to [b], which leaves the owners [own'] and the
    deliveries [out']. *)
Lemma put_spec io own out own' out' b :
  binding_inv io own out → is_Some (heap io !! b) →
  (∀ c, owner_ref own' c + count c out' = owner_ref own c + count c out - (if decide (c = b) then 1 else 0)) →
  (∀ w, w ∈ out' → w ∈ out) → (length out' ≤ length out)%nat →
  (∀ c, is_Some (own' !! c) → is_Some (own !! c)) →
  (∀ c r, heap io !! c = Some r → open r = true → is_Some (own !! c) → is_Some (own' !! c)) →
  ∃ io', io_binding_put io b = Some io' ∧ binding_inv io' own' out' ∧ work io' = work io ∧
    stopped io' = stopped io ∧ released io' = released io ∧ error io' = error io ∧
    ∀ c, io_binding_is_open io' c = Some true ↔ io_binding_is_open io c = Some true.
Proof.
  intros [I1 I2 I3 I4 [I5 I6] I7] [r Hr] Hc Ho Hl Hw1 Hw2. unfold io_binding_put. rewrite Hr. cbn [mbind option_bind].
  pose proof (I1 b r Hr) as Er. pose proof (Hc b) as Eb. rewrite decide_True in Eb by done.
  pose proof (owner_ref_nonneg own b). pose proof (owner_ref_nonneg own' b). pose proof (count_nonneg b out).
  pose proof (count_nonneg b out').
  destruct (Z.eqb_spec (refs r) 1) as [E1|E1].
  - assert (Z0 : owner_ref own' b = 0 ∧ count b out' = 0) by lia. destruct Z0 as [Z1 Z2].
    assert (Nb : own' !! b = None) by (unfold owner_ref in Z1; destruct (own' !! b); [lia|done]).
    destruct (open r) eqn:Op.
    { destruct (Hw2 b r Hr Op (I4 b r Hr Op)) as [? E]. congruence. }
    eexists. split; [reflexivity|]. assert (Sz : size (heap io) ≠ 0%nat).
    { intros E%map_size_empty_iff. by rewrite E in Hr. }
    assert (Sd : size (delete b (heap io)) = pred (size (heap io))) by (rewrite map_size_delete_Some; done).
    split; [|split_and!; try done; unfold io_binding_is_open; simpl; intros c;
      destruct (decide (c = b)) as [->|]; [rewrite lookup_delete_eq, Hr; simpl; by rewrite Op|by rewrite lookup_delete_ne]].
    split; simpl.
    + intros c rc [Hne Hrc]%lookup_delete_Some. rewrite (I1 c rc Hrc). specialize (Hc c).
      rewrite decide_False in Hc by done. lia.
    + intros w Hw. rewrite lookup_delete_ne; [by apply I2, Ho|]. intros E. pose proof (count_elem b out' w Hw (eq_sym E)). lia.
    + intros c Hs. rewrite lookup_delete_ne; [by apply I3, Hw1|]. intros <-. destruct Hs. congruence.
    + intros c rc [_ Hrc]%lookup_delete_Some Hopen. by apply (Hw2 c rc), (I4 c rc).
    + rewrite Sd, u32_small by word. lia.
    + lia.
  - eexists. split; [reflexivity|]. assert (Eu : u32 (refs r - 1) = refs r - 1) by (apply u32_small; word).
    split; [|split_and!; try done; unfold io_binding_is_open; simpl; intros c;
      destruct (decide (c = b)) as [->|]; [by rewrite lookup_insert_eq, Hr|by rewrite lookup_insert_ne]].
    split; simpl.
    + intros c rc Hrc. specialize (Hc c). destruct (decide (c = b)) as [->|Hne].
      * rewrite lookup_insert_eq in Hrc. injection Hrc as <-. simpl. lia.
      * rewrite lookup_insert_ne in Hrc by done. rewrite (I1 c rc Hrc). lia.
    + intros w Hw. apply lookup_insert_is_Some'. right. by apply I2, Ho.
    + intros c Hs. apply lookup_insert_is_Some'. right. by apply I3, Hw1.
    + intros c rc Hrc Hopen. destruct (decide (c = b)) as [->|Hne].
      * rewrite lookup_insert_eq in Hrc. injection Hrc as <-. simpl in Hopen. by apply (Hw2 b r), (I4 b r).
      * rewrite lookup_insert_ne in Hrc by done. by apply (Hw2 c rc), (I4 c rc).
    + rewrite map_size_insert_Some by done. done.
    + lia.
Qed.

(** A delivery is done with. *)
Lemma put_work io own w out :
  binding_inv io own (w :: out) →
  ∃ io', io_binding_put io (binding w) = Some io' ∧ binding_inv io' own out ∧ work io' = work io ∧
    stopped io' = stopped io ∧ released io' = released io ∧ error io' = error io ∧
    ∀ c, io_binding_is_open io' c = Some true ↔ io_binding_is_open io c = Some true.
Proof.
  intros I. apply (put_spec io own (w :: out) own out (binding w) I).
  - apply (inv_live _ _ _ I). by left.
  - intros c. rewrite count_cons. destruct (decide (binding w = c)), (decide (c = binding w)); congruence || lia.
  - intros x Hx. by right.
  - simpl. lia.
  - done.
  - done.
Qed.

Lemma binding_inv_perm io own out out' : out ≡ₚ out' → binding_inv io own out → binding_inv io own out'.
Proof.
  intros P [I1 I2 I3 I4 I5 I6]. assert (C : ∀ b, count b out' = count b out).
  { intros b. unfold count. by rewrite P. }
  split; try done.
  - intros b r Hr. rewrite C. by apply I1.
  - intros w. rewrite <- P. apply I2.
  - by rewrite <- P.
Qed.

(** The counts do not depend on what was released. *)
Lemma binding_inv_released io own out l :
  binding_inv io own out → binding_inv (io <| released := l |>) own out.
Proof. by intros [I1 I2 I3 I4 I5 I6]. Qed.

Lemma cancel_spec b own out : ∀ cancelled io,
  binding_inv io own (cancelled ++ out) → Forall (fun w => binding w = b) cancelled →
  ∃ io', cancel io b cancelled = Some io' ∧ binding_inv io' own out ∧ work io' = work io ∧
    stopped io' = stopped io ∧ error io' = error io ∧ released io' = released io ++ (data <$> cancelled) ∧
    ∀ c, io_binding_is_open io' c = Some true ↔ io_binding_is_open io c = Some true.
Proof.
  induction cancelled as [|w l IH]; intros io I F.
  - exists io. simpl. rewrite app_nil_r. done.
  - apply Forall_cons in F as [<- F]. cbn [cancel]. cbv zeta. set (io1 := io <| released := _ |>).
    destruct (put_work io1 own w (l ++ out)) as (io2 & -> & I2 & W2 & S2 & R2 & E2 & O2);
      [by apply binding_inv_released|]. cbn [mbind option_bind].
    destruct (IH io2 I2 F) as (io3 & -> & I3 & W3 & S3 & E3 & R3 & O3). exists io3.
    rewrite W3, S3, E3, R3, W2, S2, E2, R2. split; [done|]. split; [done|]. split_and!; [done..| |intros c; by rewrite O3, O2].
    simpl. by rewrite <- app_assoc.
Qed.

(** Changing the flags of a binding that stays referenced. *)
Lemma flags_inv io own out b r r' :
  binding_inv io own out → heap io !! b = Some r → refs r' = refs r → (open r' = true → open r = true) →
  binding_inv (io <| heap := <[b := r']> (heap io) |>) own out.
Proof.
  intros [I1 I2 I3 I4 [I5 I6] I7] Hr Er Op. split; simpl.
  - intros c rc Hrc. destruct (decide (c = b)) as [->|Hne].
    + rewrite lookup_insert_eq in Hrc. injection Hrc as <-. rewrite Er. by apply I1.
    + rewrite lookup_insert_ne in Hrc by done. by apply I1.
  - intros w Hw. apply lookup_insert_is_Some'. right. by apply I2.
  - intros c Hc. apply lookup_insert_is_Some'. right. by apply I3.
  - intros c rc Hrc Ho. destruct (decide (c = b)) as [->|Hne].
    + rewrite lookup_insert_eq in Hrc. injection Hrc as <-. apply (I4 b r Hr). by apply Op.
    + rewrite lookup_insert_ne in Hrc by done. by apply (I4 c rc).
  - rewrite map_size_insert_Some by done. done.
  - done.
Qed.

Lemma filter_split_perm b (l : list io_work) :
  l ≡ₚ filter (fun w => binding w = b) l ++ filter (fun w => binding w ≠ b) l.
Proof.
  induction l as [|w l IH]; [done|]. rewrite !filter_cons. destruct (decide (binding w = b)).
  - rewrite decide_False by (intros H; by apply H). simpl. by rewrite <- IH.
  - rewrite decide_True by done. rewrite <- Permutation_middle. by rewrite <- IH.
Qed.

Lemma close_spec io own rest b :
  binding_inv io own (work io ++ rest) → is_Some (heap io !! b) →
  ∃ io', io_binding_close_locked io b = Some io' ∧ binding_inv io' own (work io' ++ rest) ∧
    work io' = filter (fun w => binding w ≠ b) (work io) ∧
    ∀ c, io_binding_is_open io' c = Some true ↔ c ≠ b ∧ io_binding_is_open io c = Some true.
Proof.
  intros I [r Hr]. unfold io_binding_close_locked. rewrite Hr. cbn [mbind option_bind]. cbv zeta.
  set (r' := r <| open := false |>). set (h := <[b := r']> (heap io)).
  pose proof (flags_inv io own _ b r r' I Hr eq_refl ltac:(done)) as I1. fold h in I1.
  set (io1 := io <| heap := h |>) in *. change (work io1) with (work io).
  set (io2 := io1 <| work := filter (fun w => binding w ≠ b) (work io) |>).
  assert (I2 : binding_inv io2 own (filter (fun w => binding w = b) (work io) ++ (work io2 ++ rest))).
  { rewrite app_assoc. apply (binding_inv_perm io2 own (work io ++ rest)); [|destruct I1 as [A1 A2 A3 A4 A5 A6]; by split].
    apply Permutation_app_tail. exact (filter_split_perm b (work io)). }
  destruct (cancel_spec b own _ _ io2 I2) as (io3 & -> & I3 & W3 & S3 & E3 & R3 & O3).
  { apply Forall_forall. intros w Hw. by apply list_elem_of_filter in Hw as [? _]. }
  exists io3. split; [done|]. rewrite W3. split; [done|]. split; [done|].
  intros c. rewrite O3. unfold io_binding_is_open. change (heap io2) with h. unfold h.
  destruct (decide (c = b)) as [->|]; [rewrite lookup_insert_eq; split; [done|by intros [? _]]|].
  rewrite lookup_insert_ne by done. tauto.
Qed.

Lemma is_open_insert io b r c :
  io_binding_is_open io b = Some (open r) →
  io_binding_is_open (io <| heap := <[b := r]> (heap io) |>) c = io_binding_is_open io c.
Proof.
  unfold io_binding_is_open. simpl. intros E. destruct (decide (c = b)) as [->|].
  - by rewrite lookup_insert_eq, E.
  - by rewrite lookup_insert_ne.
Qed.

Lemma post_spec io own rest b d k alloc :
  binding_inv io own (work io ++ rest) → is_Some (heap io !! b) →
  Z.of_nat (length (work io ++ rest)) < 2 ^ 32 - 2 →
  ∃ io' ret, io_binding_post io b d k alloc = Some (io', ret) ∧ binding_inv io' own (work io' ++ rest) ∧
    (∀ c, io_binding_is_open io' c = io_binding_is_open io c) ∧
    (ret < 0 ∧ work io' = work io ∨
     ret = 0 ∧ work io' = work io ++ [mk_work b k d] ∧ io_binding_is_open io b = Some true).
Proof.
  intros I [r Hr] Hl. unfold io_binding_post. destruct alloc; cbn [negb].
  2: { do 2 eexists. split; [done|]. split; [by apply binding_inv_released|]. split; [done|]. by left. }
  rewrite Hr. cbn [mbind option_bind]. destruct (stopped io || negb (open r)) eqn:G.
  { do 2 eexists. split; [done|]. split; [by apply binding_inv_released|]. split; [done|]. by left. }
  apply orb_false_elim in G as [_ Op%negb_false_iff]. do 2 eexists. split; [done|].
  assert (Ho : io_binding_is_open io b = Some true) by (unfold io_binding_is_open; rewrite Hr; simpl; by rewrite Op).
  split; [|split; [|by right]].
  2: { intros c. apply (is_open_insert io b (r <| refs := u32 (refs r + 1) |>) c). simpl. by rewrite Op. }
  destruct I as [I1 I2 I3 I4 [I5 I6] I7]. pose proof (I1 b r Hr) as Er.
  pose proof (owner_ref_nonneg own b). pose proof (count_nonneg b (work io ++ rest)).
  assert (Eu : u32 (refs r + 1) = refs r + 1) by (apply u32_small; word). rewrite Eu.
  assert (Cn : ∀ c, count c ((work io ++ [mk_work b k d]) ++ rest) =
    count c (work io ++ rest) + (if decide (b = c) then 1 else 0)).
  { intros c. rewrite !count_app, count_cons. unfold count at 2. simpl. destruct (decide (b = c)); lia. }
  split; simpl.
  - intros c rc Hrc. rewrite Cn. destruct (decide (b = c)) as [<-|Hne].
    + rewrite lookup_insert_eq in Hrc. injection Hrc as <-. simpl. lia.
    + rewrite lookup_insert_ne in Hrc by done. rewrite (I1 c rc Hrc). lia.
  - intros w Hw. apply lookup_insert_is_Some'. rewrite !elem_of_app, list_elem_of_singleton in Hw.
    destruct Hw as [[Hw| ->]|Hw]; [right; apply I2, elem_of_app; by left|by left|right; apply I2, elem_of_app; by right].
  - intros c Hc. apply lookup_insert_is_Some'. right. by apply I3.
  - intros c rc Hrc Hopen. destruct (decide (b = c)) as [<-|Hne]; [by apply (I4 b r)|].
    rewrite lookup_insert_ne in Hrc by done. by apply (I4 c rc).
  - rewrite map_size_insert_Some by done. done.
  - rewrite !length_app in *. simpl. lia.
Qed.

(** The runner may take this work. *)
Definition runnable (h : gmap Z io_binding) (w : io_work) : Prop :=
  ∃ r, h !! binding w = Some r ∧ (enabled r = true ∨ kind w = IO_CONTROL).

Lemma take_work_spec h l :
  (∀ w, w ∈ l → is_Some (h !! binding w)) →
  ∃ found, take_work h l = Some found ∧
    match found with
    | Some (w, rest) =>
        ∃ l1 l2, l = l1 ++ w :: l2 ∧ rest = l1 ++ l2 ∧ runnable h w ∧ ∀ v, v ∈ l1 → ¬ runnable h v
    | None => ∀ w, w ∈ l → ¬ runnable h w
    end.
Proof.
  induction l as [|w l IH]; intros L; cbn [take_work].
  { exists None. split; [done|]. intros w Hw. by apply elem_of_nil in Hw. }
  destruct (L w ltac:(by left)) as [r Hr]. rewrite Hr. cbn [mbind option_bind].
  destruct (enabled r || bool_decide (kind w = IO_CONTROL)) eqn:G.
  - eexists. split; [done|]. exists [], l. split_and!; [done|done| |intros v Hv; by apply elem_of_nil in Hv].
    exists r. split; [done|]. apply orb_prop in G as [?|?%bool_decide_eq_true]; auto.
  - assert (N : ¬ runnable h w).
    { apply orb_false_elim in G as [E1 E2%bool_decide_eq_false]. intros (r' & Hr' & [E|E]); [congruence|done]. }
    destruct (IH ltac:(intros v Hv; apply L; by right)) as (found & -> & F). cbn [mbind option_bind].
    eexists. split; [done|]. destruct found as [[v rest]|].
    + destruct F as (l1 & l2 & -> & -> & R & Nl). exists (w :: l1), l2. split_and!; [done..|].
      intros x [->|Hx]%elem_of_cons; auto.
    + intros x [->|Hx]%elem_of_cons; auto.
Qed.

(** ** Order of delivery *)

(** The work of one kind for one binding. *)
Definition sel (b : Z) (k : io_work_kind) (l : list io_work) : list io_work :=
  filter (fun w => binding w = b ∧ kind w = k) l.

(** A batch of data within a receiver's limit. *)
Definition batch_ok (limit : Z) (d : io_delivery) : Prop :=
  d_receive d = true ∧ 0 < Z.of_nat (length (d_bytes d)) ≤ limit.

Record order_inv (s : system) : Prop := {
  ord_open : ∀ b k, io_binding_is_open (ctx s) b = Some true →
    sel b k (accepted s) = sel b k (calls s) ++ sel b k (work (ctx s));
  ord_prefix : ∀ b k, sel b k (calls s) `prefix_of` sel b k (accepted s);
  ord_batch : ∀ b limit w, receivers s !! b = Some limit → w ∈ accepted s → binding w = b → kind w = IO_DATA →
    batch_ok limit (data w);
}.

Definition io_inv (s : system) : Prop := sys_inv s ∧ order_inv s.

Lemma sel_app b k l l' : sel b k (l ++ l') = sel b k l ++ sel b k l'.
Proof. apply filter_app. Qed.

Lemma sel_in b k l w : w ∈ sel b k l ↔ w ∈ l ∧ binding w = b ∧ kind w = k.
Proof. unfold sel. rewrite list_elem_of_filter. tauto. Qed.

(** Work of other bindings does not matter. *)
Lemma sel_other b c k l : b ≠ c → sel b k (filter (fun w => binding w ≠ c) l) = sel b k l.
Proof.
  intros Hne. unfold sel. rewrite list_filter_filter. apply list_filter_iff. intros w. split; [tauto|].
  intros [<- ?]. tauto.
Qed.

Lemma sel_none b k l : sel b k (filter (fun w => binding w ≠ b) l) = [].
Proof.
  destruct (sel b k _) as [|w l'] eqn:E; [done|]. assert (Hw : w ∈ w :: l') by (by left).
  rewrite <- E in Hw. apply sel_in in Hw as (Hw & Eb & _). by apply list_elem_of_filter in Hw as [? _].
Qed.

Lemma length_work_outstanding s :
  Z.of_nat (length (outstanding s)) ≤ Z.of_nat (length (work (ctx s))) + 1.
Proof. unfold outstanding. rewrite length_app. destruct (running s); simpl; lia. Qed.

Lemma post_io_inv s b limit d k alloc :
  io_inv s → receivers s !! b = Some limit → Z.of_nat (length (work (ctx s))) < 2 ^ 32 - 3 →
  (k = IO_DATA → batch_ok limit d) →
  ∃ io' ret, io_binding_post (ctx s) b d k alloc = Some (io', ret) ∧
    io_inv (s <| ctx := io' |> <| accepted := accepted s ++ queued (ctx s) io' |>).
Proof.
  intros [[Sb Sq Sf] [Oo Op Ob]] Hb Hl Hk. pose proof (length_work_outstanding s) as Lo.
  destruct (post_spec (ctx s) (receivers s) (option_list (fst <$> running s)) b d k alloc Sb
    (inv_owned _ _ _ Sb b ltac:(by eexists)) ltac:(unfold outstanding in Lo; lia))
    as (io' & ret & E & I' & Eo & C). exists io', ret. split; [done|].
  unfold queued. destruct C as [[_ Ew]|(_ & Ew & Ho)]; rewrite Ew.
  - rewrite drop_all, app_nil_r. split; split; simpl.
    + done.
    + intros w. rewrite Eo, Ew. apply Sq.
    + rewrite Ew. lia.
    + intros c kc. rewrite Eo, Ew. apply Oo.
    + done.
    + done.
  - rewrite drop_app_length. split; split; simpl.
    + done.
    + intros w. rewrite Eo, Ew. intros [Hw|Hw]%elem_of_app; [by apply Sq|].
      apply list_elem_of_singleton in Hw as ->. done.
    + rewrite Ew, length_app. simpl. lia.
    + intros c kc. rewrite Eo, Ew, !sel_app, app_assoc. intros Hc. by rewrite (Oo c kc Hc).
    + intros c kc. rewrite sel_app. by apply prefix_app_r.
    + intros c lim w Hc [Hw|Hw]%elem_of_app Eb Ek; [by apply (Ob c lim w)|].
      apply list_elem_of_singleton in Hw as ->. simpl in *. subst c. assert (lim = limit) as -> by congruence. auto.
Qed.

(** ** Every step *)

Lemma count_zero b l : (∀ w, w ∈ l → binding w ≠ b) → count b l = 0.
Proof.
  intros N. unfold count. destruct (filter _ l) as [|w l'] eqn:E; [done|].
  assert (Hw : w ∈ filter (fun w => binding w = b) l) by (rewrite E; by left).
  apply list_elem_of_filter in Hw as [Eb Hw]. by destruct (N w Hw).
Qed.

Lemma create_binding_inv io own out b limit :
  binding_inv io own out → heap io !! b = None → Z.of_nat (size (heap io)) < 2 ^ 32 - 1 →
  binding_inv (io <| bindings := u32 (bindings io + 1) |> <| heap := <[b := mk_binding 1 true true]> (heap io) |>)
    (<[b := limit]> own) out.
Proof.
  intros [I1 I2 I3 I4 [I5 I6] I7] Hb Hs.
  assert (Nw : ∀ w, w ∈ out → binding w ≠ b).
  { intros w Hw E. destruct (I2 w Hw) as [? H]. congruence. }
  assert (Rn : ∀ c, c ≠ b → owner_ref (<[b := limit]> own) c = owner_ref own c).
  { intros c Hc. unfold owner_ref. by rewrite lookup_insert_ne. }
  split; simpl.
  - intros c rc Hrc. destruct (decide (c = b)) as [->|Hne].
    + rewrite lookup_insert_eq in Hrc. injection Hrc as <-. simpl. unfold owner_ref.
      rewrite lookup_insert_eq, (count_zero b out Nw). done.
    + rewrite lookup_insert_ne in Hrc by done. rewrite (Rn c Hne). by apply I1.
  - intros w Hw. apply lookup_insert_is_Some'. right. by apply I2.
  - intros c. rewrite !lookup_insert_is_Some'. intros [->|Hc]; [by left|right; by apply I3].
  - intros c rc Hrc Ho. rewrite lookup_insert_is_Some'. destruct (decide (b = c)) as [|Hne]; [by left|].
    right. rewrite lookup_insert_ne in Hrc by done. by apply (I4 c rc).
  - rewrite map_size_insert_None by done. rewrite u32_small by word. lia.
  - done.
Qed.

Lemma create_step s limit alloc_receiver alloc :
  io_inv s → enabled_step s (Create limit alloc_receiver alloc) →
  ∃ s', exec s (Create limit alloc_receiver alloc) = Some s' ∧ io_inv s'.
Proof.
  intros I En. assert (Same : io_inv (s <| ctx := ctx s |>)) by (by destruct s).
  cbn [exec]. cbv zeta. unfold io_receiver_create_locked. destruct (limit =? 0); [by eexists|].
  destruct alloc_receiver; cbn [negb]; [|by eexists]. unfold io_binding_create_locked.
  destruct alloc as [b|]; [|by eexists]. destruct (stopped (ctx s)) eqn:St; [by eexists|].
  eexists. split; [reflexivity|]. destruct En as [Hb Hs]. destruct I as [[Sb Sq Sf] [Oo Op Ob]].
  assert (Nr : receivers s !! b = None).
  { destruct (receivers s !! b) eqn:E; [|done]. destruct (inv_owned _ _ _ Sb b) as [? H]; [by eexists|congruence]. }
  assert (Nb : ∀ w, w ∈ work (ctx s) → binding w ≠ b).
  { intros w Hw E. destruct (inv_live _ _ _ Sb w) as [? H]; [apply elem_of_app; by left|congruence]. }
  split; split; simpl.
  - exact (create_binding_inv _ _ _ b limit Sb Hb Hs).
  - intros w Hw. unfold io_binding_is_open. simpl. rewrite lookup_insert_ne by (intros E; by apply (Nb w Hw)).
    by apply Sq.
  - done.
  - intros c k Hc. destruct (decide (c = b)) as [->|Hne].
    + rewrite !sel_none. destruct (sel b k (work (ctx s))) as [|w l] eqn:E; [done|].
      assert (Hw : w ∈ sel b k (work (ctx s))) by (rewrite E; by left). apply sel_in in Hw as (Hw & Eb & _).
      by destruct (Nb w Hw).
    + rewrite !sel_other by done. apply Oo. unfold io_binding_is_open in *. simpl in Hc.
      by rewrite lookup_insert_ne in Hc.
  - intros c k. destruct (decide (c = b)) as [->|Hne]; [by rewrite !sel_none|by rewrite !sel_other].
  - intros c lim w Hc [Hne Hw]%list_elem_of_filter Eb Ek. rewrite lookup_insert_ne in Hc by congruence.
    by apply (Ob c lim w).
Qed.

Lemma close_step s b :
  io_inv s → is_Some (receivers s !! b) → ∃ s', exec s (Close b) = Some s' ∧ io_inv s'.
Proof.
  intros [[Sb Sq Sf] [Oo Op Ob]] Hb. cbn [exec]. cbv zeta.
  destruct (close_spec (ctx s) (receivers s) _ b Sb (inv_owned _ _ _ Sb b Hb)) as (io' & E & I' & Ew & O').
  rewrite E. cbn [mbind option_bind]. eexists. split; [reflexivity|]. split; split; simpl.
  - done.
  - intros w. rewrite Ew. intros [Hne Hw]%list_elem_of_filter. apply O'. split; [done|by apply Sq].
  - rewrite Ew. pose proof (length_filter (fun w => binding w ≠ b) (work (ctx s))). lia.
  - intros c k [Hne Hc]%O'. rewrite Ew, sel_other by done. by apply Oo.
  - done.
  - done.
Qed.

Lemma enable_step s b on :
  io_inv s → is_Some (receivers s !! b) → ∃ s', exec s (SetEnabled b on) = Some s' ∧ io_inv s'.
Proof.
  intros [[Sb Sq Sf] [Oo Op Ob]] Hb. cbn [exec]. cbv zeta. unfold io_binding_set_enabled_locked.
  destruct (inv_owned _ _ _ Sb b Hb) as [r Hr]. rewrite Hr. cbn [mbind option_bind].
  set (r' := r <| enabled := on |>).
  pose proof (flags_inv _ _ _ b r r' Sb Hr eq_refl ltac:(done)) as I1.
  assert (Eo : ∀ c, io_binding_is_open (ctx s <| heap := <[b := r']> (heap (ctx s)) |>) c = io_binding_is_open (ctx s) c).
  { intros c. apply is_open_insert. unfold io_binding_is_open. by rewrite Hr. }
  eexists. split; [reflexivity|]. split; split; try done.
  - intros w. simpl. rewrite Eo. apply Sq.
  - intros c k. simpl. rewrite Eo. apply Oo.
Qed.

Lemma destroy_step s b :
  io_inv s → is_Some (receivers s !! b) → io_binding_is_open (ctx s) b = Some false →
  ∃ s', exec s (Destroy b) = Some s' ∧ io_inv s'.
Proof.
  intros [[Sb Sq Sf] [Oo Op Ob]] Hb Hc. cbn [exec]. cbv zeta.
  destruct (put_spec (ctx s) (receivers s) (outstanding s) (delete b (receivers s)) (outstanding s) b Sb)
    as (io' & E & I' & Ew & _ & _ & _ & O').
  - by apply (inv_owned _ _ _ Sb).
  - intros c. unfold owner_ref. destruct (decide (c = b)) as [->|Hne].
    + destruct Hb as [l ->]. rewrite lookup_delete_eq. lia.
    + rewrite lookup_delete_ne by done. lia.
  - done.
  - done.
  - intros c [? [_ Hr]%lookup_delete_Some]. by eexists.
  - intros c r Hr Ho Hs. rewrite lookup_delete_ne; [done|]. intros ->. unfold io_binding_is_open in Hc.
    rewrite Hr in Hc. simpl in Hc. congruence.
  - rewrite E. cbn [mbind option_bind]. eexists. split; [reflexivity|]. split; split; simpl.
    + unfold outstanding in *. simpl. by rewrite Ew.
    + intros w. rewrite Ew, O'. apply Sq.
    + by rewrite Ew.
    + intros c k Hk. rewrite Ew. apply Oo. by apply O'.
    + done.
    + intros c lim w [_ Hl]%lookup_delete_Some. by apply Ob.
Qed.

Lemma finish_step s :
  io_inv s → is_Some (running s) → ∃ s', exec s Finish = Some s' ∧ io_inv s'.
Proof.
  intros [[Sb Sq Sf] [Oo Op Ob]] [[w run] Hr]. cbn [exec]. cbv zeta. rewrite Hr. unfold runner_finish.
  assert (Eout : outstanding s = work (ctx s) ++ [w]) by (unfold outstanding; by rewrite Hr).
  rewrite Eout in Sb. destruct (inv_live _ _ _ Sb w) as [r Hw]; [apply elem_of_app; right; by left|].
  assert (Hc : ∃ c, (if run then deliver_end (ctx s) (binding w) (data w) else Some false) = Some c).
  { unfold deliver_end, io_binding_is_open. rewrite Hw. destruct run, (d_consumed (data w)); by eexists. }
  destruct Hc as [consumed ->]. cbn [mbind option_bind].
  set (io1 := ctx s <| released := released (ctx s) ++ [data w] |>).
  destruct (put_work io1 (receivers s) w (work (ctx s))) as (io' & E & I' & Ew & _ & _ & _ & O').
  { apply binding_inv_released, (binding_inv_perm _ _ (work (ctx s) ++ [w])); [|done].
    symmetry. apply Permutation_cons_append. }
  rewrite E. cbn [mbind option_bind]. eexists. split; [reflexivity|]. split; split; simpl.
  - unfold outstanding. simpl. rewrite app_nil_r, Ew. done.
  - intros v. rewrite Ew, O'. apply Sq.
  - by rewrite Ew.
  - intros c k Hk. rewrite Ew. apply Oo. by apply O' in Hk.
  - done.
  - done.
Qed.

Lemma sel_single b k w : sel b k [w] = if decide (binding w = b ∧ kind w = k) then [w] else [].
Proof. unfold sel. rewrite filter_cons, filter_nil. done. Qed.

(** The work that is taken is the oldest of its kind for its binding. *)
Lemma sel_take b k l1 w l2 h :
  runnable h w → (∀ v, v ∈ l1 → ¬ runnable h v) →
  sel b k (l1 ++ w :: l2) = sel b k [w] ++ sel b k (l1 ++ l2).
Proof.
  intros R N. change (w :: l2) with ([w] ++ l2). rewrite !sel_app, sel_single.
  destruct (decide (binding w = b ∧ kind w = k)) as [[<- <-]|]; [|done].
  destruct (sel (binding w) (kind w) l1) as [|v l] eqn:E; [done|].
  assert (Hv : v ∈ sel (binding w) (kind w) l1) by (rewrite E; by left). apply sel_in in Hv as (Hv & Eb & Ek).
  destruct (N v Hv). destruct R as (r & Hr & C). exists r. rewrite Eb, Ek. done.
Qed.

Lemma take_step s :
  io_inv s → running s = None →
  ∃ s', exec s Take = Some s' ∧ io_inv s' ∧
    (calls s' = calls s ∨ ∃ w, calls s' = calls s ++ [w] ∧ w ∈ work (ctx s) ∧
       io_binding_is_open (ctx s) (binding w) = Some true ∧ runnable (heap (ctx s)) w).
Proof.
  intros I Hr. pose proof I as [[Sb Sq Sf] [Oo Op Ob]]. cbn [exec]. cbv zeta. unfold runner_take.
  assert (Same : io_inv (s <| ctx := ctx s |> <| running := None |>)).
  { destruct s. simpl in Hr. by subst. }
  assert (Eout : outstanding s = work (ctx s)) by (unfold outstanding; rewrite Hr; apply app_nil_r).
  destruct (stopped (ctx s)); cbn [mbind option_bind]; [eexists; split; [done|]; split; [done|by left]|].
  rewrite Eout in Sb.
  destruct (take_work_spec (heap (ctx s)) (work (ctx s)) (inv_live _ _ _ Sb)) as (found & -> & F).
  cbn [mbind option_bind]. destruct found as [[w rest]|]; [|eexists; split; [done|]; split; [done|by left]].
  destruct F as (l1 & l2 & Ew & Erest & R & N).
  assert (Hw : w ∈ work (ctx s)) by (rewrite Ew; apply elem_of_app; right; by left).
  change (io_binding_is_open (ctx s <| work := rest |>) (binding w)) with (io_binding_is_open (ctx s) (binding w)).
  rewrite (Sq w Hw). cbn [mbind option_bind]. eexists. split; [reflexivity|].
  split; [|right; exists w; split; [done|]; split; [done|]; split; [by apply Sq|done]].
  assert (Pw : work (ctx s) ≡ₚ rest ++ [w]).
  { rewrite Ew, Erest, <- Permutation_cons_append. symmetry. apply Permutation_middle. }
  assert (Ord : ∀ b k, io_binding_is_open (ctx s) b = Some true →
    sel b k (accepted s) = sel b k (calls s ++ [w]) ++ sel b k rest).
  { intros b k Hb. rewrite (Oo b k Hb), Ew, (sel_take b k l1 w l2 _ R N), (sel_app b k (calls s) [w]), Erest.
    by rewrite app_assoc. }
  split; split; simpl.
  - unfold outstanding. simpl. pose proof (binding_inv_perm _ _ _ _ Pw Sb) as [A1 A2 A3 A4 A5 A6]. by split.
  - intros v Hv. apply (Sq v). rewrite Pw. apply elem_of_app. by left.
  - pose proof (Permutation_length Pw) as L. rewrite length_app in L. lia.
  - exact Ord.
  - intros b k. destruct (decide (binding w = b ∧ kind w = k)) as [[<- <-]|Hn].
    + rewrite (Ord _ (kind w) (Sq w Hw)). by apply prefix_app_r.
    + rewrite sel_app, sel_single, decide_False, app_nil_r by done. done.
  - done.
Qed.

Lemma step_ok s e : io_inv s → enabled_step s e → ∃ s', exec s e = Some s' ∧ io_inv s'.
Proof.
  intros I En. destruct e as [limit ar alloc|b buf consumed alloc aw|b err alloc aw|b on|b|b| | | |err]; cbn [enabled_step] in En.
  - by apply create_step.
  - destruct En as [[limit Hb] Hl]. cbn [exec]. cbv zeta. rewrite Hb. cbn [mbind option_bind]. unfold io_receiver_submit.
    assert (Same : io_inv (s <| ctx := ctx s |> <| accepted := accepted s ++ queued (ctx s) (ctx s) |>)).
    { unfold queued. rewrite drop_all, app_nil_r. by destruct s. }
    destruct (_ || _) eqn:G; [by eexists|]. apply orb_false_elim in G as [G1%Z.eqb_neq G2%Z.ltb_ge].
    destruct alloc as [a|]; [|by eexists].
    destruct (post_io_inv s b limit (mk_delivery a true consumed 0 buf) IO_DATA aw I Hb Hl) as (io' & ret & -> & I').
    { intros _. split; [done|]. simpl. lia. }
    cbn [mbind option_bind]. by eexists.
  - destruct En as [[limit Hb] Hl]. cbn [exec]. cbv zeta. unfold io_receiver_notify.
    assert (Same : io_inv (s <| ctx := ctx s |> <| accepted := accepted s ++ queued (ctx s) (ctx s) |>)).
    { unfold queued. rewrite drop_all, app_nil_r. by destruct s. }
    destruct alloc as [a|]; [|by eexists].
    destruct (post_io_inv s b limit (mk_delivery a false false err []) IO_CONTROL aw I Hb Hl ltac:(done))
      as (io' & ret & -> & I'). cbn [mbind option_bind]. by eexists.
  - by apply enable_step.
  - by apply close_step.
  - destruct En. by apply destroy_step.
  - destruct (take_step s I En) as (s' & E & I' & _). by eexists.
  - by apply finish_step.
  - eexists. split; [reflexivity|]. destruct I as [[Sb Sq Sf] [Oo Op Ob]]. split; split; try done.
    by destruct Sb as [A1 A2 A3 A4 A5 A6]; split.
  - eexists. split; [reflexivity|]. destruct I as [[Sb Sq Sf] [Oo Op Ob]]. unfold io_ctx_fail.
    destruct (_ && _); (split; split; try done; by destruct Sb as [A1 A2 A3 A4 A5 A6]; split).
Qed.

Lemma fresh_inv : io_inv fresh_system.
Proof.
  split; split; simpl; try done.
  - split; simpl; try done; intros ?; unfold outstanding; simpl; try set_solver.
    all: intros []; set_solver.
  - set_solver.
Qed.

Lemma reach_inv s : reach s → io_inv s.
Proof.
  induction 1 as [|s e s' R IH En E]; [apply fresh_inv|].
  destruct (step_ok s e IH En) as (s2 & E2 & I2). by simplify_eq.
Qed.

(** ** Ownership of the deliveries

    A delivery that was handed over is queued, with the runner, or released. *)
Definition held (s : system) : list io_delivery := released (ctx s) ++ (data <$> outstanding s).

Definition handed (s : system) (e : event) : list io_delivery :=
  match e with
  | Submit b buf consumed (Some a) _ =>
      let len := Z.of_nat (length buf) in
      match receivers s !! b with
      | Some limit => if (len =? 0) || (limit <? len) then [] else [mk_delivery a true consumed 0 buf]
      | None => []
      end
  | Notify _ err (Some a) _ => [mk_delivery a false false err []]
  | _ => []
  end.

Lemma put_keeps io b io' : io_binding_put io b = Some io' → work io' = work io ∧ released io' = released io.
Proof.
  unfold io_binding_put. intros E. destruct (heap io !! b) as [r|]; simpl in E; [|done].
  destruct (refs r =? 1); [destruct (open r)|]; by simplify_eq.
Qed.

Lemma cancel_keeps b l : ∀ io io', cancel io b l = Some io' →
  work io' = work io ∧ released io' = released io ++ (data <$> l).
Proof.
  induction l as [|w l IH]; simpl; intros io io' E; [by simplify_eq; rewrite app_nil_r|].
  destruct (io_binding_put _ b) as [io1|] eqn:Ep; simpl in E; [|done].
  apply put_keeps in Ep as [Ew Er]. apply IH in E as [-> ->]. rewrite Ew, Er. simpl. by rewrite <- app_assoc.
Qed.

Lemma post_keeps io b d k alloc io' ret : io_binding_post io b d k alloc = Some (io', ret) →
  released io' ++ (data <$> work io') ≡ₚ released io ++ (data <$> work io) ++ [d].
Proof.
  unfold io_binding_post. intros E. destruct (negb alloc); [simplify_eq; simpl; solve_Permutation|].
  destruct (heap io !! b) as [r|]; simpl in E; [|done].
  destruct (_ || _); simplify_eq; simpl; [solve_Permutation|]. by rewrite fmap_app.
Qed.

Lemma take_work_perm h l : ∀ w rest, take_work h l = Some (Some (w, rest)) → l ≡ₚ w :: rest.
Proof.
  induction l as [|v l IH]; simpl; intros w rest E; [done|].
  destruct (h !! binding v) as [r|]; simpl in E; [|done]. destruct (_ || _); [by simplify_eq|].
  destruct (take_work h l) as [[[w1 rest1]|]|]; simplify_eq/=. rewrite (IH _ _ eq_refl). apply perm_swap.
Qed.

Lemma runner_take_held io io' taken : runner_take io = Some (io', taken) →
  released io' = released io ∧ work io ≡ₚ work io' ++ option_list (fst <$> taken).
Proof.
  unfold runner_take. intros E. destruct (stopped io); [simplify_eq; simpl; by rewrite app_nil_r|].
  destruct (take_work _ _) as [[[w rest]|]|] eqn:Et; simplify_eq/=; [|by rewrite app_nil_r].
  destruct (io_binding_is_open _ _) as [o|]; simplify_eq/=. split; [done|].
  rewrite (take_work_perm _ _ _ _ Et). apply Permutation_cons_append.
Qed.

(** Steps that leave the runner alone. *)
Lemma held_ctx s io ds (acc : list io_work) :
  released io ++ (data <$> work io) ≡ₚ released (ctx s) ++ (data <$> work (ctx s)) ++ ds →
  held (s <| ctx := io |> <| accepted := acc |>) ≡ₚ held s ++ ds.
Proof.
  unfold held, outstanding. simpl. rewrite !fmap_app. intros E.
  rewrite (app_assoc (released io)), E. solve_Permutation.
Qed.

Lemma exec_conserves s e s' : enabled_step s e → exec s e = Some s' → held s' ≡ₚ held s ++ handed s e.
Proof.
  destruct e as [limit ar alloc|b buf consumed alloc aw|b err alloc aw|b on|b|b| | | |err];
    cbn [enabled_step exec handed]; cbv zeta; intros En E.
  - unfold io_receiver_create_locked, io_binding_create_locked in E.
    repeat (case_match; simplify_eq/=); unfold held, outstanding; simpl; by rewrite app_nil_r.
  - destruct (receivers s !! b) as [limit|]; cbn [mbind option_bind] in E; [|done]. unfold io_receiver_submit in E.
    cbv zeta in E. destruct (_ || _); [simplify_eq/=; destruct alloc; by apply held_ctx; rewrite !app_nil_r|].
    destruct alloc as [a|]; [|simplify_eq/=; by apply held_ctx; rewrite !app_nil_r].
    destruct (io_binding_post _ _ _ _ _) as [[io ret]|] eqn:Ep; simplify_eq/=.
    apply held_ctx. by eapply post_keeps.
  - unfold io_receiver_notify in E. destruct alloc as [a|]; [|simplify_eq/=; by apply held_ctx; rewrite !app_nil_r].
    destruct (io_binding_post _ _ _ _ _) as [[io ret]|] eqn:Ep; simplify_eq/=.
    apply held_ctx. by eapply post_keeps.
  - unfold io_binding_set_enabled_locked in E. destruct (heap _ !! b); simplify_eq/=.
    unfold held, outstanding. simpl. by rewrite app_nil_r.
  - unfold io_binding_close_locked in E. destruct (heap _ !! b) as [r|]; cbn [mbind option_bind] in E; [|done].
    destruct (cancel _ _ _) as [io|] eqn:Ec; simplify_eq/=. apply cancel_keeps in Ec as [Ew Er]. simpl in Ew, Er.
    unfold held, outstanding. simpl. rewrite Ew, Er, app_nil_r, !fmap_app.
    pose proof (fmap_Permutation data _ _ (filter_split_perm b (work (ctx s)))) as P. rewrite fmap_app in P.
    rewrite P. solve_Permutation.
  - destruct (io_binding_put _ _) as [io|] eqn:Ep; simplify_eq/=. apply put_keeps in Ep as [Ew Er].
    unfold held, outstanding. simpl. by rewrite Ew, Er, app_nil_r.
  - destruct (runner_take _) as [[io taken]|] eqn:Et; simplify_eq/=. apply runner_take_held in Et as [Er Ew].
    rewrite app_nil_r. unfold held, outstanding. rewrite En, app_nil_r, Ew, <- Er.
    by destruct taken as [[w []]|].
  - destruct (running s) as [[w run]|] eqn:Erun; [|done]. unfold runner_finish in E.
    destruct (if run then _ else _) as [c|]; cbn [mbind option_bind] in E; [|done].
    destruct (io_binding_put _ _) as [io|] eqn:Ep; simplify_eq/=. apply put_keeps in Ep as [Ew Er]. simpl in Ew, Er.
    unfold held, outstanding. rewrite Erun. simpl. rewrite Ew, Er, !fmap_app. simpl. solve_Permutation.
  - simplify_eq. by rewrite app_nil_r.
  - simplify_eq. unfold io_ctx_fail. rewrite app_nil_r. by destruct (_ && _).
Qed.

(** ** A binding that is allocated has a reference *)
Definition refs_ok (h : gmap Z io_binding) : Prop := ∀ b r, h !! b = Some r → 0 < refs r < 2 ^ 32.

Lemma refs_ok_insert h b r : refs_ok h → 0 < refs r < 2 ^ 32 → refs_ok (<[b := r]> h).
Proof. intros H Hr c r' [[_ <-]|[_ Hc]]%lookup_insert_Some; [done|]. by eapply H. Qed.

Lemma put_refs io b io' : refs_ok (heap io) → io_binding_put io b = Some io' → refs_ok (heap io').
Proof.
  unfold io_binding_put. intros H E. destruct (heap io !! b) as [r|] eqn:Hb; simpl in E; [|done].
  destruct (Z.eqb_spec (refs r) 1) as [|Hn]; [destruct (open r); simplify_eq/=|simplify_eq/=].
  - intros c r' [_ Hc]%lookup_delete_Some. by eapply H.
  - apply refs_ok_insert; [done|]. simpl. specialize (H b r Hb). rewrite u32_small; unfold is_u32; lia.
Qed.

Lemma cancel_refs b l : ∀ io io', refs_ok (heap io) → cancel io b l = Some io' → refs_ok (heap io').
Proof.
  induction l as [|w l IH]; simpl; intros io io' H E; [by simplify_eq|].
  destruct (io_binding_put _ b) as [io1|] eqn:Ep; simpl in E; [|done]. apply put_refs in Ep; [|done]. by eapply IH.
Qed.

Lemma post_refs s b d k alloc io' ret :
  io_inv s → is_Some (receivers s !! b) → Z.of_nat (length (work (ctx s))) < 2 ^ 32 - 3 →
  refs_ok (heap (ctx s)) → io_binding_post (ctx s) b d k alloc = Some (io', ret) → refs_ok (heap io').
Proof.
  unfold io_binding_post. intros [[Sb _ _] _] _ Hl H E. destruct (negb alloc); [by simplify_eq|].
  destruct (heap (ctx s) !! b) as [r|] eqn:Hb; simpl in E; [|done]. destruct (_ || _); simplify_eq/=; [done|].
  apply refs_ok_insert; [done|]. simpl. pose proof (inv_refs _ _ _ Sb b r Hb) as Er.
  assert (owner_ref (receivers s) b ≤ 1) by (unfold owner_ref; destruct (receivers s !! b); lia).
  pose proof (count_nonneg b (outstanding s)) as C.
  assert (Z.of_nat (length (outstanding s)) < 2 ^ 32 - 2).
  { unfold outstanding. rewrite length_app. destruct (running s); simpl; lia. }
  specialize (H b r Hb). rewrite u32_small; unfold is_u32; lia.
Qed.

Lemma exec_refs s e s' :
  io_inv s → enabled_step s e → refs_ok (heap (ctx s)) → exec s e = Some s' → refs_ok (heap (ctx s')).
Proof.
  intros I. destruct e as [limit ar alloc|b buf consumed alloc aw|b err alloc aw|b on|b|b| | | |err];
    cbn [enabled_step exec]; cbv zeta; intros En H E.
  - unfold io_receiver_create_locked, io_binding_create_locked in E.
    repeat (case_match; simplify_eq/=); try done. all: by apply refs_ok_insert.
  - destruct En as [[limit Hb] Hl]. rewrite Hb in E. cbn [mbind option_bind] in E. unfold io_receiver_submit in E.
    cbv zeta in E. destruct (_ || _); [by simplify_eq/=|]. destruct alloc as [a|]; [|by simplify_eq/=].
    destruct (io_binding_post _ _ _ _ _) as [[io ret]|] eqn:Ep; simplify_eq/=. by eapply post_refs.
  - destruct En as [Hb Hl]. unfold io_receiver_notify in E. destruct alloc as [a|]; [|by simplify_eq/=].
    destruct (io_binding_post _ _ _ _ _) as [[io ret]|] eqn:Ep; simplify_eq/=. by eapply post_refs.
  - unfold io_binding_set_enabled_locked in E. destruct (heap _ !! b) as [r|] eqn:Hb; simplify_eq/=.
    apply refs_ok_insert; [done|]. by apply (H b r).
  - unfold io_binding_close_locked in E. destruct (heap _ !! b) as [r|] eqn:Hb; cbn [mbind option_bind] in E; [|done].
    destruct (cancel _ _ _) as [io|] eqn:Ec; simplify_eq/=. eapply cancel_refs; [|done].
    apply refs_ok_insert; [done|]. by apply (H b r).
  - destruct (io_binding_put _ _) as [io|] eqn:Ep; simplify_eq/=. by eapply put_refs.
  - unfold runner_take in E. repeat (case_match; simplify_eq/=; try done).
    all: destruct (take_work _ _) as [[[w rest]|]|]; simplify_eq/=; try done.
    all: destruct (io_binding_is_open _ _) as [[]|]; by simplify_eq/=.
  - destruct (running s) as [[w run]|] eqn:Erun; [|done]. unfold runner_finish in E.
    destruct (if run then _ else _) as [c|]; cbn [mbind option_bind] in E; [|done].
    destruct (io_binding_put _ _) as [io|] eqn:Ep; simplify_eq/=. by eapply put_refs in Ep.
  - by simplify_eq.
  - simplify_eq. unfold io_ctx_fail. by destruct (_ && _).
Qed.

Lemma reach_refs s : reach s → refs_ok (heap (ctx s)).
Proof.
  induction 1 as [|s e s' R IH En E]; [intros b r; change (heap (ctx fresh_system)) with (∅ : gmap Z io_binding); by rewrite lookup_empty|].
  eapply exec_refs; try done. by apply reach_inv.
Qed.

(** When every receiver is destroyed and the runner is idle, nothing is left. *)
Lemma reach_drained s : reach s → receivers s = ∅ → running s = None → io_ctx_destroy (ctx s) = Some ().
Proof.
  intros R Ho Hr. pose proof (reach_inv s R) as [[Sb Sq _] _]. pose proof (reach_refs s R) as P.
  assert (Ew : work (ctx s) = []).
  { destruct (work (ctx s)) as [|w l]; [done|]. assert (Hw : w ∈ w :: l) by by left.
    pose proof (Sq w Hw) as O. unfold io_binding_is_open in O.
    destruct (heap (ctx s) !! binding w) as [r|] eqn:Hb; simplify_eq/=.
    destruct (inv_open _ _ _ Sb _ _ Hb O) as [x Hx]. by rewrite Ho in Hx. }
  assert (Eh : heap (ctx s) = ∅).
  { apply map_empty. intros b. destruct (heap (ctx s) !! b) as [r|] eqn:Hb; [|done].
    pose proof (P b r Hb). pose proof (inv_refs _ _ _ Sb b r Hb) as Er. unfold outstanding, owner_ref in Er.
    rewrite Hr, Ew, Ho, lookup_empty in Er. simpl in Er. unfold count in Er. simpl in Er. lia. }
  unfold io_ctx_destroy. destruct (inv_count _ _ _ Sb) as [-> _]. by rewrite Eh, Ew.
Qed.

(** ** Properties *)

(** C11. In every reachable state of the delivery system, whatever interleaving
    of producers, device, runner and shutdown led there: every step that can
    happen succeeds, so no binding is used after it was freed or freed while
    open; every delivery that was handed over is afterwards queued, with the
    runner or released, exactly once; the binding of every delivery that is
    queued or running is still allocated; and once the receivers are destroyed
    and the runner is idle, the context can be destroyed. *)
Theorem io_binding_lifetime s :
  reach s →
  (∀ e, enabled_step s e → ∃ s', exec s e = Some s' ∧ held s' ≡ₚ held s ++ handed s e) ∧
  (∀ w, w ∈ outstanding s → is_Some (heap (ctx s) !! binding w)) ∧
  (receivers s = ∅ → running s = None → io_ctx_destroy (ctx s) = Some ()).
Proof.
  intros R. pose proof (reach_inv s R) as I. split; [|split; [apply I|by apply reach_drained]].
  intros e En. destruct (step_ok s e I En) as (s' & E & _). eauto using exec_conserves.
Qed.

(** C12. A receiver's device sees its input in order and only while it may: for
    an open binding the accepted deliveries of each kind are exactly the
    delivered ones followed by the queued ones; for a closed one the delivered
    are the first of the accepted; no batch is empty or above the receiver's
    limit; and the work whose callback the runner calls next is open, and is
    enabled or a control message. *)
Theorem io_delivery_order s :
  reach s →
  (∀ b k, io_binding_is_open (ctx s) b = Some true →
     sel b k (accepted s) = sel b k (calls s) ++ sel b k (work (ctx s))) ∧
  (∀ b k, sel b k (calls s) `prefix_of` sel b k (accepted s)) ∧
  (∀ b limit w, receivers s !! b = Some limit → w ∈ sel b IO_DATA (accepted s) → batch_ok limit (data w)) ∧
  (∀ s', enabled_step s Take → exec s Take = Some s' → calls s' ≠ calls s →
     ∃ w r, calls s' = calls s ++ [w] ∧ w ∈ work (ctx s) ∧ heap (ctx s) !! binding w = Some r ∧
       open r = true ∧ (enabled r = true ∨ kind w = IO_CONTROL)).
Proof.
  intros R. pose proof (reach_inv s R) as I. pose proof I as [_ [Oo Op Ob]].
  split; [done|]. split; [done|]. split.
  - intros b limit w Hb (Hw & Eb & Ek)%sel_in. by eapply Ob.
  - intros s' En E Hc. destruct (take_step s I En) as (s2 & E2 & _ & [|(w & Ew & Hw & Ho & r & Hr & C)]); simplify_eq.
    exists w, r. unfold io_binding_is_open in Ho. rewrite Hr in Ho. by simplify_eq/=.
Qed.

(** A run: two receivers, input for both; the first is paused, so that the
    runner serves the second, and closed with its input still queued. *)
Definition example_run : list event :=
  [Create 8 true (Some 100); Create 4 true (Some 200);
   Submit 100 [1; 2] true (Some 1000) true; Submit 200 [3] false (Some 1001) true;
   SetEnabled 100 false; Take; Notify 100 (- VM_EIO) (Some 1002) true; Finish; Take; Close 100].

#[local] Instance enabled_step_dec s e : Decision (enabled_step s e).
Proof. destruct e as [? ? []| | | | | | | | |]; simpl; apply _. Defined.

Fixpoint run (s : system) (l : list event) : option system :=
  match l with
  | [] => Some s
  | e :: l => if decide (enabled_step s e) then s ← exec s e; run s l else None
  end.

Lemma reach_run l : ∀ s s', reach s → run s l = Some s' → reach s'.
Proof.
  induction l as [|e l IH]; simpl; intros s s' R E; [by simplify_eq|].
  destruct (decide (enabled_step s e)) as [En|]; [|done].
  destruct (exec s e) as [s1|] eqn:E1; simpl in E; [|done]. eapply IH; [|done]. by eapply reach_step.
Qed.

Definition example_system : system := default fresh_system (run fresh_system example_run).

Lemma example_reach : reach example_system.
Proof. apply (reach_run example_run fresh_system); [constructor|]. vm_compute. reflexivity. Qed.

Lemma io_binding_lifetime_witness :
  held (default fresh_system (exec example_system Finish)) ≡ₚ
    [mk_delivery 1001 true false 0 [3]; mk_delivery 1000 true true 0 [1; 2]; mk_delivery 1002 false false (- VM_EIO) []] ∧
  is_Some (heap (ctx example_system) !! 100).
Proof.
  destruct (io_binding_lifetime example_system example_reach) as (S & L & _). split.
  - destruct (S Finish) as (s' & E & P).
    + vm_compute. eauto.
    + rewrite E. exact P.
  - apply (L (mk_work 100 IO_CONTROL (mk_delivery 1002 false false (- VM_EIO) []))). vm_compute. by left.
Defined.

Lemma io_delivery_order_witness :
  sel 200 IO_DATA (accepted example_system) = sel 200 IO_DATA (calls example_system) ∧
  length (sel 200 IO_DATA (calls example_system)) = 1%nat ∧
  sel 100 IO_DATA (calls example_system) = [].
Proof.
  destruct (io_delivery_order example_system example_reach) as (O & _). split; [|split; reflexivity].
  rewrite (O 200 IO_DATA) by reflexivity. reflexivity.
Defined.

End Io.
