(* ===== verification/Backends.v ===== *)
(** * Binding host backends to devices (src/io/char.c, src/io/net.c)

    A backend delivers to at most one device at a time, through a receiver that
    it owns from bind to unbind.  The operations are compositions of the steps
    of the delivery system; the property is that they keep to its rules, so
    that its safety theorem applies to a running machine. *)

From S2P Require Import Prelude IoCtx VirtioNet.

Module Backends.
Import Io.

(** The calls made one after the other; [None] is a fault. *)
Fixpoint exec_all (s : system) (l : list event) : option system :=
  match l with
  | [] => Some s
  | e :: l => s ← exec s e; exec_all s l
  end.

(** What [char_bind_locked] and [net_bind_locked] share.  [bound] is the
    backend's binding, [bind_ret] what its bind operation returns. *)
Definition bind_receiver (s : system) (bound : option Z) (limit : Z) (alloc_receiver : bool) (alloc : option Z)
    (bind_ret : Z) : option (system * option Z * Z) :=
  let r := (io_receiver_create_locked (ctx s) limit alloc_receiver alloc).2 in
  s ← exec s (Create limit alloc_receiver alloc);
  match r with
  | ERR_PTR e => Some (s, bound, e)
  | Ptr b =>
      let ret := match bound with Some _ => - VM_EBUSY | None => bind_ret end in
      if ret =? 0 then Some (s, Some b, 0)
      else
        s ← exec s (Close b);
        s ← exec s (Destroy b);
        Some (s, bound, ret)
  end.

Definition char_bind_locked (s : system) (bound : option Z) (rx_limit : Z) (cb : bool) (alloc_receiver : bool)
    (alloc : option Z) (bind_ret : Z) : option (system * option Z * Z) :=
  if negb cb || (rx_limit =? 0) then Some (s, bound, - VM_EINVAL)
  else bind_receiver s bound rx_limit alloc_receiver alloc bind_ret.

Definition net_bind_locked (s : system) (bound : option Z) (cb : bool) (alloc_receiver : bool)
    (alloc : option Z) (bind_ret : Z) : option (system * option Z * Z) :=
  if negb cb then Some (s, bound, - VM_EINVAL)
  else bind_receiver s bound Net.NET_MAX_FRAME_SIZE alloc_receiver alloc bind_ret.

(** [native] is what the backend's own threads still do between the close and
    the return of the unbind operation, which joins them. *)
Definition unbind_receiver (s : system) (bound : option Z) (native : list event) : option (system * option Z) :=
  match bound with
  | None => Some (s, None)
  | Some b =>
      s ← exec s (Close b);
      s ← exec_all s native;
      s ← exec s (Destroy b);
      Some (s, None)
  end.

Definition char_unbind_locked := unbind_receiver.
Definition net_unbind_locked := unbind_receiver.

Definition char_pause_rx_locked (s : system) (bound : option Z) : option (system * Z) :=
  match bound with
  | None => Some (s, - VM_ENOTCONN)
  | Some b => s ← exec s (SetEnabled b false); Some (s, 0)
  end.

Definition char_resume_rx_locked (s : system) (bound : option Z) : option (system * Z) :=
  match bound with
  | None => Some (s, - VM_ENOTCONN)
  | Some b => s ← exec s (SetEnabled b true); Some (s, 0)
  end.

(** ** A machine with backends *)

Record machine : Type := mk_machine { io : system; bound : gmap Z Z }.

(** Assignment to [backend->binding]. *)
Definition set_bound (m : gmap Z Z) (id : Z) (b : option Z) : gmap Z Z :=
  match b with Some b => <[id := b]> m | None => delete id m end.

(** The steps of the native threads of a backend. *)
Definition producer (b : Z) (e : event) : Prop :=
  match e with Submit c _ _ _ _ | Notify c _ _ _ => c = b | _ => False end.

Inductive op : Type :=
| Bind (id limit : Z) (cb alloc_receiver : bool) (alloc : option Z) (bind_ret : Z)
| BindNet (id : Z) (cb alloc_receiver : bool) (alloc : option Z) (bind_ret : Z)
| Unbind (id : Z) (native : list event)
| UnbindNet (id : Z) (native : list event)
| Pause (id : Z)
| Resume (id : Z)
| Produce (id : Z) (e : event)
| Context (e : event).

(** Fewer than 2^32 - 2 deliveries and bindings, as in the delivery system; a
    backend's threads run while it is bound. *)
Definition room (s : system) (n : nat) : Prop := Z.of_nat (length (work (ctx s)) + n) < 2 ^ 32 - 3.

Definition op_enabled (m : machine) (o : op) : Prop :=
  match o with
  | Bind _ limit _ ar alloc _ => room (io m) 0 ∧ enabled_step (io m) (Create limit ar alloc)
  | BindNet _ _ ar alloc _ => room (io m) 0 ∧ enabled_step (io m) (Create Net.NET_MAX_FRAME_SIZE ar alloc)
  | Unbind id native | UnbindNet id native =>
      room (io m) (length native) ∧ ∀ b, bound m !! id = Some b → Forall (producer b) native
  | Pause _ | Resume _ => True
  | Produce id e => room (io m) 0 ∧ ∃ b, bound m !! id = Some b ∧ producer b e
  | Context e => match e with Take | Finish => enabled_step (io m) e | Stop | Failure _ => True | _ => False end
  end.

Definition op_exec (m : machine) (o : op) : option machine :=
  match o with
  | Bind id limit cb ar alloc ret =>
      '(s, b, _) ← char_bind_locked (io m) (bound m !! id) limit cb ar alloc ret;
      Some (mk_machine s (set_bound (bound m) id b))
  | BindNet id cb ar alloc ret =>
      '(s, b, _) ← net_bind_locked (io m) (bound m !! id) cb ar alloc ret;
      Some (mk_machine s (set_bound (bound m) id b))
  | Unbind id native =>
      '(s, b) ← char_unbind_locked (io m) (bound m !! id) native;
      Some (mk_machine s (set_bound (bound m) id b))
  | UnbindNet id native =>
      '(s, b) ← net_unbind_locked (io m) (bound m !! id) native;
      Some (mk_machine s (set_bound (bound m) id b))
  | Pause id => '(s, _) ← char_pause_rx_locked (io m) (bound m !! id); Some (mk_machine s (bound m))
  | Resume id => '(s, _) ← char_resume_rx_locked (io m) (bound m !! id); Some (mk_machine s (bound m))
  | Produce _ e | Context e => s ← exec (io m) e; Some (mk_machine s (bound m))
  end.

Inductive runs : machine → Prop :=
| runs_fresh : runs (mk_machine fresh_system ∅)
| runs_step m o m' : runs m → op_enabled m o → op_exec m o = Some m' → runs m'.

(** Exactly the bound backends own a receiver, each its own. *)
Record bound_inv (m : machine) : Prop := {
  bound_reach : reach (io m);
  bound_owned : ∀ b, is_Some (receivers (io m) !! b) ↔ ∃ id, bound m !! id = Some b;
  bound_inj : ∀ id id' b, bound m !! id = Some b → bound m !! id' = Some b → id = id';
}.

(** ** Lemmas *)

(** What a step does to the receivers. *)
Lemma exec_receivers s e s' :
  exec s e = Some s' →
  match e with
  | Create limit ar alloc =>
      receivers s' = match (io_receiver_create_locked (ctx s) limit ar alloc).2 with
                     | Ptr b => <[b := limit]> (receivers s)
                     | ERR_PTR _ => receivers s
                     end
  | Destroy b => receivers s' = delete b (receivers s)
  | _ => receivers s' = receivers s
  end.
Proof.
  destruct e; cbn [exec]; cbv zeta; intros E.
  - destruct (io_receiver_create_locked _ _ _ _) as [io r]. simpl. destruct r; by simplify_eq.
  - destruct (receivers s !! b); simpl in E; [|done].
    destruct (io_receiver_submit _ _ _ _ _ _ _) as [[[io ret] err]|]; by simplify_eq/=.
  - destruct (io_receiver_notify _ _ _ _ _) as [[io err']|]; by simplify_eq/=.
  - destruct (io_binding_set_enabled_locked _ _ _); by simplify_eq/=.
  - destruct (io_binding_close_locked _ _); by simplify_eq/=.
  - destruct (io_binding_put _ _); by simplify_eq/=.
  - destruct (runner_take _) as [[io [[w []]|]]|]; by simplify_eq/=.
  - destruct (running s) as [[w run]|]; [|done]. destruct (runner_finish _ _ _) as [[io c]|]; by simplify_eq/=.
  - by simplify_eq.
  - by simplify_eq.
Qed.

(** A reachable state, and the step from it. *)
Lemma reach_exec s e : reach s → enabled_step s e → ∃ s', exec s e = Some s' ∧ reach s'.
Proof.
  intros R En. destruct (step_ok s e (reach_inv s R) En) as (s' & E & _). exists s'. split; [done|].
  by eapply reach_step.
Qed.

Definition closed (s : system) (b : Z) : Prop := ∀ r, heap (ctx s) !! b = Some r → open r = false.

Lemma put_open c b c' r' :
  io_binding_put c b = Some c' → ∀ x, heap c' !! x = Some r' → ∃ r, heap c !! x = Some r ∧ open r' = open r.
Proof.
  unfold io_binding_put. intros E x Hx. destruct (heap c !! b) as [r|] eqn:Hb; simpl in E; [|done].
  destruct (refs r =? 1); [destruct (open r) eqn:Ho|]; simplify_eq/=.
  - apply lookup_delete_Some in Hx as [_ Hx]. eauto.
  - apply lookup_insert_Some in Hx as [[<- <-]|[_ Hx]]; eauto.
Qed.

Lemma cancel_open b l : ∀ c c' r', cancel c b l = Some c' →
  ∀ x, heap c' !! x = Some r' → ∃ r, heap c !! x = Some r ∧ open r' = open r.
Proof.
  induction l as [|w l IH]; simpl; intros c c' r' E x Hx; [simplify_eq; eauto|].
  destruct (io_binding_put _ b) as [c1|] eqn:Ep; simpl in E; [|done].
  destruct (IH c1 c' r' E x Hx) as (r1 & H1 & ->). by apply (put_open _ _ _ r1 Ep) in H1.
Qed.

Lemma close_closed s b s' : exec s (Close b) = Some s' → closed s' b.
Proof.
  cbn [exec]. cbv zeta. intros E. unfold io_binding_close_locked in E.
  destruct (heap (ctx s) !! b) as [r|]; cbn [mbind option_bind] in E; [|done].
  destruct (cancel _ _ _) as [c|] eqn:Ec; simplify_eq/=. intros r' Hr'.
  destruct (cancel_open _ _ _ _ r' Ec b Hr') as (r1 & H1 & ->). simpl in H1.
  rewrite lookup_insert_eq in H1. by simplify_eq.
Qed.

(** A delivery for a binding that is closed is refused. *)
Lemma producer_closed s b e s' :
  producer b e → closed s b → exec s e = Some s' → closed s' b ∧ work (ctx s') = work (ctx s).
Proof.
  assert (Post : ∀ d k a c ret, closed s b → io_binding_post (ctx s) b d k a = Some (c, ret) →
    heap c = heap (ctx s) ∧ work c = work (ctx s)).
  { intros d k a c ret C. unfold io_binding_post. destruct (negb a); [by intros; simplify_eq|].
    destruct (heap (ctx s) !! b) as [r|] eqn:Hb; simpl; [|done]. rewrite (C r Hb), orb_true_r. by intros; simplify_eq. }
  destruct e; simpl producer; try done; intros -> C; cbn [exec]; cbv zeta; intros E.
  - destruct (receivers s !! b); simpl in E; [|done]. unfold io_receiver_submit in E. cbv zeta in E.
    destruct (_ || _); [by simplify_eq/=|]. destruct alloc as [a|]; [|by simplify_eq/=].
    destruct (io_binding_post _ _ _ _ _) as [[c ret]|] eqn:Ep; simplify_eq/=.
    destruct (Post _ _ _ _ _ C Ep) as [Eh Ew]. split; [|done]. intros r Hr. apply C. by rewrite <- Eh.
  - unfold io_receiver_notify in E. destruct alloc as [a|]; [|by simplify_eq/=].
    destruct (io_binding_post _ _ _ _ _) as [[c ret]|] eqn:Ep; simplify_eq/=.
    destruct (Post _ _ _ _ _ C Ep) as [Eh Ew]. split; [|done]. intros r Hr. apply C. by rewrite <- Eh.
Qed.

(** The native threads of a backend whose receiver is closed. *)
Lemma native_closed b native : ∀ s,
  reach s → is_Some (receivers s !! b) → closed s b → Forall (producer b) native →
  Z.of_nat (length (work (ctx s))) < 2 ^ 32 - 3 →
  ∃ s', exec_all s native = Some s' ∧ reach s' ∧ receivers s' = receivers s ∧ closed s' b.
Proof.
  induction native as [|e native IH]; intros s R Hb C F L; [by exists s|].
  apply Forall_cons in F as [Fe F]. destruct (reach_exec s e) as (s1 & E1 & R1); [done|by destruct e; simpl in *; subst|].
  destruct (producer_closed s b e s1 Fe C E1) as [C1 W1]. pose proof (exec_receivers s e s1 E1) as Er.
  assert (receivers s1 = receivers s) as Er1 by (by destruct e).
  destruct (IH s1) as (s2 & E2 & R2 & Er2 & C2); [done|by rewrite Er1|done|done|by rewrite W1|].
  exists s2. simpl. rewrite E1. simpl. by rewrite Er2.
Qed.

Lemma close_work s b s' : exec s (Close b) = Some s' → (length (work (ctx s')) ≤ length (work (ctx s)))%nat.
Proof.
  cbn [exec]. cbv zeta. intros E. unfold io_binding_close_locked in E.
  destruct (heap (ctx s) !! b) as [r|]; cbn [mbind option_bind] in E; [|done].
  destruct (cancel _ _ _) as [c|] eqn:Ec; simplify_eq/=. apply cancel_keeps in Ec as [-> _]. simpl. apply length_filter.
Qed.

(** Giving a receiver up: close, let the native threads end, destroy. *)
Lemma release_receiver s b native :
  reach s → is_Some (receivers s !! b) → Forall (producer b) native → room s (length native) →
  ∃ s1 s2 s3, exec s (Close b) = Some s1 ∧ exec_all s1 native = Some s2 ∧ exec s2 (Destroy b) = Some s3 ∧
    reach s3 ∧ receivers s3 = delete b (receivers s).
Proof.
  intros R Hb F L. destruct (reach_exec s (Close b) R Hb) as (s1 & E1 & R1).
  pose proof (exec_receivers _ _ _ E1) as Er1. simpl in Er1. pose proof (close_work _ _ _ E1). unfold room in L.
  destruct (native_closed b native s1 R1 ltac:(by rewrite Er1) (close_closed _ _ _ E1) F ltac:(lia))
    as (s2 & E2 & R2 & Er2 & C2).
  assert (Hb2 : is_Some (receivers s2 !! b)) by (by rewrite Er2, Er1).
  destruct (reach_exec s2 (Destroy b)) as (s3 & E3 & R3); [done| |].
  { split; [done|]. destruct (reach_inv s2 R2) as [[Sb _ _] _]. destruct (inv_owned _ _ _ Sb b Hb2) as [r Hr].
    unfold io_binding_is_open. rewrite Hr. simpl. by rewrite (C2 r Hr). }
  exists s1, s2, s3. pose proof (exec_receivers _ _ _ E3) as Er3. simpl in Er3. by rewrite Er3, Er2, Er1.
Qed.

Lemma create_receiver s limit ar alloc :
  reach s → enabled_step s (Create limit ar alloc) →
  ∃ s', exec s (Create limit ar alloc) = Some s' ∧ reach s' ∧ work (ctx s') = work (ctx s) ∧
    match (io_receiver_create_locked (ctx s) limit ar alloc).2 with
    | Ptr b => receivers s' = <[b := limit]> (receivers s) ∧ receivers s !! b = None
    | ERR_PTR _ => receivers s' = receivers s
    end.
Proof.
  intros R En. destruct (reach_exec s _ R En) as (s' & E & R'). exists s'. split; [done|]. split; [done|].
  pose proof (exec_receivers _ _ _ E) as Er. simpl in Er.
  assert (Ew : work (ctx s') = work (ctx s) ∧
    ∀ b, (io_receiver_create_locked (ctx s) limit ar alloc).2 = Ptr b → alloc = Some b).
  { cbn [exec] in E. cbv zeta in E. unfold io_receiver_create_locked, io_binding_create_locked in *.
    repeat (case_match; simplify_eq/=); split; try done; intros; by simplify_eq. }
  destruct Ew as [Ew Ea]. split; [done|]. destruct (io_receiver_create_locked _ _ _ _).2 as [b|e]; [|done].
  split; [done|]. specialize (Ea b eq_refl) as ->. destruct En as [Hn _].
  destruct (receivers s !! b) as [l|] eqn:Hr; [|done]. destruct (reach_inv s R) as [[Sb _ _] _].
  destruct (inv_owned _ _ _ Sb b ltac:(by eexists)) as [r Hr']. congruence.
Qed.

Lemma bind_ok s bnd limit ar alloc ret :
  reach s → enabled_step s (Create limit ar alloc) → Z.of_nat (length (work (ctx s))) < 2 ^ 32 - 3 →
  ∃ s' bnd' ret', bind_receiver s bnd limit ar alloc ret = Some (s', bnd', ret') ∧ reach s' ∧
    (bnd' = bnd ∧ receivers s' = receivers s ∨
     ∃ b, bnd = None ∧ bnd' = Some b ∧ receivers s !! b = None ∧ receivers s' = <[b := limit]> (receivers s)).
Proof.
  intros R En L. unfold bind_receiver. destruct (create_receiver s limit ar alloc R En) as (s1 & E1 & R1 & W1 & Er).
  rewrite E1. cbn [mbind option_bind]. destruct (io_receiver_create_locked _ _ _ _).2 as [b|e]; [|eauto 10].
  destruct Er as [Er Hn]. destruct (Z.eqb_spec (match bnd with Some _ => - VM_EBUSY | None => ret end) 0) as [E0|E0].
  - destruct bnd; [done|]. do 3 eexists. split; [reflexivity|]. split; [done|]. right. eauto.
  - destruct (release_receiver s1 b []) as (s2 & s2' & s3 & E2 & E2' & E3 & R3 & Er3);
      [done|rewrite Er, lookup_insert_eq; by eexists|constructor|unfold room; rewrite W1; simpl; lia|].
    rewrite E2. cbn [mbind option_bind]. simpl in E2'. simplify_eq. rewrite E3. cbn [mbind option_bind].
    do 3 eexists. split; [reflexivity|]. split; [done|]. left. split; [done|].
    by rewrite Er3, Er, delete_insert_id.
Qed.

(** The invariant after a backend's binding changed with the receivers. *)
Lemma bound_inv_bind m s id b limit :
  bound_inv m → reach s → bound m !! id = None → receivers (io m) !! b = None →
  receivers s = <[b := limit]> (receivers (io m)) → bound_inv (mk_machine s (<[id := b]> (bound m))).
Proof.
  intros [R O J] Rs Hn Hb Er. assert (Free : ∀ id', bound m !! id' ≠ Some b).
  { intros id' E. destruct (proj2 (O b)) as [x Hx]; [by exists id'|]. congruence. }
  split; simpl; [done|..].
  - intros c. rewrite Er. destruct (decide (c = b)) as [->|Hc].
    + rewrite lookup_insert_eq. split; [|by eexists]. intros _. exists id. by rewrite lookup_insert_eq.
    + rewrite lookup_insert_ne, O by done. split; intros [i Hi]; exists i.
      * rewrite lookup_insert_ne; [done|]. intros <-. congruence.
      * apply lookup_insert_Some in Hi as [[_ E]|[_ Hi]]; [by destruct Hc|done].
  - intros i j c Hi Hj. apply lookup_insert_Some in Hi as [[<- <-]|[Ni Hi]], Hj as [[<- E]|[Nj Hj]]; try done.
    + by destruct (Free j).
    + subst. by destruct (Free i).
    + by eapply J.
Qed.

Lemma bound_inv_same m s :
  bound_inv m → reach s → receivers s = receivers (io m) → bound_inv (mk_machine s (bound m)).
Proof. intros [R O J] Rs Er. split; simpl; [done| |done]. intros b. by rewrite Er. Qed.

Lemma bound_inv_unbind m s id b :
  bound_inv m → reach s → bound m !! id = Some b → receivers s = delete b (receivers (io m)) →
  bound_inv (mk_machine s (delete id (bound m))).
Proof.
  intros [R O J] Rs Hi Er. split; simpl; [done|..].
  - intros c. rewrite Er. destruct (decide (c = b)) as [->|Hc].
    + rewrite lookup_delete_eq. split; [by intros []|]. intros [j [Nj Hj]%lookup_delete_Some]. by destruct Nj; eapply J.
    + rewrite lookup_delete_ne, O by done. split; intros [j Hj]; exists j.
      * rewrite lookup_delete_ne; [done|]. intros <-. congruence.
      * by apply lookup_delete_Some in Hj as [_ Hj].
  - intros i j c [_ Hi']%lookup_delete_Some [_ Hj]%lookup_delete_Some. by eapply J.
Qed.

Lemma bind_step m id limit ar alloc ret :
  bound_inv m → room (io m) 0 → enabled_step (io m) (Create limit ar alloc) →
  ∃ s b r, bind_receiver (io m) (bound m !! id) limit ar alloc ret = Some (s, b, r) ∧
    bound_inv (mk_machine s (set_bound (bound m) id b)).
Proof.
  intros I L En. unfold room in L.
  destruct (bind_ok (io m) (bound m !! id) limit ar alloc ret (bound_reach m I) En ltac:(lia))
    as (s & b & r & E & Rs & C). exists s, b, r. split; [done|]. destruct C as [[-> Er]|(c & Hn & -> & Hc & Er)].
  - replace (set_bound _ _ _) with (bound m); [by apply bound_inv_same|].
    destruct (bound m !! id) eqn:Hb; simpl; [by rewrite insert_id|by rewrite delete_id].
  - by eapply bound_inv_bind.
Qed.

Lemma unbind_step m id native :
  bound_inv m → room (io m) (length native) → (∀ b, bound m !! id = Some b → Forall (producer b) native) →
  ∃ s b, unbind_receiver (io m) (bound m !! id) native = Some (s, b) ∧
    bound_inv (mk_machine s (set_bound (bound m) id b)).
Proof.
  intros I L F. unfold unbind_receiver. destruct (bound m !! id) as [b|] eqn:Hb.
  - destruct (release_receiver (io m) b native (bound_reach m I)) as (s1 & s2 & s3 & E1 & E2 & E3 & R3 & Er);
      [apply (bound_owned m I); by eexists|by apply F|done|].
    rewrite E1. cbn [mbind option_bind]. rewrite E2. cbn [mbind option_bind]. rewrite E3. cbn [mbind option_bind].
    do 2 eexists. split; [done|]. by eapply bound_inv_unbind.
  - exists (io m), None. split; [done|]. simpl. rewrite delete_id by done. by apply bound_inv_same; [|apply I|].
Qed.

Lemma enable_rx m id b on :
  bound_inv m → bound m !! id = Some b →
  ∃ s, exec (io m) (SetEnabled b on) = Some s ∧ bound_inv (mk_machine s (bound m)).
Proof.
  intros I Hb. destruct (reach_exec (io m) (SetEnabled b on) (bound_reach m I)) as (s & E & Rs).
  { apply (bound_owned m I). by eexists. }
  exists s. split; [done|]. apply bound_inv_same; [done..|]. exact (exec_receivers _ _ _ E).
Qed.

Lemma op_step m o : bound_inv m → op_enabled m o → ∃ m', op_exec m o = Some m' ∧ bound_inv m'.
Proof.
  intros I En. assert (Same : bound_inv (mk_machine (io m) (bound m))) by (by destruct m).
  assert (Id : ∀ id, set_bound (bound m) id (bound m !! id) = bound m).
  { intros id. destruct (bound m !! id) eqn:Hb; simpl; [by rewrite insert_id|by rewrite delete_id]. }
  assert (Ex : ∀ e, enabled_step (io m) e → (∀ s, exec (io m) e = Some s → receivers s = receivers (io m)) →
    ∃ m', (s ← exec (io m) e; Some (mk_machine s (bound m))) = Some m' ∧ bound_inv m').
  { intros e Ee Er. destruct (reach_exec (io m) e (bound_reach m I) Ee) as (s & E & Rs). rewrite E. simpl.
    eexists. split; [done|]. apply bound_inv_same; auto. }
  destruct o as [id limit cb ar alloc ret|id cb ar alloc ret|id native|id native|id|id|id e|e]; cbn [op_exec].
  - unfold char_bind_locked. destruct (_ || _); [simpl; rewrite Id; eauto|]. destruct En as [L En].
    destruct (bind_step m id limit ar alloc ret I L En) as (s & b & r & -> & I'). simpl. eauto.
  - unfold net_bind_locked. destruct (negb cb); [simpl; rewrite Id; eauto|]. destruct En as [L En].
    destruct (bind_step m id Net.NET_MAX_FRAME_SIZE ar alloc ret I L En) as (s & b & r & -> & I'). simpl. eauto.
  - destruct En as [L F]. destruct (unbind_step m id native I L F) as (s & b & E & I').
    unfold char_unbind_locked. rewrite E. simpl. eauto.
  - destruct En as [L F]. destruct (unbind_step m id native I L F) as (s & b & E & I').
    unfold net_unbind_locked. rewrite E. simpl. eauto.
  - unfold char_pause_rx_locked. destruct (bound m !! id) as [b|] eqn:Hb; [|simpl; eauto].
    destruct (enable_rx m id b false I Hb) as (s & -> & I'). simpl. eauto.
  - unfold char_resume_rx_locked. destruct (bound m !! id) as [b|] eqn:Hb; [|simpl; eauto].
    destruct (enable_rx m id b true I Hb) as (s & -> & I'). simpl. eauto.
  - destruct En as [L (b & Hb & Pe)]. unfold room in L. apply Ex.
    + assert (is_Some (receivers (io m) !! b)) by (apply (bound_owned m I); by eexists).
      destruct e; simpl in *; try done; subst; (split; [done|lia]).
    + intros s E. apply exec_receivers in E. by destruct e.
  - apply Ex; [by destruct e|]. intros s E. apply exec_receivers in E. by destruct e.
Qed.

Lemma runs_inv m : runs m → bound_inv m.
Proof.
  induction 1 as [|m o m' R IH En E].
  - split; simpl; [constructor| |done]. intros b. split; [by intros []|by intros []].
  - destruct (op_step m o IH En) as (m2 & E2 & I2). by simplify_eq.
Qed.

(** Binding and unbinding keep to the rules of the delivery system: whatever
    sequence of binds (with every failure), unbinds, pauses, input from native
    threads and deliveries happened, every operation succeeds without touching a
    freed receiver, also when native threads still submit input while their
    backend is unbound; exactly the bound backends own a receiver, each its own;
    and once all are unbound and the runner is idle, the context can be
    destroyed. *)
Theorem backends_keep_rules m :
  runs m →
  (∀ o, op_enabled m o → is_Some (op_exec m o)) ∧
  (∀ b, is_Some (receivers (io m) !! b) ↔ ∃ id, bound m !! id = Some b) ∧
  (∀ id id' b, bound m !! id = Some b → bound m !! id' = Some b → id = id') ∧
  (bound m = ∅ → running (io m) = None → io_ctx_destroy (ctx (io m)) = Some ()).
Proof.
  intros R. pose proof (runs_inv m R) as I. split_and!.
  - intros o En. destruct (op_step m o I En) as (m' & E & _). by exists m'.
  - apply I.
  - apply I.
  - intros Eb Hr. apply reach_drained; [apply I| |done]. apply map_empty. intros b.
    destruct (receivers (io m) !! b) as [x|] eqn:Hb; [|done].
    destruct (proj1 (bound_owned m I b)) as [id Hid]; [by eexists|]. by rewrite Eb in Hid.
Qed.

(** A run: a second bind of the console is refused, a bind of the network
    backend fails in its bind operation, the console is unbound while a batch of
    it is being delivered and its thread reports an error. *)
Definition example_ops : list op :=
  [Bind 1 16 true true (Some 100) 0; Bind 1 16 true true (Some 101) 0; BindNet 2 true true (Some 200) (- VM_EIO);
   Produce 1 (Submit 100 [1; 2] true (Some 1000) true); Context Take;
   Unbind 1 [Notify 100 (- VM_EIO) (Some 1001) true]; Context Finish].

Definition run_ops (l : list op) (m : machine) : option machine :=
  foldl (λ m o, m ← m; op_exec m o) (Some m) l.

Definition example_end : machine := default (mk_machine fresh_system ∅) (run_ops example_ops (mk_machine fresh_system ∅)).

Local Ltac advance o :=
  match goal with
  | R : runs ?m |- _ =>
      let r := eval vm_compute in (op_exec m o) in
      match r with
      | Some ?m' =>
          apply (runs_step m o m') in R;
            [|vm_compute; repeat split; eauto; intros; simplify_eq; repeat constructor|vm_compute; reflexivity]
      end
  end.
Local Ltac advance_all l := match l with [] => idtac | ?o :: ?l => advance o; advance_all l end.

Lemma example_runs : runs example_end.
Proof.
  pose proof runs_fresh as R. let l := eval unfold example_ops in example_ops in advance_all l.
  vm_compute. exact R.
Qed.

Lemma backends_keep_rules_witness :
  is_Some (op_exec example_end (BindNet 2 true true (Some 200) 0)) ∧ receivers (io example_end) = ∅ ∧
  io_ctx_destroy (ctx (io example_end)) = Some ().
Proof.
  destruct (backends_keep_rules example_end example_runs) as (S & _ & _ & D). split_and!.
  - apply S. vm_compute. auto.
  - reflexivity.
  - apply D; reflexivity.
Defined.

End Backends.
