(* ===== verification/Device.v ===== *)
(** * Devices (src/core/device.c, and the teardown loop of src/core/vm.c)

    The devices of a machine, their life cycle and the order they are torn
    down in.  A device may have a parent, the bus it sits on; a parent must
    outlive its children.  What a device's realize hook does is a parameter:
    the value it returns, the parent and the stop operation it leaves behind.
    Stopping a device, releasing its resources and freeing it are recorded as
    events. *)

From S2P Require Import Prelude.

Module Dev.

(** ** State *)

Inductive device_state : Type :=
| DEVICE_NEW | DEVICE_INITIALIZING | DEVICE_ACTIVE | DEVICE_FAILED | DEVICE_DESTROYING.

#[export] Instance device_state_eq : EqDecision device_state.
Proof. solve_decision. Defined.

(** [has_stop] is [dev->ops && dev->ops->stop]. *)
Record device : Type := mk_dev {
  addr : Z;
  state : device_state;
  parent : option Z;
  has_stop : bool;
}.

Definition eta_dev (d : device) : device := mk_dev (addr d) (state d) (parent d) (has_stop d).
#[export] Instance set_state : Setter state := ltac:(derive_setter eta_dev).
#[export] Instance set_parent : Setter parent := ltac:(derive_setter eta_dev).
#[export] Instance set_has_stop : Setter has_stop := ltac:(derive_setter eta_dev).

#[export] Instance device_eq : EqDecision device.
Proof. solve_decision. Defined.

Inductive event : Type := Stop (dev : Z) | ReleaseAll (dev : Z) | Free (dev : Z).

(** The list [ctx->devices], and assignment to a field of one element. *)
Abbreviation devices := (list device).
Definition get (l : devices) (a : Z) : option device := find (fun d => addr d =? a) l.
Definition upd (l : devices) (a : Z) (f : device → device) : devices :=
  (fun d => if addr d =? a then f d else d) <$> l.
Definition del (l : devices) (a : Z) : devices := filter (fun d => addr d ≠ a) l.

(** ** Operations *)

(** [known] says whether the class is registered, [calloc] is the address of
    the new structure. *)
Definition device_alloc_locked (l : devices) (known : bool) (calloc : option Z) : devices * option Z :=
  if negb known then (l, None)
  else
    match calloc with
    | None => (l, None)
    | Some a => (l ++ [mk_dev a DEVICE_NEW None false], Some a)
    end.

(** The two functions call each other; [fuel] bounds the depth of the calls. *)
Fixpoint device_destroy_locked (fuel : nat) (l : devices) (a : Z) : option (devices * list event) :=
  match fuel with
  | O => None
  | S fuel =>
      '(l, t) ← device_destroy_children fuel l a;
      let l := upd l a (fun d => d <| state := DEVICE_DESTROYING |>) in
      d ← get l a;
      let l := del l a in
      Some (l, t ++ (if has_stop d then [Stop a] else []) ++ [ReleaseAll a; Free a])
  end
with device_destroy_children (fuel : nat) (l : devices) (a : Z) : option (devices * list event) :=
  match fuel with
  | O => None
  | S fuel =>
      match find (fun child => bool_decide (parent child = Some a)) l with
      | None => Some (l, [])
      | Some found =>
          '(l, t1) ← device_destroy_locked fuel l (addr found);
          '(l, t2) ← device_destroy_children fuel l a;
          Some (l, t1 ++ t2)
      end
  end.

(** What a realize hook leaves: its return value, the parent and whether there
    is a stop operation. *)
Record realized : Type := mk_realized { r_ret : Z; r_parent : option Z; r_stop : bool }.

Definition device_realize_locked (fuel : nat) (l : devices) (a : Z) (hook : option realized) :
    option (devices * Z * list event) :=
  d ← get l a;
  if negb (bool_decide (state d = DEVICE_NEW)) then Some (l, - VM_EALREADY, [])
  else
    let l := upd l a (fun d => d <| state := DEVICE_INITIALIZING |>) in
    match hook with
    | Some r =>
        let l := upd l a (fun d => d <| parent := r_parent r |> <| has_stop := r_stop r |>) in
        if r_ret r <? 0 then
          let l := upd l a (fun d => d <| state := DEVICE_FAILED |>) in
          '(l, t) ← device_destroy_children fuel l a;
          d ← get l a;
          let t := t ++ (if has_stop d then [Stop a] else []) ++ [ReleaseAll a] in
          let l := upd l a (fun d => d <| has_stop := false |> <| parent := None |>) in
          Some (l, r_ret r, t)
        else Some (upd l a (fun d => d <| state := DEVICE_ACTIVE |>), 0, [])
    | None => Some (upd l a (fun d => d <| state := DEVICE_ACTIVE |>), 0, [])
    end.

(** The loop of [vm_destroy] over the devices, the last one first. *)
Fixpoint destroy_devices (fuel : nat) (l : devices) : option (list event) :=
  match fuel with
  | O => None
  | S n =>
      match last l with
      | None => Some []
      | Some dev =>
          '(l, t1) ← device_destroy_locked (2 * length l) l (addr dev);
          t2 ← destroy_devices n l;
          Some (t1 ++ t2)
      end
  end.

(** ** Invariant *)

(** Addresses are distinct, parents are realized devices of the machine, and
    there is no cycle of parents. *)
Record dev_inv (l : devices) : Prop := {
  dev_nodup : NoDup (addr <$> l);
  dev_parent : ∀ d p, d ∈ l → parent d = Some p → ∃ dp, dp ∈ l ∧ addr dp = p ∧ state dp = DEVICE_ACTIVE;
  dev_acyclic : ∃ rank : Z → Z, ∀ d p, d ∈ l → parent d = Some p → rank p < rank (addr d);
}.

(** The device at [a] and everything that hangs below it. *)
Inductive below (l : devices) (a : Z) : Z → Prop :=
| below_self : below l a a
| below_child d p : below l a p → d ∈ l → parent d = Some p → below l a (addr d).

(** What happens to one device when it is torn down. *)
Definition teardown (d : device) : list event :=
  (if has_stop d then [Stop (addr d)] else []) ++ [ReleaseAll (addr d); Free (addr d)].

(** No device comes before one of its children. *)
Definition children_first (ds : list device) : Prop :=
  ∀ i j d p, ds !! i = Some d → ds !! j = Some p → parent d = Some (addr p) → (i < j)%nat.

(** A list of devices torn down, and those that stay. *)
Record torn_down (l ds l' : list device) : Prop := {
  torn_all : ds ++ l' ≡ₚ l;
  torn_kept : sublist l' l;
  torn_order : children_first ds;
  torn_closed : ∀ d p, d ∈ l' → parent d = Some p → p ∉ addr <$> ds;
}.

(** ** Lemmas *)

Lemma addr_inj l d d' : NoDup (addr <$> l) → d ∈ l → d' ∈ l → addr d = addr d' → d = d'.
Proof.
  intros N Hd Hd' E. apply list_elem_of_lookup in Hd as [i Hi], Hd' as [j Hj].
  assert (i = j) as ->; [|congruence].
  apply (NoDup_lookup (addr <$> l) i j (addr d) N); rewrite list_lookup_fmap, ?Hi, ?Hj; simpl; congruence.
Qed.

Lemma get_elem l d : NoDup (addr <$> l) → d ∈ l → get l (addr d) = Some d.
Proof.
  intros N Hd. apply find_unique; [done|apply Z.eqb_refl|]. intros y Hy E%Z.eqb_eq. by apply (addr_inj l).
Qed.

Lemma get_Some l a d : get l a = Some d → d ∈ l ∧ addr d = a.
Proof. intros [Hd E%Z.eqb_eq]%find_Some_elem. done. Qed.

Lemma get_upd l a f d : (∀ d, addr (f d) = addr d) → get l a = Some d → get (upd l a f) a = Some (f d).
Proof.
  intros Hf. unfold get, upd. induction l as [|x l IH]; [done|]. simpl.
  destruct (Z.eqb_spec (addr x) a) as [E|E].
  - intros [= <-]. rewrite Hf, E, Z.eqb_refl. done.
  - rewrite (proj2 (Z.eqb_neq _ _) E). done.
Qed.

Lemma del_cons x l a : del (x :: l) a = if decide (addr x = a) then del l a else x :: del l a.
Proof.
  unfold del. rewrite filter_cons. destruct (decide (addr x = a)); [|by rewrite decide_True].
  rewrite decide_False; [done|]. intros H. by apply H.
Qed.

Lemma del_upd l a f : (∀ d, addr (f d) = addr d) → del (upd l a f) a = del l a.
Proof.
  intros Hf. induction l as [|x l IH]; [done|]. unfold upd. rewrite fmap_cons, !del_cons. fold (upd l a f). rewrite IH.
  destruct (Z.eqb_spec (addr x) a) as [E|E]; [|done]. by rewrite Hf, !decide_True.
Qed.

Lemma del_none l a : a ∉ addr <$> l → del l a = l.
Proof.
  induction l as [|x l IH]; [done|]. rewrite fmap_cons, not_elem_of_cons. intros [Hx Hl].
  by rewrite del_cons, decide_False, IH.
Qed.

Lemma del_perm l d : NoDup (addr <$> l) → d ∈ l → [d] ++ del l (addr d) ≡ₚ l.
Proof.
  induction l as [|x l IH]; intros N Hd; [by apply elem_of_nil in Hd|].
  rewrite fmap_cons in N. apply NoDup_cons in N as [N1 N2]. rewrite del_cons.
  apply elem_of_cons in Hd as [->|Hd]; [by rewrite decide_True, del_none|].
  rewrite decide_False by (intros E; apply N1; rewrite E; by apply list_elem_of_fmap_2).
  simpl. rewrite perm_swap. by rewrite <- (IH N2 Hd) at 2.
Qed.

Lemma below_mono l l' a x : l' ⊆ l → below l' a x → below l a x.
Proof. intros Hs. induction 1; [constructor|]. by apply (below_child l a d p); auto. Qed.

Lemma below_trans l a b x : below l a b → below l b x → below l a x.
Proof. intros Hab. induction 1 as [|d p _ IH Hd Hp]; [done|]. by apply (below_child l a d p). Qed.

Lemma torn_down_nil l : torn_down l [] l.
Proof. split; try done. intros d p _ _. apply not_elem_of_nil. Qed.

Lemma torn_down_app l ds1 l1 ds2 l2 :
  torn_down l ds1 l1 → torn_down l1 ds2 l2 → torn_down l (ds1 ++ ds2) l2.
Proof.
  intros [A1 K1 O1 C1] [A2 K2 O2 C2]. split.
  - by rewrite <- app_assoc, A2.
  - by etrans.
  - intros i j d p Hi Hj Hp. apply lookup_app_Some in Hi as [Hi|[Li Hi]], Hj as [Hj|[Lj Hj]].
    + by eapply O1.
    + apply lookup_lt_Some in Hi. lia.
    + exfalso. apply (C1 d (addr p)); [|done|].
      * rewrite <- A2. apply elem_of_app. left. by eapply list_elem_of_lookup_2.
      * apply list_elem_of_fmap. exists p. split; [done|]. by eapply list_elem_of_lookup_2.
    + assert (i - length ds1 < j - length ds1)%nat by (by eapply O2). lia.
  - intros d p Hd Hp. rewrite fmap_app, not_elem_of_app. split; [|by eapply C2].
    apply (C1 d); [|done]. by eapply elem_of_sublist.
Qed.

Section Destroy.
Variable rank : Z → Z.

Definition ranked (l : devices) : Prop :=
  NoDup (addr <$> l) ∧ ∀ d p, d ∈ l → parent d = Some p → rank p < rank (addr d).

(** How many devices could still hang below [a]. *)
Definition higher (l : devices) (a : Z) : nat := length (filter (fun d => rank a < rank (addr d)) l).

Lemma sublist_map {A B} (f : A → B) l l' : sublist l' l → sublist (f <$> l') (f <$> l).
Proof. induction 1; rewrite ?fmap_cons; by constructor. Qed.

Lemma sublist_filter_mono {A} (P : A → Prop) `{∀ x, Decision (P x)} l l' :
  sublist l' l → sublist (filter P l') (filter P l).
Proof.
  induction 1; rewrite ?filter_cons; [done|..]; destruct (decide _); first [by constructor|done].
Qed.

Lemma ranked_sublist l l' : sublist l' l → ranked l → ranked l'.
Proof.
  intros S [N R]. split; [eapply sublist_NoDup; [done|by apply (sublist_map addr)]|].
  intros d p Hd. apply R. by eapply elem_of_sublist.
Qed.

Lemma higher_sublist l l' a : sublist l' l → (higher l' a ≤ higher l a)%nat.
Proof. intros S. apply sublist_length. by apply sublist_filter_mono. Qed.

(** A device above [a] that is gone is one less. *)
Lemma higher_lt l l' a d :
  sublist l' l → d ∈ l → addr d ∉ addr <$> l' → rank a < rank (addr d) → (higher l' a < higher l a)%nat.
Proof.
  intros S Hd Hn Hr. apply list_elem_of_split in Hd as (l1 & l2 & ->).
  unfold higher. rewrite filter_app, filter_cons_True, length_app by done. simpl.
  apply sublist_app_r in S as (k1 & k2 & -> & S1 & S2).
  pose proof (higher_sublist l1 k1 a S1) as H1. unfold higher in H1.
  rewrite fmap_app, not_elem_of_app in Hn. destruct Hn as [_ Hn].
  assert (S2' : sublist k2 l2).
  { inversion S2; subst; [|done]. destruct Hn. rewrite fmap_cons. by left. }
  pose proof (higher_sublist l2 k2 a S2') as H2. unfold higher in H2. rewrite filter_app, length_app. lia.
Qed.

Lemma higher_child l a c : c ∈ l → rank a < rank (addr c) → (higher l (addr c) < higher l a)%nat.
Proof.
  intros Hc Hr. unfold higher. apply list_elem_of_split in Hc as (l1 & l2 & ->).
  rewrite !filter_app, (filter_cons_True (fun d => rank a < rank (addr d)) c),
    (filter_cons_False (fun d => rank (addr c) < rank (addr d)) c), !length_app by lia. simpl.
  assert (M : ∀ k : devices, (higher k (addr c) ≤ higher k a)%nat).
  { intros k. unfold higher. induction k as [|x k IH]; [done|]. rewrite !filter_cons. repeat destruct (decide _); simpl; lia. }
  pose proof (M l1) as M1. pose proof (M l2) as M2. unfold higher in M1, M2. lia.
Qed.

Definition destroyed (l : devices) (a : Z) (r : option (devices * list event)) : Prop :=
  ∃ ds l', r = Some (l', ds ≫= teardown) ∧ torn_down l ds l' ∧
    (∀ d, d ∈ ds → below l a (addr d)) ∧ a ∈ addr <$> ds.

Definition children_destroyed (l : devices) (a : Z) (r : option (devices * list event)) : Prop :=
  ∃ ds l', r = Some (l', ds ≫= teardown) ∧ torn_down l ds l' ∧
    (∀ d, d ∈ ds → below l a (addr d) ∧ rank a < rank (addr d)) ∧ (∀ d, d ∈ l' → parent d ≠ Some a).

(** The last step of a teardown: the device itself, when it has no child left. *)
Lemma torn_down_self l d :
  ranked l → d ∈ l → (∀ c, c ∈ l → parent c ≠ Some (addr d)) → torn_down l [d] (del l (addr d)).
Proof.
  intros [N R] Hd Hc. split.
  - by apply del_perm.
  - apply sublist_filter.
  - intros [|i] [|j] x y Hx Hy Hp; simplify_eq/=. by edestruct Hc.
  - intros c p Hcl Hp. simpl. rewrite list_elem_of_singleton. intros ->. apply (Hc c); [|done].
    unfold del in Hcl. by apply list_elem_of_filter in Hcl as [_ ?].
Qed.

Lemma below_rank l a x : ranked l → below l a x → rank a ≤ rank x.
Proof. intros [_ R]. induction 1 as [|d p _ IH Hd Hp]; [lia|]. specialize (R d p Hd Hp). lia. Qed.

Lemma destroy_spec fuel :
  (∀ l a, ranked l → a ∈ addr <$> l → (2 * higher l a + 2 ≤ fuel)%nat →
     destroyed l a (device_destroy_locked fuel l a)) ∧
  (∀ l a, ranked l → (2 * higher l a + 1 ≤ fuel)%nat →
     children_destroyed l a (device_destroy_children fuel l a)).
Proof.
  induction fuel as [|fuel [IHd IHc]]; [split; intros; lia|]. split.
  - intros l a R Ha Hf. destruct (IHc l a R ltac:(lia)) as (ds & l1 & E & T & B & N).
    apply list_elem_of_fmap in Ha as (d & -> & Hd).
    assert (R1 : ranked l1) by (eapply ranked_sublist; [apply T|done]).
    assert (Hd1 : d ∈ l1).
    { rewrite <- (torn_all _ _ _ T) in Hd. apply elem_of_app in Hd as [Hd|]; [|done].
      destruct (B d Hd). lia. }
    exists (ds ++ [d]), (del l1 (addr d)). cbn [device_destroy_locked]. rewrite E. cbn [mbind option_bind].
    rewrite (get_upd l1 (addr d) _ d); [|done|by apply get_elem; [apply R1|]]. cbn [mbind option_bind].
    rewrite del_upd by done. split_and!.
    + by rewrite bind_app, bind_singleton.
    + eapply torn_down_app; [done|]. by apply torn_down_self.
    + intros x [Hx|Hx%list_elem_of_singleton]%elem_of_app; [by apply B|]. subst. constructor.
    + rewrite fmap_app. apply elem_of_app. right. by left.
  - intros l a R Hf. cbn [device_destroy_children].
    destruct (find _ l) as [c|] eqn:F.
    + apply find_Some_elem in F as [Hc Pc%bool_decide_eq_true].
      assert (Rc : rank a < rank (addr c)) by (by apply R).
      pose proof (higher_child l a c Hc Rc).
      destruct (IHd l (addr c) R ltac:(by apply list_elem_of_fmap_2) ltac:(lia)) as (ds & l1 & E & T & B & Hin).
      rewrite E. cbn [mbind option_bind]. assert (R1 : ranked l1) by (eapply ranked_sublist; [apply T|done]).
      assert (Hc1 : addr c ∉ addr <$> l1).
      { destruct R as [Nd _]. rewrite <- (torn_all _ _ _ T), fmap_app in Nd. apply NoDup_app in Nd as (_ & Nd & _). auto. }
      pose proof (higher_lt l l1 a c (torn_kept _ _ _ T) Hc Hc1 Rc).
      destruct (IHc l1 a R1 ltac:(lia)) as (ds2 & l2 & E2 & T2 & B2 & N2). rewrite E2. cbn [mbind option_bind].
      exists (ds ++ ds2), l2. split_and!; [by rewrite bind_app|by eapply torn_down_app| |done].
      intros d [Hd|Hd]%elem_of_app.
      * assert (Bc : below l a (addr c)) by (apply (below_child l a c a); [constructor|done..]).
        split; [by eapply below_trans; [|apply B]|]. apply (Z.lt_le_trans _ (rank (addr c))); [done|].
        by apply (below_rank l), B.
      * split; [|by apply B2]. eapply below_mono; [|by apply B2]. intros x Hx. eapply elem_of_sublist; [done|apply T].
    + exists [], l. split_and!; [done|apply torn_down_nil|intros d Hd; by apply elem_of_nil in Hd|].
      intros d Hd Hp. eapply find_none in F; [|by apply list_elem_of_In]. by apply bool_decide_eq_false in F.
Qed.
End Destroy.

Lemma higher_length rank l d : d ∈ l → (higher rank l (addr d) < length l)%nat.
Proof.
  intros Hd. unfold higher. apply list_elem_of_split in Hd as (l1 & l2 & ->).
  rewrite filter_app, filter_cons_False, !length_app by lia. simpl.
  pose proof (length_filter (fun d' => rank (addr d) < rank (addr d')) l1).
  pose proof (length_filter (fun d' => rank (addr d) < rank (addr d')) l2). lia.
Qed.

(** What stays is closed under parents, so everything below a device that goes
    goes with it. *)
Lemma torn_down_below l ds l' a x :
  torn_down l ds l' → a ∈ addr <$> ds → below l a x → x ∈ addr <$> ds.
Proof.
  intros T Ha. induction 1 as [|d p _ IH Hd Hp]; [done|].
  rewrite <- (torn_all _ _ _ T) in Hd. apply elem_of_app in Hd as [Hd|Hd]; [by apply list_elem_of_fmap_2|].
  by destruct (torn_closed _ _ _ T d p Hd Hp).
Qed.

Lemma torn_down_inv l ds l' : torn_down l ds l' → dev_inv l → dev_inv l'.
Proof.
  intros T [N P [rank A]]. split.
  - eapply sublist_NoDup; [done|]. apply sublist_map, T.
  - intros d p Hd Hp. assert (Hdl : d ∈ l) by (eapply elem_of_sublist; [done|apply T]).
    destruct (P d p Hdl Hp) as (dp & Hdp & E & S). exists dp. split; [|done].
    rewrite <- (torn_all _ _ _ T) in Hdp. apply elem_of_app in Hdp as [Hdp|]; [|done].
    destruct (torn_closed _ _ _ T d p Hd Hp). rewrite <- E. by apply list_elem_of_fmap_2.
  - exists rank. intros d p Hd. apply A. eapply elem_of_sublist; [done|apply T].
Qed.

(** The teardown of one device, with the fuel the models use. *)
Lemma destroy_one l d :
  dev_inv l → d ∈ l →
  ∃ ds l', device_destroy_locked (2 * length l) l (addr d) = Some (l', ds ≫= teardown) ∧ torn_down l ds l' ∧
    (∀ x, x ∈ l → x ∈ ds ↔ below l (addr d) (addr x)) ∧ d ∈ ds.
Proof.
  intros [N P [rank A]] Hd. destruct (destroy_spec rank (2 * length l)) as [D _].
  pose proof (higher_length rank l d Hd).
  destruct (D l (addr d)) as (ds & l' & E & T & B & Ha); [by split|by apply list_elem_of_fmap_2|lia|].
  assert (In : ∀ x, x ∈ l → addr x ∈ addr <$> ds → x ∈ ds).
  { intros x Hx (y & Ey & Hy)%list_elem_of_fmap. replace x with y; [done|].
    apply (addr_inj l); [done| |done|done]. rewrite <- (torn_all _ _ _ T). apply elem_of_app. by left. }
  exists ds, l'. split_and!; [done..| |by apply In].
  intros x Hx. split; [apply B|]. intros Hb. apply In; [done|]. by eapply torn_down_below.
Qed.

(** ** Life cycle *)

(** What a hook may do: the parent it sets is a device that is up. *)
Definition hook_ok (l : devices) (hook : option realized) : Prop :=
  ∀ r p, hook = Some r → r_parent r = Some p → ∃ dp, dp ∈ l ∧ addr dp = p ∧ state dp = DEVICE_ACTIVE.

Lemma elem_of_upd l a f x : x ∈ upd l a f → ∃ d, d ∈ l ∧ x = if addr d =? a then f d else d.
Proof. intros (d & -> & Hd)%list_elem_of_fmap. eauto. Qed.

Lemma upd_elem l a f d : d ∈ l → addr d ≠ a → d ∈ upd l a f.
Proof.
  intros Hd Ha. apply list_elem_of_fmap. exists d. split; [|done]. by rewrite (proj2 (Z.eqb_neq _ _) Ha).
Qed.

Lemma addrs_upd l a f : (∀ d, addr (f d) = addr d) → addr <$> upd l a f = addr <$> l.
Proof.
  intros Hf. unfold upd. rewrite <- list_fmap_compose. apply list_fmap_ext. intros _ d _. simpl.
  by destruct (addr d =? a).
Qed.

Lemma upd_upd l a f g : (∀ d, addr (f d) = addr d) → upd (upd l a f) a g = upd l a (fun d => g (f d)).
Proof.
  intros Hf. unfold upd. rewrite <- list_fmap_compose. apply list_fmap_ext. intros _ d _. simpl.
  destruct (addr d =? a) eqn:E; simpl; [by rewrite Hf, E|by rewrite E].
Qed.

(** A new device gets its final state: nothing depends on it yet. *)
Lemma upd_new_inv l d f :
  dev_inv l → d ∈ l → state d = DEVICE_NEW → (∀ d, addr (f d) = addr d) →
  (∀ p, parent (f d) = Some p → ∃ dp, dp ∈ l ∧ addr dp = p ∧ state dp = DEVICE_ACTIVE) →
  dev_inv (upd l (addr d) f).
Proof.
  intros [N P [rank A]] Hd Hs Hf Hp.
  assert (Only : ∀ x, x ∈ l → addr x = addr d → x = d) by (intros x Hx; by apply (addr_inj l)).
  assert (Up : ∀ p, (∃ dp, dp ∈ l ∧ addr dp = p ∧ state dp = DEVICE_ACTIVE) →
    p ≠ addr d ∧ ∃ dp, dp ∈ upd l (addr d) f ∧ addr dp = p ∧ state dp = DEVICE_ACTIVE).
  { intros p (dp & Hdp & <- & Sdp).
    assert (addr dp ≠ addr d) by (intros E; apply Only in E; [|done]; subst; congruence).
    split; [done|]. exists dp. split; [by apply upd_elem|done]. }
  split.
  - by rewrite addrs_upd.
  - intros x p (y & Hy & ->)%elem_of_upd Hx. apply Up. destruct (Z.eqb_spec (addr y) (addr d)) as [E|E].
    + apply Only in E as ->; [|done]. by apply Hp.
    + by eapply P.
  - exists (fun x => if decide (x = addr d) then match parent (f d) with Some p => rank p + 1 | None => 0 end else rank x).
    intros x p (y & Hy & ->)%elem_of_upd Hx. destruct (Z.eqb_spec (addr y) (addr d)) as [E|E].
    + apply Only in E as ->; [|done]. rewrite Hf, Hx, (decide_True _ _ eq_refl), decide_False; [lia|].
      by apply Up, Hp.
    + rewrite (decide_False _ _ E), decide_False; [by apply A|]. by apply Up, (P y).
Qed.

Lemma no_children l d : dev_inv l → d ∈ l → state d ≠ DEVICE_ACTIVE → ∀ x, x ∈ l → parent x ≠ Some (addr d).
Proof.
  intros [N P _] Hd Hs x Hx Hp. destruct (P x _ Hx Hp) as (dp & Hdp & E & S).
  apply Hs. by rewrite <- (addr_inj l dp d).
Qed.

Lemma children_none fuel l a :
  fuel ≠ 0%nat → (∀ x, x ∈ l → parent x ≠ Some a) → device_destroy_children fuel l a = Some (l, []).
Proof.
  intros Hf H. destruct fuel; [done|]. cbn [device_destroy_children]. rewrite find_all_false; [done|].
  intros x Hx. apply bool_decide_eq_false. auto.
Qed.

(** The outcome of realizing a device, on every path. *)
Definition realize_result (l : devices) (d : device) (hook : option realized) : devices * Z * list event :=
  if decide (state d = DEVICE_NEW) then
    match hook with
    | Some r =>
        if decide (r_ret r < 0)
        then (upd l (addr d) (fun d => mk_dev (addr d) DEVICE_FAILED None false), r_ret r,
              (if r_stop r then [Stop (addr d)] else []) ++ [ReleaseAll (addr d)])
        else (upd l (addr d) (fun d => mk_dev (addr d) DEVICE_ACTIVE (r_parent r) (r_stop r)), 0, [])
    | None => (upd l (addr d) (fun d => mk_dev (addr d) DEVICE_ACTIVE (parent d) (has_stop d)), 0, [])
    end
  else (l, - VM_EALREADY, []).

Lemma realize_spec l d hook :
  dev_inv l → d ∈ l → hook_ok l hook →
  device_realize_locked (2 * length l) l (addr d) hook = Some (realize_result l d hook).
Proof.
  intros I Hd Hk. pose proof (get_elem l d (dev_nodup _ I) Hd) as G. unfold device_realize_locked, realize_result.
  rewrite G. cbn [mbind option_bind]. destruct (decide (state d = DEVICE_NEW)) as [Hs|Hs]; [|by rewrite bool_decide_eq_false_2].
  rewrite bool_decide_eq_true_2 by done. cbn [negb]. destruct hook as [r|]; [|by rewrite !upd_upd].
  rewrite !upd_upd by done. simpl. destruct (decide (r_ret r < 0)) as [Hr|Hr].
  - rewrite (proj2 (Z.ltb_lt _ _) Hr).
    assert (I' : ∀ x, x ∈ upd l (addr d) (fun d => mk_dev (addr d) DEVICE_FAILED (r_parent r) (r_stop r)) → parent x ≠ Some (addr d)).
    { intros x (y & Hy & ->)%elem_of_upd. destruct (addr y =? addr d).
      - simpl. intros Hp. destruct (Hk r _ eq_refl Hp) as (dp & Hdp & E & Sp).
        apply (addr_inj l) in E; [|apply I|done..]. subst. congruence.
      - apply (no_children l d I Hd); [congruence|done]. }
    assert (length l ≠ 0)%nat by (destruct l; [by apply elem_of_nil in Hd|done]).
    rewrite children_none by (lia || done). cbn [mbind option_bind].
    rewrite (get_upd l (addr d) _ d) by done. cbn [mbind option_bind]. by rewrite upd_upd.
  - by rewrite (proj2 (Z.ltb_ge _ _)) by lia.
Qed.

Lemma device_realize_inv l d hook : dev_inv l → d ∈ l → hook_ok l hook → dev_inv (realize_result l d hook).1.1.
Proof.
  intros I Hd Hk. unfold realize_result. destruct (decide (state d = DEVICE_NEW)) as [Hs|Hs]; [|done].
  destruct hook as [r|]; [destruct (decide (r_ret r < 0))|]; apply upd_new_inv; try done.
  - simpl. eauto.
  - simpl. intros p. by apply (dev_parent l I d).
Qed.

Inductive dev_step : devices → devices → Prop :=
| step_alloc l known calloc :
    (∀ a, calloc = Some a → a ∉ addr <$> l) → dev_step l (device_alloc_locked l known calloc).1
| step_realize l d hook l' ret t :
    d ∈ l → hook_ok l hook → device_realize_locked (2 * length l) l (addr d) hook = Some (l', ret, t) → dev_step l l'
| step_destroy l d l' t :
    d ∈ l → device_destroy_locked (2 * length l) l (addr d) = Some (l', t) → dev_step l l'.

Lemma dev_step_inv l l' : dev_step l l' → dev_inv l → dev_inv l'.
Proof.
  intros S I. destruct S as [l known calloc Hf|l d hook l' ret t Hd Hk E|l d l' t Hd E].
  - unfold device_alloc_locked. destruct (negb known); [done|]. destruct calloc as [a|]; [|done].
    specialize (Hf a eq_refl). destruct I as [N P [rank A]]. simpl.
    assert (O : ∀ d p, d ∈ l ++ [mk_dev a DEVICE_NEW None false] → parent d = Some p → d ∈ l).
    { intros d p [Hd|Hd%list_elem_of_singleton]%elem_of_app Hp; [done|]. by subst. }
    split.
    + rewrite fmap_app. apply NoDup_app. split_and!; [done| |apply NoDup_singleton].
      intros x Hx Hx'. simpl in Hx'. apply list_elem_of_singleton in Hx' as ->. done.
    + intros d p Hd Hp. destruct (P d p (O d p Hd Hp) Hp) as (dp & ? & ?). exists dp. split; [apply elem_of_app; by left|done].
    + exists rank. intros d p Hd Hp. by apply A; [eapply O|].
  - rewrite realize_spec in E by done. injection E as E. apply (f_equal (fun x => x.1.1)) in E. simpl in E.
    subst l'. by apply device_realize_inv.
  - destruct (destroy_one l d I Hd) as (ds & l1 & E' & T & _). simplify_eq. by eapply torn_down_inv.
Qed.

Lemma dev_reach_inv l : rtc dev_step [] l → dev_inv l.
Proof.
  intros R. assert (I : dev_inv []).
  { split; [constructor|intros d p Hd; by apply elem_of_nil in Hd|].
    exists (fun _ => 0). intros d p Hd. by apply elem_of_nil in Hd. }
  induction R as [|l1 l2 l3 S _ IH]; [done|]. eauto using dev_step_inv.
Qed.

Lemma destroy_devices_spec fuel : ∀ l, dev_inv l → (length l < fuel)%nat →
  ∃ ds, destroy_devices fuel l = Some (ds ≫= teardown) ∧ torn_down l ds [].
Proof.
  induction fuel as [|fuel IH]; intros l I Hl; [lia|]. cbn [destroy_devices].
  destruct (last l) as [d|] eqn:L.
  - assert (Hd : d ∈ l) by (apply last_Some in L as [k ->]; apply elem_of_app; right; by left).
    destruct (destroy_one l d I Hd) as (ds & l1 & E & T & _ & Hin). rewrite E. cbn [mbind option_bind].
    pose proof (Permutation_length (torn_all _ _ _ T)) as Pl. rewrite length_app in Pl.
    assert (length ds ≠ 0)%nat by (destruct ds; [by apply elem_of_nil in Hin|done]).
    destruct (IH l1 (torn_down_inv _ _ _ T I) ltac:(lia)) as (ds2 & E2 & T2). rewrite E2. cbn [mbind option_bind].
    exists (ds ++ ds2). split; [by rewrite bind_app|by eapply torn_down_app].
  - apply last_None in L as ->. exists []. split; [done|apply torn_down_nil].
Qed.

(** ** Properties *)

(** C28. Destroying a device, after any history of allocations, realizations and
    removals, terminates and removes exactly the device and everything below it:
    each of them is stopped (if it can be), its resources are released and it is
    freed, once and in this order, and every device goes before its parent.  The
    others stay as they are, and none of them is left with a parent that is
    gone. *)
Theorem device_destroy_spec l d :
  rtc dev_step [] l → d ∈ l →
  ∃ ds l', device_destroy_locked (2 * length l) l (addr d) = Some (l', ds ≫= teardown) ∧
    ds ++ l' ≡ₚ l ∧ NoDup (addr <$> ds) ∧ sublist l' l ∧
    (∀ x, x ∈ l → x ∈ ds ↔ below l (addr d) (addr x)) ∧ children_first ds ∧
    (∀ x p, x ∈ l' → parent x = Some p → ∃ dp, dp ∈ l' ∧ addr dp = p).
Proof.
  intros R Hd. pose proof (dev_reach_inv l R) as I. destruct (destroy_one l d I Hd) as (ds & l' & E & T & B & _).
  exists ds, l'. split_and!; [done|apply T| |apply T|done|apply T|].
  - pose proof (dev_nodup l I) as N. rewrite <- (torn_all _ _ _ T), fmap_app in N. by apply NoDup_app in N as [? _].
  - intros x p Hx Hp. destruct (dev_parent l' (torn_down_inv _ _ _ T I) x p Hx Hp) as (dp & ? & ? & _). eauto.
Qed.

(** Taking a machine down destroys every device exactly once, children before
    their parents, whatever the order they were created in, and ends. *)
Theorem vm_destroys_devices l :
  rtc dev_step [] l →
  ∃ ds, destroy_devices (S (length l)) l = Some (ds ≫= teardown) ∧ ds ≡ₚ l ∧ children_first ds.
Proof.
  intros R. destruct (destroy_devices_spec (S (length l)) l (dev_reach_inv l R) ltac:(lia)) as (ds & E & T).
  exists ds. split_and!; [done| |apply T]. rewrite <- (torn_all _ _ _ T). by rewrite app_nil_r.
Qed.

(** Realizing a device has one of three outcomes: a device that is not new is
    refused unchanged; if the hook succeeds the device is active and nothing is
    torn down; if it fails the device stays in the machine as failed, stopped if
    it could be, its resources released, and with no parent.  No other device
    changes. *)
Theorem device_realize_spec l d hook :
  rtc dev_step [] l → d ∈ l → hook_ok l hook →
  ∃ l' ret t, device_realize_locked (2 * length l) l (addr d) hook = Some (l', ret, t) ∧
    (∀ x, x ∈ l → addr x ≠ addr d → x ∈ l') ∧ addr <$> l' = addr <$> l ∧
    match decide (state d = DEVICE_NEW), hook with
    | left _, Some r =>
        if decide (r_ret r < 0)
        then ret = r_ret r ∧ t = (if r_stop r then [Stop (addr d)] else []) ++ [ReleaseAll (addr d)] ∧
             mk_dev (addr d) DEVICE_FAILED None false ∈ l'
        else ret = 0 ∧ t = [] ∧ mk_dev (addr d) DEVICE_ACTIVE (r_parent r) (r_stop r) ∈ l'
    | left _, None => ret = 0 ∧ t = [] ∧ mk_dev (addr d) DEVICE_ACTIVE (parent d) (has_stop d) ∈ l'
    | right _, _ => ret = - VM_EALREADY ∧ t = [] ∧ l' = l
    end.
Proof.
  intros R Hd Hk. rewrite (realize_spec l d hook (dev_reach_inv l R) Hd Hk).
  assert (In : ∀ f, f d ∈ upd l (addr d) f).
  { intros f. apply list_elem_of_fmap. exists d. by rewrite Z.eqb_refl. }
  unfold realize_result. destruct (decide (state d = DEVICE_NEW)); [destruct hook as [r|]; [destruct (decide (r_ret r < 0))|]|].
  all: do 3 eexists; split; [reflexivity|]; split; [intros x Hx Ha; first [by apply upd_elem|done]|].
  all: split; [by rewrite ?addrs_upd|]; split_and!; try done.
  - apply (In (fun d => mk_dev (addr d) DEVICE_FAILED None false)).
  - apply (In (fun d => mk_dev (addr d) DEVICE_ACTIVE (r_parent r) (r_stop r))).
  - apply (In (fun d => mk_dev (addr d) DEVICE_ACTIVE (parent d) (has_stop d))).
Qed.

(** ** Examples *)

Local Ltac by_decide := apply (bool_decide_eq_true_1 _); vm_compute; reflexivity.

(** A bridge with two endpoints; the second was allocated before the bridge. *)
Definition example_l1 : devices := (device_alloc_locked [] true (Some 300)).1.
Definition example_l2 : devices := (device_alloc_locked example_l1 true (Some 100)).1.
Definition example_l3 : devices := (device_alloc_locked example_l2 true (Some 200)).1.
Definition example_l4 : devices := upd example_l3 100 (fun d => mk_dev (addr d) DEVICE_ACTIVE None false).
Definition example_l5 : devices := upd example_l4 300 (fun d => mk_dev (addr d) DEVICE_ACTIVE (Some 100) true).
Definition example_l6 : devices := upd example_l5 200 (fun d => mk_dev (addr d) DEVICE_ACTIVE (Some 100) true).

Lemma example_hook_ok l r dp :
  dp ∈ l → state dp = DEVICE_ACTIVE → r_parent r = Some (addr dp) → hook_ok l (Some r).
Proof. intros Hd Hs Hr r' p [= <-] Hp. exists dp. split; [done|]. by simplify_eq. Qed.

Lemma example_reach5 : rtc dev_step [] example_l5.
Proof.
  eapply rtc_l; [apply (step_alloc [] true (Some 300)); intros a [= <-]; apply not_elem_of_nil|].
  eapply rtc_l; [apply (step_alloc example_l1 true (Some 100)); intros a [= <-]; by_decide|].
  eapply rtc_l; [apply (step_alloc example_l2 true (Some 200)); intros a [= <-]; by_decide|].
  eapply (rtc_l _ _ example_l4).
  { apply (step_realize example_l3 (mk_dev 100 DEVICE_NEW None false) (Some (mk_realized 0 None false)) _ 0 []).
    - by_decide.
    - intros r p [= <-]. done.
    - vm_compute. reflexivity. }
  apply rtc_once.
  apply (step_realize example_l4 (mk_dev 300 DEVICE_NEW None false) (Some (mk_realized 0 (Some 100) true)) _ 0 []).
  - by_decide.
  - apply (example_hook_ok _ _ (mk_dev 100 DEVICE_ACTIVE None false)); [by_decide|done..].
  - vm_compute. reflexivity.
Qed.

Lemma example_reach6 : rtc dev_step [] example_l6.
Proof.
  eapply rtc_r; [apply example_reach5|].
  apply (step_realize example_l5 (mk_dev 200 DEVICE_NEW None false) (Some (mk_realized 0 (Some 100) true)) _ 0 []).
  - by_decide.
  - apply (example_hook_ok _ _ (mk_dev 100 DEVICE_ACTIVE None false)); [by_decide|done..].
  - vm_compute. reflexivity.
Qed.

Lemma device_destroy_spec_witness :
  ∃ ds, device_destroy_locked 6 example_l6 100 = Some ([], ds ≫= teardown) ∧ length ds = 3%nat ∧ children_first ds.
Proof.
  destruct (device_destroy_spec example_l6 (mk_dev 100 DEVICE_ACTIVE None false) example_reach6 ltac:(by_decide))
    as (ds & l' & E & P & _ & _ & _ & C & _).
  exists ds. change (2 * length example_l6)%nat with 6%nat in E. simpl addr in E.
  assert (l' = []) as -> by (vm_compute in E; injection E as <- _; reflexivity).
  split; [exact E|]. split; [|exact C]. apply Permutation_length in P. rewrite app_nil_r in P. exact P.
Defined.

Lemma vm_destroys_devices_witness :
  ∃ ds, destroy_devices 4 example_l6 = Some (ds ≫= teardown) ∧ length ds = 3%nat ∧ children_first ds.
Proof.
  destruct (vm_destroys_devices example_l6 example_reach6) as (ds & E & P & C).
  exists ds. split; [exact E|]. split; [exact (Permutation_length P)|exact C].
Defined.

Lemma device_realize_spec_witness :
  ∃ l', device_realize_locked 6 example_l5 200 (Some (mk_realized (- VM_EIO) (Some 100) true)) =
          Some (l', - VM_EIO, [Stop 200; ReleaseAll 200]) ∧ mk_dev 200 DEVICE_FAILED None false ∈ l'.
Proof.
  destruct (device_realize_spec example_l5 (mk_dev 200 DEVICE_NEW None false)
    (Some (mk_realized (- VM_EIO) (Some 100) true)) example_reach5 ltac:(by_decide)) as (l' & ret & t & E & _ & _ & T).
  - apply (example_hook_ok _ _ (mk_dev 100 DEVICE_ACTIVE None false)); [by_decide|done..].
  - simpl in T. destruct T as (-> & -> & T). exists l'. split; [exact E|exact T].
Defined.

End Dev.
