(* ===== verification/PcBoard.v ===== *)
(** * The PC board (src/hw/board/x86_64/pc.c)

    Where the machine's RAM goes, which devices it gets and in what order, and
    how the pins of PCI functions reach the interrupt controller.  [pc_init] is
    a program that may give up at every step; what the devices' realize hooks,
    the allocators and the accelerator answer is a parameter. *)

From S2P Require Import Prelude Monad ResPool HostMem Topology Pci PioBridge MpTable Device.

Module Pc.
Import Prog Space Pci.

Definition PC_LOW_RAM_MAX : Z := 0xC0000000.
Definition PC_HIGH_RAM_BASE : Z := 0x100000000.
Definition pc_pirq_routing : list Z := [5; 9; 10; 11].

(** ** Interrupt routing *)

(** One function of the bus: its pin is read from configuration space, its
    interrupt line written there. *)
Definition route_function (st : vm_ctx * pci_bus * Bridge.router) (fn : Z) : vm_ctx * pci_bus * Bridge.router :=
  let '(vm, bus, lines) := st in
  let pin := u8 (pci_bus_read_config_locked None vm bus fn PCI_INTERRUPT_PIN 1) in
  if (0 <? pin) && (pin <=? 4) then
    let slot := PCI_SLOT fn in
    let irq_line := aget pc_pirq_routing ((slot + pin - 1) mod 4) in
    pci_bus_write_config_locked (Some Bridge.pio_bridge_set_irq_cb) None vm bus lines fn PCI_INTERRUPT_LINE irq_line 1
  else st.

Definition pc_route_pci_irqs (vm : vm_ctx) (bus : pci_bus) (lines : Bridge.router) :
    vm_ctx * pci_bus * Bridge.router :=
  foldl route_function (vm, bus, lines) (devfn <$> devices bus).

(** ** Assembling the machine *)

(** "uart-16550a", "pci-pio-bridge", "virtio-pci" and "debug-exit". *)
Inductive device_class : Type := uart_16550a | pci_pio_bridge | virtio_pci | debug_exit.

(** The virtio device of a drive or a network of the configuration. *)
Inductive backend : Type := Drive (i : nat) | Network (i : nat).

(** What the devices are told: struct serial_pdata, struct pio_bridge_pdata,
    struct virtio_pci_pdata and struct debug_exit_pdata.  A line is known by the
    interrupt of its route; pointers to the machine's own objects are left out. *)
Inductive pdata : Type :=
| serial_pdata (io_space : Space.io_space) (base reg_shift irq : Z)
| pio_bridge_pdata (config_addr_port mmio_base mmio_size : Z) (pirq : list Z)
| virtio_pci_pdata (vdev : backend) (fn bar0_base pin : Z)
| debug_exit_pdata (io_space : Space.io_space) (base : Z).

(** What [pc_init] works on: the machine, its memory and its devices, the host
    bridge once there is one, the class each device was allocated from, and what
    [device_realize] was given for it. *)
Record pc : Type := mk_pc {
  p_vm : vm_ctx;
  p_mem : hmem;
  p_devs : Dev.devices;
  p_bridge : option Bridge.pio_bridge_ctx;
  p_names : list (Z * device_class);
  p_args : list (Z * pdata);
}.

(** The part of struct vm_config that [pc_init] reads. *)
Record pc_config : Type := mk_config {
  nr_vcpus : Z;
  cfg_ram : Z;
  nr_drives : nat;
  nr_nets : nat;
}.

(** The answers: to the calls of [vm_add_ram], with the accelerator's mapping;
    [accel_setup_irqchip]; whether a class is registered and what the i-th
    allocation of a device returns; the allocations of a route and a line for
    the i-th interrupt; [virtio_blk_create] and [virtio_net_create] for the i-th
    drive and network; the i-th realize hook's return value and whether it had
    set a stop operation; the I/O map and the bridge as the hooks left them. *)
Record answers : Type := mk_answers {
  a_ram : nat → bool * err_ptr Z;
  a_map : option (mem_region → Z);
  a_irqchip : Z;
  a_known : device_class → bool;
  a_new : nat → option Z;
  a_route : nat → bool;
  a_irq : nat → bool;
  a_blk : nat → bool;
  a_net : nat → bool;
  a_hook : nat → Z * bool;
  a_bridge : option (io_map * Bridge.pio_bridge_ctx);
}.

Section Init.
Variable a : answers.
Variable config : pc_config.
#[local] Open Scope prog_scope.

Definition add_ram (i : nat) (gpa size flags : Z) : prog pc unit := fun s =>
  let '(vm, ret, _) := vm_add_ram (p_vm s) gpa size flags (a_ram a i).1 (a_ram a i).2 (a_map a) in
  check ret (mk_pc vm (p_mem s) (p_devs s) (p_bridge s) (p_names s) (p_args s)).

(** RAM below 3 GiB, and the rest from 4 GiB on. *)
Definition low_ram : Z := if PC_LOW_RAM_MAX <=? cfg_ram config then PC_LOW_RAM_MAX else cfg_ram config.
Definition high_ram : Z := if PC_LOW_RAM_MAX <=? cfg_ram config then cfg_ram config - PC_LOW_RAM_MAX else 0.

Definition pc_add_ram : prog pc unit :=
  refuse ((nr_vcpus config =? 0) || (Mp.PC_MAX_VCPUS <? nr_vcpus config)) (- VM_EINVAL) ;;
  refuse (low_ram <? 0x100000) (- VM_EINVAL) ;;
  add_ram 0 0 0x9f000 MEM_EXEC ;;
  add_ram 1 0x9f000 0x61000 (Z.lor MEM_EXEC MEM_RESERVED) ;;
  (if low_ram =? 0x100000 then mret tt else add_ram 2 0x100000 (low_ram - 0x100000) MEM_EXEC) ;;
  if 0 <? high_ram then add_ram 3 PC_HIGH_RAM_BASE high_ram MEM_EXEC else mret tt.










End Init.

(** ** Lemmas: interrupt routing *)

(** The pin in configuration space is the function's. *)
Definition pin_shown (d : pci_device) : Prop :=
  dev_ok d ∧ aget (config_space d) PCI_INTERRUPT_PIN = interrupt_pin d ∧ interrupt_pin d ≤ 4.

Lemma pin_shown_config d d' :
  pin_shown d → interrupt_pin d' = interrupt_pin d → length (bars d') = length (bars d) →
  length (config_space d') = length (config_space d) →
  aget (config_space d') PCI_INTERRUPT_PIN = aget (config_space d) PCI_INTERRUPT_PIN → pin_shown d'.
Proof. intros [[O1 O2] [H1 H2]] E1 E2 E3 E4. split_and!; [split; congruence|congruence|lia]. Qed.

Lemma put_pin_shown bus d :
  Forall pin_shown (devices bus) → pin_shown d → Forall pin_shown (devices (put_device bus d)).
Proof.
  rewrite !Forall_forall. intros H Hd x Hx. apply elem_put_device in Hx as [[-> _]|[Hx _]]; auto.
Qed.

Lemma write_bar_pin vm d offset val size :
  0x10 ≤ offset < 0x28 → pin_shown d → pin_shown (write_bar vm d offset val size).2.
Proof.
  intros Ho Hd. unfold write_bar. destruct (bar_region vm d _) as [reg|]; [|done]. cbv zeta.
  assert (0 ≤ (offset - 16) / 4 < 6) by (split; [apply Z.div_pos|apply Z.div_lt_upper_bound]; lia).
  destruct (_ && _); [|destruct (io_map_relocate_region_locked _ _ _) as [vm' ret]; destruct (negb _)].
  all: apply (pin_shown_config d); try done; simpl; rewrite ?length_alter, ?length_put_dword; try done.
  apply aget_put_dword_ne; unfold PCI_INTERRUPT_PIN; lia.
Qed.

Lemma write_config_pin {B} (cb : option (B → pci_device → Z → B)) vm bus bridge fn offset val size :
  0 ≤ offset → Forall pin_shown (devices bus) →
  Forall pin_shown (devices (pci_bus_write_config_locked cb None vm bus bridge fn offset val size).1.2).
Proof.
  intros Ho F. unfold pci_bus_write_config_locked. destruct (negb _); [done|].
  destruct (pci_bus_find_device bus fn) as [d|] eqn:Ef; [|done]. apply find_Some_elem in Ef as [Hd _].
  pose proof (proj1 (Forall_forall _ _) F d Hd) as P.
  destruct (0x40 <=? offset); [done|]. destruct ((0x10 <=? offset) && (offset <? 0x28)) eqn:Eb.
  { apply andb_prop in Eb as [?%Z.leb_le ?%Z.ltb_lt].
    pose proof (write_bar_pin vm d offset val size ltac:(lia) P) as W.
    destruct (write_bar vm d offset val size). by apply put_pin_shown. }
  set (cfg := foldl _ _ _). cbv zeta.
  assert (Ec : aget cfg PCI_INTERRUPT_PIN = aget (config_space d) PCI_INTERRUPT_PIN).
  { apply write_byte_other; [done|intros i Hi%elem_of_seqZ; lia|done|by left]. }
  assert (Lc : length cfg = length (config_space d)) by apply length_write_bytes.
  clearbody cfg. clear Eb. destruct (_ && _); [|by apply put_pin_shown; [|by apply (pin_shown_config d)]].
  unfold pci_device_set_irq_locked. destruct (negb _); cbv zeta; apply put_pin_shown; try done;
    by apply (pin_shown_config d).
Qed.

Lemma register_pin bus pool dev same_vm addr alloc :
  Forall pin_shown (devices bus) → dev_ok dev →
  Forall pin_shown (devices (pci_device_register_locked bus pool dev same_vm addr alloc).1.1.1.1).
Proof.
  intros F [O1 O2]. unfold pci_device_register_locked.
  destruct (negb same_vm || (4 <? interrupt_pin dev)) eqn:G; [done|].
  apply orb_false_iff in G as [_ Hp%Z.ltb_ge]. destruct (attached dev); [done|].
  assert (New : ∀ fn, pin_shown (dev <| devfn := fn |> <| attached := true |> <| config_space :=
      aset (aset (config_space dev) PCI_INTERRUPT_PIN (interrupt_pin dev)) PCI_INTERRUPT_LINE 0 |>)).
  { intros fn. split; [split; simpl; [done|by rewrite !length_aset]|]. simpl. split; [|done].
    rewrite aget_aset_ne by done. apply aget_aset_eq. rewrite O2. unfold PCI_INTERRUPT_PIN. lia. }
  assert (Old : pin_shown (dev <| attached := true |> <| config_space :=
      aset (aset (config_space dev) PCI_INTERRUPT_PIN (interrupt_pin dev)) PCI_INTERRUPT_LINE 0 |>)).
  { by apply (pin_shown_config _ _ (New (devfn dev))). }
  destruct (devfn dev =? PCI_AUTO_DEVFN); [destruct (free_slot bus 1 31) as [slot|]; [|done]|].
  all: destruct (existsb _ _); [done|]; cbv zeta.
  all: destruct (ResPool.res_add_action _ _ _ _) as [[p|] ret]; try done; destruct (ret <? 0); try done.
  all: apply Forall_app; split; [done|]; apply Forall_singleton; auto.
Qed.

Lemma pci_step_pin {B} s s' :
  pci_step (B := B) s s' → Forall pin_shown (devices s.2) → Forall pin_shown (devices s'.2).
Proof.
  intros [vm bus pool dev same_vm addr alloc bus' pool' dev' parent ret Ok Nb E
         |vm bus pool dev index size rb a1 a2 vm' pool' dev' ret Hd Hi Hs Hr Hf E
         |cb vm bus bridge fn offset val size vm' bus' bridge' Ho E] F; cbn [fst snd] in *.
  - pose proof (register_pin bus pool dev same_vm addr alloc F Ok) as R. by rewrite E in R.
  - apply put_pin_shown; [done|]. pose proof (proj1 (Forall_forall _ _) F dev Hd) as P.
    unfold pci_register_bar_locked in E.
    destruct (negb (attached dev) || (6 <=? index) || (size <? 16) || negb (Z.land size (size - 1) =? 0)) eqn:G; [by simplify_eq|].
    apply orb_false_iff in G as [[[_ G%Z.leb_gt]%orb_false_iff _]%orb_false_iff _].
    destruct (match bars dev !! Z.to_nat index with Some (mk_bar (Some _) _) => true | _ => false end); [by simplify_eq|].
    destruct (if rb =? INVALID_GPA then search vm bus size else Some rb) as [base|]; [|by simplify_eq].
    destruct (_ || _); [by simplify_eq|].
    destruct (io_map_register_region_locked _ _ _ _ _ _ _ _ _) as [[vm1 p1] [reg|e]]; [|by simplify_eq].
    injection E as <- <- <- <-.
    apply (pin_shown_config dev); simpl; rewrite ?length_alter, ?length_put_dword; try done.
    apply aget_put_dword_ne; unfold PCI_INTERRUPT_PIN; lia.
  - pose proof (write_config_pin cb vm bus bridge fn offset val size Ho F) as W. by rewrite E in W.
Qed.

(** The interrupt a function's pin is wired to. *)
Definition wired_gsi (d : pci_device) : Z :=
  aget pc_pirq_routing ((PCI_SLOT (devfn d) + aget (config_space d) PCI_INTERRUPT_PIN - 1) mod 4).

(** What routing does to one function. *)
Definition routed_function (d : pci_device) : pci_device :=
  let pin := aget (config_space d) PCI_INTERRUPT_PIN in
  if (0 <? pin) && (pin <=? 4)
  then d <| config_space := aset (config_space d) PCI_INTERRUPT_LINE (wired_gsi d) |> else d.

Lemma devfn_routed d : devfn (routed_function d) = devfn d.
Proof. unfold routed_function. by destruct (_ && _). Qed.

Lemma wired_gsi_range d : wired_gsi d ∈ pc_pirq_routing.
Proof.
  unfold wired_gsi. set (i := _ mod 4). assert (0 ≤ i < 4) by (apply Z.mod_pos_bound; lia). clearbody i.
  assert (i = 0 ∨ i = 1 ∨ i = 2 ∨ i = 3) as [-> |[-> |[-> | ->]]] by lia; by apply (bool_decide_unpack _).
Qed.

(** A byte of configuration space beyond the BARs. *)
Lemma read_config_byte vm bus d off :
  NoDup (devfn <$> devices bus) → d ∈ devices bus → 0x28 ≤ off < 0x100 →
  pci_bus_read_config_locked None vm bus (devfn d) off 1 = aget (config_space d) off.
Proof.
  intros N Hd Ho. unfold pci_bus_read_config_locked, config_access_ok, PCI_CONFIG_SPACE_SIZE.
  rewrite Z.mod_1_r, (proj2 (Z.leb_le (off + 1) 256)) by lia. cbn [negb]. rewrite find_device_elem by done.
  change (seqZ 0 1) with [0]. cbn [foldl]. unfold config_byte. rewrite Z.add_0_r.
  rewrite (proj2 (Z.ltb_ge off 0x28)), andb_false_r by lia. by rewrite Z.shiftl_0_r.
Qed.

Lemma devices_same bus f : (∀ x, x ∈ devices bus → f x = x) → bus <| devices := f <$> devices bus |> = bus.
Proof.
  intros H. assert (E : f <$> devices bus = devices bus); [|rewrite E; by destruct bus].
  rewrite <- (list_fmap_id (devices bus)) at 2. apply list_fmap_ext. intros i x Hx%list_elem_of_lookup_2. by apply H.
Qed.

(** One round of the loop. *)
Lemma route_function_spec vm bus lines d :
  NoDup (devfn <$> devices bus) → d ∈ devices bus → is_u8 (aget (config_space d) PCI_INTERRUPT_PIN) →
  route_function (vm, bus, lines) (devfn d) = (vm, put_device bus (routed_function d), lines).
Proof.
  intros N Hd Hp. unfold route_function. rewrite read_config_byte, u8_small by done. unfold routed_function.
  destruct (_ && _).
  - unfold pci_bus_write_config_locked. change (config_access_ok PCI_INTERRUPT_LINE 1) with true. cbn [negb].
    rewrite find_device_elem by done. change (0x40 <=? PCI_INTERRUPT_LINE) with false.
    change ((0x10 <=? PCI_INTERRUPT_LINE) && (PCI_INTERRUPT_LINE <? 0x28)) with false.
    change ((PCI_INTERRUPT_LINE <? 6) && (4 <? PCI_INTERRUPT_LINE + 1)) with false.
    change (seqZ 0 1) with [0]. cbv iota zeta. cbn [foldl].
    fold (wired_gsi d). pose proof (wired_gsi_range d) as R.
    assert (E : write_byte (wired_gsi d) PCI_INTERRUPT_LINE (config_space d) 0 =
                aset (config_space d) PCI_INTERRUPT_LINE (wired_gsi d)); [|by rewrite E].
    unfold write_byte. cbv zeta. change (PCI_INTERRUPT_LINE + 0) with PCI_INTERRUPT_LINE.
    change (PCI_INTERRUPT_LINE =? 4) with false. change (PCI_INTERRUPT_LINE =? 5) with false.
    rewrite Z.eqb_refl. cbv iota. rewrite Z.shiftr_0_r, u8_small; [done|].
    unfold pc_pirq_routing in R. rewrite !elem_of_cons, elem_of_nil in R. word.
  - do 2 f_equal. symmetry. apply devices_same. intros x Hx.
    destruct (Z.eqb_spec (devfn x) (devfn d)) as [E|]; [|done]. by apply (devfn_inj _ _ _ N) in E.
Qed.

Lemma put_devices_devfn bus d : devfn <$> devices (put_device bus d) = devfn <$> devices bus.
Proof.
  simpl. rewrite <- list_fmap_compose. apply list_fmap_ext. intros i x Hx. simpl.
  destruct (Z.eqb_spec (devfn x) (devfn d)); congruence.
Qed.

(** The whole loop. *)
Lemma route_spec l : ∀ vm bus lines,
  NoDup (devfn <$> devices bus) → NoDup l → l ⊆ devfn <$> devices bus →
  Forall (fun d => is_u8 (aget (config_space d) PCI_INTERRUPT_PIN)) (devices bus) →
  foldl route_function (vm, bus, lines) l =
  (vm, bus <| devices := (fun d => if bool_decide (devfn d ∈ l) then routed_function d else d) <$> devices bus |>, lines).
Proof.
  induction l as [|fn l IH]; intros vm bus lines N Nl Sub F.
  { cbn [foldl]. do 2 f_equal. symmetry. apply devices_same. intros x _.
    by rewrite bool_decide_eq_false_2 by apply not_elem_of_nil. }
  apply NoDup_cons in Nl as [Hfn Nl]. cbn [foldl].
  assert (fn ∈ devfn <$> devices bus) as (d & -> & Hd)%list_elem_of_fmap by (apply Sub; left).
  rewrite Forall_forall in F. rewrite (route_function_spec vm bus lines d N Hd (F d Hd)).
  rewrite IH; [|by rewrite put_devices_devfn|done|..].
  - match goal with |- (vm, ?x <| devices := ?g <$> _ |>, lines) = (vm, bus <| devices := ?r |>, lines) =>
      assert (E : g <$> devices x = r); [|rewrite E; by destruct bus] end.
    unfold put_device. cbn [devices]. simpl devices. rewrite <- list_fmap_compose. apply list_fmap_ext. intros i x Hx. apply list_elem_of_lookup_2 in Hx. simpl. rewrite devfn_routed.
    destruct (Z.eqb_spec (devfn x) (devfn d)) as [E|E].
    + apply (devfn_inj _ _ _ N) in E as ->; [|done..]. rewrite devfn_routed.
      rewrite bool_decide_eq_false_2 by done. by rewrite bool_decide_eq_true_2 by left.
    + destruct (bool_decide_reflect (devfn x ∈ l)).
      * by rewrite bool_decide_eq_true_2 by (by right).
      * rewrite bool_decide_eq_false_2; [done|]. by intros [?|?]%elem_of_cons.
  - rewrite put_devices_devfn. intros x Hx. apply Sub. by right.
  - apply Forall_forall. intros x [[-> _]|[Hx _]]%elem_put_device; [|by apply F].
    unfold routed_function. destruct (_ && _); [|by apply F]. simpl. rewrite aget_aset_ne by done. by apply F.
Qed.

Lemma pc_route_spec vm bus lines :
  NoDup (devfn <$> devices bus) →
  Forall (fun d => is_u8 (aget (config_space d) PCI_INTERRUPT_PIN)) (devices bus) →
  pc_route_pci_irqs vm bus lines = (vm, bus <| devices := routed_function <$> devices bus |>, lines).
Proof.
  intros N F. unfold pc_route_pci_irqs. rewrite route_spec by done.
  match goal with |- (_, _ <| devices := ?l |>, _) = _ => assert (E : l = routed_function <$> devices bus); [|by rewrite E] end.
  apply list_fmap_ext. intros i x Hx%list_elem_of_lookup_2. by rewrite bool_decide_eq_true_2 by (by apply list_elem_of_fmap_2).
Qed.

Lemma routed_devfns bus : devfn <$> devices (bus <| devices := routed_function <$> devices bus |>) = devfn <$> devices bus.
Proof. simpl. rewrite <- list_fmap_compose. apply list_fmap_ext. intros i x _. apply devfn_routed. Qed.

Lemma pci_reach_pin {B} s s' :
  rtc (pci_step (B := B)) s s' → Forall pin_shown (devices s.2) → Forall pin_shown (devices s'.2).
Proof. induction 1; [done|]. intros F. apply IHrtc. by apply (pci_step_pin (B := B) x). Qed.

(** Routing leaves the rest of a function alone. *)
Definition same_but_line (d d' : pci_device) : Prop :=
  devfn d' = devfn d ∧ interrupt_pin d' = interrupt_pin d ∧ bars d' = bars d ∧
  ∀ off, 0 ≤ off → off ≠ PCI_INTERRUPT_LINE → aget (config_space d') off = aget (config_space d) off.

Lemma routed_same d : same_but_line d (routed_function d).
Proof.
  unfold routed_function. destruct (_ && _); [|done]. split_and!; try done. intros off Ho Hn. simpl.
  by apply aget_aset_ne.
Qed.

(** A function that has a pin, routed. *)
Lemma routed_function_spec d :
  pin_shown d → 0 ≤ interrupt_pin d → Mp.has_pin d = true →
  Bridge.routed d ((PCI_SLOT (devfn d) + interrupt_pin d - 1) mod 4) ∧
  pc_pirq_routing !! Z.to_nat ((PCI_SLOT (devfn d) + interrupt_pin d - 1) mod 4) = Some (wired_gsi d) ∧
  aget (config_space (routed_function d)) PCI_INTERRUPT_LINE = wired_gsi d.
Proof.
  intros [[_ Ol] [Ep Hp]] H0 H. unfold Mp.has_pin in H. apply andb_true_iff in H as [H1%negb_true_iff%Z.eqb_neq _].
  split_and!; [split; [lia|done]| |].
  - unfold wired_gsi. rewrite Ep. set (i := _ mod 4). assert (0 ≤ i < 4) by (apply Z.mod_pos_bound; lia). clearbody i.
    assert (i = 0 ∨ i = 1 ∨ i = 2 ∨ i = 3) as [-> |[-> |[-> | ->]]] by lia; done.
  - unfold routed_function. rewrite Ep, (proj2 (Z.ltb_lt _ _)), (proj2 (Z.leb_le _ _)) by lia. cbn [andb]. simpl.
    apply aget_aset_eq. rewrite Ol. unfold PCI_INTERRUPT_LINE. lia.
Qed.

(** ** Lemmas: RAM *)

Section Assembly.
Variable a : answers.
Variable config : pc_config.

(** The documented behaviour of the parts that are parameters: error pointers
    and failed hooks carry negative codes, and devices that exist have different
    addresses. *)
Record answers_ok : Prop := {
  ok_pages : ∀ i e, (a_ram a i).2 = ERR_PTR e → e < 0;
  ok_new : ∀ i j x, a_new a i = Some x → a_new a j = Some x → i = j;
}.
Hypothesis Ok : answers_ok.
Hypothesis Ram : is_u64 (cfg_ram config).

Definition hva (i : nat) : Z := match (a_ram a i).2 with Ptr h => h | ERR_PTR _ => 0 end.

(** The RAM of the machine. *)
Definition ram_layout : list mem_region :=
  [mk_ram 0 0x9f000 (hva 0) MEM_EXEC; mk_ram 0x9f000 0x61000 (hva 1) (Z.lor MEM_EXEC MEM_RESERVED)] ++
  (if low_ram config =? 0x100000 then [] else [mk_ram 0x100000 (low_ram config - 0x100000) (hva 2) MEM_EXEC]) ++
  (if 0 <? high_ram config then [mk_ram PC_HIGH_RAM_BASE (high_ram config) (hva 3) MEM_EXEC] else []).

(** The address of the i-th device. *)
Definition dev_addr (i : nat) : Z := default 0 (a_new a i).

(** The classes of the devices of a PC and what each is told, in order: the
    serial port COM1 on interrupt 4, the host bridge with its configuration port,
    the window from 3 to 4 GiB and four lines, a function for each drive and each
    network, and the exit device. *)
Definition pc_classes : list (Z * device_class) :=
  let n := (nr_drives config + nr_nets config)%nat in
  [(dev_addr 0, uart_16550a); (dev_addr 1, pci_pio_bridge)] ++
  ((fun i => (dev_addr i, virtio_pci)) <$> seq 2 n) ++ [(dev_addr (2 + n), debug_exit)].

Definition pc_arguments : list (Z * pdata) :=
  let nd := nr_drives config in let nn := nr_nets config in
  [(dev_addr 0, serial_pdata IO_PIO 0x3f8 0 4);
   (dev_addr 1, pio_bridge_pdata 0xcf8 0xc0000000 0x40000000 [5; 9; 10; 11])] ++
  ((fun i => (dev_addr (2 + i), virtio_pci_pdata (Drive i) 0xff 0xffffffffffffffff 1)) <$> seq 0 nd) ++
  ((fun i => (dev_addr (2 + nd + i), virtio_pci_pdata (Network i) 0xff 0xffffffffffffffff 1)) <$> seq 0 nn) ++
  [(dev_addr (2 + (nd + nn)), debug_exit_pdata IO_PIO 0x500)].

(** No device yet, and the regions so far. *)
Record ram_at (l : list mem_region) (s : pc) : Prop := {
  at_topo : topology_inv (p_vm s);
  at_regions : regions (mem (p_vm s)) = l;
  at_devs : p_devs s = [] ∧ p_names s = [] ∧ p_args s = [];
}.

(** The states in which [pc_init] may give up: what is there can be torn down,
    and is the beginning of a PC. *)
Definition sound (s : pc) : Prop :=
  mem_inv (mem (p_vm s)) ∧ Dev.dev_inv (p_devs s) ∧
  p_names s `prefix_of` pc_classes ∧ p_args s `prefix_of` pc_arguments.

Lemma dev_inv_nil : Dev.dev_inv [].
Proof.
  split; [constructor|intros d p Hd; by apply elem_of_nil in Hd|].
  exists (fun _ => 0). intros d p Hd. by apply elem_of_nil in Hd.
Qed.

Lemma ram_at_sound l s : ram_at l s → sound s.
Proof.
  intros [I _ (E1 & E2 & E3)]. split; [apply I|]. rewrite E1, E2, E3. split; [apply dev_inv_nil|]. split; apply prefix_nil.
Qed.

Lemma add_ram_triple l i gpa size flags :
  is_u64 gpa → is_u64 size →
  triple sound (ram_at l) (add_ram a i gpa size flags) (fun _ => ram_at (l ++ [mk_ram gpa size (hva i) flags])).
Proof.
  intros Hg Hs s B. pose proof B as [I R D]. unfold add_ram.
  pose proof (vm_add_ram_cases (p_vm s) gpa size flags (a_ram a i).1 (a_ram a i).2 (a_map a) I Hg Hs) as C.
  pose proof (vm_add_ram_inv (p_vm s) gpa size flags (a_ram a i).1 (a_ram a i).2 (a_map a) I Hg Hs) as I'.
  destruct (vm_add_ram _ _ _ _ _ _ _) as [[vm ret] ev]. cbn [fst] in I'. destruct C as [[-> C]|C].
  - assert (ret < 0) by (destruct C as [?|(e & E & ->)]; [done|by eapply ok_pages]).
    unfold check, refuse. rewrite (proj2 (Z.ltb_lt ret 0)) by done. simpl. split; [done|].
    by apply (ram_at_sound l).
  - destruct C as (h & f & -> & E & _ & _ & _ & -> & _). simpl. split; [done| |done]. simpl. rewrite R.
    unfold hva. by rewrite E.
Qed.

Lemma low_ram_range : 0 ≤ low_ram config ≤ PC_LOW_RAM_MAX.
Proof. unfold low_ram, PC_LOW_RAM_MAX in *. destruct (Z.leb_spec 0xC0000000 (cfg_ram config)); word. Qed.

Lemma high_ram_range : 0 ≤ high_ram config < 2 ^ 64.
Proof. unfold high_ram, PC_LOW_RAM_MAX in *. destruct (Z.leb_spec 0xC0000000 (cfg_ram config)); word. Qed.

Lemma low_high_ram : low_ram config + high_ram config = cfg_ram config.
Proof. unfold low_ram, high_ram. destruct (PC_LOW_RAM_MAX <=? cfg_ram config); lia. Qed.

Lemma pc_add_ram_triple :
  triple sound (ram_at []) (pc_add_ram a config)
    (fun _ s => 0x100000 ≤ low_ram config ∧ ram_at ram_layout s).
Proof.
  pose proof low_ram_range. pose proof high_ram_range. unfold PC_LOW_RAM_MAX in *.
  unfold pc_add_ram. eapply triple_bind; [apply triple_refuse; [done|apply ram_at_sound]|]. intros ?; cbv beta.
  eapply triple_bind; [apply triple_guard; [done|apply ram_at_sound]|]. intros ?; cbv beta.
  apply triple_assume. intros Hlow%Z.ltb_ge.
  eapply triple_bind; [by apply add_ram_triple; word|]. intros ?; cbv beta.
  eapply triple_bind; [by apply add_ram_triple; word|]. intros ?; cbv beta.
  eapply triple_bind.
  { instantiate (1 := fun _ => ram_at (_ ++ _)).
    destruct (Z.eqb_spec (low_ram config) 0x100000) as [E|E].
    - apply triple_ret. intros s Hs. instantiate (1 := if low_ram config =? 0x100000 then [] else [_]).
      rewrite E, app_nil_r. exact Hs.
    - rewrite (proj2 (Z.eqb_neq _ _) E). apply add_ram_triple; word. }
  intros ?; cbv beta. unfold ram_layout. destruct (Z.ltb_spec 0 (high_ram config)).
  - eapply triple_consequence; [apply add_ram_triple; unfold PC_HIGH_RAM_BASE; word|done|].
    intros ? s Hs. split; [done|]. by rewrite <- app_assoc in Hs.
  - apply triple_ret. intros s Hs. split; [done|]. by rewrite app_nil_r.
Qed.


(** ** Lemmas: devices *)


































(** ** Lemmas: a machine with enough memory *)

(** A machine under construction on a host with pages of 4 KiB. *)
Record ready (l : list mem_region) (s : pc) : Prop := {
  rd_state : state (p_vm s) = VM_BUILDING ∧ stop_requested (p_vm s) = false ∧ accel_ready (p_vm s) = true;
  rd_page : host_page_size (mem (p_vm s)) = 4096;
  rd_regions : regions (mem (p_vm s)) = l;
  rd_total : total_ram (mem (p_vm s)) = foldr (fun r acc => ram_size r + acc) 0 l;
  rd_mmio : mmio_regions (io (p_vm s)) = [];
}.

(** The host has the memory, and the accelerator maps it. *)
Definition plenty : Prop :=
  (∀ i, (a_ram a i).1 = true ∧ ∃ h, (a_ram a i).2 = Ptr h) ∧ ∃ f, a_map a = Some f ∧ ∀ r, 0 ≤ f r.

Lemma add_ram_ready l s i gpa size flags :
  plenty → ready l s → span_ok gpa size → gpa mod 4096 = 0 → size mod 4096 = 0 →
  0 ≤ total_ram (mem (p_vm s)) → total_ram (mem (p_vm s)) + size < 2 ^ 64 →
  Forall (fun r => span_ok (ram_gpa r) (ram_size r) ∧ apart gpa size (ram_gpa r) (ram_size r)) l →
  ∃ s', add_ram a i gpa size flags s = (s', inr ()) ∧ ready (l ++ [mk_ram gpa size (hva i) flags]) s'.
Proof.
  intros [P [f [Ef Pf]]] [(S1 & S2 & S3) Pg R T Mm] Sp Hg Hs T0 Ht F. destruct (P i) as [P1 [h P2]].
  unfold add_ram, vm_add_ram. rewrite P1, P2, Ef, S1, S2, S3, Pg, R, Mm. unfold span_ok in Sp.
  rewrite (proj2 (Z.eqb_neq size 0)) by lia. cbn [existsb negb orb bool_decide].
  rewrite bool_decide_eq_true_2 by done. cbn [negb orb]. change (4096 =? 0) with false. cbn [orb].
  rewrite (proj2 (Z.ltb_ge _ _)) by word. rewrite (proj2 (Z.ltb_ge _ _)) by word.
  rewrite Hg, Hs. cbn [Z.eqb negb orb].
  replace (existsb _ l) with false.
  - pose proof (Pf (mk_ram gpa size h flags)). rewrite (proj2 (Z.ltb_ge _ _)) by lia. simpl.
    eexists. split; [reflexivity|]. unfold hva. rewrite P2. split; simpl; try done.
    rewrite u64_small, T by word. rewrite foldr_app. simpl. clear. induction l; simpl; lia.
  - symmetry. apply not_true_is_false. intros (r & Hr%list_elem_of_In & Hov)%existsb_exists.
    rewrite Forall_forall in F. destruct (F r Hr) as [Sr Ar]. unfold mem_region_is_overlap, gpa_add in Hov.
    by rewrite (apart_overlap gpa size _ _ Sp Sr Ar) in Hov.
Qed.

Lemma pc_add_ram_ready s :
  plenty → ready [] s → 1 ≤ nr_vcpus config ≤ Mp.PC_MAX_VCPUS →
  0x100000 ≤ cfg_ram config < 2 ^ 63 → cfg_ram config mod 4096 = 0 →
  ∃ s', pc_add_ram a config s = (s', inr ()) ∧ ready ram_layout s'.
Proof.
  intros Pl R Hv Hr Hm.
  pose proof low_ram_range. pose proof high_ram_range. pose proof low_high_ram. unfold PC_LOW_RAM_MAX in *.
  assert (Hl : low_ram config mod 4096 = 0 ∧ high_ram config mod 4096 = 0 ∧ 0x100000 ≤ low_ram config).
  { unfold low_ram, high_ram, PC_LOW_RAM_MAX. destruct (Z.leb_spec 0xC0000000 (cfg_ram config)); split_and!; try (done || lia).
    by rewrite Zminus_mod, Hm. }
  destruct Hl as (M1 & M2 & L). unfold pc_add_ram.
  rewrite (proj2 (Z.eqb_neq _ _)), (proj2 (Z.ltb_ge Mp.PC_MAX_VCPUS _)), (proj2 (Z.ltb_ge (low_ram config) _)) by lia.
  unfold bind at 1 2, refuse. cbn [orb mret].
  destruct (add_ram_ready [] s 0 0 0x9f000 MEM_EXEC Pl R) as (s1 & E1 & R1);
    [unfold span_ok; word|done|done|rewrite (rd_total _ _ R); simpl; lia..|constructor|].
  unfold bind at 1. rewrite E1.
  destruct (add_ram_ready _ s1 1 0x9f000 0x61000 (Z.lor MEM_EXEC MEM_RESERVED) Pl R1) as (s2 & E2 & R2);
    [unfold span_ok; word|done|done|rewrite (rd_total _ _ R1); simpl; lia..| |].
  { repeat constructor; simpl; unfold span_ok, apart; word. }
  unfold bind at 1. rewrite E2. cbn [app] in *.
  assert (∃ s3, (if low_ram config =? 0x100000 then mret tt else add_ram a 2 0x100000 (low_ram config - 0x100000) MEM_EXEC) s2
      = (s3, inr tt) ∧ ready ([mk_ram 0 0x9f000 (hva 0) MEM_EXEC; mk_ram 0x9f000 0x61000 (hva 1) (Z.lor MEM_EXEC MEM_RESERVED)] ++
        (if low_ram config =? 0x100000 then [] else [mk_ram 0x100000 (low_ram config - 0x100000) (hva 2) MEM_EXEC])) s3)
    as (s3 & E3 & R3).
  { destruct (Z.eqb_spec (low_ram config) 0x100000); [by exists s2|].
    apply add_ram_ready; [done|exact R2|unfold span_ok; word|done| |rewrite (rd_total _ _ R2); simpl; lia..|].
    - rewrite Zminus_mod, M1. done.
    - repeat constructor; simpl; unfold span_ok, apart; word. }
  unfold bind. rewrite E3. unfold ram_layout. rewrite app_assoc. destruct (Z.ltb_spec 0 (high_ram config)).
  - assert (T3 : total_ram (mem (p_vm s3)) = low_ram config).
    { rewrite (rd_total _ _ R3). destruct (Z.eqb_spec (low_ram config) 0x100000); simpl; lia. }
    apply add_ram_ready; try done; unfold PC_HIGH_RAM_BASE.
    + unfold span_ok. word.
    + lia.
    + lia.
    + destruct (Z.eqb_spec (low_ram config) 0x100000); repeat constructor; simpl; unfold span_ok, apart; word.
  - exists s3. split; [done|]. by rewrite app_nil_r.
Qed.

(** The addresses the layout covers. *)
Lemma ram_layout_covers gpa :
  0x100000 ≤ low_ram config →
  (∃ r, r ∈ ram_layout ∧ in_ram r gpa) ↔
  0 ≤ gpa < low_ram config ∨ PC_HIGH_RAM_BASE ≤ gpa < PC_HIGH_RAM_BASE + high_ram config.
Proof.
  intros L. pose proof high_ram_range. pose proof low_ram_range. unfold PC_LOW_RAM_MAX in *.
  unfold in_ram, PC_HIGH_RAM_BASE. split.
  - intros (r & Hr & Hin). unfold ram_layout in Hr. rewrite !elem_of_app, !elem_of_cons, elem_of_nil in Hr.
    destruct (Z.eqb_spec (low_ram config) 0x100000), (Z.ltb_spec 0 (high_ram config));
      rewrite ?list_elem_of_singleton, ?elem_of_nil in Hr; destruct_or?; subst; simpl in *;
      unfold PC_HIGH_RAM_BASE in *; lia.
  - intros Hg. unfold ram_layout. setoid_rewrite elem_of_app. setoid_rewrite elem_of_app. setoid_rewrite elem_of_cons.
    destruct (Z.ltb_spec gpa 0x9f000), (Z.ltb_spec gpa 0x100000), (Z.ltb_spec gpa (low_ram config)); try lia.
    + exists (mk_ram 0 0x9f000 (hva 0) MEM_EXEC). split; [by left; left|simpl; lia].
    + exists (mk_ram 0x9f000 0x61000 (hva 1) (Z.lor MEM_EXEC MEM_RESERVED)).
      split; [left; right; by left|simpl; lia].
    + exists (mk_ram 0x100000 (low_ram config - 0x100000) (hva 2) MEM_EXEC). split; [right; left|simpl; lia].
      rewrite (proj2 (Z.eqb_neq _ _)) by lia. by left.
    + exists (mk_ram 0x100000000 (high_ram config) (hva 3) MEM_EXEC). split; [right; right|simpl; lia].
      rewrite (proj2 (Z.ltb_lt _ _)) by lia. by left.
Qed.

(** ** Properties *)

(** The RAM of a PC.  When [pc_init] has added the RAM, the machine is well
    formed, its RAM amounts to what was asked for, and a guest physical address
    is RAM exactly if it is below both 3 GiB and the size asked for, or among
    the bytes from 4 GiB on that did not fit below 3 GiB: the whole range
    between 3 and 4 GiB stays free for devices.  Otherwise it gives up with an
    error on a machine whose memory is well formed.  And it does not give up
    without a reason: with one to 254 processors, at least 1 MiB of RAM in whole
    pages and a host that provides it, it succeeds. *)
Theorem pc_ram_layout s :
  ram_at [] s →
  match pc_add_ram a config s with
  | (s', inl e) => e < 0 ∧ mem_inv (mem (p_vm s'))
  | (s', inr _) =>
      topology_inv (p_vm s') ∧ total_ram (mem (p_vm s')) = cfg_ram config ∧
      ∀ gpa, (∃ r, r ∈ regions (mem (p_vm s')) ∧ in_ram r gpa) ↔
        0 ≤ gpa < Z.min (cfg_ram config) 0xC0000000 ∨
        0x100000000 ≤ gpa < 0x100000000 + (cfg_ram config - 0xC0000000)
  end ∧
  (plenty → ready [] s → 1 ≤ nr_vcpus config ≤ 254 → 0x100000 ≤ cfg_ram config < 2 ^ 63 →
   cfg_ram config mod 4096 = 0 → ∃ s', pc_add_ram a config s = (s', inr ())).
Proof.
  intros Hs. split.
  - pose proof (pc_add_ram_triple s Hs) as T. destruct (pc_add_ram a config s) as [s' [e|u]].
    + destruct T as [? [? _]]. done.
    + destruct T as (L & [I R _]). rewrite R. split_and!; [done| |].
      * rewrite (mem_total _ (topo_mem _ I)), R. unfold ram_layout. pose proof low_high_ram. pose proof high_ram_range.
        destruct (Z.eqb_spec (low_ram config) 0x100000), (Z.ltb_spec 0 (high_ram config)); simpl; lia.
      * intros gpa. rewrite ram_layout_covers by done. unfold low_ram, high_ram, PC_LOW_RAM_MAX, PC_HIGH_RAM_BASE in *.
        destruct (Z.leb_spec 0xC0000000 (cfg_ram config)); lia.
  - intros P R Hv Hr Hm. destruct (pc_add_ram_ready s P R Hv Hr Hm) as (s' & E & _). eauto.
Qed.


End Assembly.

(** C30. Firmware, table and wires agree on every interrupt.  After any sequence
    of registrations and configuration writes, routing changes nothing but the
    interrupt line registers; and for every function with a pin, the number the
    guest reads there, the number of the input in the function's entry of the
    MP table, and the interrupt of the line that the host bridge drives for that
    pin are one and the same.  Interrupt 4, the serial port's, is never one of
    them, so the table keeps its ISA entry. *)
Theorem pc_irq_routing {B} vm0 bus0 vm bus lines nr :
  topology_inv vm0 → devices bus0 = [] → rtc (pci_step (B := B)) (vm0, bus0) (vm, bus) →
  Forall (fun d => 0 ≤ interrupt_pin d) (devices bus) →
  ∃ bus', pc_route_pci_irqs vm bus lines = (vm, bus', lines) ∧
    Forall2 same_but_line (devices bus) (devices bus') ∧
    (∀ d', d' ∈ devices bus' → Mp.has_pin d' = true →
       ∃ p gsi, Bridge.routed d' p ∧ pc_pirq_routing !! Z.to_nat p = Some gsi ∧
         pci_bus_read_config_locked None vm bus' (devfn d') PCI_INTERRUPT_LINE 1 = gsi ∧
         Mp.mp_irq 3 0 Mp.MP_INT_PCI 0 (u8 (Z.lor (Z.shiftl (PCI_SLOT (devfn d')) 2) (interrupt_pin d' - 1)))
           Mp.MP_IOAPIC_ID gsi ∈ Mp.mp_entries nr (devices bus')) ∧
    Mp.isa_route 4 ∈ Mp.mp_entries nr (devices bus').
Proof.
  intros I0 E0 R Hpos.
  assert (I : pci_inv vm bus).
  { apply (pci_reach_inv _ _ R). split; simpl; rewrite ?E0; [done|constructor|constructor|..]; set_solver. }
  assert (P : Forall pin_shown (devices bus)).
  { apply (pci_reach_pin _ _ R). simpl. rewrite E0. constructor. }
  rewrite Forall_forall in P, Hpos.
  exists (bus <| devices := routed_function <$> devices bus |>). split_and!.
  - apply pc_route_spec; [apply I|]. apply Forall_forall. intros d Hd. destruct (P d Hd) as (_ & -> & ?).
    pose proof (Hpos d Hd). word.
  - simpl. apply Forall2_fmap_r, Forall_Forall2_diag, Forall_forall. intros d _. apply routed_same.
  - simpl. intros d' (d & -> & Hd)%list_elem_of_fmap Hpin. destruct (routed_same d) as (Ef & Ei & _).
    assert (Hpin' : Mp.has_pin d = true) by (unfold Mp.has_pin in *; by rewrite Ei in Hpin).
    destruct (routed_function_spec d (P d Hd) (Hpos d Hd) Hpin') as (Rt & Ep & El).
    exists ((PCI_SLOT (devfn d) + interrupt_pin d - 1) mod 4), (wired_gsi d). split_and!; [|done| |].
    + unfold Bridge.routed. by rewrite Ei, Ef.
    + rewrite read_config_byte; [done|by rewrite routed_devfns; apply I|by apply list_elem_of_fmap_2|done].
    + unfold Mp.mp_entries. rewrite !elem_of_app. right; right; left. apply list_elem_of_fmap.
      exists (routed_function d). split; [unfold Mp.pci_route; by rewrite El|].
      apply list_elem_of_filter. split; [done|by apply list_elem_of_fmap_2].
  - unfold Mp.mp_entries. rewrite !elem_of_app. right; right; right; left. apply list_elem_of_fmap_2.
    apply list_elem_of_filter. split; [split; [done|]|by apply elem_of_seqZ].
    intros (d' & Hl & [Hpin (d & -> & Hd)%list_elem_of_fmap]%list_elem_of_filter)%list_elem_of_fmap.
    destruct (routed_same d) as (_ & Ei & _). unfold Mp.has_pin in Hpin. rewrite Ei in Hpin.
    destruct (routed_function_spec d (P d Hd) (Hpos d Hd) Hpin) as (_ & _ & El).
    pose proof (wired_gsi_range d) as W. rewrite <- El, <- Hl in W. revert W. apply (bool_decide_unpack _). done.
Qed.

(** ** Examples *)

(** Two processors, 4 GiB of RAM, a drive and a network. *)
Definition example_config : pc_config := mk_config 2 0x100000000 1 1.
Definition example_answers : answers :=
  mk_answers (fun i => (true, Ptr (0x7f0000000000 + Z.of_nat i * 0x100000000))) (Some (fun _ => 0)) 0 (fun _ => true)
    (fun i => Some (0x5000 + Z.of_nat i * 0x100)) (fun _ => true) (fun _ => true) (fun _ => true) (fun _ => true)
    (fun _ => (0, true)) None.
Definition example_pc : pc := mk_pc (empty_machine true 4096) ∅ [] None [] [].

Lemma board_answers_ok : answers_ok example_answers.
Proof. split; [done|]. intros i j x [= <-] [= E]. lia. Qed.

Lemma example_pc_fresh : ram_at [] example_pc.
Proof. split; [apply empty_machine_inv|done|done]. Qed.

Lemma example_plenty : plenty example_answers.
Proof. split; [intros i; split; [done|by eexists]|]. exists (fun _ => 0). split; [done|]. intros _. lia. Qed.

Lemma pc_ram_layout_witness :
  ∃ s', pc_add_ram example_answers example_config example_pc = (s', inr ()) ∧
    total_ram (mem (p_vm s')) = 0x100000000 ∧ ¬ ∃ r, r ∈ regions (mem (p_vm s')) ∧ in_ram r 0xfee00000.
Proof.
  destruct (pc_ram_layout example_answers example_config board_answers_ok ltac:(vm_compute; split; congruence)
    example_pc example_pc_fresh) as [H1 H2].
  destruct H2 as [s' E]; [exact example_plenty|by split|vm_compute; split; congruence..|vm_compute; reflexivity|].
  exists s'. rewrite E in H1. destruct H1 as (_ & T & H). split; [exact E|]. split; [exact T|].
  rewrite H. simpl. lia.
Defined.


Definition example_lines : Bridge.router := Bridge.mk_router (replicate 4 (replicate 4 0)) (replicate 4 (Some 0)).

Lemma pc_irq_routing_witness :
  ∃ bus', pc_route_pci_irqs example_machine example_pci1 example_lines = (example_machine, bus', example_lines) ∧
    pci_bus_read_config_locked None example_machine bus' 8 PCI_INTERRUPT_LINE 1 = 9 ∧
    Mp.isa_route 4 ∈ Mp.mp_entries 2 (devices bus').
Proof.
  destruct (pc_irq_routing (B := unit) example_machine example_bus example_machine example_pci1 example_lines 2)
    as (bus' & E & _ & _ & H).
  - exact example_machine_inv.
  - reflexivity.
  - eapply rtc_l; [|apply rtc_refl].
    eapply (step_device _ _ (ResPool.mk_pool 0 [] false) example_pci true 0x7000 (Some 0x7100) example_pci1
      _ _ _ _); [split; reflexivity|repeat constructor|vm_compute; reflexivity].
  - vm_compute. repeat constructor. congruence.
  - exists bus'. split; [exact E|]. split; [|exact H].
    assert (Eb : bus' = (pc_route_pci_irqs example_machine example_pci1 example_lines).1.2) by (rewrite E; reflexivity).
    rewrite Eb. vm_compute. reflexivity.
Defined.

End Pc.
