(* ===== verification/Host.v ===== *)
(** * Host system calls (src/host/posix/error.c, src/host/posix/io.c, src/host/posix/console.c)

    A system call returns a value or sets [errno]; the program turns that into
    one of its own error codes through a table that the build generates from
    include/modvm/errno.h, and which is a parameter here. *)

From S2P Require Import Prelude.

Module Host.

(** The outcome of a system call. *)
Inductive sys (A : Type) : Type :=
| Done (a : A)
| Errno (e : Z).
Arguments Done {A} a.
Arguments Errno {A} e.

(** The values of <errno.h> the code tests for. *)
Definition EINTR : Z := 4.
Definition EAGAIN : Z := 11.
Definition EPIPE : Z := 32.

(** A call made again as long as it is interrupted; [None] if all the outcomes
    given are interruptions. *)
Fixpoint retry_intr {A} (outs : list (sys A)) : option (sys A) :=
  match outs with
  | [] => None
  | Errno e :: outs => if e =? EINTR then retry_intr outs else Some (Errno e)
  | Done l :: _ => Some (Done l)
  end.

(** The generated table: the native codes and the project's codes for them. *)
Class HostErrors := {
  errno_map : list (Z * Z);
  errno_map_ok : Forall (fun p => 0 < p.2 ≤ 4095) errno_map;
}.

(** The largest value of [ssize_t]. *)
Definition SSIZE_MAX : Z := 2 ^ 63 - 1.

(** What holds of every outcome holds of the last. *)
Lemma retry_intr_forall {A} (P : sys A → Prop) outs r : Forall P outs → retry_intr outs = Some r → P r.
Proof.
  induction 1 as [|[a|e] outs Hr F IH]; simpl; [done|by intros [= <-]|].
  destruct (e =? EINTR); [done|]. by intros [= <-].
Qed.

Section Errors.
Context `{HostErrors}.

Definition host_error_from_errno (error : Z) : Z :=
  if error =? 0 then 0
  else match find (fun p => p.1 =? error) errno_map with
       | Some p => p.2
       | None => VM_EIO
       end.

(** What a call that failed is reported as: a code that [IS_ERR] recognizes. *)
Lemma host_error_range e : e ≠ 0 → 0 < host_error_from_errno e ≤ 4095.
Proof.
  intros He. unfold host_error_from_errno. destruct (Z.eqb_spec e 0); [done|].
  destruct (find _ errno_map) as [p|] eqn:F; [|unfold VM_EIO; lia].
  apply find_some in F as [Hp _]. pose proof errno_map_ok as Ok. rewrite Forall_forall in Ok.
  apply Ok. by apply list_elem_of_In.
Qed.
End Errors.

(** The table of a Linux build, for the codes that have a name here. *)
Definition linux_errors : HostErrors.
Proof.
  refine {| errno_map := [(2, VM_ENOENT); (5, VM_EIO); (7, VM_E2BIG); (11, VM_EAGAIN); (12, VM_ENOMEM);
                          (14, VM_EFAULT); (16, VM_EBUSY); (17, VM_EEXIST); (22, VM_EINVAL);
                          (28, VM_ENOSPC); (30, VM_EROFS); (105, VM_ENOBUFS); (107, VM_ENOTCONN)] |}.
  repeat constructor; done.
Defined.

(** ** Writing without SIGPIPE *)

(** The thread's signal state: is SIGPIPE blocked, is it pending, and was it
    delivered (which ends the process). *)
Record signals : Type := mk_sig { blocked : bool; pending : bool; delivered : bool }.

(** Setting the mask; a pending signal that it unblocks is delivered. *)
Definition set_mask (b : bool) (g : signals) : signals :=
  if negb b && pending g then mk_sig b false true else mk_sig b (pending g) (delivered g).

(** The kernel sends SIGPIPE with [EPIPE]. *)
Definition raise_pipe (g : signals) : signals :=
  if blocked g then mk_sig true true (delivered g) else mk_sig false false true.

(** [sigtimedwait] for SIGPIPE, not waiting. *)
Definition consume_pipe (g : signals) : signals := mk_sig (blocked g) false (delivered g).

(** write(2); [k_mask] and [k_pending] are the outcomes of pthread_sigmask and
    sigpending, 0 or an error; [k_out fd] is what was written to the descriptor;
    [k_intr] counts the interruptions that are still to come. *)
Class HostWrite (K : Type) := {
  k_write : K → Z → list Z → K * sys Z;
  k_mask : K → Z;
  k_pending : K → Z;
}.

Class HostWriteLaws (K : Type) `{HostWrite K} := {
  k_out : K → Z → list Z;
  k_intr : K → Z;
  law_k_intr k : 0 ≤ k_intr k < 2 ^ 63;
  law_k_mask k : 0 ≤ k_mask k;
  law_k_pending k : 0 ≤ k_pending k;
  law_k_write k fd l :
    let '(k', r) := k_write k fd l in
    k_intr k' ≤ k_intr k ∧ (∀ fd', fd' ≠ fd → k_out k' fd' = k_out k fd') ∧
    match r with
    | Done n => 0 ≤ n ≤ Z.of_nat (length l) ∧ k_out k' fd = k_out k fd ++ take (Z.to_nat n) l
    | Errno e => 0 < e ∧ k_out k' fd = k_out k fd ∧ (e = EINTR → k_intr k' < k_intr k)
    end;
}.

Section Write.
Context {K : Type} `{HostWrite K} `{HostErrors}.

Definition write_body (fd : Z) (data : list Z) (st : K * signals) : K * signals + K * signals * sys Z :=
  let '(k, g) := st in
  let '(k, r) := k_write k fd data in
  match r with
  | Done n => inr (k, g, Done n)
  | Errno e =>
      let g := if e =? EPIPE then raise_pipe g else g in
      if e =? EINTR then inl (k, g) else inr (k, g, Errno e)
  end.

Definition host_posix_write_nosigpipe (k : K) (g : signals) (fd : Z) (data : list Z) : K * signals * Z :=
  if SSIZE_MAX <? Z.of_nat (length data) then (k, g, - VM_EOVERFLOW)
  else
    let previous := blocked g in
    if negb (k_mask k =? 0) then (k, g, - host_error_from_errno (k_mask k))
    else
      let g := set_mask true g in
      if negb (k_pending k =? 0) then (k, set_mask previous g, - host_error_from_errno (k_pending k))
      else
        let was_pending := pending g in
        match loop (write_body fd data) (k, g) with
        | inl (k, g) => (k, set_mask previous g, 0)
        | inr (k, g, r) =>
            let error := match r with Done _ => 0 | Errno e => e end in
            let g := if (error =? EPIPE) && negb was_pending then consume_pipe g else g in
            (k, set_mask previous g,
             match r with Done count => count | Errno e => - host_error_from_errno e end)
        end.

Inductive host_console_stream : Type := HOST_CONSOLE_OUT | HOST_CONSOLE_ERR.
Definition STDOUT_FILENO : Z := 1.
Definition STDERR_FILENO : Z := 2.

Definition console_body (fd : Z) (st : K * signals * list Z) : K * signals * list Z + K * signals * Z :=
  let '(k, g, p) := st in
  if bool_decide (p = []) then inr (k, g, 0)
  else
    let size := Z.of_nat (length p) in
    let chunk := if SSIZE_MAX <? size then SSIZE_MAX else size in
    let '(k, g, n) := host_posix_write_nosigpipe k g fd (take (Z.to_nat chunk) p) in
    if n <=? 0 then inr (k, g, if n <? 0 then n else - VM_EIO) else inl (k, g, drop (Z.to_nat n) p).

(** [None] is a stream that is neither of the two. *)
Definition host_console_write (k : K) (g : signals) (stream : option host_console_stream) (data : list Z) :
    K * signals * Z :=
  match stream with
  | None => (k, g, - VM_EINVAL)
  | Some stream =>
      let fd := match stream with HOST_CONSOLE_ERR => STDERR_FILENO | HOST_CONSOLE_OUT => STDOUT_FILENO end in
      match loop (console_body fd) (k, g, data) with
      | inl (k, g, _) => (k, g, 0)
      | inr r => r
      end
  end.
End Write.

(** A thread in which no signal is waiting to be delivered. *)
Definition settled (g : signals) : Prop := pending g = true → blocked g = true.

Section WriteSpec.
Context {K : Type} `{HostWriteLaws K} `{HostErrors}.

(** One write. *)
Definition wrote (k : K) (fd : Z) (data : list Z) (k' : K) (n : Z) : Prop :=
  k_intr k' ≤ k_intr k ∧ (∀ fd', fd' ≠ fd → k_out k' fd' = k_out k fd') ∧
  n ≤ Z.of_nat (length data) ∧ k_out k' fd = k_out k fd ++ take (Z.to_nat n) data.

Lemma write_loop k g fd data :
  blocked g = true →
  ∃ k' g' r, loop (write_body fd data) (k, g) = inr (k', g', r) ∧
    k_intr k' ≤ k_intr k ∧ (∀ fd', fd' ≠ fd → k_out k' fd' = k_out k fd') ∧
    match r with
    | Done n => g' = g ∧ 0 ≤ n ≤ Z.of_nat (length data) ∧ k_out k' fd = k_out k fd ++ take (Z.to_nat n) data
    | Errno e => 0 < e ∧ k_out k' fd = k_out k fd ∧
        g' = if e =? EPIPE then mk_sig true true (delivered g) else g
    end.
Proof.
  intros Hb.
  destruct (loop_total (write_body fd data)
    (fun '(k', g') => g' = g ∧ k_intr k' ≤ k_intr k ∧ ∀ fd', k_out k' fd' = k_out k fd')
    (fun '(k', _) => k_intr k')
    (fun '(k', g', r) => k_intr k' ≤ k_intr k ∧ (∀ fd', fd' ≠ fd → k_out k' fd' = k_out k fd') ∧
      match r with
      | Done n => g' = g ∧ 0 ≤ n ≤ Z.of_nat (length data) ∧ k_out k' fd = k_out k fd ++ take (Z.to_nat n) data
      | Errno e => 0 < e ∧ k_out k' fd = k_out k fd ∧
          g' = if e =? EPIPE then mk_sig true true (delivered g) else g
      end) (k, g)) as ([[k' g'] r] & E & P); [|done| |by exists k', g', r].
  - intros [k1 g1] (-> & Hi & Ho). unfold write_body. pose proof (law_k_write k1 fd data) as Law.
    destruct (k_write k1 fd data) as [k2 [n|e]]; destruct Law as (Hi2 & Hf & Law).
    + destruct Law as [Hn Hw]. split_and!; [lia|intros; rewrite Hf, Ho; done|done|lia..|]. by rewrite Hw, Ho.
    + destruct Law as (He & Hw & Hd). pose proof (law_k_intr k2).
      destruct (Z.eqb_spec e EINTR) as [->|Hne]; simpl.
      * specialize (Hd eq_refl). split_and!; try lia; [done|]. intros fd'.
        destruct (decide (fd' = fd)) as [->|]; [congruence|]. rewrite Hf; auto.
      * split_and!; [lia|intros; rewrite Hf, Ho; done|done|congruence|].
        destruct (e =? EPIPE); [|done]. unfold raise_pipe. by rewrite Hb.
  - pose proof (law_k_intr k). lia.
Qed.

(** The signal state is the same before and after, whatever the outcome. *)
Lemma write_nosigpipe_spec k g fd data :
  settled g →
  let '(k', g', n) := host_posix_write_nosigpipe k g fd data in g' = g ∧ wrote k fd data k' n.
Proof.
  intros Hs. assert (Restore : set_mask (blocked g) (set_mask true g) = g).
  { destruct g as [[] [] d]; unfold set_mask; simpl in *; try done. by specialize (Hs eq_refl). }
  assert (Fail : ∀ n, n ≤ 0 → wrote k fd data k n).
  { intros n Hn. unfold wrote. replace (Z.to_nat n) with 0%nat by lia. rewrite app_nil_r. split_and!; try done; lia. }
  unfold host_posix_write_nosigpipe. destruct (Z.ltb_spec SSIZE_MAX (Z.of_nat (length data))).
  { split; [done|]. apply Fail. unfold VM_EOVERFLOW. lia. }
  destruct (Z.eqb_spec (k_mask k) 0) as [E0|E0]; cbn [negb].
  2: { split; [done|]. apply Fail. pose proof (host_error_range _ E0). lia. }
  destruct (Z.eqb_spec (k_pending k) 0) as [E1|E1]; cbn [negb].
  2: { split; [done|]. apply Fail. pose proof (host_error_range _ E1). lia. }
  destruct (write_loop k (set_mask true g) fd data ltac:(done)) as (k' & g' & r & -> & Hi & Hf & P).
  destruct r as [n|e].
  - destruct P as (-> & Hn & Hw). cbn [Z.eqb andb]. change (0 =? EPIPE) with false. simpl. split; [done|].
    split_and!; done || lia.
  - destruct P as (He & Hw & ->). pose proof (host_error_range e ltac:(lia)). split.
    + destruct (e =? EPIPE); [|done]. destruct g as [[] [] d]; unfold set_mask, consume_pipe in *; simpl in *; done.
    + unfold wrote. replace (Z.to_nat _) with 0%nat by lia. rewrite app_nil_r. split_and!; done || lia.
Qed.

Definition stream_fd (s : host_console_stream) : Z :=
  match s with HOST_CONSOLE_ERR => STDERR_FILENO | HOST_CONSOLE_OUT => STDOUT_FILENO end.

(** Console output, whatever the host does with the writes: the call ends,
    the descriptor receives a prefix of the data in order, all of it exactly
    when 0 is returned, and nothing is written elsewhere; a reader that went away
    is an error code, not a signal, and the calling thread's signal mask and
    pending signals are as before. *)
Theorem host_console_write_spec k g stream data :
  settled g → is_u64 (Z.of_nat (length data)) →
  let '(k', g', ret) := host_console_write k g (Some stream) data in
  let fd := stream_fd stream in
  g' = g ∧ (∀ fd', fd' ≠ fd → k_out k' fd' = k_out k fd') ∧ ret ≤ 0 ∧
  ∃ m, (m ≤ length data)%nat ∧ k_out k' fd = k_out k fd ++ take m data ∧ (ret = 0 ↔ m = length data).
Proof.
  intros Hs Hl. cbv zeta. unfold host_console_write. fold (stream_fd stream). set (fd := stream_fd stream).
  pose (Sent := fun (k' : K) (g' : signals) (m : nat) => g' = g ∧ (∀ fd', fd' ≠ fd → k_out k' fd' = k_out k fd') ∧
    (m ≤ length data)%nat ∧ k_out k' fd = k_out k fd ++ take m data).
  destruct (loop_total (console_body fd)
    (fun '(k', g', p) => ∃ m, Sent k' g' m ∧ p = drop m data) (fun '(_, _, p) => Z.of_nat (length p))
    (fun '(k', g', ret) => ret ≤ 0 ∧ ∃ m, Sent k' g' m ∧ (ret = 0 ↔ m = length data)) (k, g, data))
    as ([[k' g'] ret] & -> & Hr & m & (Eg & Ef & Hm & Eo) & E); [| | |by eauto 10].
  - intros [[k1 g1] p] (m & (-> & Hf & Hm & Ho) & ->). unfold console_body.
    destruct (bool_decide_reflect (drop m data = [])) as [E|E].
    { split; [done|]. exists m. split; [done|]. apply (f_equal length) in E. rewrite length_drop in E. simpl in E. lia. }
    assert (Lt : (m < length data)%nat).
    { destruct (decide (m < length data)%nat); [done|]. destruct E. apply drop_ge. lia. }
    set (chunk := if _ <? _ then _ else _). pose proof (write_nosigpipe_spec k1 g fd (take (Z.to_nat chunk) (drop m data)) Hs) as W.
    destruct (host_posix_write_nosigpipe _ _ _ _) as [[k2 g2] n]. destruct W as (-> & Hi & Hf2 & Hn & Hw).
    rewrite length_take, length_drop in Hn.
    assert (S2 : Sent k2 g (m + Z.to_nat n)%nat).
    { split_and!; [done|intros; rewrite Hf2; auto|lia|]. rewrite Hw, Ho, <- app_assoc. f_equal.
      rewrite take_take, Nat.min_l by lia. apply take_take_drop. }
    destruct (Z.leb_spec n 0) as [Hz|Hz].
    + replace (m + Z.to_nat n)%nat with m in S2 by lia.
      destruct (Z.ltb_spec n 0); (split; [unfold VM_EIO; lia|]); exists m; (split; [done|]); unfold VM_EIO; lia.
    + split; [|rewrite !length_drop; lia]. exists (m + Z.to_nat n)%nat. split; [done|]. by rewrite drop_drop.
  - exists 0%nat. split; [|done]. unfold Sent. rewrite take_0, app_nil_r. split_and!; done || lia.
  - unfold is_u64 in Hl. lia.
Qed.
End WriteSpec.

(** A pipe whose reader takes three bytes and goes away; the first write is
    interrupted.  The thread blocks SIGPIPE, and one is pending. *)
Definition example_pipe : Type := list Z * list Z * bool.

#[local] Instance example_write : HostWrite example_pipe := {
  k_write := fun '(out, err, intr) fd l =>
    if intr : bool then ((out, err, false), Errno EINTR)
    else if bool_decide (fd = 1) then
      if (length out <? 3)%nat then ((out ++ take 1 l, err, false), Done (Z.of_nat (length (take 1 l))))
      else ((out, err, false), Errno EPIPE)
    else ((out, err, false), Errno 5);
  k_mask _ := 0;
  k_pending _ := 0;
}.

#[local] Instance example_write_laws : HostWriteLaws example_pipe.
Proof.
  refine {| k_out := fun '(out, err, _) fd => if bool_decide (fd = 1) then out else err;
            k_intr := fun '(_, _, intr) => if intr : bool then 1 else 0 |}.
  - intros [[? ?] []]; lia.
  - done.
  - done.
  - intros [[out err] []] fd l; simpl; [done|]. destruct (bool_decide_reflect (fd = 1)) as [->|].
    + destruct (length out <? 3)%nat; simpl; [|done]. split_and!; [done| |lia|rewrite length_take; lia|].
      * intros. by rewrite bool_decide_eq_false_2.
      * rewrite Nat2Z.id. by destruct l.
    + rewrite bool_decide_eq_false_2 by done. done.
Defined.

Lemma host_console_write_spec_witness :
  let g := mk_sig false false false in
  let '(k', g', ret) := host_console_write (H0 := linux_errors) (([], [], true) : example_pipe) g (Some HOST_CONSOLE_OUT) [65; 66; 67; 68] in
  g' = g ∧ k_out k' 1 = [65; 66; 67] ∧ ret < 0.
Proof.
  pose proof (host_console_write_spec (H1 := linux_errors) (([], [], true) : example_pipe) (mk_sig false false false)
    HOST_CONSOLE_OUT [65; 66; 67; 68] ltac:(done) ltac:(unfold is_u64; simpl; lia)) as S.
  cbv zeta. destruct (host_console_write _ _ _ _) as [[k' g'] ret] eqn:E. destruct S as (-> & _).
  split; [done|]. vm_compute in E. injection E as <- <-. split; [reflexivity|lia].
Defined.

End Host.
