(* ===== verification/Log.v ===== *)
(** * Log messages (src/util/log.c)

    A message is put together in a buffer of fixed size, its line ends are
    translated for a terminal in raw mode, and the result is written to one of
    the two streams of the console.  Storing outside of a buffer is a fault,
    [None]. *)

From S2P Require Import Prelude Host.
From Stdlib Require Import Ascii.

Module Log.
Import Host.

(** The bytes of a string constant. *)
Definition bytes (s : string) : list Z := (fun c => Z.of_nat (nat_of_ascii c)) <$> String.list_ascii_of_string s.

Definition LOG_LINE_MAX_LENGTH : Z := 1024.

(** enum log_level *)
Definition LOG_EMERG : Z := 0.
Definition LOG_ERR : Z := 3.
Definition LOG_DEBUG : Z := 7.

Definition level_prefixes : list (list Z) :=
  bytes <$> ["[EMERG]  "; "[ALERT]  "; "[CRIT]   "; "[ERROR]  "; "[WARN]   "; "[NOTICE] "; "[INFO]   "; "[DEBUG]  "]%string.

Definition NEWLINE : Z := 10.
Definition RETURN : Z := 13.

(** ** The lock *)

(** [log_lock], and the outcome of creating a mutex. *)
Definition log_init (lock : option Z) (create : err_ptr Z) : option Z * Z :=
  match lock with
  | Some _ => (lock, 0)
  | None => match create with Ptr m => (Some m, 0) | ERR_PTR e => (None, e) end
  end.

(** The lock left, and the mutex destroyed. *)
Definition log_destroy (lock : option Z) : option Z * option Z := (None, lock).

(** ** Formatting *)

(** [snprintf] into [size] bytes, of a text that the format and its arguments
    give, or of none if it cannot be encoded: what is stored before the NUL, and
    the result. *)
Definition snprintf (size : Z) (text : option (list Z)) : list Z * Z :=
  match text with
  | None => ([], -1)
  | Some t => (take (Z.to_nat (size - 1)) t, Z.of_nat (length t))
  end.

(** What is in the buffer, by its first [prefix_len] and the following
    [payload_len] bytes. *)
Definition format_line (level : Z) (text : option (list Z)) : list Z * Z * Z :=
  let size := LOG_LINE_MAX_LENGTH in
  let '(prefix, prefix_len) :=
    if (LOG_EMERG <=? level) && (level <=? LOG_DEBUG) then
      let '(p, len) := snprintf size (level_prefixes !! Z.to_nat level) in
      (p, if len <? 0 then 0 else if size <=? len then size - 1 else len)
    else ([], 0) in
  let avail := size - prefix_len in
  if 0 <? avail then
    let '(payload, ret) := snprintf avail text in
    (prefix ++ payload, prefix_len, if ret <? 0 then 0 else if avail <=? ret then avail - 1 else ret)
  else (prefix, prefix_len, 0).

(** [output[length++] = b] *)
Definition store (output : list Z) (b : Z) : option (list Z) :=
  if Z.of_nat (length output) <? 2 * LOG_LINE_MAX_LENGTH then Some (output ++ [b]) else None.

(** The loop over the first [n] bytes of the buffer; reading past what was
    stored there is a fault too. *)
Fixpoint copy_line (n : nat) (buf output : list Z) : option (list Z) :=
  match n with
  | O => Some output
  | S n =>
      match buf with
      | [] => None
      | b :: buf =>
          output ← if b =? NEWLINE then store output RETURN else Some output;
          output ← store output b;
          copy_line n buf output
      end
  end.

Section Printk.
Context {K : Type} `{HostWrite K} `{HostErrors}.

Definition printk (k : K) (g : signals) (level : Z) (text : option (list Z)) : option (K * signals * Z) :=
  let stream := if level <=? LOG_ERR then HOST_CONSOLE_ERR else HOST_CONSOLE_OUT in
  let '(buf, prefix_len, payload_len) := format_line level text in
  output ← copy_line (Z.to_nat (prefix_len + payload_len)) buf [];
  let '(k, g, error) := host_console_write k g (Some stream) output in
  Some (k, g, if error <? 0 then error else prefix_len + payload_len).

(** [panic], up to the abort. *)
Definition panic (k : K) (g : signals) (text : option (list Z)) : option (K * signals * Z) :=
  let '(buf, _) := snprintf LOG_LINE_MAX_LENGTH text in
  printk k g LOG_EMERG (Some (bytes "MODVM PANIC: " ++ buf ++ [NEWLINE] ++ bytes "System halted." ++ [NEWLINE])).
End Printk.

(** ** What is printed *)

(** The line of a message: the mark of its level, and the text as far as both
    fit the buffer with a NUL. *)
Definition line (level : Z) (text : option (list Z)) : list Z :=
  let prefix := if (LOG_EMERG <=? level) && (level <=? LOG_DEBUG) then default [] (level_prefixes !! Z.to_nat level) else [] in
  take (Z.to_nat (LOG_LINE_MAX_LENGTH - 1)) (prefix ++ default [] text).

(** A return before every new line. *)
Definition raw_mode (l : list Z) : list Z := l ≫= fun b => if b =? NEWLINE then [RETURN; b] else [b].

Lemma prefix_length level p : level_prefixes !! level = Some p → length p = 9%nat.
Proof.
  assert (F : Forall (fun p => length p = 9%nat) level_prefixes) by (repeat constructor).
  rewrite Forall_lookup in F. apply F.
Qed.

Lemma format_line_spec level text :
  let '(buf, prefix_len, payload_len) := format_line level text in
  buf = line level text ∧ prefix_len + payload_len = Z.of_nat (length buf).
Proof.
  unfold format_line, line. set (size := LOG_LINE_MAX_LENGTH).
  assert (P : ∃ prefix, (if (LOG_EMERG <=? level) && (level <=? LOG_DEBUG) then default [] (level_prefixes !! Z.to_nat level) else []) = prefix ∧
    (length prefix ≤ 9)%nat ∧
    (if (LOG_EMERG <=? level) && (level <=? LOG_DEBUG) then
      let '(p, len) := snprintf size (level_prefixes !! Z.to_nat level) in
      (p, if len <? 0 then 0 else if size <=? len then size - 1 else len)
    else ([], 0)) = (prefix, Z.of_nat (length prefix))).
  { destruct (_ && _); [|by exists []; simpl; split_and!; [|lia|]].
    destruct (level_prefixes !! Z.to_nat level) as [p|] eqn:E; [|by exists []; simpl; split_and!; [|lia|]].
    apply prefix_length in E. exists p. simpl. rewrite E. split_and!; [done|lia|].
    by rewrite take_ge by (rewrite E; unfold size, LOG_LINE_MAX_LENGTH; lia). }
  destruct P as (prefix & -> & L & ->). unfold size, LOG_LINE_MAX_LENGTH. cbn zeta.
  destruct (Z.ltb_spec 0 (1024 - Z.of_nat (length prefix))); [|lia]. destruct text as [t|]; simpl.
  - split; [rewrite take_app, (take_ge prefix) by lia; f_equal; f_equal; lia|].
    rewrite length_app, length_take. destruct (Z.ltb_spec (Z.of_nat (length t)) 0); [lia|].
    destruct (Z.leb_spec (1024 - Z.of_nat (length prefix)) (Z.of_nat (length t))); lia.
  - rewrite !app_nil_r, (take_ge prefix) by lia. split; [done|lia].
Qed.

Lemma raw_mode_cons b l : raw_mode (b :: l) = (if b =? NEWLINE then [RETURN; b] else [b]) ++ raw_mode l.
Proof. done. Qed.

Lemma length_raw_mode l : (length (raw_mode l) ≤ 2 * length l)%nat.
Proof.
  induction l as [|b l IH]; [done|]. rewrite raw_mode_cons, length_app. destruct (b =? NEWLINE); cbn [length]; lia.
Qed.

Lemma store_ok output b : Z.of_nat (length output) < 2 * LOG_LINE_MAX_LENGTH → store output b = Some (output ++ [b]).
Proof. intros Hl. unfold store. by rewrite (proj2 (Z.ltb_lt _ _)). Qed.

Lemma copy_line_spec l : ∀ output,
  Z.of_nat (length output) + Z.of_nat (length (raw_mode l)) ≤ 2 * LOG_LINE_MAX_LENGTH →
  copy_line (length l) l output = Some (output ++ raw_mode l).
Proof.
  induction l as [|b l IH]; intros output Hl; cbn [copy_line length]; [by rewrite app_nil_r|].
  rewrite raw_mode_cons, length_app in Hl. rewrite raw_mode_cons. destruct (b =? NEWLINE); cbn [length] in Hl.
  - rewrite store_ok by lia. cbn [mbind option_bind]. rewrite store_ok by (rewrite length_app; cbn [length]; lia).
    cbn [mbind option_bind]. rewrite IH by (rewrite !length_app; cbn [length]; lia). by rewrite <- !app_assoc.
  - cbn [mbind option_bind]. rewrite store_ok by lia. cbn [mbind option_bind].
    rewrite IH by (rewrite length_app; cbn [length]; lia). by rewrite <- app_assoc.
Qed.

Section PrintkSpec.
Context {K : Type} `{HostWriteLaws K} `{HostErrors}.

(** A log message of any length, in any format and at any level, neither
    overruns the buffers nor reads what was not stored; its line, the mark of the
    level and the text cut to 1023 bytes with returns before its new lines, is
    appended to standard error for an error and to standard output otherwise,
    whole unless the host refuses it, and nothing goes to the other stream; the
    length before translation or the host's error is returned, and the signals
    of the thread are as they were. *)
Theorem printk_spec k g level text :
  settled g →
  ∃ k' ret, printk k g level text = Some (k', g, ret) ∧
    let fd := stream_fd (if level <=? LOG_ERR then HOST_CONSOLE_ERR else HOST_CONSOLE_OUT) in
    (length (line level text) < 1024)%nat ∧
    (∀ fd', fd' ≠ fd → k_out k' fd' = k_out k fd') ∧
    (0 ≤ ret → ret = Z.of_nat (length (line level text)) ∧ k_out k' fd = k_out k fd ++ raw_mode (line level text)) ∧
    (ret < 0 → ∃ m, (m < length (raw_mode (line level text)))%nat ∧
       k_out k' fd = k_out k fd ++ take m (raw_mode (line level text))).
Proof.
  intros Hs. unfold printk. pose proof (format_line_spec level text) as F.
  destruct (format_line level text) as [[buf pl] dl]. destruct F as [-> El].
  assert (L : (length (line level text) < 1024)%nat) by (unfold line, LOG_LINE_MAX_LENGTH; rewrite length_take; lia).
  pose proof (length_raw_mode (line level text)) as Lr. rewrite El, Nat2Z.id.
  rewrite copy_line_spec by (simpl; unfold LOG_LINE_MAX_LENGTH; lia). cbn [mbind option_bind app].
  set (stream := if level <=? LOG_ERR then _ else _).
  pose proof (host_console_write_spec k g stream (raw_mode (line level text)) Hs ltac:(unfold is_u64; lia)) as W.
  destruct (host_console_write _ _ _ _) as [[k' g'] e]. destruct W as (-> & Ho & He & m & Hm & Ek & Em).
  do 2 eexists. split; [done|]. cbv zeta. split; [done|]. split; [done|]. destruct (Z.ltb_spec e 0).
  - split; [lia|]. intros _. exists m. split; [|done]. lia.
  - split; [|lia]. intros _. split; [done|]. rewrite Ek. f_equal. apply take_ge. lia.
Qed.
End PrintkSpec.

(** ** Witness *)

(** A console that takes everything. *)
#[local] Instance example_console : HostWrite (list Z * list Z) := {
  k_write := fun '(out, err) fd l =>
    (if fd =? 1 then (out ++ l, err) else if fd =? 2 then (out, err ++ l) else (out, err),
     if (fd =? 1) || (fd =? 2) then Done (Z.of_nat (length l)) else Errno 9);
  k_mask _ := 0;
  k_pending _ := 0;
}.

#[local] Instance example_console_laws : HostWriteLaws (list Z * list Z).
Proof.
  refine {| k_out := fun '(out, err) fd => if fd =? 1 then out else if fd =? 2 then err else []; k_intr _ := 0 |}; [done..|].
  intros [out err] fd l. cbn. destruct (Z.eqb_spec fd 1) as [->|H1]; [|destruct (Z.eqb_spec fd 2) as [->|H2]]; cbn.
  - split; [done|]. split; [by intros fd' H; destruct (Z.eqb_spec fd' 1)|]. split; [lia|]. by rewrite Nat2Z.id, firstn_all.
  - split; [done|]. split; [by intros fd' H; destruct (Z.eqb_spec fd' 2)|]. split; [lia|]. by rewrite Nat2Z.id, firstn_all.
  - split_and!; try done. by destruct (Z.eqb_spec fd 1), (Z.eqb_spec fd 2).
Defined.

Lemma printk_spec_witness :
  ∃ k ret, printk (H0 := linux_errors) ([], []) (mk_sig false false false) LOG_ERR (Some [104; 105; 10]) = Some (k, mk_sig false false false, ret) ∧
    ret = 12 ∧ k_out k 2 = bytes "[ERROR]  " ++ [104; 105; 13; 10].
Proof.
  destruct (printk_spec (H1 := linux_errors) ([], []) (mk_sig false false false) LOG_ERR (Some [104; 105; 10]) ltac:(done))
    as (k & ret & E & _ & _ & Hr & _).
  exists k, ret. split; [exact E|]. assert (R : ret = 12) by (vm_compute in E; congruence).
  split; [exact R|]. exact (proj2 (Hr ltac:(lia))).
Defined.
End Log.
