(* ===== verification/Service.v ===== *)
(** * The descriptor service of a backend (src/host/linux/service.c)

    A worker thread polls the descriptors of a backend and calls it when one is
    ready.  Other threads change what is polled, or stop the worker, at any
    time.  Each section of the code under the service lock is one function of
    the shared state; the worker is a state machine whose local variables are
    those of [service_run], and a step is one of its sections, or one of
    another thread. *)

From S2P Require Import Prelude Host.

Module Service.
Import Host.

Definition HOST_POSIX_READ : Z := 1.
Definition HOST_POSIX_WRITE : Z := 2.
Definition HOST_POSIX_ERROR : Z := 4.

(** The bits of <poll.h>. *)
Definition POLLIN : Z := 1.
Definition POLLOUT : Z := 4.
Definition POLLERR : Z := 8.
Definition POLLHUP : Z := 16.
Definition POLLNVAL : Z := 32.

(** struct service_source; the callback of a source is known by its index. *)
Record service_source : Type := mk_source { fd : Z; events : Z; revision : Z }.

(** struct host_posix_service; [wakeup] says whether a byte is in the pipe. *)
Record host_posix_service : Type := mk_service {
  stopped : bool;
  wakeup : bool;
  sources : list service_source;
}.

Definition eta_service (s : host_posix_service) : host_posix_service :=
  mk_service (stopped s) (wakeup s) (sources s).
#[export] Instance set_stopped : Setter stopped := ltac:(derive_setter eta_service).
#[export] Instance set_wakeup : Setter wakeup := ltac:(derive_setter eta_service).
#[export] Instance set_sources : Setter sources := ltac:(derive_setter eta_service).

(** Only these bits of the interest may be set. *)
Definition events_ok (ev : Z) : bool := Z.land ev (Z.lnot (Z.lor HOST_POSIX_READ HOST_POSIX_WRITE)) =? 0.

(** ** Creation *)

(** A source as the caller describes it, and whether it has a callback. *)
Record host_posix_source : Type := mk_spec { s_fd : Z; s_events : Z; s_ready : bool }.

(** The check of the sources from the [i]th on. *)
Fixpoint check_sources (before l : list host_posix_source) : Z :=
  match l with
  | [] => 0
  | s :: l =>
      if (s_fd s <? 0) || negb (s_ready s) || negb (events_ok (s_events s)) then - VM_EINVAL
      else if existsb (fun b => s_fd s =? s_fd b) before then - VM_EEXIST
      else check_sources (before ++ [s]) l
  end.

Inductive resource : Type := Memory | Mutex | Pipe | Thread.
Inductive resource_op : Type := Acquire (r : resource) | Release (r : resource).

Section Create.
Context `{HostErrors}.

(** [alloc], [mutex] and [thread] are the outcomes of the allocation, of
    [host_mutex_create] and of [host_thread_create] (0 or an error), [pipe2] of
    that call. *)
Definition host_posix_service_create (l : list host_posix_source) (fatal alloc : bool) (mutex : Z)
    (pipe2 : sys unit) (thread : Z) : err_ptr host_posix_service * list resource_op :=
  if bool_decide (l = []) || (64 <? Z.of_nat (length l)) || negb fatal then (ERR_PTR (- VM_EINVAL), [])
  else if check_sources [] l <? 0 then (ERR_PTR (check_sources [] l), [])
  else if negb alloc then (ERR_PTR (- VM_ENOMEM), [])
  else if mutex <? 0 then (ERR_PTR mutex, [Acquire Memory; Release Memory])
  else
    match pipe2 with
    | Errno e =>
        (ERR_PTR (- host_error_from_errno e), [Acquire Memory; Acquire Mutex; Release Mutex; Release Memory])
    | Done _ =>
        if thread <? 0 then
          (ERR_PTR thread, [Acquire Memory; Acquire Mutex; Acquire Pipe; Release Pipe; Release Mutex; Release Memory])
        else
          (Ptr (mk_service false false ((fun s => mk_source (s_fd s) (s_events s) 0) <$> l)),
           [Acquire Memory; Acquire Mutex; Acquire Pipe; Acquire Thread])
    end.

(** What [host_posix_service_destroy] releases, once the worker is joined. *)
Definition service_released : list resource_op :=
  [Release Thread; Release Pipe; Release Mutex; Release Memory].
End Create.

(** ** Changes by other threads and by callbacks *)

(** The byte is written, or the pipe is full and there is one already. *)
Definition service_wake (s : host_posix_service) : host_posix_service := s <| wakeup := true |>.

(** [None]: the [BUG_ON]. *)
Definition host_posix_service_update_locked (s : host_posix_service) (source : nat) (ev : Z) :
    option host_posix_service :=
  match sources s !! source with
  | None => None
  | Some src =>
      if negb (events_ok ev) then None
      else Some (service_wake (s <| sources := <[source := mk_source (fd src) ev (u64 (revision src + 1))]> (sources s) |>))
  end.

(** [host_posix_service_destroy] up to the join. *)
Definition service_stop (s : host_posix_service) : host_posix_service := service_wake (s <| stopped := true |>).

(** ** The worker *)

(** Where [service_run] is, with the variables it still uses: the entries for
    [poll], the versions they were taken at, what [poll] returned. *)
Inductive worker : Type :=
| Top
| Polling (fds : list (Z * Z)) (versions : list Z)
| Serving (i : nat) (revents versions : list Z)
| Exited.

Definition pollfd (p : service_source) : Z * Z :=
  (if events p =? 0 then -1 else fd p,
   Z.lor (if Z.land (events p) HOST_POSIX_READ =? 0 then 0 else POLLIN)
         (if Z.land (events p) HOST_POSIX_WRITE =? 0 then 0 else POLLOUT)).

(** The first section of a round. *)
Definition worker_snapshot (s : host_posix_service) : worker :=
  if stopped s then Exited else Polling (pollfd <$> sources s) (revision <$> sources s).

(** After [poll]: what the pipe's entry and the others show, or an error; the
    error passed to [fatal]. *)
Definition worker_polled `{HostErrors} (s : host_posix_service) (versions : list Z) (r : sys (list Z * bool)) :
    host_posix_service * worker * option Z :=
  match r with
  | Errno e =>
      if e =? EINTR then (s, Top, None)
      else (s, Exited, if stopped s then None else Some (- host_error_from_errno e))
  | Done (revents, woken) =>
      (if woken then s <| wakeup := false |> else s, Serving 0 revents versions, None)
  end.

Definition ready_events (revents : Z) : Z :=
  Z.lor (Z.lor (if Z.land revents (Z.lor POLLIN POLLHUP) =? 0 then 0 else HOST_POSIX_READ)
               (if Z.land revents POLLOUT =? 0 then 0 else HOST_POSIX_WRITE))
        (if Z.land revents (Z.lor POLLERR POLLNVAL) =? 0 then 0 else HOST_POSIX_ERROR).

(** One round of the loop over the sources: the callback it makes. *)
Definition worker_serve (s : host_posix_service) (i : nat) (revents versions : list Z) : worker * option (nat * Z) :=
  if (i <? length (sources s))%nat then
    let next := Serving (i + 1) revents versions in
    let rev := aget revents (Z.of_nat i) in
    if rev =? 0 then (next, None)
    else
      match sources s !! i with
      | Some src =>
          if negb (stopped s) && (aget versions (Z.of_nat i) =? revision src)
          then (next, Some (i, ready_events rev))
          else (next, None)
      | None => (next, None)
      end
  else (Top, None).

(** ** The system

    [snap] is what the sources were when the worker last looked at them, and
    [changes] counts the updates since. *)
Record system : Type := mk_sys {
  svc : host_posix_service;
  wk : worker;
  snap : list service_source;
  changes : Z;
}.

Inductive event : Type :=
| Snapshot
| Poll (r : sys (list Z * bool))
| Serve (ups : list (nat * Z))
| Update (i : nat) (ev : Z)
| Stop.

Definition up_ok (s : host_posix_service) (u : nat * Z) : Prop :=
  (u.1 < length (sources s))%nat ∧ events_ok u.2 = true.

(** [poll] ignores a negative descriptor, and sees the byte in the pipe only if
    there is one.  A callback makes the updates [ups].  Fewer than 2^64 updates
    are made in one round of the worker. *)
Definition enabled (s : system) (e : event) : Prop :=
  match e, wk s with
  | Snapshot, Top => True
  | Poll (Errno e), Polling _ _ => 0 < e
  | Poll (Done (revents, woken)), Polling fds _ =>
      length revents = length fds ∧ (∀ i p, fds !! i = Some p → p.1 < 0 → aget revents (Z.of_nat i) = 0) ∧
      (woken = true → wakeup (svc s) = true)
  | Serve ups, Serving i revents versions =>
      Forall (up_ok (svc s)) ups ∧ changes s + Z.of_nat (length ups) < 2 ^ 64 ∧
      ((worker_serve (svc s) i revents versions).2 = None → ups = [])
  | Update i ev, _ => up_ok (svc s) (i, ev) ∧ changes s + 1 < 2 ^ 64
  | Stop, _ => True
  | _, _ => False
  end.

Fixpoint update_all (s : host_posix_service) (ups : list (nat * Z)) : option host_posix_service :=
  match ups with
  | [] => Some s
  | (i, ev) :: ups => s ← host_posix_service_update_locked s i ev; update_all s ups
  end.

Section System.
Context `{HostErrors}.

(** The state after a step, and the callback it made. *)
Definition exec (s : system) (e : event) : option (system * option (nat * Z)) :=
  match e, wk s with
  | Snapshot, _ => Some (mk_sys (svc s) (worker_snapshot (svc s)) (sources (svc s)) 0, None)
  | Poll r, Polling _ versions =>
      let '(v, w, _) := worker_polled (svc s) versions r in Some (mk_sys v w (snap s) (changes s), None)
  | Serve ups, Serving i revents versions =>
      let '(w, cb) := worker_serve (svc s) i revents versions in
      v ← update_all (svc s) ups;
      Some (mk_sys v w (snap s) (changes s + Z.of_nat (length ups)), cb)
  | Update i ev, _ =>
      v ← host_posix_service_update_locked (svc s) i ev;
      Some (mk_sys v (wk s) (snap s) (changes s + 1), None)
  | Stop, _ => Some (mk_sys (service_stop (svc s)) (wk s) (snap s) (changes s), None)
  | _, _ => None
  end.

Inductive reach (l : list service_source) : system → Prop :=
| reach_created : reach l (mk_sys (mk_service false false l) Top l 0)
| reach_step s e s' cb : reach l s → enabled s e → exec s e = Some (s', cb) → reach l s'.

(** ** Invariant *)

(** The sources have changed by [k] updates since the snapshot. *)
Definition moved (s0 src : service_source) (n : Z) : Prop :=
  ∃ k, 0 ≤ k ≤ n ∧ revision src = u64 (revision s0 + k) ∧ (k = 0 → src = s0).

Definition worker_ok (s : system) : Prop :=
  match wk s with
  | Polling fds versions => fds = pollfd <$> snap s ∧ versions = revision <$> snap s
  | Serving _ revents versions =>
      versions = revision <$> snap s ∧
      ∀ i s0, snap s !! i = Some s0 → aget revents (Z.of_nat i) ≠ 0 → events s0 ≠ 0
  | _ => True
  end.

Record inv (s : system) : Prop := {
  inv_revision : Forall (fun p => is_u64 (revision p)) (sources (svc s));
  inv_changes : 0 ≤ changes s < 2 ^ 64;
  inv_moved : Forall2 (fun s0 src => is_u64 (revision s0) ∧ moved s0 src (changes s)) (snap s) (sources (svc s));
  inv_worker : worker_ok s;
  inv_wake : ∀ fds versions, wk s = Polling fds versions → stopped (svc s) = true ∨ 0 < changes s → wakeup (svc s) = true;
}.

Lemma moved_refl src n : is_u64 (revision src) → 0 ≤ n → moved src src n.
Proof. intros Hr Hn. exists 0. rewrite Z.add_0_r, u64_small by done. done. Qed.

Lemma moved_mono s0 src n m : moved s0 src n → n ≤ m → moved s0 src m.
Proof. intros (k & Hk & E) Hm. exists k. split; [lia|done]. Qed.

(** Equal versions: nothing has changed. *)
Lemma moved_same s0 src n :
  is_u64 (revision s0) → n < 2 ^ 64 → moved s0 src n → revision s0 = revision src → src = s0.
Proof.
  intros Hr Hn (k & Hk & E & Z0) Eq. apply Z0. rewrite E in Eq. unfold u64 in Eq. unfold is_u64 in Hr.
  destruct (decide (revision s0 + k < 2 ^ 64)) as [L|L].
  - rewrite Z.mod_small in Eq by lia. lia.
  - replace (revision s0 + k) with (revision s0 + k - 2 ^ 64 + 1 * 2 ^ 64) in Eq by lia.
    rewrite Z.mod_add, Z.mod_small in Eq by lia. lia.
Qed.

Lemma update_ok s i ev :
  up_ok s (i, ev) → ∃ src, sources s !! i = Some src ∧
    host_posix_service_update_locked s i ev =
      Some (mk_service (stopped s) true (<[i := mk_source (fd src) ev (u64 (revision src + 1))]> (sources s))).
Proof.
  intros [Hi Ho]. simpl in *. destruct (lookup_lt_is_Some_2 _ _ Hi) as [src E]. exists src. split; [done|].
  unfold host_posix_service_update_locked. by rewrite E, Ho.
Qed.

Definition src_inv (sn l : list service_source) (n : Z) : Prop :=
  Forall (fun p => is_u64 (revision p)) l ∧
  Forall2 (fun s0 src => is_u64 (revision s0) ∧ moved s0 src n) sn l.

Lemma src_inv_mono sn l n m : src_inv sn l n → n ≤ m → src_inv sn l m.
Proof.
  intros [Hr Hm] L. split; [done|]. eapply Forall2_impl; [done|]. intros ? ? [? ?]. split; [done|]. by eapply moved_mono.
Qed.

Lemma src_inv_update sn l n i src ev :
  src_inv sn l n → l !! i = Some src →
  src_inv sn (<[i := mk_source (fd src) ev (u64 (revision src + 1))]> l) (n + 1).
Proof.
  intros S E. pose proof (src_inv_mono sn l n (n + 1) S ltac:(lia)) as [Hr1 Hm1]. destruct S as [_ Hm]. split.
  - apply Forall_insert; [done|]. apply u64_range.
  - destruct (Forall2_lookup_r _ _ _ _ _ Hm E) as (s0 & E0 & Hs0 & k & Hk & Ek & _).
    rewrite <- (list_insert_id sn i s0 E0). apply Forall2_insert; [done|]. split; [done|].
    exists (k + 1). split; [lia|]. split; [|lia]. simpl. rewrite Ek. unfold u64. rewrite Zplus_mod_idemp_l. f_equal. lia.
Qed.

Lemma update_all_ok sn ups : ∀ s n,
  Forall (up_ok s) ups → src_inv sn (sources s) n →
  ∃ s', update_all s ups = Some s' ∧ src_inv sn (sources s') (n + Z.of_nat (length ups)) ∧
    stopped s' = stopped s ∧ (ups = [] ∧ s' = s ∨ wakeup s' = true).
Proof.
  induction ups as [|[i ev] ups IH]; intros s n F Hs; simpl.
  - exists s. rewrite Z.add_0_r. auto 10.
  - apply Forall_cons in F as [U F]. destruct (update_ok s i ev U) as (src & E & ->). cbn [mbind option_bind].
    set (s1 := mk_service _ _ _). destruct (IH s1 (n + 1)) as (s' & -> & S' & St & W).
    + eapply Forall_impl; [exact F|]. intros u [? ?]. split; [|done]. simpl. by rewrite length_insert.
    + by apply src_inv_update.
    + exists s'. split; [done|]. replace (n + Z.of_nat (S (length ups))) with (n + 1 + Z.of_nat (length ups)) by lia.
      split_and!; [done..|]. right. by destruct W as [[_ ->]|W].
Qed.

Lemma inv_src s : inv s → src_inv (snap s) (sources (svc s)) (changes s).
Proof. intros I. split; apply I. Qed.

(** The worker's round: the callback is for a source that has not changed. *)
Lemma serve_callback s i revents versions j ev :
  inv s → wk s = Serving i revents versions → (worker_serve (svc s) i revents versions).2 = Some (j, ev) →
  stopped (svc s) = false ∧ ∃ src, sources (svc s) !! j = Some src ∧ snap s !! j = Some src ∧ events src ≠ 0 ∧
    ev = ready_events (aget revents (Z.of_nat j)).
Proof.
  intros I Ew. pose proof (inv_worker s I) as W. unfold worker_ok in W. rewrite Ew in W. destruct W as [-> Hz].
  unfold worker_serve. destruct (Nat.ltb_spec i (length (sources (svc s)))); [|done].
  destruct (Z.eqb_spec (aget revents (Z.of_nat i)) 0) as [|Hr]; [done|].
  destruct (sources (svc s) !! i) as [src|] eqn:E; [|done].
  destruct (stopped (svc s)); [done|]. simpl.
  destruct (Forall2_lookup_r _ _ _ _ _ (inv_moved s I) E) as (s0 & E0 & Hs0 & Hm).
  assert (Ev : aget (revision <$> snap s) (Z.of_nat i) = revision s0).
  { unfold aget. by rewrite Nat2Z.id, list_lookup_fmap, E0. }
  rewrite Ev. destruct (Z.eqb_spec (revision s0) (revision src)) as [Eq|]; [|done]. intros [= <- <-].
  pose proof (inv_changes s I). rewrite (moved_same s0 src (changes s)) in E by (done || lia).
  split; [done|]. exists s0. split_and!; [done..|by eapply Hz|done].
Qed.

Lemma serve_worker s i revents versions :
  (worker_serve s i revents versions).1 = Top ∧ (length (sources s) ≤ i)%nat ∨
  (worker_serve s i revents versions).1 = Serving (i + 1) revents versions ∧ (i < length (sources s))%nat.
Proof.
  unfold worker_serve. destruct (Nat.ltb_spec i (length (sources s))); [right|by left].
  repeat case_match; done.
Qed.

(** Every step that can happen is executed, and keeps the invariant. *)
Lemma service_step_inv s e : inv s → enabled s e → ∃ s' cb, exec s e = Some (s', cb) ∧ inv s'.
Proof.
  intros I En. pose proof I as [Hr Hc Hm Hw Hk]. destruct e as [|r|ups|i ev|]; unfold exec, enabled in *.
  - do 2 eexists. split; [done|]. split; simpl; [done|lia| | |].
    + apply Forall_Forall2_diag. eapply Forall_impl; [exact Hr|]. intros p Hp. split; [done|by apply moved_refl].
    + unfold worker_ok, worker_snapshot. simpl. by destruct (stopped (svc s)).
    + unfold worker_snapshot. intros fds vs E. destruct (stopped (svc s)); [done|]. intros [|]; [done|lia].
  - destruct (wk s) as [|fds versions| |] eqn:Ew; try by destruct r as [[? ?]|]. unfold worker_ok in Hw. rewrite Ew in Hw.
    destruct Hw as [-> ->]. destruct r as [[revents woken]|e]; simpl.
    + destruct En as (Hl & Hz & Hwk). do 2 eexists. split; [done|]. split; simpl; [by destruct woken|lia|by destruct woken| |done].
      split; [done|]. simpl. intros j s0 E0 Hrev. intros Ez. destruct Hrev. eapply (Hz j (pollfd s0)).
      * by rewrite list_lookup_fmap, E0.
      * unfold pollfd. simpl. by rewrite Ez.
    + destruct (e =? EINTR); do 2 eexists; (split; [done|]); by split.
  - destruct (wk s) as [| |i revents versions|] eqn:Ew; try done. destruct En as (F & L & Hn).
    destruct (update_all_ok (snap s) ups (svc s) (changes s) F (inv_src s I)) as (v & E & [S1 S2] & Es & Hwake).
    pose proof (serve_worker (svc s) i revents versions) as C.
    destruct (worker_serve (svc s) i revents versions) as [w cb]. rewrite E. simpl in *.
    do 2 eexists. split; [done|]. split; simpl; [done|lia|done| |].
    + destruct C as [[-> _]|[-> _]]; [done|]. unfold worker_ok in *. rewrite Ew in Hw. done.
    + intros fds vs Ef. by destruct C as [[-> _]|[-> _]].
  - destruct En as [U L]. destruct (update_ok (svc s) i ev U) as (src & E & ->). simpl. do 2 eexists. split; [done|].
    destruct (src_inv_update _ _ _ i src ev (inv_src s I) E). split; simpl; [done|lia|done|exact Hw|done].
  - do 2 eexists. split; [done|]. by split.
Qed.

Lemma service_reach_inv l s : Forall (fun p => is_u64 (revision p)) l → reach l s → inv s.
Proof.
  intros Hl. induction 1 as [|s e s' cb R IH En E].
  - split; simpl; [done|lia| |done|done]. apply Forall_Forall2_diag. eapply Forall_impl; [exact Hl|].
    intros p Hp. split; [done|]. apply moved_refl; [done|lia].
  - destruct (service_step_inv s e IH En) as (s2 & cb2 & E2 & I2). by simplify_eq.
Qed.

(** ** Properties *)

(** What is held after a sequence of operations, last acquired first; [None] if
    something is released out of order. *)
Fixpoint held (h : list resource) (l : list resource_op) : option (list resource) :=
  match l, h with
  | [], _ => Some h
  | Acquire r :: l, _ => held (r :: h) l
  | Release Memory :: l, Memory :: h | Release Mutex :: l, Mutex :: h
  | Release Pipe :: l, Pipe :: h | Release Thread :: l, Thread :: h => held h l
  | Release _ :: _, _ => None
  end.

Lemma check_sources_spec l : ∀ before,
  NoDup (s_fd <$> before) → 0 ≤ check_sources before l →
  NoDup (s_fd <$> before ++ l) ∧ Forall (fun s => 0 ≤ s_fd s ∧ s_ready s = true ∧ events_ok (s_events s) = true) l.
Proof.
  induction l as [|s l IH]; intros before Nd; simpl; [by rewrite app_nil_r|].
  destruct (_ || _) eqn:Eb; [unfold VM_EINVAL; lia|]. rewrite !orb_false_iff, !negb_false_iff, Z.ltb_ge in Eb.
  destruct (existsb _ before) eqn:Ex; [unfold VM_EEXIST; lia|]. intros C.
  destruct (IH (before ++ [s])) as [N F]; [|done|].
  - rewrite fmap_app. apply NoDup_app. split_and!; [done| |apply NoDup_singleton].
    intros x (b & -> & Hb)%list_elem_of_fmap. simpl. rewrite list_elem_of_singleton. intros E.
    assert (existsb (fun b => s_fd s =? s_fd b) before = true); [|congruence].
    apply existsb_exists. exists b. split; [by apply list_elem_of_In|]. by apply Z.eqb_eq.
  - rewrite <- app_assoc in N. split; [done|]. constructor; [tauto|done].
Qed.

(** Creation either fails with a negative code and keeps nothing, or starts the
    system above on valid, distinct descriptors; destroying the service then
    releases everything. *)
Theorem host_posix_service_create_spec l fatal alloc mutex pipe2 thread :
  match pipe2 with Errno e => 0 < e | Done _ => True end →
  let '(r, ops) := host_posix_service_create l fatal alloc mutex pipe2 thread in
  match r with
  | ERR_PTR e => e < 0 ∧ held [] ops = Some []
  | Ptr s => held [] (ops ++ service_released) = Some [] ∧ (0 < length (sources s) ≤ 64)%nat ∧
      NoDup (fd <$> sources s) ∧ Forall (fun p => 0 ≤ fd p ∧ events_ok (events p) = true ∧ revision p = 0) (sources s) ∧
      reach (sources s) (mk_sys s Top (sources s) 0)
  end.
Proof.
  intros Hp. unfold host_posix_service_create.
  destruct (_ || _) eqn:Eb; [unfold VM_EINVAL; split; [lia|done]|].
  rewrite !orb_false_iff, bool_decide_eq_false, Z.ltb_ge in Eb. destruct Eb as [[Hn Hl] _].
  destruct (Z.ltb_spec (check_sources [] l) 0) as [|Hc]; [done|].
  destruct alloc; [|unfold VM_ENOMEM; split; [lia|done]]. simpl.
  destruct (Z.ltb_spec mutex 0); [done|].
  destruct pipe2 as [[]|e]; [|split; [pose proof (host_error_range e); lia|done]].
  destruct (Z.ltb_spec thread 0); [done|]. split; [done|]. simpl.
  destruct (check_sources_spec l [] ltac:(constructor) Hc) as [N F]. split_and!.
  - rewrite length_fmap. destruct l; [done|]. simpl. lia.
  - rewrite length_fmap. lia.
  - by rewrite <- list_fmap_compose.
  - apply Forall_fmap. eapply Forall_impl; [exact F|]. simpl. tauto.
  - constructor.
Qed.

Lemma unchanged s : inv s → changes s = 0 → sources (svc s) = snap s.
Proof.
  intros I E. symmetry. apply list_eq_Forall2. eapply Forall2_impl; [apply I|].
  intros s0 src [_ (k & Hk & _ & Z0)]. symmetry. apply Z0. lia.
Qed.

(** C21. The worker never acts on what it saw before an update: whatever other
    threads and callbacks do between its critical sections, a callback is made
    only while the service is not stopped, only for a source that has an
    interest, and only if that interest is still the one that was polled; and no
    update is lost: a worker that polls an out-of-date set, or a stopped
    service, finds a byte in its pipe. *)
Theorem service_no_stale l s :
  Forall (fun p => is_u64 (revision p)) l → reach l s →
  (∀ e, enabled s e → is_Some (exec s e)) ∧
  (∀ e s' i ev, enabled s e → exec s e = Some (s', Some (i, ev)) →
     stopped (svc s) = false ∧
     ∃ src, sources (svc s) !! i = Some src ∧ snap s !! i = Some src ∧ events src ≠ 0) ∧
  (∀ fds versions, wk s = Polling fds versions →
     stopped (svc s) = true ∨ sources (svc s) ≠ snap s → wakeup (svc s) = true).
Proof.
  intros Hl R. pose proof (service_reach_inv l s Hl R) as I. split_and!.
  - intros e En. destruct (service_step_inv s e I En) as (s' & cb & -> & _). by eexists.
  - intros e s' i ev En E. unfold exec, enabled in *.
    destruct e as [|r|ups|j ev'|], (wk s) as [|fds vs|k revents vs|] eqn:Ew; try done; simplify_eq/=.
    + by destruct r as [[? ?]|]; simpl in E; repeat case_match; simplify_eq.
    + destruct (worker_serve (svc s) k revents vs) as [w cb] eqn:Es. destruct (update_all _ _); simplify_eq/=.
      destruct (serve_callback s k revents vs i ev I Ew) as (St & src & H1 & H2 & H3 & _); [by rewrite Es|]. eauto 10.
    + by destruct (host_posix_service_update_locked _ _ _); simplify_eq/=.
    + by destruct (host_posix_service_update_locked _ _ _); simplify_eq/=.
    + by destruct (host_posix_service_update_locked _ _ _); simplify_eq/=.
    + by destruct (host_posix_service_update_locked _ _ _); simplify_eq/=.
  - intros fds vs Ew C. eapply (inv_wake s I); [done|]. destruct C as [|C]; [by left|right].
    pose proof (inv_changes s I). destruct (decide (changes s = 0)) as [E|]; [|lia]. by destruct C; apply unchanged.
Qed.

(** The steps of the worker itself, and how many it still makes at most before
    it looks whether the service is stopped. *)
Definition worker_event (e : event) : Prop := match e with Snapshot | Poll _ | Serve _ => True | _ => False end.

Definition steps_left (s : system) : nat :=
  match wk s with
  | Exited => 0
  | Top => 1
  | Serving i _ _ => (length (sources (svc s)) - i) + 2
  | Polling _ _ => length (sources (svc s)) + 3
  end.

(** Stopping the service ends its worker, so that joining it returns: as long
    as the worker has not ended it can make a step without waiting for anyone,
    each of its steps brings it closer to its end, and none makes a callback. *)
Theorem service_stop_ends l s :
  Forall (fun p => is_u64 (revision p)) l → reach l s → stopped (svc s) = true →
  (wk s ≠ Exited → ∃ e, worker_event e ∧ enabled s e) ∧
  (∀ e s' cb, worker_event e → enabled s e → exec s e = Some (s', cb) →
     cb = None ∧ stopped (svc s') = true ∧ (steps_left s' < steps_left s)%nat).
Proof.
  intros Hl R Hs. pose proof (service_reach_inv l s Hl R) as I. split.
  - intros Hx. destruct (wk s) as [|fds vs|i revents vs|] eqn:Ew; [|..|done].
    + exists Snapshot. unfold enabled. by rewrite Ew.
    + exists (Poll (Done (replicate (length fds) 0, true))). split; [done|]. unfold enabled. rewrite Ew.
      rewrite length_replicate. split_and!; [done| |].
      * intros j p Hj _. unfold aget. rewrite Nat2Z.id, lookup_replicate_2; [done|]. by eapply lookup_lt_Some.
      * intros _. eapply (inv_wake s I); eauto.
    + exists (Serve []). split; [done|]. unfold enabled. rewrite Ew. split; [done|]. split; [|done].
      pose proof (inv_changes s I). simpl. lia.
  - intros e s' cb We En E. unfold exec, enabled, steps_left in *.
    destruct e as [|r|ups|j ev'|]; try done.
    + simplify_eq/=. unfold worker_snapshot. rewrite Hs. destruct (wk s); try done. simpl. split_and!; done || lia.
    + destruct (wk s) as [|fds vs| |]; try by destruct r as [[? ?]|].
      destruct r as [[revents woken]|e]; simplify_eq/=.
      * split_and!; [done|by destruct woken|]. destruct woken; simpl; lia.
      * destruct (e =? EINTR); simplify_eq/=; split_and!; done || lia.
    + destruct (wk s) as [| |i revents vs|]; try done. destruct En as (_ & _ & Hn).
      assert (N : (worker_serve (svc s) i revents vs).2 = None).
      { unfold worker_serve. rewrite Hs. repeat case_match; done. }
      pose proof (serve_worker (svc s) i revents vs) as C. rewrite (Hn N) in E. simpl in E.
      destruct (worker_serve (svc s) i revents vs) as [w c]. simplify_eq/=.
      split_and!; [done..|]. destruct C as [[-> ?]|[-> ?]]; lia.
Qed.
End System.

(** A console: input is disabled while the worker is in [poll], which still
    reports it ready. *)
Definition example_sources : list service_source := [mk_source 0 HOST_POSIX_READ 0; mk_source 1 0 0].

Definition example_state : system :=
  mk_sys (mk_service false false [mk_source 0 0 1; mk_source 1 0 0]) (Serving 0 [POLLIN; 0] [0; 0]) example_sources 1.

Lemma example_service_reached : reach (H := linux_errors) example_sources example_state.
Proof.
  pose proof (reach_created (H := linux_errors) example_sources) as R.
  eapply reach_step with (e := Snapshot) in R; [|done|reflexivity].
  eapply reach_step with (e := Update 0 0) in R; [|vm_compute; auto|reflexivity].
  eapply reach_step with (e := Poll (Done ([POLLIN; 0], true))) in R; [exact R| |reflexivity].
  simpl. split_and!; [done| |done]. intros [|[|i]] p Hp Hneg; simplify_eq/=; done.
Qed.

Lemma service_no_stale_witness : is_Some (exec (H := linux_errors) example_state (Serve [])).
Proof.
  apply (service_no_stale (H := linux_errors) example_sources example_state); [| |].
  - repeat constructor; unfold is_u64; simpl; lia.
  - exact example_service_reached.
  - split; [done|]. split; [simpl; lia|done].
Defined.

Lemma service_stop_ends_witness :
  ∃ e, worker_event e ∧ enabled (mk_sys (service_stop (svc example_state)) (wk example_state) (snap example_state) 1) e.
Proof.
  apply (service_stop_ends (H := linux_errors) example_sources); [| |done|done].
  - repeat constructor; unfold is_u64; simpl; lia.
  - eapply (reach_step (H := linux_errors) _ example_state Stop); [exact example_service_reached|done|reflexivity].
Defined.

End Service.
