(* ===== verification/PosixStdio.v ===== *)
(** * The console on standard input and output (src/backend/char/posix_stdio.c)

    Output is buffered when the terminal does not take it at once; input is
    read in small batches, searched for the escape key, and handed to the
    device one batch at a time.  The operations run under the service lock, and
    each is one function of the state. *)

From S2P Require Import Prelude Host Service.

Module Stdio.
Import Host.

Abbreviation service := Service.host_posix_service.
Abbreviation update := Service.host_posix_service_update_locked.

Definition STDIO_TX_BUF_SIZE : Z := 1024 * 1024.
Definition ESCAPE_CHAR : Z := 1.
Definition KEY_x : Z := 120.
Definition KEY_X : Z := 88.

(** struct char_posix_ctx without the saved terminal; [tx_buf] holds the
    [tx_len] bytes in use. *)
Record char_posix_ctx : Type := mk_ctx {
  svc : option service;
  binding : option Z;
  rx_limit : Z;
  tx_buf : list Z;
  escape_pending : bool;
  rx_closed : bool;
}.

Definition eta_ctx (c : char_posix_ctx) : char_posix_ctx :=
  mk_ctx (svc c) (binding c) (rx_limit c) (tx_buf c) (escape_pending c) (rx_closed c).
#[export] Instance set_svc : Setter svc := ltac:(derive_setter eta_ctx).
#[export] Instance set_binding : Setter binding := ltac:(derive_setter eta_ctx).
#[export] Instance set_rx_limit : Setter rx_limit := ltac:(derive_setter eta_ctx).
#[export] Instance set_tx_buf : Setter tx_buf := ltac:(derive_setter eta_ctx).
#[export] Instance set_escape_pending : Setter escape_pending := ltac:(derive_setter eta_ctx).
#[export] Instance set_rx_closed : Setter rx_closed := ltac:(derive_setter eta_ctx).

Definition ctx_zero : char_posix_ctx := mk_ctx None None 0 [] false false.

(** What an operation asks of the receiver. *)
Inductive action : Type := Submit (bytes : list Z) | Notify (err : Z).

(** [host_posix_service_update_locked] on the context's service; [None] is a
    fault: there is no service, or its [BUG_ON]. *)
Definition update_source (c : char_posix_ctx) (i : nat) (ev : Z) : option char_posix_ctx :=
  s ← svc c; s ← update s i ev; Some (c <| svc := Some s |>).

(** ** Output *)

Section Output.
Context {K : Type} `{HostWrite K} `{HostErrors}.

Definition flush_body (st : K * signals * list Z) : K * signals * list Z + K * signals * list Z * Z :=
  let '(k, g, tx) := st in
  if bool_decide (tx = []) then inr (k, g, tx, 0)
  else
    let '(k, g, n) := host_posix_write_nosigpipe k g STDOUT_FILENO tx in
    if n <? 0 then inr (k, g, tx, if n =? - VM_EAGAIN then 0 else n)
    else if n =? 0 then inr (k, g, tx, - VM_EIO)
    else inl (k, g, drop (Z.to_nat n) tx).

(** What is left to write, and the return value. *)
Definition stdio_flush (k : K) (g : signals) (tx : list Z) : K * signals * list Z * Z :=
  match loop flush_body (k, g, tx) with
  | inl (k, g, tx) => (k, g, tx, 0)
  | inr r => r
  end.

Definition stdio_tx_ready (k : K) (g : signals) (c : char_posix_ctx) :
    option (K * signals * char_posix_ctx * list action) :=
  let '(k, g, tx, ret) := stdio_flush k g (tx_buf c) in
  let c := c <| tx_buf := tx |> in
  c ← if bool_decide (tx = []) || (ret <? 0) then update_source c 1 0 else Some c;
  Some (k, g, c, if ret <? 0 then [Notify ret] else []).

(** [bound] is whether the backend has a binding. *)
Definition char_posix_write (k : K) (g : signals) (bound : bool) (c : char_posix_ctx) (buf : list Z) :
    option (K * signals * char_posix_ctx * Z) :=
  if negb bound then Some (k, g, c, - VM_ENOTCONN)
  else if STDIO_TX_BUF_SIZE - Z.of_nat (length (tx_buf c)) <? Z.of_nat (length buf) then
    Some (k, g, c, - VM_ENOBUFS)
  else
    let '(k, g, tx, ret) := stdio_flush k g (tx_buf c ++ buf) in
    let c := c <| tx_buf := tx |> in
    c ← update_source c 1 (if (ret =? 0) && negb (bool_decide (tx = [])) then Service.HOST_POSIX_WRITE else 0);
    Some (k, g, c, ret).
End Output.

(** ** Input *)

Definition stdio_consumed (c : char_posix_ctx) : option char_posix_ctx :=
  if rx_closed c then Some c else update_source c 0 Service.HOST_POSIX_READ.

(** The loop over the bytes read: the state of the escape, the bytes kept, and
    whether the loop was left by the exit key. *)
Fixpoint rx_filter (pending : bool) (filtered l : list Z) : bool * list Z * bool :=
  match l with
  | [] => (pending, filtered, false)
  | b :: l =>
      if pending then
        if (b =? KEY_x) || (b =? KEY_X) then (false, filtered, true)
        else if b =? ESCAPE_CHAR then rx_filter false (filtered ++ [ESCAPE_CHAR]) l
        else rx_filter false filtered l
      else if b =? ESCAPE_CHAR then rx_filter true filtered l
      else rx_filter false (filtered ++ [b]) l
  end.

(** [outs] are the outcomes of [read], which is asked for at most [rx_size]
    bytes. *)
Definition rx_size (c : char_posix_ctx) : Z := if rx_limit c <? 64 then rx_limit c else 64.

Section Input.
Context `{HostErrors}.

Definition char_posix_rx_cb (c : char_posix_ctx) (events : Z) (outs : list (sys (list Z))) :
    option (char_posix_ctx * list action) :=
  if negb (Z.land events Service.HOST_POSIX_ERROR =? 0) then
    let c := c <| rx_closed := true |> in
    c ← update_source c 0 0;
    Some (c, [Notify (- VM_EIO)])
  else if Z.land events Service.HOST_POSIX_READ =? 0 then Some (c, [])
  else
    ret ← retry_intr outs;
    match ret with
    | Errno e =>
        if e =? EAGAIN then Some (c, [])
        else
          let c := c <| rx_closed := true |> in
          c ← update_source c 0 0;
          Some (c, [Notify (- host_error_from_errno e)])
    | Done [] =>
        let c := c <| rx_closed := true |> in
        c ← update_source c 0 0;
        Some (c, [])
    | Done rx_buf =>
        let '(pending, filtered, exit) := rx_filter (escape_pending c) [] rx_buf in
        let c := c <| escape_pending := pending |> in
        if exit then c ← update_source c 0 0; Some (c, [Notify 0])
        else if bool_decide (filtered = []) then Some (c, [])
        else c ← update_source c 0 0; Some (c, [Submit filtered])
    end.
End Input.

(** ** Binding *)

(** [create] is the outcome of [host_posix_service_create] on the two sources. *)
Definition stdio_sources : list Service.host_posix_source :=
  [Service.mk_spec 0 Service.HOST_POSIX_READ true; Service.mk_spec 1 0 true].

Definition char_posix_bind (c : char_posix_ctx) (b limit : Z) (create : err_ptr service) : char_posix_ctx * Z :=
  let c := c <| binding := Some b |> in
  let c := c <| rx_limit := limit |> in
  let c := c <| escape_pending := false |> in
  let c := c <| rx_closed := false |> in
  match create with
  | ERR_PTR e => (c <| svc := None |> <| binding := None |>, e)
  | Ptr s => (c <| svc := Some s |>, 0)
  end.

(** The service is destroyed first, which joins its worker. *)
Definition char_posix_unbind (c : char_posix_ctx) : char_posix_ctx :=
  let c := c <| svc := None |> in
  let c := c <| binding := None |> in
  c <| tx_buf := [] |>.

(** ** A console in use

    [typed] is what each callback read since the console was bound, [forwarded]
    what was submitted; [accepted] is what was put in the output buffer, and [base] what
    standard output had received before; [in_flight] counts the batches that the
    device has not consumed; [quit] says that the exit key was pressed, [failed]
    that writing failed. *)
Section Console.
Context {K : Type} `{HostWrite K} `{HostErrors}.

Record console : Type := mk_console {
  kern : K;
  sigs : signals;
  ctx : char_posix_ctx;
  typed : list (list Z);
  forwarded : list Z;
  base : list Z;
  accepted : list Z;
  in_flight : nat;
  quit : bool;
  failed : bool;
}.

Inductive event : Type :=
| Bind (b limit : Z) (alloc : bool) (mutex : Z) (pipe2 : sys unit) (thread : Z)
| Unbind
| Write (buf : list Z)
| TxReady
| Rx (events : Z) (outs : list (sys (list Z)))
| Consumed.

(** What a source of the service is polled for. *)
Definition interest (c : char_posix_ctx) (i : nat) : Z :=
  match svc c with
  | Some s => match Service.sources s !! i with Some src => Service.events src | None => 0 end
  | None => 0
  end.

(** The service calls back only for a source that it polls for something; a
    batch is consumed after it was submitted. *)
Definition enabled (s : console) (e : event) : Prop :=
  match e with
  | Bind _ limit _ _ pipe2 _ => svc (ctx s) = None ∧ 0 < limit ∧ match pipe2 with Errno e => 0 < e | Done _ => True end
  | Unbind | Write _ => is_Some (svc (ctx s))
  | TxReady => interest (ctx s) 1 ≠ 0
  | Rx _ outs => interest (ctx s) 0 ≠ 0 ∧ is_Some (retry_intr outs) ∧
      Forall (fun r => match r with Done l => Z.of_nat (length l) ≤ rx_size (ctx s) | Errno e => 0 < e end) outs
  | Consumed => (0 < in_flight s)%nat
  end.

Definition submitted (l : list action) : list (list Z) :=
  omap (fun a => match a with Submit b => Some b | Notify _ => None end) l.

Definition is_exit (a : action) : bool := match a with Notify e => e =? 0 | Submit _ => false end.

(** What the input callback reads. *)
Definition got (events : Z) (outs : list (sys (list Z))) : list Z :=
  if (Z.land events Service.HOST_POSIX_ERROR =? 0) && negb (Z.land events Service.HOST_POSIX_READ =? 0) then
    match retry_intr outs with Some (Done b) => b | _ => [] end
  else [].

Variable out : K → list Z.

Definition exec (s : console) (e : event) : option console :=
  let c := ctx s in
  match e with
  | Bind b limit alloc mutex pipe2 thread =>
      let '(r, _) := Service.host_posix_service_create stdio_sources true alloc mutex pipe2 thread in
      let '(c, _) := char_posix_bind c b limit r in
      Some (mk_console (kern s) (sigs s) c [] [] (out (kern s)) [] 0 false false)
  | Unbind =>
      Some (mk_console (kern s) (sigs s) (char_posix_unbind c) [] [] (out (kern s)) [] 0 false false)
  | Write buf =>
      '(k, g, c', ret) ← char_posix_write (kern s) (sigs s) true c buf;
      let stored := Z.of_nat (length (tx_buf c) + length buf) <=? STDIO_TX_BUF_SIZE in
      Some (mk_console k g c' (typed s) (forwarded s) (base s)
              (if stored then accepted s ++ buf else accepted s) (in_flight s) (quit s)
              (if stored then negb (ret =? 0) else failed s))
  | TxReady =>
      '(k, g, c, l) ← stdio_tx_ready (kern s) (sigs s) c;
      Some (mk_console k g c (typed s) (forwarded s) (base s) (accepted s) (in_flight s) (quit s)
              (failed s || negb (Nat.eqb (length l) 0)))
  | Rx events outs =>
      '(c', l) ← char_posix_rx_cb c events outs;
      let exit := existsb is_exit l in
      Some (mk_console (kern s) (sigs s) c' (typed s ++ [got events outs])
              (forwarded s ++ concat (submitted l)) (base s) (accepted s)
              (in_flight s + length (submitted l)) (quit s || exit) (failed s))
  | Consumed =>
      c ← stdio_consumed c;
      Some (mk_console (kern s) (sigs s) c (typed s) (forwarded s) (base s) (accepted s)
              (in_flight s - 1) (quit s) (failed s))
  end.
End Console.
Arguments console K : clear implicits.

(** ** What the keys mean *)

Inductive key : Type := Plain (b : Z) | Literal | Unknown (b : Z).

Definition key_ok (k : key) : Prop :=
  match k with
  | Plain b => b ≠ ESCAPE_CHAR
  | Literal => True
  | Unknown b => b ≠ ESCAPE_CHAR ∧ b ≠ KEY_x ∧ b ≠ KEY_X
  end.

(** The bytes the terminal sends for a key, and those the guest receives. *)
Definition key_bytes (k : key) : list Z :=
  match k with Plain b => [b] | Literal => [ESCAPE_CHAR; ESCAPE_CHAR] | Unknown b => [ESCAPE_CHAR; b] end.
Definition key_means (k : key) : list Z :=
  match k with Plain b => [b] | Literal => [ESCAPE_CHAR] | Unknown _ => [] end.

Definition tail (pending : bool) : list Z := if pending then [ESCAPE_CHAR] else [].

(** The input consists of keys, and of an escape key if one is pending; the
    guest was given what the keys mean. *)
Definition reads_as (input : list Z) (pending : bool) (output : list Z) : Prop :=
  ∃ ks, Forall key_ok ks ∧ input = (ks ≫= key_bytes) ++ tail pending ∧ output = ks ≫= key_means.

(** The batches read, and what was submitted of them.  After the exit key, which
    a byte of the last batch completed, that is what the batches before it mean:
    nothing of the last one is submitted. *)
Definition input_ok (batches : list (list Z)) (quit pending : bool) (output : list Z) : Prop :=
  if quit then
    ∃ before l b rest o, batches = before ++ [l ++ b :: rest] ∧ (b = KEY_x ∨ b = KEY_X) ∧
      reads_as (concat before ++ l) true o ∧ reads_as (concat before) pending output
  else reads_as (concat batches) pending output.

Lemma reads_as_key input output k :
  reads_as input false output → key_ok k → reads_as (input ++ key_bytes k) false (output ++ key_means k).
Proof.
  intros (ks & F & -> & ->) Hk. exists (ks ++ [k]). rewrite !bind_app. simpl. rewrite !app_nil_r.
  split; [apply Forall_app; auto|done].
Qed.

Lemma reads_as_pending input output : reads_as input true output → ∃ i, input = i ++ [ESCAPE_CHAR] ∧ reads_as i false output.
Proof. intros (ks & F & -> & ->). exists (ks ≫= key_bytes). split; [done|]. exists ks. simpl. by rewrite app_nil_r. Qed.

Lemma reads_as_escape input output : reads_as input false output → reads_as (input ++ [ESCAPE_CHAR]) true output.
Proof. intros (ks & F & -> & ->). exists ks. simpl. by rewrite app_nil_r. Qed.

(** The filter, started in any state that the input so far has led to: how the
    input was split does not matter. *)
Lemma rx_filter_spec l : ∀ input output pending acc,
  reads_as input pending output →
  match rx_filter pending acc l with
  | (pending', filtered, false) => ∃ new, filtered = acc ++ new ∧ reads_as (input ++ l) pending' (output ++ new)
  | (_, _, true) => ∃ l1 b l2, l = l1 ++ b :: l2 ∧ (b = KEY_x ∨ b = KEY_X) ∧ ∃ o, reads_as (input ++ l1) true o
  end.
Proof.
  induction l as [|b l IH]; intros input output pending acc R; simpl.
  { exists []. by rewrite !app_nil_r. }
  assert (Step : ∀ pending1 new1, reads_as (input ++ [b]) pending1 (output ++ new1) →
    match rx_filter pending1 (acc ++ new1) l with
    | (pending', filtered, false) => ∃ new, filtered = acc ++ new ∧ reads_as (input ++ b :: l) pending' (output ++ new)
    | (_, _, true) => ∃ l1 b' l2, b :: l = l1 ++ b' :: l2 ∧ (b' = KEY_x ∨ b' = KEY_X) ∧ ∃ o, reads_as (input ++ l1) true o
    end).
  { intros p1 new1 R1. specialize (IH _ _ _ (acc ++ new1) R1). destruct (rx_filter p1 (acc ++ new1) l) as [[p' f] []].
    - destruct IH as (l1 & b' & l2 & -> & Hb & o & Ho). exists (b :: l1), b', l2. split; [done|]. split; [done|].
      exists o. by rewrite <- app_assoc in Ho.
    - destruct IH as (new & -> & Hr). exists (new1 ++ new). rewrite <- !app_assoc in Hr. by rewrite <- app_assoc. }
  destruct pending.
  - destruct (Z.eqb_spec b KEY_x) as [->|Hx]; [exists [], KEY_x, l; rewrite app_nil_r; eauto 10|].
    destruct (Z.eqb_spec b KEY_X) as [->|HX]; [exists [], KEY_X, l; rewrite app_nil_r; eauto 10|]. simpl.
    destruct (reads_as_pending _ _ R) as (i & Ei & R'). destruct (Z.eqb_spec b ESCAPE_CHAR) as [->|He].
    + apply (Step false [ESCAPE_CHAR]). rewrite Ei, <- app_assoc. by apply (reads_as_key i output Literal).
    + pose proof (Step false []) as St. rewrite !app_nil_r in St. apply St. rewrite Ei, <- app_assoc.
      rewrite <- (app_nil_r output). by apply (reads_as_key i output (Unknown b)).
  - destruct (Z.eqb_spec b ESCAPE_CHAR) as [->|He].
    + pose proof (Step true []) as St. rewrite !app_nil_r in St. apply St. by apply reads_as_escape.
    + apply (Step false [b]). by apply (reads_as_key input output (Plain b)).
Qed.

(** ** Invariant *)

Section ConsoleInv.
Context {K : Type} `{HostWriteLaws K} `{HostErrors}.
Implicit Types s : console K.

Definition stdout (k : K) : list Z := k_out k STDOUT_FILENO.

Lemma stdio_flush_spec k g tx :
  settled g → Z.of_nat (length tx) ≤ 2 ^ 64 →
  let '(k', g', tx', ret) := stdio_flush k g tx in
  g' = g ∧ stdout k' ++ tx' = stdout k ++ tx ∧ ret ≤ 0 ∧ (length tx' ≤ length tx)%nat.
Proof.
  intros Hs Hl. unfold stdio_flush.
  destruct (loop_total flush_body
    (fun '(k', g', tx') => g' = g ∧ stdout k' ++ tx' = stdout k ++ tx ∧ (length tx' ≤ length tx)%nat)
    (fun '(_, _, tx') => Z.of_nat (length tx'))
    (fun '(k', g', tx', ret) => g' = g ∧ stdout k' ++ tx' = stdout k ++ tx ∧ ret ≤ 0 ∧ (length tx' ≤ length tx)%nat)
    (k, g, tx)) as ([[[k' g'] tx'] ret] & -> & P); [|done..].
  intros [[k1 g1] tx1] (-> & Eo & L). unfold flush_body.
  destruct (bool_decide_reflect (tx1 = [])) as [->|Hne]; [split_and!; done|].
  pose proof (write_nosigpipe_spec k1 g STDOUT_FILENO tx1 Hs) as W.
  destruct (host_posix_write_nosigpipe k1 g STDOUT_FILENO tx1) as [[k2 g2] n]. destruct W as (-> & _ & _ & Hn & Hw).
  assert (E2 : stdout k2 ++ drop (Z.to_nat n) tx1 = stdout k ++ tx).
  { unfold stdout in *. by rewrite Hw, <- app_assoc, take_drop. }
  destruct (Z.ltb_spec n 0); [|destruct (Z.eqb_spec n 0) as [->|]].
  - replace (Z.to_nat n) with 0%nat in E2 by lia. split_and!; [done..| |done]. destruct (n =? _); lia.
  - split_and!; [done..| |done]. unfold VM_EIO. lia.
  - split_and!; [done..|rewrite length_drop; lia|lia|]. rewrite length_drop. destruct tx1; [done|]. simpl. lia.
Qed.

Lemma update_source_ok c sv src i ev :
  svc c = Some sv → Service.sources sv !! i = Some src → Service.events_ok ev = true →
  ∃ sv' r, update_source c i ev = Some (c <| svc := Some sv' |>) ∧
    Service.sources sv' = <[i := Service.mk_source (Service.fd src) ev r]> (Service.sources sv).
Proof.
  intros E Ei He. unfold update_source, Service.host_posix_service_update_locked. rewrite E. simpl. rewrite Ei, He. simpl.
  do 2 eexists. split; [done|]. simpl. done.
Qed.

Definition armed s : bool := Nat.eqb (in_flight s) 0 && negb (quit s) && negb (rx_closed (ctx s)).

Record con_inv s : Prop := {
  ci_sig : settled (sigs s);
  ci_reads : ∃ p, input_ok (typed s) (quit s) p (forwarded s) ∧
    (quit s = false → is_Some (svc (ctx s)) → p = escape_pending (ctx s));
  ci_out : base s ++ accepted s = stdout (kern s) ++ tx_buf (ctx s);
  ci_size : Z.of_nat (length (tx_buf (ctx s))) ≤ STDIO_TX_BUF_SIZE;
  ci_unbound : svc (ctx s) = None → tx_buf (ctx s) = [] ∧ in_flight s = 0%nat;
  ci_flight : (in_flight s ≤ 1)%nat ∧ (quit s || rx_closed (ctx s) = true → in_flight s = 0%nat);
  ci_bound : ∀ sv, svc (ctx s) = Some sv → ∃ r0 r1 e1,
    Service.sources sv =
      [Service.mk_source 0 (if armed s then Service.HOST_POSIX_READ else 0) r0; Service.mk_source 1 e1 r1] ∧
    (e1 = 0 ∨ e1 = Service.HOST_POSIX_WRITE) ∧ (tx_buf (ctx s) = [] → e1 = 0) ∧
    (tx_buf (ctx s) ≠ [] → failed s = false → e1 = Service.HOST_POSIX_WRITE);
}.

Lemma console_write_step s buf : con_inv s → is_Some (svc (ctx s)) → ∃ s', exec stdout s (Write buf) = Some s' ∧ con_inv s'.
Proof.
  intros I [sv Esv]. pose proof I as [Hsig Hrd Hout Hsz _ Hfl Hb]. destruct (Hb sv Esv) as (r0 & r1 & e1 & Es & He & Hnil & Harm).
  cbn [exec]. unfold char_posix_write. cbn [negb].
  destruct (Z.ltb_spec (STDIO_TX_BUF_SIZE - Z.of_nat (length (tx_buf (ctx s)))) (Z.of_nat (length buf))) as [L|L].
  - cbn [mbind option_bind]. destruct (Z.leb_spec (Z.of_nat (length (tx_buf (ctx s)) + length buf)) STDIO_TX_BUF_SIZE); [lia|].
    eexists. split; [done|]. by destruct s.
  - pose proof (stdio_flush_spec (kern s) (sigs s) (tx_buf (ctx s) ++ buf) Hsig) as F.
    rewrite length_app in F. unfold STDIO_TX_BUF_SIZE in *. specialize (F ltac:(lia)).
    destruct (stdio_flush _ _ _) as [[[k g] tx] ret]. destruct F as (-> & Eo & Hr & Hl).
    set (ev := if _ && _ then _ else _). set (c1 := ctx s <| tx_buf := tx |>).
    destruct (update_source_ok c1 sv (Service.mk_source 1 e1 r1) 1 ev) as (sv' & r & -> & Es');
      [done|by rewrite Es|unfold ev; by destruct (_ && _)|].
    cbn [mbind option_bind]. destruct (Z.leb_spec (Z.of_nat (length (tx_buf (ctx s)) + length buf)) (1024 * 1024)); [|lia].
    eexists. split; [done|]. split; simpl; try done.
    + destruct Hrd as (p & Hr1 & Hp1). exists p. split; [done|]. intros Hq _. apply Hp1; [done|]. by eexists.
    + by rewrite app_assoc, Hout, <- app_assoc.
    + unfold STDIO_TX_BUF_SIZE. lia.
    + intros ? [= <-]. rewrite Es', Es. do 3 eexists. split; [reflexivity|]. unfold ev.
      destruct (Z.eqb_spec ret 0); destruct (bool_decide_reflect (tx = [])); simpl; split_and!; auto; done.
Qed.

Lemma tx_step s : con_inv s → interest (ctx s) 1 ≠ 0 → ∃ s', exec stdout s TxReady = Some s' ∧ con_inv s'.
Proof.
  intros I Hi. pose proof I as [Hsig Hrd Hout Hsz _ Hfl Hb]. unfold interest in Hi.
  destruct (svc (ctx s)) as [sv|] eqn:Esv; [|done]. destruct (Hb sv eq_refl) as (r0 & r1 & e1 & Es & He & Hnil & Harm).
  rewrite Es in Hi. simpl in Hi. destruct He as [->| ->]; [done|].
  cbn [exec]. unfold stdio_tx_ready.
  pose proof (stdio_flush_spec (kern s) (sigs s) (tx_buf (ctx s)) Hsig) as F.
  unfold STDIO_TX_BUF_SIZE in Hsz. specialize (F ltac:(lia)).
  destruct (stdio_flush _ _ _) as [[[k g] tx] ret]. destruct F as (-> & Eo & Hr & Hl).
  set (c1 := ctx s <| tx_buf := tx |>). rewrite <- Hout in Eo. destruct (bool_decide (tx = []) || (ret <? 0)) eqn:Ec.
  - destruct (update_source_ok c1 sv (Service.mk_source 1 Service.HOST_POSIX_WRITE r1) 1 0) as (sv' & r & -> & Es');
      [done|by rewrite Es|done|].
    cbn [mbind option_bind]. eexists. split; [reflexivity|]. split; simpl; try done.
    + destruct Hrd as (p & Hr1 & Hp1). exists p. split; [done|]. intros Hq _. apply Hp1; [done|]. by eexists.
    + unfold STDIO_TX_BUF_SIZE. lia.
    + intros ? [= <-]. rewrite Es', Es. do 3 eexists. split; [reflexivity|]. split_and!; [auto..|].
      intros Ht Hf. apply orb_true_iff in Ec as [Ec|Ec]; [by apply bool_decide_eq_true in Ec|].
      rewrite Ec in Hf. by rewrite orb_true_r in Hf.
  - apply orb_false_iff in Ec as [Et Er]. apply bool_decide_eq_false in Et. rewrite Er.
    cbn [mbind option_bind]. eexists. split; [done|]. split; simpl; try done.
    + unfold c1. simpl. by rewrite Esv.
    + unfold STDIO_TX_BUF_SIZE. lia.
    + unfold c1. simpl. by rewrite Esv.
    + unfold c1. simpl. rewrite Esv. intros ? [= <-]. rewrite Es. do 3 eexists. split; [reflexivity|]. split_and!; auto; done.
Qed.

Lemma consumed_step s : con_inv s → (0 < in_flight s)%nat → ∃ s', exec stdout s Consumed = Some s' ∧ con_inv s'.
Proof.
  intros I Hi. pose proof I as [Hsig Hrd Hout Hsz Hun [Hfl Hq] Hb]. destruct (svc (ctx s)) as [sv|] eqn:Esv;
    [|destruct (Hun eq_refl); lia]. destruct (Hb sv eq_refl) as (r0 & r1 & e1 & Es & He & Hnil & Harm).
  destruct (quit s || rx_closed (ctx s)) eqn:Eq; [specialize (Hq eq_refl); lia|]. apply orb_false_iff in Eq as [Eq Ec].
  cbn [exec]. unfold stdio_consumed. rewrite Ec.
  destruct (update_source_ok (ctx s) sv (Service.mk_source 0 (if armed s then Service.HOST_POSIX_READ else 0) r0) 0
    Service.HOST_POSIX_READ) as (sv' & r & -> & Es'); [done|by rewrite Es|done|].
  assert (E0 : (in_flight s - 1 = 0)%nat) by lia.
  cbn [mbind option_bind]. eexists. split; [done|]. split; simpl; try done; [|lia|].
  { destruct Hrd as (p & Hr1 & Hp1). exists p. split; [done|]. intros Hq' _. apply Hp1; [done|]. by eexists. }
  intros ? [= <-]. rewrite Es', Es. do 3 eexists. split; [|done]. unfold armed. simpl. by rewrite E0, Eq, Ec.
Qed.

(** The state after input was handled: the output side is as before. *)
Lemma rx_done s sv c' sv' typed' fwd n q :
  con_inv s → svc (ctx s) = Some sv → tx_buf c' = tx_buf (ctx s) → svc c' = Some sv' →
  (∃ r0, Service.sources sv' = <[0%nat := Service.mk_source 0
     (if Nat.eqb n 0 && negb q && negb (rx_closed c') then Service.HOST_POSIX_READ else 0) r0]> (Service.sources sv)) →
  (n ≤ 1)%nat → (q || rx_closed c' = true → n = 0%nat) →
  (∃ p, input_ok typed' q p fwd ∧ (q = false → p = escape_pending c')) →
  con_inv (mk_console (kern s) (sigs s) c' typed' fwd (base s) (accepted s) n q (failed s)).
Proof.
  intros [Hsig Hrd Hout Hsz Hun _ Hb] Esv Et Ec [r0 Es'] Hn Hq Hr.
  destruct (Hb sv Esv) as (r0' & r1 & e1 & Es & He & Hnil & Harm).
  split; simpl; rewrite ?Et; try done; [|by rewrite Ec|].
  { destruct Hr as (p & Hr1 & Hp1). exists p. auto. }
  intros ? E. simplify_eq. rewrite Es', Es. do 3 eexists. split; [reflexivity|done].
Qed.

(** Input that is switched off. *)
Definition off (sv sv' : service) : Prop :=
  ∃ r0, Service.sources sv' = <[0%nat := Service.mk_source 0 0 r0]> (Service.sources sv).

Lemma disarm c sv src :
  svc c = Some sv → Service.sources sv !! 0%nat = Some src → Service.fd src = 0 →
  ∃ sv', update_source c 0 0 = Some (c <| svc := Some sv' |>) ∧ off sv sv'.
Proof.
  intros E Ei Ef. destruct (update_source_ok c sv src 0 0 E Ei eq_refl) as (sv' & r & Eu & Es).
  exists sv'. split; [done|]. exists r. by rewrite Ef in Es.
Qed.

Lemma armed_true s : armed s = true → in_flight s = 0%nat ∧ quit s = false ∧ rx_closed (ctx s) = false.
Proof. unfold armed. rewrite !andb_true_iff, !negb_true_iff, Nat.eqb_eq. tauto. Qed.

(** The outcomes of the input callback, on a console with input switched on. *)
Inductive rx_result (c : char_posix_ctx) (sv : service) (l : list Z) : char_posix_ctx → list action → Prop :=
| rx_nothing : l = [] → rx_result c sv l c []
| rx_closes sv' acts : l = [] → off sv sv' → existsb is_exit acts = false → submitted acts = [] →
    rx_result c sv l (c <| rx_closed := true |> <| svc := Some sv' |>) acts
| rx_exits sv' p f : off sv sv' → rx_filter (escape_pending c) [] l = (p, f, true) →
    rx_result c sv l (c <| escape_pending := p |> <| svc := Some sv' |>) [Notify 0]
| rx_silent p : rx_filter (escape_pending c) [] l = (p, [], false) → rx_result c sv l (c <| escape_pending := p |>) []
| rx_submits sv' p f : off sv sv' → rx_filter (escape_pending c) [] l = (p, f, false) →
    rx_result c sv l (c <| escape_pending := p |> <| svc := Some sv' |>) [Submit f].

Local Ltac switch_off E Ei Ef :=
  match goal with
  | |- context [update_source ?c 0 0] =>
      let sv' := fresh "sv'" in let O := fresh "O" in destruct (disarm c _ _ E Ei Ef) as (sv' & -> & O)
  end.

Lemma rx_cb_result c sv src events outs :
  svc c = Some sv → Service.sources sv !! 0%nat = Some src → Service.fd src = 0 →
  is_Some (retry_intr outs) → Forall (fun r => match r with Errno e => 0 < e | Done _ => True end) outs →
  ∃ c' l, char_posix_rx_cb c events outs = Some (c', l) ∧ rx_result c sv (got events outs) c' l.
Proof.
  intros E Ei Ef [r Hr] Fo.
  assert (Close : ∀ acts, got events outs = [] → existsb is_exit acts = false → submitted acts = [] →
    ∃ c' l, (c ← update_source (c <| rx_closed := true |>) 0 0; Some (c, acts)) = Some (c', l) ∧
      rx_result c sv (got events outs) c' l).
  { intros acts G X S. switch_off E Ei Ef.
    do 2 eexists. split; [done|]. by constructor. }
  assert (Pos : ∀ e, r = Errno e → 0 < e) by (intros e ->; by apply (retry_intr_forall _ _ _ Fo Hr)).
  unfold char_posix_rx_cb, got in *.
  destruct (Z.land events Service.HOST_POSIX_ERROR =? 0); cbn [negb andb] in *; [|by apply Close].
  destruct (Z.land events Service.HOST_POSIX_READ =? 0); cbn [negb andb] in *; [do 2 eexists; split; [done|]; by constructor|].
  rewrite Hr in *. cbn [mbind option_bind]. destruct r as [[|b l]|e].
  - by apply Close.
  - destruct (rx_filter (escape_pending c) [] (b :: l)) as [[p f] []] eqn:Ex.
    + switch_off E Ei Ef.
      do 2 eexists. split; [done|]. by econstructor.
    + destruct (bool_decide_reflect (f = [])) as [->|]; [do 2 eexists; split; [done|]; by constructor|].
      switch_off E Ei Ef.
      do 2 eexists. split; [done|]. by econstructor.
  - destruct (e =? EAGAIN); [do 2 eexists; split; [done|]; by constructor|]. apply Close; [done| |done].
    specialize (Pos e eq_refl). pose proof (host_error_range e). simpl. rewrite orb_false_r. apply Z.eqb_neq. lia.
Qed.

Lemma rx_step s events outs :
  con_inv s → enabled s (Rx events outs) → ∃ s', exec stdout s (Rx events outs) = Some s' ∧ con_inv s'.
Proof.
  intros I (Hi & Hr & Fo). pose proof I as [Hsig (p & Hrd & Hp) Hout Hsz _ _ Hb]. unfold interest in Hi.
  destruct (svc (ctx s)) as [sv|] eqn:Esv; [|done]. destruct (Hb sv eq_refl) as (r0 & r1 & e1 & Es & _).
  rewrite Es in Hi. simpl in Hi. destruct (armed s) eqn:Ea; [|done]. destruct (armed_true s Ea) as (En & Eq & Ec).
  specialize (Hp Eq ltac:(by eexists)). subst p. rewrite Eq in Hrd. cbn [input_ok] in Hrd.
  destruct (rx_cb_result (ctx s) sv (Service.mk_source 0 Service.HOST_POSIX_READ r0) events outs)
    as (c' & l & E & R); [done|by rewrite Es|done|done| |].
  { eapply Forall_impl; [exact Fo|]. by intros []. }
  cbn [exec]. rewrite E. cbn [mbind option_bind]. eexists. split; [done|].
  pose proof (rx_filter_spec (got events outs) (concat (typed s)) (forwarded s) (escape_pending (ctx s)) [] Hrd) as F.
  assert (Nx : ∀ p' fwd, reads_as (concat (typed s) ++ got events outs) p' fwd →
    input_ok (typed s ++ [got events outs]) false p' fwd).
  { intros p' fwd Hr'. cbn [input_ok]. rewrite concat_app. simpl. by rewrite app_nil_r. }
  destruct R as [G|sv' acts G O X S|sv' p f O G|p G|sv' p f O G]; rewrite ?G in F; simpl; rewrite ?X, ?S, ?En, ?Eq; simpl.
  - rewrite G, app_nil_r in Nx. eapply rx_done; eauto; rewrite ?G, ?app_nil_r, ?Eq in *; eauto. rewrite Ec. simpl. exists r0.
    symmetry. apply list_insert_id. by rewrite Es.
  - rewrite G, app_nil_r in Nx. destruct O as [r0' Es']. eapply rx_done; eauto; rewrite ?G, ?app_nil_r; eauto.
  - destruct O as [r0' Es']. eapply rx_done; eauto; rewrite ?app_nil_r; eauto.
    exists (escape_pending (ctx s)). split; [|done]. destruct F as (l1 & b & l2 & Eg & Hb' & o & Ho).
    exists (typed s), l1, b, l2, o. split; [by rewrite Eg|done].
  - destruct F as (new & En' & F). simpl in En'. subst new. eapply rx_done; eauto; rewrite ?app_nil_r in *; eauto. simpl. rewrite Ec. exists r0.
    symmetry. apply list_insert_id. by rewrite Es.
  - destruct F as (new & En' & F). simpl in En'. subst new. destruct O as [r0' Es']. eapply rx_done; eauto; rewrite ?app_nil_r in *; eauto.
    simpl. by rewrite Ec.
Qed.

Lemma reads_as_nil : reads_as [] false [].
Proof. by exists []. Qed.

Lemma console_bind_step s b limit alloc mutex pipe2 thread :
  con_inv s → enabled s (Bind b limit alloc mutex pipe2 thread) →
  ∃ s', exec stdout s (Bind b limit alloc mutex pipe2 thread) = Some s' ∧ con_inv s'.
Proof.
  intros I (Hn & Hl & Hp). pose proof I as [Hsig _ Hout _ Hun _ _]. destruct (Hun Hn) as [Et _].
  assert (C : (∃ e l, Service.host_posix_service_create stdio_sources true alloc mutex pipe2 thread = (ERR_PTR e, l)) ∨
    ∃ sv l, Service.host_posix_service_create stdio_sources true alloc mutex pipe2 thread = (Ptr sv, l) ∧
      Service.sources sv = [Service.mk_source 0 Service.HOST_POSIX_READ 0; Service.mk_source 1 0 0]).
  { unfold Service.host_posix_service_create. simpl. destruct alloc; [|eauto]. simpl.
    destruct (mutex <? 0); [eauto|]. destruct pipe2; [|eauto]. destruct (thread <? 0); [eauto|]. right. eauto. }
  cbn [exec]. destruct C as [(e & l & ->)|(sv & l & -> & Es)]; simpl; eexists; (split; [done|]);
    split; simpl; rewrite ?Et, ?app_nil_r; try done; eauto using reads_as_nil.
  intros ? [= <-]. rewrite Es. do 3 eexists. split; [reflexivity|]. split_and!; auto. done.
Qed.

Lemma console_unbind_step s : con_inv s → ∃ s', exec stdout s Unbind = Some s' ∧ con_inv s'.
Proof.
  intros [Hsig _ _ _ _ _ _]. cbn [exec]. eexists. split; [done|].
  split; simpl; rewrite ?app_nil_r; try done; [|by auto]. exists false. split; [apply reads_as_nil|]. by intros _ [? ?].
Qed.

Lemma console_step_inv s e : con_inv s → enabled s e → ∃ s', exec stdout s e = Some s' ∧ con_inv s'.
Proof.
  intros I En. destruct e.
  - by apply console_bind_step.
  - by apply console_unbind_step.
  - by apply console_write_step.
  - by apply tx_step.
  - by apply rx_step.
  - by apply consumed_step.
Qed.

(** A fresh backend, and what can be done with it. *)
Inductive reach (k : K) (g : signals) : console K → Prop :=
| reach_created : reach k g (mk_console k g ctx_zero [] [] (stdout k) [] 0 false false)
| reach_step s e s' : reach k g s → enabled s e → exec stdout s e = Some s' → reach k g s'.

Lemma console_reach_inv k g s : settled g → reach k g s → con_inv s.
Proof.
  intros Hg. induction 1 as [|s e s' R IH En E].
  - split; simpl; rewrite ?app_nil_r; try done; [|by auto]. exists false. split; [apply reads_as_nil|done].
  - destruct (console_step_inv s e IH En) as (s2 & E2 & I2). by simplify_eq.
Qed.

(** C22. Console input.  Until the exit key is pressed, however the terminal
    splits what is typed, the bytes given to the guest are what the keys read
    since the console was bound mean (a byte for itself, the escape key twice for
    itself, the escape key with an unknown key for nothing), an unfinished escape
    being remembered.  The exit key ends the input: the guest was given what the
    batches before the one that completes it mean, and nothing of that one, not
    even the keys in front of the exit key.  At most one batch is not consumed
    yet, and input is polled exactly when there is none, the exit key was not
    pressed and the terminal is open; no operation faults. *)
Theorem stdio_input_refines k g s :
  settled g → reach k g s →
  (∀ e, enabled s e → is_Some (exec stdout s e)) ∧
  (if quit s then
     ∃ before l b rest keys ks p, typed s = before ++ [l ++ b :: rest] ∧ (b = KEY_x ∨ b = KEY_X) ∧
       Forall key_ok keys ∧ concat before ++ l = (keys ≫= key_bytes) ++ [ESCAPE_CHAR] ∧
       Forall key_ok ks ∧ concat before = (ks ≫= key_bytes) ++ tail p ∧ forwarded s = ks ≫= key_means
   else
     ∃ ks p, Forall key_ok ks ∧ concat (typed s) = (ks ≫= key_bytes) ++ tail p ∧ forwarded s = ks ≫= key_means ∧
       (is_Some (svc (ctx s)) → p = escape_pending (ctx s))) ∧
  (in_flight s ≤ 1)%nat ∧
  (is_Some (svc (ctx s)) → (interest (ctx s) 0 = Service.HOST_POSIX_READ ↔
     in_flight s = 0%nat ∧ quit s = false ∧ rx_closed (ctx s) = false)).
Proof.
  intros Hg R. pose proof (console_reach_inv k g s Hg R) as I. split_and!.
  - intros e En. destruct (console_step_inv s e I En) as (s' & -> & _). by eexists.
  - destruct (ci_reads s I) as (p & Hr & Hp). unfold input_ok in Hr. destruct (quit s).
    + destruct Hr as (before & l & b & rest & o & Et & Hb & (keys & Fk & Ek & _) & ks & F & Eb & Ef).
      exists before, l, b, rest, keys, ks, p. done.
    + destruct Hr as (ks & F & Et & Ef). exists ks, p. auto.
  - apply I.
  - intros [sv Esv]. destruct (ci_bound s I sv Esv) as (r0 & r1 & e1 & Es & _). unfold interest. rewrite Esv, Es. simpl.
    destruct (armed s) eqn:Ea; [pose proof (armed_true s Ea); tauto|]. split; [done|]. intros (E1 & E2 & E3).
    unfold armed in Ea. by rewrite E1, E2, E3 in Ea.
Qed.

(** C23. Console output: what standard output has received, followed by what is
    buffered, is what was accepted since the console was bound, in order and
    once; the buffer stays within its size; while it holds something and no
    write has failed the descriptor is polled for writing, and with an empty
    buffer it is not. *)
Theorem stdio_output_fifo k g s :
  settled g → reach k g s →
  base s ++ accepted s = stdout (kern s) ++ tx_buf (ctx s) ∧
  Z.of_nat (length (tx_buf (ctx s))) ≤ STDIO_TX_BUF_SIZE ∧
  (tx_buf (ctx s) ≠ [] → failed s = false → interest (ctx s) 1 = Service.HOST_POSIX_WRITE) ∧
  (tx_buf (ctx s) = [] → interest (ctx s) 1 = 0).
Proof.
  intros Hg R. pose proof (console_reach_inv k g s Hg R) as I. split_and!; [apply I..| |]; unfold interest.
  - intros Ht Hf. destruct (svc (ctx s)) as [sv|] eqn:Esv; [|by destruct (ci_unbound s I Esv)].
    destruct (ci_bound s I sv Esv) as (r0 & r1 & e1 & -> & _ & _ & Ha). by apply Ha.
  - intros Ht. destruct (svc (ctx s)) as [sv|] eqn:Esv; [|done].
    destruct (ci_bound s I sv Esv) as (r0 & r1 & e1 & -> & _ & Ha & _). by apply Ha.
Qed.

(** Unbinding throws away what is still buffered, so the flush that destroys
    the backend never has anything to write, and never warns. *)
Theorem stdio_unbind_discards k g s :
  settled g → reach k g s → svc (ctx s) = None → ∀ k' g', stdio_flush k' g' (tx_buf (ctx s)) = (k', g', [], 0).
Proof.
  intros Hg R Hn k' g'. destruct (ci_unbound s (console_reach_inv k g s Hg R) Hn) as [-> _].
  unfold stdio_flush, loop. by erewrite loop_upto_stop.
Qed.
End ConsoleInv.

(** ** The terminal *)

(** The two descriptors may refer to the same open file ([shared]), whose
    status flags they then share; [termios] is [None] for a standard input that
    is not a terminal. *)
Record terminal : Type := mk_tty { shared : bool; in_flags : Z; out_flags : Z; termios : option Z }.

Definition O_NONBLOCK : Z := 2048.

Definition getfl_out (t : terminal) : Z := if shared t then in_flags t else out_flags t.
Definition setfl_in (t : terminal) (v : Z) : terminal := mk_tty (shared t) v (out_flags t) (termios t).
Definition setfl_out (t : terminal) (v : Z) : terminal :=
  if shared t then mk_tty true v (out_flags t) (termios t) else mk_tty false (in_flags t) v (termios t).
Definition tcsetattr (t : terminal) (v : Z) : terminal := mk_tty (shared t) (in_flags t) (out_flags t) (Some v).

(** What the context remembers of it; a flag word of -1 was not read. *)
Record saved : Type := mk_saved { orig_termios : option Z; input_flags : Z; output_flags : Z }.

(** The last part of [char_posix_destroy]; the results of the calls are not
    looked at. *)
Definition restore (t : terminal) (c : saved) : terminal :=
  let t := if 0 <=? input_flags c then setfl_in t (input_flags c) else t in
  let t := if 0 <=? output_flags c then setfl_out t (output_flags c) else t in
  match orig_termios c with Some v => tcsetattr t v | None => t end.

Section Create.
Context `{HostErrors}.
Variable cfmakeraw : Z → Z.

(** [None] for a system call is success; the calls are, in order, the two
    F_GETFL, the two F_SETFL and the tcsetattr.  [owned] is [stdio_owned]. *)
Definition char_posix_create (owned alloc : bool) (getfl_i getfl_o setfl_i setfl_o tcset : option Z) (t : terminal) :
    bool * terminal * err_ptr saved :=
  if owned then (true, t, ERR_PTR (- VM_EBUSY))
  else if negb alloc then (false, t, ERR_PTR (- VM_ENOMEM))
  else
    let fail t c e := (false, restore t c, ERR_PTR (- host_error_from_errno e)) in
    match getfl_i with
    | Some e => fail t (mk_saved None (-1) (-1)) e
    | None =>
        let fi := in_flags t in
        match getfl_o with
        | Some e => fail t (mk_saved None fi (-1)) e
        | None =>
            let fo := getfl_out t in
            match setfl_i with
            | Some e => fail t (mk_saved None fi fo) e
            | None =>
                let t := setfl_in t (Z.lor fi O_NONBLOCK) in
                match setfl_o with
                | Some e => fail t (mk_saved None fi fo) e
                | None =>
                    let t := setfl_out t (Z.lor fo O_NONBLOCK) in
                    match termios t with
                    | None => (true, t, Ptr (mk_saved None fi fo))
                    | Some v =>
                        match tcset with
                        | Some e => fail t (mk_saved (Some v) fi fo) e
                        | None => (true, tcsetattr t (cfmakeraw v), Ptr (mk_saved (Some v) fi fo))
                        end
                    end
                end
            end
        end
    end.

(** The end of [char_posix_destroy]: [stdio_owned] and the terminal. *)
Definition destroy_terminal (t : terminal) (c : saved) : bool * terminal := (false, restore t c).

(** The console leaves the terminal as it was: a backend that cannot be
    created, at whatever point it fails, and one that is destroyed, have
    restored the flags of both descriptors, which may be one open file, and the
    line settings; while it exists both descriptors do not block, and a second
    console is refused. *)
Theorem stdio_restores_terminal owned alloc gi go si so ts t :
  0 ≤ in_flags t → 0 ≤ out_flags t →
  Forall (fun r => match r with Some e => 0 < e | None => True end) [gi; go; si; so; ts] →
  let '(owned', t', r) := char_posix_create owned alloc gi go si so ts t in
  match r with
  | ERR_PTR e => e < 0 ∧ owned' = owned ∧ t' = t
  | Ptr c => owned = false ∧ owned' = true ∧ destroy_terminal t' c = (false, t) ∧
      Z.land (in_flags t') O_NONBLOCK = O_NONBLOCK ∧ Z.land (getfl_out t') O_NONBLOCK = O_NONBLOCK ∧
      termios t' = cfmakeraw <$> termios t
  end.
Proof.
  intros Hi Ho F. rewrite !Forall_cons in F. destruct F as (Fgi & Fgo & Fsi & Fso & Fts & _).
  assert (Er : ∀ e, 0 < e → - host_error_from_errno e < 0) by (intros e; pose proof (host_error_range e); lia).
  assert (Nb : ∀ v, Z.land (Z.lor v O_NONBLOCK) O_NONBLOCK = O_NONBLOCK).
  { intros v. apply Z.bits_inj'. intros n _. rewrite Z.land_spec, Z.lor_spec.
    by destruct (Z.testbit v n), (Z.testbit O_NONBLOCK n). }
  destruct t as [sh fi fo tm]. simpl in *. unfold char_posix_create.
  destruct owned; [done|]. destruct alloc; [|done].
  destruct gi; [by split_and!; auto|]. unfold destroy_terminal, getfl_out, restore, setfl_in, setfl_out, tcsetattr.
  apply Z.leb_le in Hi, Ho.
  destruct sh; (destruct go; [|destruct si; [|destruct so; [|destruct tm as [v|]; [destruct ts|]]]]); simpl;
    rewrite ?Hi; simpl; rewrite ?Hi, ?Ho; split_and!; auto.
Qed.
End Create.

(** ** Examples *)

#[local] Existing Instance example_write.
#[local] Existing Instance example_write_laws.
#[local] Existing Instance linux_errors.

(** "a", the escape key; the batch is consumed; the escape key again, "b"; five
    bytes of output, of which the reader takes three. *)
Definition example_events : list event :=
  [Bind 7 16 true 0 (Done ()) 0; Rx 1 [Errno EINTR; Done [97; 1]]; Consumed; Rx 1 [Done [1; 98]];
   Write [72; 105; 33; 10; 10]].

Definition example_sig : signals := mk_sig false false false.
Definition example_start : console example_pipe :=
  mk_console ([], [], true) example_sig ctx_zero [] [] (stdout (([], [], true) : example_pipe)) [] 0 false false.

Definition run_events (l : list event) (s : console example_pipe) : option (console example_pipe) :=
  foldl (λ s e, s ← s; exec stdout s e) (Some s) l.
Definition example_console : console example_pipe := default example_start (run_events example_events example_start).

Local Ltac advance e :=
  match goal with
  | R : reach ?k ?g ?s |- _ =>
      let r := eval vm_compute in (exec stdout s e) in
      match r with
      | Some ?s' =>
          apply (reach_step k g s e s') in R;
            [|vm_compute; repeat (split || constructor); try discriminate; eauto|vm_compute; reflexivity]
      end
  end.
Local Ltac advance_all l := match l with [] => idtac | ?e :: ?l => advance e; advance_all l end.

Lemma example_console_reached : reach ([], [], true) example_sig example_console.
Proof.
  pose proof (reach_created (([], [], true) : example_pipe) example_sig) as R.
  let l := eval unfold example_events in example_events in advance_all l.
  match type of R with reach _ _ ?s => replace example_console with s by (vm_compute; reflexivity) end. exact R.
Qed.

Lemma stdio_input_refines_witness :
  typed example_console = [[97; 1]; [1; 98]] ∧ forwarded example_console = [97; 1; 98] ∧
  is_Some (exec stdout example_console Consumed).
Proof.
  split; [reflexivity|]. split; [reflexivity|].
  apply (stdio_input_refines ([], [], true) example_sig example_console ltac:(done) example_console_reached).
  vm_compute. auto.
Defined.

Lemma stdio_output_fifo_witness :
  stdout (kern example_console) = [72; 105; 33] ∧
  [72; 105; 33; 10; 10] = stdout (kern example_console) ++ tx_buf (ctx example_console).
Proof.
  split; [reflexivity|].
  apply (stdio_output_fifo ([], [], true) example_sig example_console ltac:(done) example_console_reached).
Defined.

Lemma stdio_restores_terminal_witness :
  let t := mk_tty true 2 0 (Some 5) in
  let '(owned, t', r) := char_posix_create (fun v => v + 100) false true None None None None (Some 5) t in
  t' = t ∧ owned = false ∧ termios t' = Some 5.
Proof.
  pose proof (stdio_restores_terminal (fun v => v + 100) false true None None None None (Some 5) (mk_tty true 2 0 (Some 5))
    ltac:(done) ltac:(done) ltac:(repeat constructor)) as S. simpl in S |- *.
  destruct S as (_ & _ & S). by rewrite S.
Defined.

End Stdio.
