(* ===== verification/KvmRegs.v ===== *)
(** * Processor registers (src/accel/kvm/x86_64/vcpu.c, src/core/vcpu.c, include/modvm/arch/x86/regs.h)

    The registers of a virtual processor are kept by the kernel; the program
    reads and writes them in its own format, in groups or one at a time.  The
    kernel is a parameter: the class [KvmVcpuFd] is the ioctls, [KvmVcpuLaws]
    what is documented of them.  The boot loaders set up the first processor
    through this interface. *)

From S2P Require Import Prelude Host.

Module Regs.
Import Host.

(** ** Formats *)

Record x86_segment : Type := mk_segment {
  base : Z; limit : Z; selector : Z; type : Z; present : Z; dpl : Z; db : Z; s : Z; l : Z; g : Z;
  unusable : Z;
}.

Record x86_sregs : Type := mk_sregs {
  cs : x86_segment; ds : x86_segment; es : x86_segment; fs : x86_segment; gs : x86_segment;
  ss : x86_segment; tr : x86_segment; ldt : x86_segment;
  cr0 : Z; cr2 : Z; cr3 : Z; cr4 : Z; cr8 : Z; efer : Z; apic_base : Z;
}.

Record x86_regs : Type := mk_regs {
  rax : Z; rbx : Z; rcx : Z; rdx : Z; rsi : Z; rdi : Z; rsp : Z; rbp : Z; r8 : Z; r9 : Z; r10 : Z;
  r11 : Z; r12 : Z; r13 : Z; r14 : Z; r15 : Z; rip : Z; rflags : Z;
}.

(** The kernel's formats, from <linux/kvm.h>.  [k_rest] is what the program
    does not look at: descriptor tables and the interrupt bitmap. *)
Record kvm_segment : Type := mk_kvm_segment {
  k_base : Z; k_limit : Z; k_selector : Z; k_type : Z; k_present : Z; k_dpl : Z; k_db : Z; k_s : Z;
  k_l : Z; k_g : Z; k_unusable : Z; k_padding : Z;
}.

Record kvm_sregs {R : Type} : Type := mk_kvm_sregs {
  k_cs : kvm_segment; k_ds : kvm_segment; k_es : kvm_segment; k_fs : kvm_segment;
  k_gs : kvm_segment; k_ss : kvm_segment; k_tr : kvm_segment; k_ldt : kvm_segment;
  k_cr0 : Z; k_cr2 : Z; k_cr3 : Z; k_cr4 : Z; k_cr8 : Z; k_efer : Z; k_apic_base : Z;
  k_rest : R;
}.
Arguments kvm_sregs R : clear implicits.

Record kvm_regs : Type := mk_kvm_regs {
  k_rax : Z; k_rbx : Z; k_rcx : Z; k_rdx : Z; k_rsi : Z; k_rdi : Z; k_rsp : Z; k_rbp : Z; k_r8 : Z;
  k_r9 : Z; k_r10 : Z; k_r11 : Z; k_r12 : Z; k_r13 : Z; k_r14 : Z; k_r15 : Z; k_rip : Z;
  k_rflags : Z;
}.

Definition eta_kvm_regs (r : kvm_regs) : kvm_regs :=
  mk_kvm_regs
    (k_rax r) (k_rbx r) (k_rcx r) (k_rdx r) (k_rsi r) (k_rdi r) (k_rsp r) (k_rbp r) (k_r8 r)
    (k_r9 r) (k_r10 r) (k_r11 r) (k_r12 r) (k_r13 r) (k_r14 r) (k_r15 r) (k_rip r) (k_rflags r).
#[export] Instance set_k_rax : Setter k_rax := ltac:(derive_setter eta_kvm_regs).
#[export] Instance set_k_rbx : Setter k_rbx := ltac:(derive_setter eta_kvm_regs).
#[export] Instance set_k_rcx : Setter k_rcx := ltac:(derive_setter eta_kvm_regs).
#[export] Instance set_k_rdx : Setter k_rdx := ltac:(derive_setter eta_kvm_regs).
#[export] Instance set_k_rsi : Setter k_rsi := ltac:(derive_setter eta_kvm_regs).
#[export] Instance set_k_rdi : Setter k_rdi := ltac:(derive_setter eta_kvm_regs).
#[export] Instance set_k_rsp : Setter k_rsp := ltac:(derive_setter eta_kvm_regs).
#[export] Instance set_k_rbp : Setter k_rbp := ltac:(derive_setter eta_kvm_regs).
#[export] Instance set_k_r8 : Setter k_r8 := ltac:(derive_setter eta_kvm_regs).
#[export] Instance set_k_r9 : Setter k_r9 := ltac:(derive_setter eta_kvm_regs).
#[export] Instance set_k_r10 : Setter k_r10 := ltac:(derive_setter eta_kvm_regs).
#[export] Instance set_k_r11 : Setter k_r11 := ltac:(derive_setter eta_kvm_regs).
#[export] Instance set_k_r12 : Setter k_r12 := ltac:(derive_setter eta_kvm_regs).
#[export] Instance set_k_r13 : Setter k_r13 := ltac:(derive_setter eta_kvm_regs).
#[export] Instance set_k_r14 : Setter k_r14 := ltac:(derive_setter eta_kvm_regs).
#[export] Instance set_k_r15 : Setter k_r15 := ltac:(derive_setter eta_kvm_regs).
#[export] Instance set_k_rip : Setter k_rip := ltac:(derive_setter eta_kvm_regs).
#[export] Instance set_k_rflags : Setter k_rflags := ltac:(derive_setter eta_kvm_regs).

Definition eta_segment (r : x86_segment) : x86_segment :=
  mk_segment
    (base r) (limit r) (selector r) (type r) (present r) (dpl r) (db r) (s r) (l r) (g r)
    (unusable r).
#[export] Instance set_base : Setter base := ltac:(derive_setter eta_segment).
#[export] Instance set_selector : Setter selector := ltac:(derive_setter eta_segment).

Definition eta_sregs (r : x86_sregs) : x86_sregs :=
  mk_sregs
    (cs r) (ds r) (es r) (fs r) (gs r) (ss r) (tr r) (ldt r) (cr0 r) (cr2 r) (cr3 r) (cr4 r)
    (cr8 r) (efer r) (apic_base r).
#[export] Instance set_cs : Setter cs := ltac:(derive_setter eta_sregs).
#[export] Instance set_ds : Setter ds := ltac:(derive_setter eta_sregs).
#[export] Instance set_es : Setter es := ltac:(derive_setter eta_sregs).
#[export] Instance set_fs : Setter fs := ltac:(derive_setter eta_sregs).
#[export] Instance set_gs : Setter gs := ltac:(derive_setter eta_sregs).
#[export] Instance set_ss : Setter ss := ltac:(derive_setter eta_sregs).
#[export] Instance set_cr0 : Setter cr0 := ltac:(derive_setter eta_sregs).
#[export] Instance set_cr4 : Setter cr4 := ltac:(derive_setter eta_sregs).

Inductive reg_class : Type := REG_GPR | REG_SREGS.

Inductive x86_reg_id : Type :=
| X86_REG_RAX | X86_REG_RBX | X86_REG_RCX | X86_REG_RDX | X86_REG_RSI | X86_REG_RDI | X86_REG_RSP
| X86_REG_RBP | X86_REG_R8 | X86_REG_R9 | X86_REG_R10 | X86_REG_R11 | X86_REG_R12 | X86_REG_R13
| X86_REG_R14 | X86_REG_R15 | X86_REG_RIP | X86_REG_RFLAGS.

(** The numbers of the enumeration. *)
Definition x86_reg_ids : list x86_reg_id :=
  [X86_REG_RAX; X86_REG_RBX; X86_REG_RCX; X86_REG_RDX; X86_REG_RSI; X86_REG_RDI; X86_REG_RSP;
   X86_REG_RBP; X86_REG_R8; X86_REG_R9; X86_REG_R10; X86_REG_R11; X86_REG_R12; X86_REG_R13;
   X86_REG_R14; X86_REG_R15; X86_REG_RIP; X86_REG_RFLAGS].

Definition reg_of_id (id : Z) : option x86_reg_id := x86_reg_ids !! Z.to_nat id.

Definition reg_id (r : x86_reg_id) : Z :=
  match r with
  | X86_REG_RAX => 0 | X86_REG_RBX => 1 | X86_REG_RCX => 2 | X86_REG_RDX => 3 | X86_REG_RSI => 4
  | X86_REG_RDI => 5 | X86_REG_RSP => 6 | X86_REG_RBP => 7 | X86_REG_R8 => 8 | X86_REG_R9 => 9
  | X86_REG_R10 => 10 | X86_REG_R11 => 11 | X86_REG_R12 => 12 | X86_REG_R13 => 13
  | X86_REG_R14 => 14 | X86_REG_R15 => 15 | X86_REG_RIP => 16 | X86_REG_RFLAGS => 17
  end.

#[export] Instance x86_reg_id_eq : EqDecision x86_reg_id.
Proof. solve_decision. Defined.

(** What the buffer of a register group holds. *)
Definition reg_buf (c : reg_class) : Type :=
  match c with REG_GPR => x86_regs | REG_SREGS => x86_sregs end.
Definition sizeof_reg_buf (c : reg_class) : Z := match c with REG_GPR => 144 | REG_SREGS => 248 end.

(** ** Conversions *)

Definition kvm_x86_segment_pack (dst : kvm_segment) (src : x86_segment) : kvm_segment :=
  mk_kvm_segment
    (base src) (limit src) (selector src) (type src) (present src) (dpl src) (db src) (s src)
    (l src) (g src) (unusable src) (k_padding dst).

Definition kvm_x86_segment_unpack (src : kvm_segment) : x86_segment :=
  mk_segment
    (k_base src) (k_limit src) (k_selector src) (k_type src) (k_present src) (k_dpl src) (k_db src)
    (k_s src) (k_l src) (k_g src) (k_unusable src).

Section Sregs.
Context {R : Type}.

(** The assignments of [kvm_arch_vcpu_set_regs] and [kvm_arch_vcpu_get_regs]. *)
Definition sregs_pack (k : kvm_sregs R) (m : x86_sregs) : kvm_sregs R :=
  mk_kvm_sregs R
    (kvm_x86_segment_pack (k_cs k) (cs m)) (kvm_x86_segment_pack (k_ds k) (ds m))
    (kvm_x86_segment_pack (k_es k) (es m)) (kvm_x86_segment_pack (k_fs k) (fs m))
    (kvm_x86_segment_pack (k_gs k) (gs m)) (kvm_x86_segment_pack (k_ss k) (ss m))
    (kvm_x86_segment_pack (k_tr k) (tr m)) (kvm_x86_segment_pack (k_ldt k) (ldt m)) (cr0 m) (cr2 m)
    (cr3 m) (cr4 m) (cr8 m) (efer m) (apic_base m) (k_rest k).

Definition sregs_unpack (k : kvm_sregs R) : x86_sregs :=
  mk_sregs
    (kvm_x86_segment_unpack (k_cs k)) (kvm_x86_segment_unpack (k_ds k))
    (kvm_x86_segment_unpack (k_es k)) (kvm_x86_segment_unpack (k_fs k))
    (kvm_x86_segment_unpack (k_gs k)) (kvm_x86_segment_unpack (k_ss k))
    (kvm_x86_segment_unpack (k_tr k)) (kvm_x86_segment_unpack (k_ldt k)) (k_cr0 k) (k_cr2 k)
    (k_cr3 k) (k_cr4 k) (k_cr8 k) (k_efer k) (k_apic_base k).
End Sregs.

Definition regs_pack (m : x86_regs) : kvm_regs :=
  mk_kvm_regs
    (rax m) (rbx m) (rcx m) (rdx m) (rsi m) (rdi m) (rsp m) (rbp m) (r8 m) (r9 m) (r10 m) (r11 m)
    (r12 m) (r13 m) (r14 m) (r15 m) (rip m) (rflags m).

Definition regs_unpack (k : kvm_regs) : x86_regs :=
  mk_regs
    (k_rax k) (k_rbx k) (k_rcx k) (k_rdx k) (k_rsi k) (k_rdi k) (k_rsp k) (k_rbp k) (k_r8 k)
    (k_r9 k) (k_r10 k) (k_r11 k) (k_r12 k) (k_r13 k) (k_r14 k) (k_r15 k) (k_rip k) (k_rflags k).

(** The two switches on a register number. *)
Definition read_reg (k : kvm_regs) (r : x86_reg_id) : Z :=
  match r with
  | X86_REG_RAX => k_rax k
  | X86_REG_RBX => k_rbx k
  | X86_REG_RCX => k_rcx k
  | X86_REG_RDX => k_rdx k
  | X86_REG_RSI => k_rsi k
  | X86_REG_RDI => k_rdi k
  | X86_REG_RSP => k_rsp k
  | X86_REG_RBP => k_rbp k
  | X86_REG_R8 => k_r8 k
  | X86_REG_R9 => k_r9 k
  | X86_REG_R10 => k_r10 k
  | X86_REG_R11 => k_r11 k
  | X86_REG_R12 => k_r12 k
  | X86_REG_R13 => k_r13 k
  | X86_REG_R14 => k_r14 k
  | X86_REG_R15 => k_r15 k
  | X86_REG_RIP => k_rip k
  | X86_REG_RFLAGS => k_rflags k
  end.

Definition write_reg (k : kvm_regs) (r : x86_reg_id) (val : Z) : kvm_regs :=
  match r with
  | X86_REG_RAX => k <| k_rax := val |>
  | X86_REG_RBX => k <| k_rbx := val |>
  | X86_REG_RCX => k <| k_rcx := val |>
  | X86_REG_RDX => k <| k_rdx := val |>
  | X86_REG_RSI => k <| k_rsi := val |>
  | X86_REG_RDI => k <| k_rdi := val |>
  | X86_REG_RSP => k <| k_rsp := val |>
  | X86_REG_RBP => k <| k_rbp := val |>
  | X86_REG_R8 => k <| k_r8 := val |>
  | X86_REG_R9 => k <| k_r9 := val |>
  | X86_REG_R10 => k <| k_r10 := val |>
  | X86_REG_R11 => k <| k_r11 := val |>
  | X86_REG_R12 => k <| k_r12 := val |>
  | X86_REG_R13 => k <| k_r13 := val |>
  | X86_REG_R14 => k <| k_r14 := val |>
  | X86_REG_R15 => k <| k_r15 := val |>
  | X86_REG_RIP => k <| k_rip := val |>
  | X86_REG_RFLAGS => k <| k_rflags := val |>
  end.

(** ** The kernel's side *)

(** The ioctls on the descriptor of a processor; [K] is its state. *)
Class KvmVcpuFd (K R : Type) := {
  KVM_GET_REGS : K → K * sys kvm_regs;
  KVM_SET_REGS : K → kvm_regs → K * sys unit;
  KVM_GET_SREGS : K → K * sys (kvm_sregs R);
  KVM_SET_SREGS : K → kvm_sregs R → K * sys unit;
}.

(** Reading returns the registers and changes nothing; writing replaces them,
    where the flags get the bits that are fixed, and the special registers are
    kept as written where the processor supports them ([sregs_kept]).  A call
    that fails changes nothing. *)
Class KvmVcpuLaws (K R : Type) `{KvmVcpuFd K R} := {
  regs_of : K → kvm_regs;
  sregs_of : K → kvm_sregs R;
  stored_flags : Z → Z;
  sregs_kept : x86_sregs → Prop;
  kvm_get_regs_law k :
    match KVM_GET_REGS k with
    | (k', Done r) => r = regs_of k ∧ regs_of k' = regs_of k ∧ sregs_of k' = sregs_of k
    | (k', Errno e) => 0 < e ∧ regs_of k' = regs_of k ∧ sregs_of k' = sregs_of k
    end;
  kvm_get_sregs_law k :
    match KVM_GET_SREGS k with
    | (k', Done r) => r = sregs_of k ∧ regs_of k' = regs_of k ∧ sregs_of k' = sregs_of k
    | (k', Errno e) => 0 < e ∧ regs_of k' = regs_of k ∧ sregs_of k' = sregs_of k
    end;
  kvm_set_regs_law k r :
    match KVM_SET_REGS k r with
    | (k', Done _) =>
        regs_of k' = r <| k_rflags := stored_flags (k_rflags r) |> ∧ sregs_of k' = sregs_of k
    | (k', Errno e) => 0 < e ∧ regs_of k' = regs_of k ∧ sregs_of k' = sregs_of k
    end;
  kvm_set_sregs_law k r :
    match KVM_SET_SREGS k r with
    | (k', Done _) =>
        regs_of k' = regs_of k ∧ k_rest (sregs_of k') = k_rest r ∧
        (sregs_kept (sregs_unpack r) → sregs_unpack (sregs_of k') = sregs_unpack r)
    | (k', Errno e) => 0 < e ∧ regs_of k' = regs_of k ∧ sregs_of k' = sregs_of k
    end;
  kvm_flags_law k : stored_flags (k_rflags (regs_of k)) = k_rflags (regs_of k);
  stored_flags_fixed : stored_flags 0x02 = 0x02;
}.

Section Vcpu.
Context `{HostErrors} `{KvmVcpuFd K R}.

(** ** Access to the registers

    The result of a read is its return value, with the buffer when it was
    filled.  The last return of each function, for a class that is not in the
    enumeration, cannot be reached. *)
Definition kvm_arch_vcpu_get_regs (k : K) (c : reg_class) (size : Z) : K * Z * option (reg_buf c) :=
  match c as c return K * Z * option (reg_buf c) with
  | REG_SREGS =>
      if negb (size =? sizeof_reg_buf REG_SREGS) then (k, - VM_EINVAL, None)
      else
        match KVM_GET_SREGS k with
        | (k, Errno e) => (k, - host_error_from_errno e, None)
        | (k, Done k_sregs) => (k, 0, Some (sregs_unpack k_sregs))
        end
  | REG_GPR =>
      if negb (size =? sizeof_reg_buf REG_GPR) then (k, - VM_EINVAL, None)
      else
        match KVM_GET_REGS k with
        | (k, Errno e) => (k, - host_error_from_errno e, None)
        | (k, Done k_regs) => (k, 0, Some (regs_unpack k_regs))
        end
  end.

Definition kvm_arch_vcpu_set_regs (k : K) (c : reg_class) : reg_buf c → Z → K * Z :=
  match c as c return reg_buf c → Z → K * Z with
  | REG_SREGS => fun m_sregs size =>
      if negb (size =? sizeof_reg_buf REG_SREGS) then (k, - VM_EINVAL)
      else
        match KVM_GET_SREGS k with
        | (k, Errno e) => (k, - host_error_from_errno e)
        | (k, Done k_sregs) =>
            match KVM_SET_SREGS k (sregs_pack k_sregs m_sregs) with
            | (k, Errno e) => (k, - host_error_from_errno e)
            | (k, Done _) => (k, 0)
            end
        end
  | REG_GPR => fun m_regs size =>
      if negb (size =? sizeof_reg_buf REG_GPR) then (k, - VM_EINVAL)
      else
        match KVM_SET_REGS k (regs_pack m_regs) with
        | (k, Errno e) => (k, - host_error_from_errno e)
        | (k, Done _) => (k, 0)
        end
  end.

Definition kvm_arch_vcpu_get_reg (k : K) (id : Z) : K * Z * option Z :=
  if id <=? reg_id X86_REG_RFLAGS then
    match KVM_GET_REGS k with
    | (k, Errno e) => (k, - host_error_from_errno e, None)
    | (k, Done k_regs) =>
        match reg_of_id id with
        | Some r => (k, 0, Some (read_reg k_regs r))
        | None => (k, - VM_EINVAL, None)
        end
    end
  else (k, - VM_ENOTSUP, None).

Definition kvm_arch_vcpu_set_reg (k : K) (id val : Z) : K * Z :=
  if id <=? reg_id X86_REG_RFLAGS then
    match KVM_GET_REGS k with
    | (k, Errno e) => (k, - host_error_from_errno e)
    | (k, Done k_regs) =>
        match reg_of_id id with
        | Some r =>
            match KVM_SET_REGS k (write_reg k_regs r val) with
            | (k, Errno e) => (k, - host_error_from_errno e)
            | (k, Done _) => (k, 0)
            end
        | None => (k, - VM_EINVAL)
        end
    end
  else (k, - VM_ENOTSUP).

(** src/core/vcpu.c *)
Definition vcpu_get_regs (k : K) (c : reg_class) (size : Z) : K * Z * option (reg_buf c) :=
  if size =? 0 then (k, - VM_EINVAL, None) else kvm_arch_vcpu_get_regs k c size.

Definition vcpu_set_regs (k : K) (c : reg_class) (buf : reg_buf c) (size : Z) : K * Z :=
  if size =? 0 then (k, - VM_EINVAL) else kvm_arch_vcpu_set_regs k c buf size.

Definition vcpu_get_reg (k : K) (id : Z) : K * Z * option Z := kvm_arch_vcpu_get_reg k id.
Definition vcpu_set_reg (k : K) (id val : Z) : K * Z := kvm_arch_vcpu_set_reg k id val.

(** ** The first processor

    [ret = call; if (ret < 0) return ret;] *)
Definition checked (call : K * Z) (rest : K → K * Z) : K * Z :=
  let '(k, ret) := call in if ret <? 0 then (k, ret) else rest k.

(** The assignments to [sregs] in [linux_loader_setup_bsp]. *)
Definition linux_bsp_sregs (sregs : x86_sregs) : x86_sregs :=
  let sregs := sregs <| cr0 := 0x01 |> <| cr4 := 0 |> in
  let sregs := sregs <| cs := mk_segment 0 0xFFFFFFFF 0x10 0x0b 1 0 1 1 0 1 0 |> in
  let sregs := sregs <| ds := mk_segment 0 0xFFFFFFFF 0x18 0x03 1 0 1 1 0 1 0 |> in
  let sregs := sregs <| es := ds sregs |> in
  let sregs := sregs <| fs := ds sregs |> in
  let sregs := sregs <| gs := ds sregs |> in
  sregs <| ss := ds sregs |>.

Definition linux_loader_setup_bsp (k : K) (entry_pc zero_page : Z) : K * Z :=
  let '(k, ret, sregs) := vcpu_get_regs k REG_SREGS (sizeof_reg_buf REG_SREGS) in
  match sregs with
  | None => (k, ret)
  | Some sregs =>
      let sregs := linux_bsp_sregs sregs in
      checked (vcpu_set_regs k REG_SREGS sregs (sizeof_reg_buf REG_SREGS)) (fun k =>
      checked (vcpu_set_reg k (reg_id X86_REG_RFLAGS) 0x02) (fun k =>
      checked (vcpu_set_reg k (reg_id X86_REG_RIP) entry_pc) (fun k =>
      checked (vcpu_set_reg k (reg_id X86_REG_RSI) zero_page) (fun k =>
      (k, 0)))))
  end.

Definition raw_bsp_sregs (sregs : x86_sregs) : x86_sregs :=
  let sregs := sregs <| cs := (cs sregs) <| selector := 0 |> |> in
  sregs <| cs := (cs sregs) <| base := 0 |> |>.

Definition raw_loader_setup_bsp (k : K) : K * Z :=
  let '(k, ret, sregs) := vcpu_get_regs k REG_SREGS (sizeof_reg_buf REG_SREGS) in
  match sregs with
  | None => (k, ret)
  | Some sregs =>
      let sregs := raw_bsp_sregs sregs in
      checked (vcpu_set_regs k REG_SREGS sregs (sizeof_reg_buf REG_SREGS)) (fun k =>
      checked (vcpu_set_reg k (reg_id X86_REG_RIP) 0) (fun k =>
      checked (vcpu_set_reg k (reg_id X86_REG_RFLAGS) 0x02) (fun k =>
      (k, 0))))
  end.

(** ** Lemmas *)

Context `{!KvmVcpuLaws K R}.

(** The registers are as they were. *)
Definition same_regs (k k' : K) : Prop := regs_of k' = regs_of k ∧ sregs_of k' = sregs_of k.

Lemma reg_of_id_inv id r : 0 ≤ id → reg_of_id id = Some r → id = reg_id r.
Proof.
  intros Hid E. unfold reg_of_id in E. rewrite <- (Z2Nat.id id) by done. revert E. generalize (Z.to_nat id) as n.
  intros n E. do 18 (destruct n as [|n]; [by injection E as <-|]). done.
Qed.

Lemma reg_of_reg_id r : reg_of_id (reg_id r) = Some r.
Proof. by destruct r. Qed.

Lemma reg_id_range r : 0 ≤ reg_id r ≤ 17.
Proof. destruct r; simpl; lia. Qed.

Lemma read_write_eq k r v : read_reg (write_reg k r v) r = v.
Proof. by destruct r. Qed.

Lemma read_write_ne k r r' v : r ≠ r' → read_reg (write_reg k r v) r' = read_reg k r'.
Proof. by destruct r, r'. Qed.

Lemma errno_neg e : 0 < e → - host_error_from_errno e < 0.
Proof. intros He. pose proof (host_error_range e). lia. Qed.

(** One register is written, and only that one. *)
Definition reg_written (k k' : K) (r : x86_reg_id) (v : Z) : Prop :=
  sregs_of k' = sregs_of k ∧
  read_reg (regs_of k') r = (if decide (r = X86_REG_RFLAGS) then stored_flags v else v) ∧
  ∀ r', r' ≠ r → read_reg (regs_of k') r' = read_reg (regs_of k) r'.

Lemma set_reg_spec k r v :
  let '(k', ret) := vcpu_set_reg k (reg_id r) v in
  (ret < 0 ∧ same_regs k k') ∨ (ret = 0 ∧ reg_written k k' r v).
Proof.
  unfold vcpu_set_reg, kvm_arch_vcpu_set_reg, same_regs.
  pose proof (reg_id_range r). destruct (Z.leb_spec (reg_id r) (reg_id X86_REG_RFLAGS)) as [_|Hr]; [|simpl in Hr; lia].
  pose proof (kvm_get_regs_law k) as L. destruct (KVM_GET_REGS k) as [k1 [rs|e]];
    [|left; destruct L as [He L]; eauto using errno_neg].
  destruct L as (-> & L1 & L2). rewrite reg_of_reg_id.
  pose proof (kvm_set_regs_law k1 (write_reg (regs_of k) r v)) as S.
  destruct (KVM_SET_REGS _ _) as [k2 [[]|e]].
  - right. split; [done|]. destruct S as [S1 S2]. split; [by rewrite S2|]. rewrite S1. split.
    + destruct (decide _) as [->|Hn]; [done|]. destruct r; done.
    + intros r' Hr'. destruct (decide (r' = X86_REG_RFLAGS)) as [->|].
      * change (stored_flags (read_reg (write_reg (regs_of k) r v) X86_REG_RFLAGS) = k_rflags (regs_of k)).
        rewrite read_write_ne by done. apply kvm_flags_law.
      * transitivity (read_reg (write_reg (regs_of k) r v) r'); [by destruct r'|]. by apply read_write_ne.
  - left. destruct S as (He & S1 & S2). split; [by apply errno_neg|]. by rewrite S1, S2.
Qed.

Lemma get_reg_spec k r :
  let '(k', ret, v) := vcpu_get_reg k (reg_id r) in
  same_regs k k' ∧ (ret < 0 ∧ v = None ∨ ret = 0 ∧ v = Some (read_reg (regs_of k) r)).
Proof.
  unfold vcpu_get_reg, kvm_arch_vcpu_get_reg, same_regs.
  pose proof (reg_id_range r). destruct (Z.leb_spec (reg_id r) (reg_id X86_REG_RFLAGS)) as [_|Hr]; [|simpl in Hr; lia].
  pose proof (kvm_get_regs_law k) as L. destruct (KVM_GET_REGS k) as [k1 [rs|e]].
  - destruct L as (-> & L1 & L2). rewrite reg_of_reg_id. auto.
  - destruct L as [He L]. eauto using errno_neg.
Qed.

Lemma sregs_unpack_pack (kr : kvm_sregs R) m : sregs_unpack (sregs_pack kr m) = m.
Proof. by destruct m as [[] [] [] [] [] [] [] []]. Qed.

Lemma regs_unpack_pack m : regs_unpack (regs_pack m) = m.
Proof. by destruct m. Qed.

Lemma get_sregs_spec k :
  let '(k', ret, sr) := vcpu_get_regs k REG_SREGS (sizeof_reg_buf REG_SREGS) in
  same_regs k k' ∧ (ret < 0 ∧ sr = None ∨ ret = 0 ∧ sr = Some (sregs_unpack (sregs_of k))).
Proof.
  unfold vcpu_get_regs, same_regs. simpl. pose proof (kvm_get_sregs_law k) as L.
  destruct (KVM_GET_SREGS k) as [k1 [rs|e]].
  - destruct L as (-> & L1 & L2). auto.
  - destruct L as [He L]. eauto using errno_neg.
Qed.

(** The special registers are replaced; what has no place in the program's
    format keeps its value. *)
Lemma set_sregs_spec k m :
  let '(k', ret) := vcpu_set_regs k REG_SREGS m (sizeof_reg_buf REG_SREGS) in
  (ret < 0 ∧ same_regs k k') ∨
  (ret = 0 ∧ regs_of k' = regs_of k ∧ k_rest (sregs_of k') = k_rest (sregs_of k) ∧
   (sregs_kept m → sregs_unpack (sregs_of k') = m)).
Proof.
  unfold vcpu_set_regs, same_regs. simpl. pose proof (kvm_get_sregs_law k) as L.
  destruct (KVM_GET_SREGS k) as [k1 [rs|e]]; [|left; destruct L as [He L]; eauto using errno_neg].
  destruct L as (-> & L1 & L2). pose proof (kvm_set_sregs_law k1 (sregs_pack (sregs_of k) m)) as S.
  destruct (KVM_SET_SREGS _ _) as [k2 [[]|e]].
  - right. destruct S as (S1 & S2 & S3). split; [done|]. split; [by rewrite S1|]. split; [done|].
    by rewrite sregs_unpack_pack in S3.
  - left. destruct S as (He & S1 & S2). split; [by apply errno_neg|]. by rewrite S1, S2.
Qed.

(** The same for the general registers. *)
Lemma set_gpr_spec k m :
  let '(k', ret) := vcpu_set_regs k REG_GPR m (sizeof_reg_buf REG_GPR) in
  (ret < 0 ∧ same_regs k k') ∨
  (ret = 0 ∧ sregs_of k' = sregs_of k ∧
   ∀ r, r ≠ X86_REG_RFLAGS → read_reg (regs_of k') r = read_reg (regs_pack m) r).
Proof.
  unfold vcpu_set_regs, same_regs. simpl. pose proof (kvm_set_regs_law k (regs_pack m)) as S.
  destruct (KVM_SET_REGS _ _) as [k2 [[]|e]].
  - right. destruct S as [S1 S2]. split; [done|]. split; [done|]. intros r Hr. rewrite S1. by destruct r.
  - left. destruct S as [He S]. eauto using errno_neg.
Qed.

(** ** Properties *)

(** Access to a single register, by its number: writing either fails with
    an error and changes no register, or sets that register and no other, and
    leaves the special registers alone; reading it then returns what was
    written (the flags with their fixed bits).  A number that names no register
    is refused without asking the kernel. *)
Theorem vcpu_reg_roundtrip k id v :
  0 ≤ id →
  let '(k1, ret1) := vcpu_set_reg k id v in
  let '(k2, ret2, got) := vcpu_get_reg k1 id in
  match reg_of_id id with
  | None => ret1 = - VM_ENOTSUP ∧ ret2 = - VM_ENOTSUP ∧ k1 = k ∧ k2 = k ∧ got = None
  | Some r =>
      (ret1 < 0 ∧ same_regs k k1) ∨
      (ret1 = 0 ∧ reg_written k k1 r v ∧ same_regs k1 k2 ∧
       (ret2 < 0 ∧ got = None ∨
        ret2 = 0 ∧ got = Some (if decide (r = X86_REG_RFLAGS) then stored_flags v else v)))
  end.
Proof.
  intros Hid. destruct (reg_of_id id) as [r|] eqn:Er.
  - rewrite (reg_of_id_inv id r) by done. pose proof (set_reg_spec k r v) as S.
    destruct (vcpu_set_reg k (reg_id r) v) as [k1 ret1]. pose proof (get_reg_spec k1 r) as G.
    destruct (vcpu_get_reg k1 (reg_id r)) as [[k2 ret2] got]. destruct S as [?|[-> W]]; [by left|right].
    pose proof W as (_ & W2 & _). rewrite W2 in G. destruct G as [G1 G2]. done.
  - assert (Hr : (id <=? reg_id X86_REG_RFLAGS) = false).
    { apply Z.leb_gt. simpl. apply lookup_ge_None in Er. simpl in Er. lia. }
    unfold vcpu_set_reg, vcpu_get_reg, kvm_arch_vcpu_set_reg, kvm_arch_vcpu_get_reg. by rewrite Hr.
Qed.

(** A kernel that refuses no call. *)
Definition kvm_reliable : Prop :=
  ∀ k r sr, (∃ x, (KVM_GET_REGS k).2 = Done x) ∧ (KVM_SET_REGS k r).2 = Done () ∧
            (∃ x, (KVM_GET_SREGS k).2 = Done x) ∧ (KVM_SET_SREGS k sr).2 = Done ().

Lemma set_reg_ok k r v : kvm_reliable → (vcpu_set_reg k (reg_id r) v).2 = 0.
Proof.
  intros Rel. unfold vcpu_set_reg, kvm_arch_vcpu_set_reg. pose proof (reg_id_range r).
  destruct (Z.leb_spec (reg_id r) (reg_id X86_REG_RFLAGS)) as [_|Hr]; [|simpl in Hr; lia].
  destruct (Rel k (regs_of k) (sregs_of k)) as ([x Ex] & _). destruct (KVM_GET_REGS k) as [k1 o]. simpl in Ex. subst o.
  rewrite reg_of_reg_id. destruct (Rel k1 (write_reg x r v) (sregs_of k)) as (_ & E & _).
  destruct (KVM_SET_REGS _ _) as [k2 o]. simpl in E. by subst o.
Qed.

Lemma set_sregs_ok k m : kvm_reliable → (vcpu_set_regs k REG_SREGS m (sizeof_reg_buf REG_SREGS)).2 = 0.
Proof.
  intros Rel. unfold vcpu_set_regs. simpl. destruct (Rel k (regs_of k) (sregs_of k)) as (_ & _ & [x Ex] & _).
  destruct (KVM_GET_SREGS k) as [k1 o]. simpl in Ex. subst o.
  destruct (Rel k1 (regs_of k) (sregs_pack x m)) as (_ & _ & _ & E). destruct (KVM_SET_SREGS _ _) as [k2 o].
  simpl in E. by subst o.
Qed.

(** A step of a set-up sequence: it stops with an error, or has written the
    register and goes on. *)
Lemma checked_set_reg k r v rest (Post : K → Prop) :
  (∀ k', reg_written k k' r v →
     let '(k2, ret) := rest k' in (ret < 0 ∧ ¬ kvm_reliable) ∨ (ret = 0 ∧ Post k2)) →
  let '(k2, ret) := checked (vcpu_set_reg k (reg_id r) v) rest in
  (ret < 0 ∧ ¬ kvm_reliable) ∨ (ret = 0 ∧ Post k2).
Proof.
  intros Good. unfold checked. pose proof (set_reg_spec k r v) as S. pose proof (set_reg_ok k r v) as O.
  destruct (vcpu_set_reg k (reg_id r) v) as [k1 ret1]. destruct S as [[Hr S]|[-> W]].
  - rewrite (proj2 (Z.ltb_lt ret1 0) Hr). left. split; [done|]. intros Rel. specialize (O Rel). simpl in O. lia.
  - by apply Good.
Qed.

Lemma checked_set_sregs k m rest (Post : K → Prop) :
  (∀ k', regs_of k' = regs_of k → k_rest (sregs_of k') = k_rest (sregs_of k) →
     (sregs_kept m → sregs_unpack (sregs_of k') = m) →
     let '(k2, ret) := rest k' in (ret < 0 ∧ ¬ kvm_reliable) ∨ (ret = 0 ∧ Post k2)) →
  let '(k2, ret) := checked (vcpu_set_regs k REG_SREGS m (sizeof_reg_buf REG_SREGS)) rest in
  (ret < 0 ∧ ¬ kvm_reliable) ∨ (ret = 0 ∧ Post k2).
Proof.
  intros Good. unfold checked. pose proof (set_sregs_spec k m) as S. pose proof (set_sregs_ok k m) as O.
  destruct (vcpu_set_regs _ _ _ _) as [k1 ret1]. destruct S as [[Hr S]|(-> & W1 & W2 & W3)].
  - rewrite (proj2 (Z.ltb_lt ret1 0) Hr). left. split; [done|]. intros Rel. specialize (O Rel). simpl in O. lia.
  - by apply Good.
Qed.

Lemma get_sregs_then k (rest : K → Z → x86_sregs → K * Z) (Post : K → Prop) :
  (∀ k', same_regs k k' →
     let '(k2, ret) := rest k' 0 (sregs_unpack (sregs_of k)) in (ret < 0 ∧ ¬ kvm_reliable) ∨ (ret = 0 ∧ Post k2)) →
  let '(k2, ret) :=
    let '(k, ret, sregs) := vcpu_get_regs k REG_SREGS (sizeof_reg_buf REG_SREGS) in
    match sregs with None => (k, ret) | Some sregs => rest k ret sregs end in
  (ret < 0 ∧ ¬ kvm_reliable) ∨ (ret = 0 ∧ Post k2).
Proof.
  intros Good. pose proof (get_sregs_spec k) as G.
  assert (O : kvm_reliable → (vcpu_get_regs k REG_SREGS (sizeof_reg_buf REG_SREGS)).1.2 = 0).
  { intros Rel. destruct (Rel k (regs_of k) (sregs_of k)) as (_ & _ & [x Ex] & _).
    unfold vcpu_get_regs. simpl. destruct (KVM_GET_SREGS k) as [k1 o]. simpl in Ex. by subst o. }
  destruct (vcpu_get_regs _ _ _) as [[k1 ret1] sr]. destruct G as [G1 [[Hr ->]|[-> ->]]].
  - left. split; [done|]. intros Rel. specialize (O Rel). simpl in O. lia.
  - by apply Good.
Qed.

(** Flat 32-bit segments: all of the address space, present, for code that is
    executable and readable, or data that is writable. *)
Definition flat_segment (code : bool) (seg : x86_segment) : Prop :=
  base seg = 0 ∧ limit seg = 2 ^ 32 - 1 ∧ present seg = 1 ∧ dpl seg = 0 ∧ s seg = 1 ∧ db seg = 1 ∧
  l seg = 0 ∧ g seg = 1 ∧ unusable seg = 0 ∧
  Z.testbit (type seg) 3 = code ∧ Z.testbit (type seg) 1 = true.

(** The Linux loader starts the first processor as the 32-bit boot protocol
    asks: protected mode without paging, flat code and data segments, the entry
    point in RIP, the boot parameters in RSI, interrupts off; every other
    general register and every other special register keeps its value.  It
    fails only if the kernel refuses a call. *)
Theorem linux_bsp_spec k entry_pc zero_page :
  sregs_kept (linux_bsp_sregs (sregs_unpack (sregs_of k))) →
  let '(k', ret) := linux_loader_setup_bsp k entry_pc zero_page in
  (ret < 0 ∧ ¬ kvm_reliable) ∨
  (ret = 0 ∧
   let s0 := sregs_unpack (sregs_of k) in let s1 := sregs_unpack (sregs_of k') in
   Z.testbit (cr0 s1) 0 = true ∧ Z.testbit (cr0 s1) 31 = false ∧ cr4 s1 = 0 ∧
   flat_segment true (cs s1) ∧ Forall (flat_segment false) [ds s1; es s1; fs s1; gs s1; ss s1] ∧
   (tr s1, ldt s1, cr2 s1, cr3 s1, cr8 s1, efer s1, apic_base s1) =
     (tr s0, ldt s0, cr2 s0, cr3 s0, cr8 s0, efer s0, apic_base s0) ∧
   k_rest (sregs_of k') = k_rest (sregs_of k) ∧
   ∀ r, read_reg (regs_of k') r =
     match r with
     | X86_REG_RIP => entry_pc
     | X86_REG_RSI => zero_page
     | X86_REG_RFLAGS => 2
     | _ => read_reg (regs_of k) r
     end).
Proof.
  intros Kept. unfold linux_loader_setup_bsp.
  apply get_sregs_then. intros k1 [R1 S1].
  apply checked_set_sregs. intros k2 R2 T2 U2. specialize (U2 Kept).
  apply checked_set_reg. intros k3 (S3 & V3 & O3).
  apply checked_set_reg. intros k4 (S4 & V4 & O4).
  apply checked_set_reg. intros k5 (S5 & V5 & O5).
  right. split; [done|]. rewrite S5, S4, S3, U2, T2, S1. repeat (split; [done|]).
  split; [by repeat constructor|]. split; [done|]. split; [done|].
  intros r. destruct (decide (r = X86_REG_RSI)) as [->|N5]; [by rewrite V5|]. rewrite O5 by done.
  destruct (decide (r = X86_REG_RIP)) as [->|N4]; [by rewrite V4|]. rewrite O4 by done.
  destruct (decide (r = X86_REG_RFLAGS)) as [->|N3]; [rewrite V3; apply stored_flags_fixed|].
  rewrite O3, R2, R1 by done. by destruct r.
Qed.

(** The raw loader: real mode with code at guest address zero. *)
Theorem raw_bsp_spec k :
  sregs_kept (raw_bsp_sregs (sregs_unpack (sregs_of k))) →
  let '(k', ret) := raw_loader_setup_bsp k in
  (ret < 0 ∧ ¬ kvm_reliable) ∨
  (ret = 0 ∧
   base (cs (sregs_unpack (sregs_of k'))) = 0 ∧ selector (cs (sregs_unpack (sregs_of k'))) = 0 ∧
   cr0 (sregs_unpack (sregs_of k')) = cr0 (sregs_unpack (sregs_of k)) ∧
   ∀ r, read_reg (regs_of k') r =
     match r with X86_REG_RIP => 0 | X86_REG_RFLAGS => 2 | _ => read_reg (regs_of k) r end).
Proof.
  intros Kept. unfold raw_loader_setup_bsp.
  apply get_sregs_then. intros k1 [R1 S1].
  apply checked_set_sregs. intros k2 R2 T2 U2. specialize (U2 Kept).
  apply checked_set_reg. intros k3 (S3 & V3 & O3).
  apply checked_set_reg. intros k4 (S4 & V4 & O4).
  right. split; [done|]. rewrite S4, S3, U2. repeat (split; [done|]).
  intros r. destruct (decide (r = X86_REG_RFLAGS)) as [->|N4]; [rewrite V4; apply stored_flags_fixed|].
  rewrite O4 by done. destruct (decide (r = X86_REG_RIP)) as [->|N3]; [by rewrite V3|].
  rewrite O3, R2, R1 by done. by destruct r.
Qed.
End Vcpu.

(** ** A processor *)

(** A kernel that stores what it is given, with bit 1 of the flags set. *)
Definition cpu : Type := kvm_regs * kvm_sregs unit.
Definition cpu_regs (k : cpu) : kvm_regs := k.1 <| k_rflags := Z.lor (k_rflags k.1) 2 |>.

#[export] Instance cpu_fd : KvmVcpuFd cpu unit := {
  KVM_GET_REGS k := (k, Done (cpu_regs k));
  KVM_SET_REGS k r := ((r, k.2), Done ());
  KVM_GET_SREGS k := (k, Done k.2);
  KVM_SET_SREGS k s := ((k.1, s), Done ());
}.

#[export] Instance cpu_laws : KvmVcpuLaws cpu unit.
Proof.
  refine {| regs_of := cpu_regs; sregs_of := snd; stored_flags f := Z.lor f 2; sregs_kept _ := True |}; try done.
  intros k. simpl. by rewrite <- Z.lor_assoc.
Defined.

Definition example_cpu : cpu :=
  let seg := mk_kvm_segment 0xFFFF0000 0xFFFF 0xF000 0x0b 1 0 0 1 0 0 0 0 in
  (mk_kvm_regs 0 0 0 0x600 0 0 0 0 0 0 0 0 0 0 0 0 0xFFF0 2,
   mk_kvm_sregs unit seg seg seg seg seg seg seg seg 0x60000010 0 0 0 0 0 0xFEE00900 ()).

Lemma vcpu_reg_roundtrip_witness :
  (vcpu_get_reg (H := linux_errors) (vcpu_set_reg (H := linux_errors) example_cpu 16 0x100000).1 16).2 = Some 0x100000.
Proof.
  pose proof (vcpu_reg_roundtrip (H := linux_errors) example_cpu 16 0x100000 ltac:(lia)) as T.
  change (reg_of_id 16) with (Some X86_REG_RIP) in T. cbv iota in T.
  destruct (vcpu_set_reg example_cpu 16 0x100000) as [k1 ret1] eqn:E1.
  assert (ret1 = 0) as -> by (vm_compute in E1; congruence). simpl fst.
  assert (R2 : (vcpu_get_reg (H := linux_errors) k1 16).1.2 = 0) by (vm_compute in E1; injection E1 as <-; reflexivity).
  destruct (vcpu_get_reg k1 16) as [[k2 ret2] got]. simpl in R2. subst ret2.
  destruct T as [[Hr _]|(_ & _ & _ & [[Hr _]|[_ ->]])]; [lia|lia|reflexivity].
Defined.

Lemma linux_bsp_spec_witness :
  let k' := (linux_loader_setup_bsp (H := linux_errors) example_cpu 0x100000 0x7000).1 in
  read_reg (regs_of k') X86_REG_RSI = 0x7000 ∧ cr0 (sregs_unpack (sregs_of k')) = 1.
Proof.
  pose proof (linux_bsp_spec (H := linux_errors) example_cpu 0x100000 0x7000 I) as T.
  destruct (linux_loader_setup_bsp example_cpu 0x100000 0x7000) as [k' ret] eqn:E. simpl fst. split.
  - destruct T as [[_ []]|(_ & _ & _ & _ & _ & _ & _ & _ & T)]; [|apply (T X86_REG_RSI)].
    intros k r sr. by repeat eexists.
  - vm_compute in E. by injection E as <- _.
Defined.

End Regs.
