(* ===== verification/KvmRun.v ===== *)
(** * Running a processor (src/accel/kvm/x86_64/vcpu.c, src/accel/kvm/vcpu.c)

    What a virtual processor is told about itself (its CPUID table), and the
    loop that enters it and serves its exits: port and memory accesses go to
    the I/O map, everything else ends the loop or is refused.  The kernel's
    answers and the devices are parameters. *)

From S2P Require Import Prelude ResPool Topology Host.

Module Run.
Import Host.

(** ** CPUID *)

Definition MAX_KVM_CPUID_ENTRIES : Z := 1024.

(** struct kvm_cpuid_entry2 of <linux/kvm.h>. *)
Record cpuid_entry : Type := mk_entry {
  function : Z; index : Z; e_flags : Z; eax : Z; ebx : Z; ecx : Z; edx : Z;
}.

Definition eta_entry (e : cpuid_entry) : cpuid_entry :=
  mk_entry (function e) (index e) (e_flags e) (eax e) (ebx e) (ecx e) (edx e).
#[export] Instance set_eax : Setter eax := ltac:(derive_setter eta_entry).
#[export] Instance set_ebx : Setter ebx := ltac:(derive_setter eta_entry).
#[export] Instance set_ecx : Setter ecx := ltac:(derive_setter eta_entry).
#[export] Instance set_edx : Setter edx := ltac:(derive_setter eta_entry).

(** The switch of the loop over the entries. *)
Definition cpuid_adjust (vcpu_id : Z) (entry : cpuid_entry) : cpuid_entry :=
  let f := function entry in
  if f =? 1 then
    let entry := entry <| ebx := Z.lor (Z.lor (Z.land (ebx entry) 0x0000ffff) (2 ^ 16))
                                   (u32 (Z.shiftl vcpu_id 24)) |> in
    entry <| edx := clr_bits (edx entry) (2 ^ 28) |>
  else if (f =? 4) || (f =? 0x8000001d) then entry <| eax := Z.land (eax entry) 0x3fff |>
  else if (f =? 0xb) || (f =? 0x1f) then
    let entry := entry <| eax := 0 |> in
    let entry := entry <| ebx := if index entry <? 2 then 1 else 0 |> in
    let entry := entry <| ecx := Z.lor (index entry)
                                   (if index entry <? 2 then Z.shiftl (index entry + 1) 8 else 0) |> in
    entry <| edx := vcpu_id |>
  else if f =? 0x80000008 then entry <| ecx := clr_bits (ecx entry) 0xf0ff |>
  else if f =? 0x8000001e then
    let entry := entry <| eax := vcpu_id |> in
    let entry := entry <| ebx := 0 |> in
    entry <| ecx := 0 |>
  else entry.

Section Cpuid.
Context `{HostErrors} {K : Type}.

(** The parameters: the allocator, the kernel's answer for a table of a given
    size, and what it does with a table and with a power state. *)
Variable malloc : Z → bool.
Variable KVM_GET_SUPPORTED_CPUID : Z → sys (list cpuid_entry).
Variable KVM_SET_CPUID2 : K → list cpuid_entry → K * sys unit.
Variable KVM_SET_MP_STATE : K → K * sys unit.

(** The probing loop: how many entries there is room for, and on leaving it the
    code to return or the table. *)
Definition probe_body (nent : Z) : Z + (Z + list cpuid_entry) :=
  if nent <=? MAX_KVM_CPUID_ENTRIES then
    if negb (malloc nent) then inr (inl (- VM_ENOMEM))
    else
      match KVM_GET_SUPPORTED_CPUID nent with
      | Done cpuid => inr (inr cpuid)
      | Errno e =>
          let ret := - host_error_from_errno e in
          if ret =? - VM_E2BIG then inl (nent * 2) else inr (inl ret)
      end
  else inr (inl (- VM_E2BIG)).

Definition kvm_x86_cpuid_setup (k : K) (vcpu_id : Z) : K * Z :=
  match loop probe_body 100 with
  | inl _ => (k, - VM_E2BIG)
  | inr (inl ret) => (k, ret)
  | inr (inr cpuid) =>
      match KVM_SET_CPUID2 k (cpuid_adjust vcpu_id <$> cpuid) with
      | (k, Done _) => (k, 0)
      | (k, Errno e) => (k, - host_error_from_errno e)
      end
  end.

Definition kvm_arch_vcpu_init (k : K) (id : Z) : K * Z :=
  let '(k, ret) := kvm_x86_cpuid_setup k (u32 id) in
  if ret <? 0 then (k, ret)
  else if 0 <? id then
    match KVM_SET_MP_STATE k with
    | (k, Errno e) => (k, - host_error_from_errno e)
    | (k, Done _) => (k, 0)
    end
  else (k, 0).

(** The table of a processor without siblings: its number is its APIC
    identifier, and it is the only thread of the only core of its package;
    what does not describe the topology is the host's. *)
Definition entry_flat (vcpu_id : Z) (e e' : cpuid_entry) : Prop :=
  function e' = function e ∧ index e' = index e ∧ e_flags e' = e_flags e ∧
  (function e = 1 →
     Z.shiftr (ebx e') 24 = vcpu_id ∧ Z.land (Z.shiftr (ebx e') 16) 0xff = 1 ∧
     Z.land (ebx e') 0xffff = Z.land (ebx e) 0xffff ∧
     (∀ i, 0 ≤ i → Z.testbit (edx e') i = Z.testbit (edx e) i && negb (i =? 28)) ∧
     eax e' = eax e ∧ ecx e' = ecx e) ∧
  (function e = 4 ∨ function e = 0x8000001d →
     Z.shiftr (eax e') 14 = 0 ∧ Z.land (eax e') 0x3fff = Z.land (eax e) 0x3fff ∧
     ebx e' = ebx e ∧ ecx e' = ecx e ∧ edx e' = edx e) ∧
  (function e = 0xb ∨ function e = 0x1f →
     edx e' = vcpu_id ∧ eax e' = 0 ∧
     (index e = 0 ∨ index e = 1 → ebx e' = 1 ∧ ecx e' = index e + (index e + 1) * 256) ∧
     (2 ≤ index e → ebx e' = 0 ∧ ecx e' = index e)) ∧
  (function e = 0x80000008 →
     Z.land (ecx e') 0xff = 0 ∧ Z.land (Z.shiftr (ecx e') 12) 0xf = 0 ∧
     eax e' = eax e ∧ ebx e' = ebx e ∧ edx e' = edx e) ∧
  (function e = 0x8000001e → eax e' = vcpu_id ∧ ebx e' = 0 ∧ ecx e' = 0) ∧
  (function e ∉ [1; 4; 0xb; 0x1f; 0x80000008; 0x8000001d; 0x8000001e] → e' = e).

(** Fields side by side. *)
Lemma lor_fields a b k : 0 ≤ k → 0 ≤ a < 2 ^ k → Z.lor a (b * 2 ^ k) = a + b * 2 ^ k.
Proof.
  intros Hk Ha. rewrite <- Z.add_lor_land. replace (Z.land a (b * 2 ^ k)) with 0; [lia|].
  symmetry. apply Z.bits_inj'. intros n Hn. rewrite Z.land_spec, Z.bits_0.
  destruct (Z.lt_ge_cases n k); [rewrite Z.mul_pow2_bits_low by lia; apply andb_false_r|].
  by rewrite (proj1 (range_bits a k Hk ltac:(lia)) ltac:(lia) n).
Qed.

Lemma ebx_fields x vcpu_id :
  0 ≤ vcpu_id < 256 →
  Z.lor (Z.lor (Z.land x 0xffff) (2 ^ 16)) (u32 (Z.shiftl vcpu_id 24)) =
  x mod 2 ^ 16 + 2 ^ 16 + vcpu_id * 2 ^ 24.
Proof.
  intros Hv. change 0xffff with (Z.ones 16). rewrite Z.land_ones by lia.
  rewrite Z.shiftl_mul_pow2, u32_small by (unfold is_u32; lia).
  pose proof (Z.mod_pos_bound x (2 ^ 16) ltac:(lia)). 
  pose proof (lor_fields (x mod 2 ^ 16) 1 16 ltac:(lia) ltac:(lia)) as L. rewrite Z.mul_1_l in L. rewrite L.
  rewrite lor_fields by lia. lia.
Qed.

Lemma ebx_apic_id x vcpu_id :
  0 ≤ vcpu_id < 256 →
  let ebx := Z.lor (Z.lor (Z.land x 0xffff) (2 ^ 16)) (u32 (Z.shiftl vcpu_id 24)) in
  Z.shiftr ebx 24 = vcpu_id ∧ Z.land (Z.shiftr ebx 16) 0xff = 1 ∧ Z.land ebx 0xffff = Z.land x 0xffff.
Proof.
  intros Hv. cbv zeta. rewrite ebx_fields by done. change 0xffff with (Z.ones 16). change 0xff with (Z.ones 8).
  rewrite !Z.land_ones, !Z.shiftr_div_pow2 by lia. pose proof (Z.mod_pos_bound x (2 ^ 16) ltac:(lia)).
  assert (D : (x mod 2 ^ 16 + 2 ^ 16 + vcpu_id * 2 ^ 24) / 2 ^ 16 = 1 + vcpu_id * 2 ^ 8).
  { symmetry. apply (Z.div_unique _ _ _ (x mod 2 ^ 16)); lia. }
  split_and!.
  - symmetry. apply (Z.div_unique _ _ _ (x mod 2 ^ 16 + 2 ^ 16)); lia.
  - rewrite D, Z.mod_add by lia. done.
  - replace (_ + _ + _) with (x mod 2 ^ 16 + (1 + vcpu_id * 2 ^ 8) * 2 ^ 16) by lia.
    rewrite Z.mod_add by lia. by rewrite Z.mod_mod by lia.
Qed.

(** A field that is cleared. *)
Lemma land_clr_field x m n k :
  0 ≤ n → 0 ≤ k → forallb (fun i => Z.testbit m (n + i)) (seqZ 0 k) = true →
  Z.land (Z.shiftr (clr_bits x m) n) (Z.ones k) = 0.
Proof.
  intros Hn Hk Hm. apply Z.bits_inj'. intros i Hi.
  rewrite Z.land_spec, Z.bits_0, Z.shiftr_spec, testbit_clr_bits by lia.
  destruct (Z.lt_ge_cases i k); [|by rewrite Z.ones_spec_high, andb_false_r by lia].
  rewrite forallb_forall in Hm. rewrite (Z.add_comm i n), Hm by (apply list_elem_of_In, elem_of_seqZ; lia).
  by rewrite andb_false_r.
Qed.

(** A leaf that is listed is not another one. *)
Local Ltac listed F := intros []; rewrite F; repeat constructor.

Lemma entry_flat_adjust vcpu_id e :
  0 ≤ vcpu_id < 256 → entry_flat vcpu_id e (cpuid_adjust vcpu_id e).
Proof.
  intros Hv. unfold entry_flat, cpuid_adjust. cbv zeta.
  destruct (Z.eqb_spec (function e) 1) as [F|F1]; [|destruct (_ || _) eqn:G4].
  - split_and!; try done; try (intros; exfalso; lia); [|listed F].
    intros _. pose proof (ebx_apic_id (ebx e) vcpu_id Hv) as (A1 & A2 & A3). split_and!; try done.
    intros i Hi. simpl. rewrite testbit_clr_bits, Z.pow2_bits_eqb by lia. by rewrite Z.eqb_sym.
  - apply orb_true_iff in G4. rewrite !Z.eqb_eq in G4.
    split_and!; try done; try (intros; exfalso; lia); [|destruct G4 as [F|F]; listed F].
    intros _. simpl. change 0x3fff with (Z.ones 14). rewrite !Z.land_ones, Z.shiftr_div_pow2 by lia.
    rewrite Z.mod_mod, Z.div_small by (try apply Z.mod_pos_bound; lia). done.
  - apply orb_false_iff in G4. rewrite !Z.eqb_neq in G4. destruct (_ || _) eqn:Gb.
    { apply orb_true_iff in Gb. rewrite !Z.eqb_eq in Gb.
      split_and!; try done; try (intros; exfalso; lia); [|destruct Gb as [F|F]; listed F].
      intros _. simpl. split_and!; try done.
      - intros [-> | ->]; done.
      - intros Hi. destruct (Z.ltb_spec (index e) 2); [lia|]. by rewrite Z.lor_0_r. }
    apply orb_false_iff in Gb. rewrite !Z.eqb_neq in Gb.
    destruct (Z.eqb_spec (function e) 0x80000008) as [F|F2].
    { split_and!; try done; try (intros; exfalso; lia); [|listed F]. intros _. simpl. split_and!; try done.
      - pose proof (land_clr_field (ecx e) 0xf0ff 0 8 ltac:(lia) ltac:(lia) eq_refl) as C. by rewrite Z.shiftr_0_r in C.
      - apply (land_clr_field (ecx e) 0xf0ff 12 4); done. }
    destruct (Z.eqb_spec (function e) 0x8000001e) as [F|F3].
    all: split_and!; try done; try (intros; exfalso; lia). listed F.
Qed.

Hypothesis supported_errno : ∀ nent e, KVM_GET_SUPPORTED_CPUID nent = Errno e → 0 < e.
Hypothesis set_errno : ∀ k l k' e, KVM_SET_CPUID2 k l = (k', Errno e) → 0 < e.

(** The sizes that are tried, and what the kernel says when one is too small. *)
Definition cpuid_sizes : list Z := [100; 200; 400; 800].
Definition too_small (nent : Z) : Prop :=
  ∃ e, KVM_GET_SUPPORTED_CPUID nent = Errno e ∧ host_error_from_errno e = VM_E2BIG.

Definition probe_inv (nent : Z) : Prop :=
  (nent ∈ cpuid_sizes ∨ nent = 1600) ∧ ∀ n, n ∈ cpuid_sizes → n < nent → too_small n.

(** Why the probe gives up. *)
Definition probe_fails : Prop :=
  (∃ nent, nent ∈ cpuid_sizes ∧ malloc nent = false) ∨
  (∃ nent e, nent ∈ cpuid_sizes ∧ KVM_GET_SUPPORTED_CPUID nent = Errno e ∧ host_error_from_errno e ≠ VM_E2BIG) ∨
  (∀ nent, nent ∈ cpuid_sizes → too_small nent).

Lemma cpuid_sizes_bounds n : n ∈ cpuid_sizes → 100 ≤ n ≤ 800.
Proof. intros Hn. unfold cpuid_sizes in Hn. repeat (apply elem_of_cons in Hn as [->|Hn]; [lia|]). by apply elem_of_nil in Hn. Qed.

Lemma probe_inv_double nent :
  nent ∈ cpuid_sizes → probe_inv nent → too_small nent → probe_inv (nent * 2).
Proof.
  intros Hn [_ Before] Small. unfold cpuid_sizes in Hn. split.
  - repeat (apply elem_of_cons in Hn as [->|Hn]; [simpl; unfold cpuid_sizes; set_solver|]). by apply elem_of_nil in Hn.
  - intros n Hm Hlt. destruct (decide (n < nent)); [by apply Before|]. replace n with nent; [done|].
    unfold cpuid_sizes in Hm.
    repeat (apply elem_of_cons in Hm as [->|Hm];
            [by repeat (apply elem_of_cons in Hn as [->|Hn]; [lia|]); apply elem_of_nil in Hn|]).
    by apply elem_of_nil in Hm.
Qed.

Lemma probe_total :
  ∃ r, loop probe_body 100 = inr r ∧
    match r with
    | inl ret => ret < 0 ∧ probe_fails
    | inr l => ∃ nent, nent ∈ cpuid_sizes ∧ KVM_GET_SUPPORTED_CPUID nent = Done l ∧
                 ∀ n, n ∈ cpuid_sizes → n < nent → too_small n
    end.
Proof.
  apply (loop_total _ probe_inv (fun nent => 3200 - nent)).
  - intros nent [Hn Before]. unfold probe_body.
    destruct (Z.leb_spec nent MAX_KVM_CPUID_ENTRIES) as [Hle|Hgt]; unfold MAX_KVM_CPUID_ENTRIES in *.
    + destruct Hn as [Hn| ->]; [|lia]. pose proof (cpuid_sizes_bounds nent Hn).
      destruct (malloc nent) eqn:Em; simpl; [|split; [done|left; eauto]].
      destruct (KVM_GET_SUPPORTED_CPUID nent) as [l|e] eqn:Eg; [eauto|].
      pose proof (host_error_range e ltac:(pose proof (supported_errno _ _ Eg); lia)).
      destruct (Z.eqb_spec (- host_error_from_errno e) (- VM_E2BIG)) as [E|E].
      * split; [|lia]. apply probe_inv_double; [done|by split; [left|]|]. exists e. split; [done|lia].
      * split; [lia|]. right. left. exists nent, e. split; [done|]. split; [done|]. lia.
    + split; [done|]. right. right. intros n Hm. apply Before; [done|]. pose proof (cpuid_sizes_bounds n Hm). lia.
  - split; [left; unfold cpuid_sizes; set_solver|]. intros n Hm. pose proof (cpuid_sizes_bounds n Hm). lia.
  - lia.
Qed.

(** Every virtual processor is given a CPUID table of its own that describes
    one thread on one core of one package with the processor's number as APIC
    identifier, and is otherwise the first table the kernel had room for; the
    probe tries four sizes and ends.  It fails, with an error and nothing
    installed, only if memory is short or the kernel refuses. *)
Theorem kvm_cpuid_topology k vcpu_id :
  0 ≤ vcpu_id < 256 →
  let '(k', ret) := kvm_x86_cpuid_setup k vcpu_id in
  (ret = 0 ∧ ∃ nent l l', nent ∈ cpuid_sizes ∧ KVM_GET_SUPPORTED_CPUID nent = Done l ∧
     Forall2 (entry_flat vcpu_id) l l' ∧ KVM_SET_CPUID2 k l' = (k', Done ())) ∨
  (ret < 0 ∧ (k' = k ∧ probe_fails ∨ ∃ l e, KVM_SET_CPUID2 k l = (k', Errno e))).
Proof.
  intros Hv. unfold kvm_x86_cpuid_setup. destruct probe_total as (r & -> & P). destruct r as [ret|l].
  - right. destruct P. auto.
  - destruct P as (nent & Hn & Eg & _). destruct (KVM_SET_CPUID2 k _) as [k' [[]|e]] eqn:Es.
    + left. split; [done|]. exists nent, l, (cpuid_adjust vcpu_id <$> l). split_and!; try done.
      apply Forall2_fmap_r, Forall_Forall2_diag, Forall_forall. intros e _. by apply entry_flat_adjust.
    + right. pose proof (host_error_range e ltac:(pose proof (set_errno _ _ _ _ Es); lia)). split; [lia|].
      right. by eexists _, e.
Qed.
End Cpuid.

(** ** Exits *)

(** The exit reasons and directions of <linux/kvm.h>. *)
Definition KVM_EXIT_IO : Z := 2.
Definition KVM_EXIT_HLT : Z := 5.
Definition KVM_EXIT_MMIO : Z := 6.
Definition KVM_EXIT_SHUTDOWN : Z := 8.
Definition KVM_EXIT_INTERNAL_ERROR : Z := 17.
Definition KVM_EXIT_IO_OUT : Z := 1.

(** struct kvm_run: [page] is the shared mapping as bytes, in which the data of
    a port access lies at [data_offset]; [mmio_data] are the eight bytes of a
    memory access. *)
Record kvm_run : Type := mk_run {
  exit_reason : Z;
  direction : Z; io_size : Z; port : Z; count : Z; data_offset : Z;
  page : list Z;
  phys_addr : Z; mmio_len : Z; is_write : bool; mmio_data : list Z;
}.

Definition eta_run (r : kvm_run) : kvm_run :=
  mk_run (exit_reason r) (direction r) (io_size r) (port r) (count r) (data_offset r) (page r)
    (phys_addr r) (mmio_len r) (is_write r) (mmio_data r).
#[export] Instance set_page : Setter page := ltac:(derive_setter eta_run).
#[export] Instance set_mmio_data : Setter mmio_data := ltac:(derive_setter eta_run).

Section Exits.
Context `{HostErrors} {W : Type}.
Variable dev_read : Z → option (Space.io_region → Z → Z → W → W * Z).
Variable dev_write : Z → option (Space.io_region → Z → Z → Z → W → W).
Variable io_map : Space.io_map.

Definition io_read := Space.io_map_read dev_read io_map.
Definition io_write := Space.io_map_write dev_write io_map.

(** The sizes the two switches know. *)
Definition port_size (size : Z) : bool := (size =? 1) || (size =? 2) || (size =? 4).

(** One round of the loop over the items of a port access. *)
Definition pio_step (run : kvm_run) (st : list Z * W) (i : Z) : list Z * W :=
  let '(page, w) := st in
  let size := io_size run in
  let data := data_offset run + i * size in
  if direction run =? KVM_EXIT_IO_OUT then
    let val := if port_size size then get_le page data size else 0 in
    (page, io_write Space.IO_PIO (port run) val size w)
  else
    let '(w, val) := io_read Space.IO_PIO (port run) size w in
    (if port_size size then put_le page data size val else page, w).

Definition kvm_arch_vcpu_handle_exit (run : kvm_run) (w : W) : kvm_run * W * Z :=
  if exit_reason run =? KVM_EXIT_IO then
    let '(data, w) := foldl (pio_step run) (page run, w) (seqZ 0 (count run)) in
    (run <| page := data |>, w, 0)
  else if exit_reason run =? KVM_EXIT_SHUTDOWN then (run, w, - VM_EFAULT)
  else (run, w, - VM_ENOTSUP).

(** [memcpy] between [data] and the low bytes of a 64-bit variable. *)
Definition kvm_vcpu_handle_mmio_exit (run : kvm_run) (w : W) : kvm_run * W :=
  let gpa := phys_addr run in
  let size := u8 (mmio_len run) in
  if is_write run then
    let val := get_le (mmio_data run) 0 size in
    (run, io_write Space.IO_MMIO gpa val size w)
  else
    let '(w, val) := io_read Space.IO_MMIO gpa size w in
    (run <| mmio_data := put_le (mmio_data run) 0 size val |>, w).

(** ** The loop

    An iteration sees the stop flag and, if it is not set, what entering the
    processor ends with.  It answers the exit and goes round, or returns. *)
Definition iteration : Type := bool * sys kvm_run.

Definition run_body (it : iteration) (w : W) : W * (kvm_run + option Z) :=
  let '(stop, res) := it in
  if stop then (w, inr (Some 0))
  else
    match res with
    | Errno e =>
        if (e =? EINTR) || (e =? EAGAIN) then (w, inr None)
        else (w, inr (Some (- host_error_from_errno e)))
    | Done run =>
        if exit_reason run =? KVM_EXIT_MMIO then
          let '(run, w) := kvm_vcpu_handle_mmio_exit run w in (w, inl run)
        else if exit_reason run =? KVM_EXIT_HLT then (w, inr (Some 0))
        else if exit_reason run =? KVM_EXIT_INTERNAL_ERROR then (w, inr (Some (- VM_EFAULT)))
        else
          let '(run, w, ret) := kvm_arch_vcpu_handle_exit run w in
          if ret <? 0 then (w, inr (Some ret)) else (w, inl run)
    end.

(** The loop of [kvm_vcpu_run] over the iterations it goes through: the state
    of the devices, the answers to the exits, and the value it returns, if it
    has. *)
Fixpoint kvm_vcpu_loop (its : list iteration) (w : W) : W * list kvm_run * option Z :=
  match its with
  | [] => (w, [], None)
  | it :: its =>
      match run_body it w with
      | (w, inl run) => let '(w, answers, ret) := kvm_vcpu_loop its w in (w, run :: answers, ret)
      | (w, inr None) => kvm_vcpu_loop its w
      | (w, inr (Some ret)) => (w, [], Some ret)
      end
  end.

(** [kvm_signal_block] and [kvm_vcpu_setup_sigmask] come first. *)
Definition kvm_vcpu_run (block sigmask : Z) (its : list iteration) (w : W) : W * list kvm_run * option Z :=
  if block <? 0 then (w, [], Some block)
  else if sigmask <? 0 then (w, [], Some sigmask)
  else kvm_vcpu_loop its w.

(** ** Port accesses *)

(** The values of a run of reads from a port. *)
Fixpoint port_reads (run : kvm_run) (n : nat) (w : W) : list Z * W :=
  match n with
  | O => ([], w)
  | S n =>
      let '(vals, w) := port_reads run n w in
      let '(w, val) := io_read Space.IO_PIO (port run) (io_size run) w in
      (vals ++ [val], w)
  end.

Definition item (run : kvm_run) (i : Z) : Z :=
  get_le (page run) (data_offset run + i * io_size run) (io_size run).

Lemma port_size_range size : port_size size = true → 1 ≤ size ≤ 4.
Proof. unfold port_size. rewrite !orb_true_iff, !Z.eqb_eq. lia. Qed.

Lemma pio_out run w n :
  direction run = KVM_EXIT_IO_OUT → port_size (io_size run) = true →
  foldl (pio_step run) (page run, w) (seqZ 0 (Z.of_nat n)) =
  (page run, foldl (fun w v => io_write Space.IO_PIO (port run) v (io_size run) w) w
               (item run <$> seqZ 0 (Z.of_nat n))).
Proof.
  intros Hd Hs. induction n as [|n IH]; [done|].
  rewrite Nat2Z.inj_succ, <- Z.add_1_r, seqZ_app, fmap_app, !foldl_app by lia.
  change (seqZ (0 + Z.of_nat n) 1) with [0 + Z.of_nat n]. rewrite IH. cbn [foldl fmap list_fmap].
  unfold pio_step at 1. by rewrite Hd, Z.eqb_refl, Hs.
Qed.

Lemma length_port_reads run n w : length (port_reads run n w).1 = n.
Proof.
  induction n as [|n IH]; [done|]. simpl. destruct (port_reads run n w) as [vals w1].
  destruct (io_read _ _ _ w1) as [w2 v]. simpl in *. rewrite length_app. simpl. lia.
Qed.

Lemma pio_in run w n :
  direction run ≠ KVM_EXIT_IO_OUT → port_size (io_size run) = true → 0 ≤ data_offset run →
  data_offset run + Z.of_nat n * io_size run ≤ Z.of_nat (length (page run)) →
  let '(data, w1) := foldl (pio_step run) (page run, w) (seqZ 0 (Z.of_nat n)) in
  let '(vals, w2) := port_reads run n w in
  w1 = w2 ∧ length data = length (page run) ∧
  (∀ i v, vals !! i = Some v →
     get_le data (data_offset run + Z.of_nat i * io_size run) (io_size run) = v mod 2 ^ (8 * io_size run)) ∧
  (∀ j, 0 ≤ j → j < data_offset run ∨ data_offset run + Z.of_nat n * io_size run ≤ j →
     aget data j = aget (page run) j).
Proof.
  intros Hd Hs Ho. pose proof (port_size_range _ Hs). apply Z.eqb_neq in Hd. induction n as [|n IH]; intros Hl; [done|].
  specialize (IH ltac:(lia)). rewrite Nat2Z.inj_succ, <- Z.add_1_r, seqZ_app, foldl_app by lia.
  change (seqZ (0 + Z.of_nat n) 1) with [0 + Z.of_nat n]. cbn [foldl port_reads].
  pose proof (length_port_reads run n w) as Hn.
  destruct (foldl (pio_step run) _ _) as [data w1]. destruct (port_reads run n w) as [vals w2].
  destruct IH as (-> & L & G & O). simpl in Hn. unfold pio_step. rewrite Hd.
  destruct (io_read Space.IO_PIO (port run) (io_size run) w2) as [w3 v]. rewrite Hs, Z.add_0_l.
  split; [done|]. split; [by rewrite length_put_le by lia|]. split.
  - intros i u Hi. destruct (decide (i = n)) as [->|Hne].
    + rewrite lookup_app_r, Hn, Nat.sub_diag in Hi by lia. simplify_eq/=.
      rewrite Z.mul_comm. rewrite get_le_put by lia. by rewrite Z.mul_comm.
    + assert (i < n)%nat by (apply lookup_lt_Some in Hi; rewrite length_app, Hn in Hi; simpl in Hi; lia).
      rewrite lookup_app_l in Hi by lia. rewrite get_le_put_ne by nia. by apply G.
  - intros j Hj Hout. rewrite aget_put_le_ne by nia. apply O; [done|]. nia.
Qed.

(** C26. A port exit is served item by item in the order of its data, also for
    string instructions: on output the devices see the little-endian values of
    the items and the shared page is unchanged; on input each item receives the
    low bytes of the value a device returned for it, the devices are read
    exactly that often, and the rest of the page is unchanged. *)
Theorem kvm_pio_exit run w :
  exit_reason run = KVM_EXIT_IO → port_size (io_size run) = true → 0 ≤ count run → 0 ≤ data_offset run →
  data_offset run + count run * io_size run ≤ Z.of_nat (length (page run)) →
  let '(run', w', ret) := kvm_arch_vcpu_handle_exit run w in
  ret = 0 ∧
  (direction run = KVM_EXIT_IO_OUT →
     page run' = page run ∧
     w' = foldl (fun w v => io_write Space.IO_PIO (port run) v (io_size run) w) w
            (item run <$> seqZ 0 (count run))) ∧
  (direction run ≠ KVM_EXIT_IO_OUT →
     let '(vals, w2) := port_reads run (Z.to_nat (count run)) w in
     w' = w2 ∧ Z.of_nat (length vals) = count run ∧
     (∀ i v, vals !! i = Some v →
        item run' (Z.of_nat i) = v mod 2 ^ (8 * io_size run)) ∧
     (∀ j, 0 ≤ j → j < data_offset run ∨ data_offset run + count run * io_size run ≤ j →
        aget (page run') j = aget (page run) j)).
Proof.
  intros Hr Hs Hc Ho Hl. unfold kvm_arch_vcpu_handle_exit. rewrite Hr, Z.eqb_refl.
  rewrite <- (Z2Nat.id (count run)) in Hl |- * by done. set (n := Z.to_nat (count run)) in *. rewrite Nat2Z.id.
  destruct (Z.eqb_spec (direction run) KVM_EXIT_IO_OUT) as [Hd|Hd].
  - rewrite pio_out by done. split; [done|]. by split.
  - pose proof (pio_in run w n Hd Hs Ho Hl) as P. pose proof (length_port_reads run n w) as L.
    destruct (foldl _ _ _) as [data w1]. destruct (port_reads run n w) as [vals w2]. simpl in L.
    destruct P as (-> & _ & G & O). split; [done|]. split; [done|]. intros _. split; [done|]. split; [lia|].
    split; [|exact O]. exact G.
Qed.

(** A memory exit is served like a bus access of its width: a write hands
    the device the little-endian value of the data, a read stores the low bytes
    of the device's value and leaves the other bytes alone. *)
Theorem kvm_mmio_exit run w :
  0 ≤ mmio_len run ≤ 8 → length (mmio_data run) = 8%nat →
  let size := mmio_len run in
  let '(run', w') := kvm_vcpu_handle_mmio_exit run w in
  (is_write run = true →
     run' = run ∧ w' = io_write Space.IO_MMIO (phys_addr run) (get_le (mmio_data run) 0 size) size w) ∧
  (is_write run = false →
     let '(w2, val) := io_read Space.IO_MMIO (phys_addr run) size w in
     w' = w2 ∧ get_le (mmio_data run') 0 size = val mod 2 ^ (8 * size) ∧
     ∀ j, size ≤ j → aget (mmio_data run') j = aget (mmio_data run) j).
Proof.
  intros Hs Hl size. unfold kvm_vcpu_handle_mmio_exit. rewrite u8_small by (unfold is_u8; lia).
  destruct (is_write run); [done|]. destruct (io_read _ _ _ w) as [w2 val]. split; [done|]. intros _.
  split; [done|]. simpl. split; [apply get_le_put; lia|]. intros j Hj. apply aget_put_le_ne; lia.
Qed.

(** ** The loop *)

(** The value an iteration returns with, if it ends the loop. *)
Definition ends (it : iteration) : option Z :=
  match it with
  | (true, _) => Some 0
  | (false, Errno e) =>
      if decide (e = EINTR ∨ e = EAGAIN) then None else Some (- host_error_from_errno e)
  | (false, Done run) =>
      let r := exit_reason run in
      if decide (r = KVM_EXIT_IO ∨ r = KVM_EXIT_MMIO) then None
      else if decide (r = KVM_EXIT_HLT) then Some 0
      else if decide (r = KVM_EXIT_INTERNAL_ERROR ∨ r = KVM_EXIT_SHUTDOWN) then Some (- VM_EFAULT)
      else Some (- VM_ENOTSUP)
  end.

(** What serving an exit does to the devices. *)
Definition serve_exit (w : W) (it : iteration) : W :=
  match it with
  | (false, Done run) =>
      if exit_reason run =? KVM_EXIT_MMIO then (kvm_vcpu_handle_mmio_exit run w).2
      else (kvm_arch_vcpu_handle_exit run w).1.2
  | _ => w
  end.

(** The iterations before the one that ends the loop. *)
Fixpoint until_end (its : list iteration) : list iteration :=
  match its with
  | [] => []
  | it :: its => match ends it with Some _ => [] | None => it :: until_end its end
  end.

Lemma run_body_spec it w :
  match ends it with
  | Some ret => run_body it w = (w, inr (Some ret))
  | None => (run_body it w).1 = serve_exit w it ∧
            match (run_body it w).2 with inl _ | inr None => True | inr (Some _) => False end
  end.
Proof.
  destruct it as [[] [run|e]]; [done..| |]; cbn [ends run_body serve_exit].
  - destruct (decide (_ ∨ _)) as [[R|R]|N]; rewrite ?R.
    + simpl. unfold kvm_arch_vcpu_handle_exit. rewrite R. simpl. by destruct (foldl _ _ _) as [data w'].
    + simpl. by destruct (kvm_vcpu_handle_mmio_exit run w) as [run' w'].
    + apply Decidable.not_or in N as [N1 N2]. rewrite (proj2 (Z.eqb_neq _ _) N2).
      destruct (decide _) as [R|N3]; [by rewrite R|]. rewrite (proj2 (Z.eqb_neq _ _) N3).
      destruct (decide _) as [[R|R]|N4]; [by rewrite R| |].
      * rewrite R. simpl. unfold kvm_arch_vcpu_handle_exit. by rewrite R.
      * apply Decidable.not_or in N4 as [N4 N5]. rewrite (proj2 (Z.eqb_neq _ _) N4). unfold kvm_arch_vcpu_handle_exit.
        by rewrite (proj2 (Z.eqb_neq _ _) N1), (proj2 (Z.eqb_neq _ _) N5).
  - destruct (decide _) as [D|N]; [|apply Decidable.not_or in N as [N1 N2]; by rewrite (proj2 (Z.eqb_neq _ _) N1), (proj2 (Z.eqb_neq _ _) N2)].
    assert (((e =? EINTR) || (e =? EAGAIN)) = true) as -> by (rewrite orb_true_iff, !Z.eqb_eq; done). done.
Qed.

(** The loop of a processor serves exactly the exits that come before the
    first event that ends it, in order, and returns that event's code: zero on
    a stop request or a halt, an error if entering fails, on an internal error,
    a triple fault or an exit it does not know; interrupted entries are
    repeated.  In particular it returns as soon as it sees the stop request. *)
Theorem kvm_vcpu_run_spec its w :
  let '(w', _, ret) := kvm_vcpu_run 0 0 its w in
  ret = head (omap ends its) ∧ w' = foldl serve_exit w (until_end its) ∧
  (∀ n res, its !! n = Some (true, res) → is_Some ret ∧ (length (until_end its) ≤ n)%nat).
Proof.
  unfold kvm_vcpu_run. simpl. revert w. induction its as [|it its IH]; intros w; [done|].
  simpl. pose proof (run_body_spec it w) as B. destruct (ends it) as [r|] eqn:E.
  - rewrite B. split; [done|]. split; [done|]. intros n res _. split; [done|]. simpl. lia.
  - destruct B as [B1 B2]. destruct (run_body it w) as [w1 o]. simpl in B1, B2. subst w1.
    specialize (IH (serve_exit w it)).
    assert (St : ∀ ret : option Z, (∀ n res, its !! n = Some (true, res) → is_Some ret ∧ (length (until_end its) ≤ n)%nat) →
      ∀ n res, (it :: its) !! n = Some (true, res) → is_Some ret ∧ (length (it :: until_end its) ≤ n)%nat).
    { intros ret Hn [|n] res; simpl; [by intros [= ->]|]. intros Hi%Hn. split; [apply Hi|]. destruct Hi. lia. }
    destruct o as [run|[]]; [|done|].
    + destruct (kvm_vcpu_loop its _) as [[w2 a] ret]. destruct IH as (-> & -> & IH). by eauto.
    + destruct (kvm_vcpu_loop its _) as [[w2 a] ret]. destruct IH as (-> & -> & IH). by eauto.
Qed.
End Exits.

(** ** Examples *)

(** A kernel whose table has more than 100 entries. *)
Definition example_cpuid (nent : Z) : sys (list cpuid_entry) :=
  if nent <? 200 then Errno 7
  else Done [mk_entry 1 0 0 0x806ea 0x05100800 0x7ffafbbf 0xbfebfbff; mk_entry 0xb 1 1 4 8 0x201 5].
Definition example_install (k l : list cpuid_entry) : list cpuid_entry * sys unit := (l, Done ()).

Lemma kvm_cpuid_topology_witness :
  ∃ l', (kvm_x86_cpuid_setup (H := linux_errors) (fun _ => true) example_cpuid example_install [] 3).1 = l' ∧
    Forall2 (entry_flat 3) (match example_cpuid 200 with Done l => l | Errno _ => [] end) l'.
Proof.
  pose proof (kvm_cpuid_topology (H := linux_errors) (fun _ => true) example_cpuid example_install
    ltac:(intros nent e; unfold example_cpuid; destruct (nent <? 200); [intros [= <-]; lia|done])
    ltac:(done) [] 3 ltac:(lia)) as T.
  destruct (kvm_x86_cpuid_setup _ _ _ _ _) as [k' ret] eqn:E. exists k'. split; [done|].
  assert (ret = 0) as -> by (vm_compute in E; congruence).
  destruct T as [(_ & nent & l & l' & Hn & El & F & [= <-])|[]]; [|lia].
  unfold example_cpuid in El. by destruct (nent <? 200); simplify_eq.
Defined.

(** A serial port that records what is written to it. *)
Definition example_map : Space.io_map := Space.mk_map [Space.mk_io 1 7 0x3f8 8 Space.IO_PIO true] [].
Definition example_dev_write (dev : Z) : option (Space.io_region → Z → Z → Z → list Z → list Z) :=
  Some (fun _ off val _ w => w ++ [off; val]).
Definition example_dev_read (dev : Z) : option (Space.io_region → Z → Z → list Z → list Z * Z) :=
  Some (fun _ off _ w => (w ++ [off], 0x60)).
Definition example_outs : kvm_run := mk_run KVM_EXIT_IO KVM_EXIT_IO_OUT 1 0x3f8 2 4 [0; 0; 0; 0; 72; 105] 0 0 false [].

Lemma kvm_pio_exit_witness :
  (kvm_arch_vcpu_handle_exit example_dev_read example_dev_write example_map example_outs []).1.2 = [0; 72; 0; 105].
Proof.
  pose proof (kvm_pio_exit example_dev_read example_dev_write example_map example_outs []
    eq_refl eq_refl ltac:(done) ltac:(done) ltac:(done)) as T.
  destruct (kvm_arch_vcpu_handle_exit _ _ _ _ _) as [[run' w'] ret]. destruct T as (_ & T & _).
  destruct (T eq_refl) as [_ ->]. reflexivity.
Defined.

End Run.
