(* ===== verification/KvmAccel.v ===== *)
(** * The accelerator (src/accel/kvm/kvm_main.c, src/accel/kvm/vcpu.c, src/accel/kvm/signal.c)

    The descriptors and mappings the program holds on the kernel's virtual
    machine, the memory slots it hands to it, and the signal that interrupts a
    running processor.  System calls are parameters: each takes its outcome as
    an argument. *)

From S2P Require Import Prelude ResPool Topology Host.

Module Accel.
Import Host.

Definition KVM_API_VERSION : Z := 12.
Definition KVM_MEM_READONLY : Z := 2.

(** ** Descriptors *)

(** Calls that acquire and release what the kernel hands out, in order. *)
Inductive handle : Type := Fd (fd : Z) | Mapping (addr size : Z) | Memory.
Inductive handle_op : Type := Acquire (h : handle) | Release (h : handle).

Record kvm_state : Type := mk_kvm { kvm_fd : Z; vm_fd : Z; mem_slot_idx : Z }.

Definition eta_kvm (s : kvm_state) : kvm_state := mk_kvm (kvm_fd s) (vm_fd s) (mem_slot_idx s).
#[export] Instance set_kvm_fd : Setter kvm_fd := ltac:(derive_setter eta_kvm).
#[export] Instance set_vm_fd : Setter vm_fd := ltac:(derive_setter eta_kvm).
#[export] Instance set_mem_slot_idx : Setter mem_slot_idx := ltac:(derive_setter eta_kvm).

Definition INVALID_FD : Z := -1.
Definition IS_VALID_FD (fd : Z) : bool := 0 <=? fd.

Section Init.
Context `{HostErrors}.

(** [signal] is what [kvm_signal_init] returns; [accel->priv] is the first
    result. *)
Definition kvm_accel_init (signal : Z) (calloc : bool) (open_kvm : sys Z) (api_version : Z)
    (create_vm : sys Z) : option kvm_state * Z * list handle_op :=
  if signal <? 0 then (None, signal, [])
  else if negb calloc then (None, - VM_ENOMEM, [])
  else
    let state := mk_kvm INVALID_FD INVALID_FD 0 in
    let ops := [Acquire Memory] in
    match open_kvm with
    | Errno e => (Some state, - host_error_from_errno e, ops)
    | Done raw_fd =>
        let state := state <| kvm_fd := raw_fd |> in
        let ops := ops ++ [Acquire (Fd raw_fd)] in
        if negb (api_version =? KVM_API_VERSION) then (Some state, - VM_ENOTSUP, ops)
        else
          match create_vm with
          | Errno e => (Some state, - host_error_from_errno e, ops)
          | Done raw_fd =>
              let state := state <| vm_fd := raw_fd |> in
              (Some (state <| mem_slot_idx := 0 |>), 0, ops ++ [Acquire (Fd raw_fd)])
          end
    end.

Definition kvm_accel_destroy (priv : option kvm_state) : option kvm_state * list handle_op :=
  match priv with
  | None => (None, [])
  | Some state =>
      (None,
       (if IS_VALID_FD (vm_fd state) then [Release (Fd (vm_fd state))] else []) ++
       (if IS_VALID_FD (kvm_fd state) then [Release (Fd (kvm_fd state))] else []) ++ [Release Memory])
  end.

(** [run] is the address of the mapping, [None] while there is none or when
    [mmap] failed. *)
Record kvm_vcpu_state : Type := mk_vcpu { vcpu_fd : Z; run_size : Z; run : option Z }.

Definition kvm_vcpu_init (calloc : bool) (create_vcpu : sys Z) (arch_init : Z) (mmap_size : sys Z)
    (mmap : sys Z) : option kvm_vcpu_state * Z * list handle_op :=
  if negb calloc then (None, - VM_ENOMEM, [])
  else
    let ops := [Acquire Memory] in
    match create_vcpu with
    | Errno e => (Some (mk_vcpu INVALID_FD 0 None), - host_error_from_errno e, ops)
    | Done raw_fd =>
        let ops := ops ++ [Acquire (Fd raw_fd)] in
        if arch_init <? 0 then (Some (mk_vcpu raw_fd 0 None), arch_init, ops)
        else
          match mmap_size with
          | Errno e => (Some (mk_vcpu raw_fd (-1) None), - host_error_from_errno e, ops)
          | Done run_size =>
              match mmap with
              | Errno e => (Some (mk_vcpu raw_fd run_size None), - host_error_from_errno e, ops)
              | Done addr =>
                  (Some (mk_vcpu raw_fd run_size (Some addr)), 0, ops ++ [Acquire (Mapping addr run_size)])
              end
          end
    end.

Definition kvm_vcpu_destroy (priv : option kvm_vcpu_state) : option kvm_vcpu_state * list handle_op :=
  match priv with
  | None => (None, [])
  | Some state =>
      (None,
       (match run state with Some addr => [Release (Mapping addr (run_size state))] | None => [] end) ++
       (if IS_VALID_FD (vcpu_fd state) then [Release (Fd (vcpu_fd state))] else []) ++ [Release Memory])
  end.

Definition kvm_accel_irqchip_setup (create_irqchip create_pit2 : sys unit) : Z :=
  match create_irqchip with
  | Errno e => - host_error_from_errno e
  | Done _ =>
      match create_pit2 with
      | Errno e => - host_error_from_errno e
      | Done _ => 0
      end
  end.

(** ** Memory slots *)

(** struct kvm_userspace_memory_region. *)
Record hw_region : Type := mk_hw {
  slot : Z; guest_phys_addr : Z; memory_size : Z; userspace_addr : Z; hw_flags : Z;
}.

(** [res] is the outcome of the ioctl, which keeps the regions by slot. *)
Definition kvm_accel_map_ram (state : kvm_state) (slots : gmap Z hw_region) (reg : Space.mem_region)
    (res : sys unit) : kvm_state * gmap Z hw_region * Z :=
  let slot_val := mem_slot_idx state in
  let hw_reg := mk_hw slot_val (Space.ram_gpa reg) (Space.ram_size reg) (Space.hva reg)
                  (if has (Space.flags reg) Space.MEM_READONLY then Z.lor 0 KVM_MEM_READONLY else 0) in
  match res with
  | Errno e => (state, slots, - host_error_from_errno e)
  | Done _ => (state <| mem_slot_idx := u32 (slot_val + 1) |>, <[slot_val := hw_reg]> slots, 0)
  end.

(** A machine and the kernel's copy of its memory layout. *)
Record machine : Type := mk_machine { vm : Space.vm_ctx; kvm : kvm_state; slots : gmap Z hw_region }.

(** [vm_add_ram] with this accelerator, which it calls once it has the pages. *)
Definition kvm_add_ram (m : machine) (gpa size flags : Z) (calloc : bool) (pages : err_ptr Z)
    (res : sys unit) : machine * Z :=
  let map_ram reg := (kvm_accel_map_ram (kvm m) (slots m) reg res).2 in
  let '(ctx, ret, ops) := Space.vm_add_ram (vm m) gpa size flags calloc pages (Some map_ram) in
  match ops with
  | Space.AllocNode :: Space.AllocPages hva _ :: _ =>
      let '(kvm, slots, _) := kvm_accel_map_ram (kvm m) (slots m) (Space.mk_ram gpa size hva flags) res in
      (mk_machine ctx kvm slots, ret)
  | _ => (mk_machine ctx (kvm m) (slots m), ret)
  end.

(** ** Properties *)

(** A system call that succeeds returns a descriptor. *)
Definition fd_ok (res : sys Z) : Prop := match res with Done fd => 0 ≤ fd | Errno e => 0 < e end.

Lemma fd_valid fd : 0 ≤ fd → IS_VALID_FD fd = true.
Proof. intros. by apply Z.leb_le. Qed.

Lemma errno_negative e : 0 < e → - host_error_from_errno e < 0.
Proof. intros. pose proof (host_error_range e). lia. Qed.

(** What was acquired is released, the last first; three things on success. *)
Definition balanced (ret : Z) (ops ops' : list handle_op) : Prop :=
  ∃ hs, ops = Acquire <$> hs ∧ ops' = Release <$> reverse hs ∧ (ret = 0 ∧ length hs = 3%nat ∨ ret < 0).

(** An outcome with the handles [hs]. *)
Local Ltac outcome hs :=
  cbn -[host_error_from_errno]; rewrite ?fd_valid by assumption; split; [reflexivity|]; exists hs;
  split; [reflexivity|]; split; [reflexivity|];
  first [left; split; reflexivity | right; first [assumption | reflexivity | by apply errno_negative]].

Lemma kvm_accel_balanced signal calloc open_kvm api create_vm :
  fd_ok open_kvm → fd_ok create_vm →
  let '(priv, ret, ops) := kvm_accel_init signal calloc open_kvm api create_vm in
  let '(priv', ops') := kvm_accel_destroy priv in
  priv' = None ∧ balanced ret ops ops'.
Proof.
  intros Ho Hc. unfold kvm_accel_init. destruct (Z.ltb_spec signal 0); [outcome (@nil handle)|].
  destruct calloc; [|outcome (@nil handle)].
  destruct open_kvm as [fd|e]; simpl in Ho; [|outcome [Memory]].
  destruct (api =? KVM_API_VERSION); [|outcome [Memory; Fd fd]].
  destruct create_vm as [fd'|e]; simpl in Hc; [outcome [Memory; Fd fd; Fd fd']|outcome [Memory; Fd fd]].
Qed.

Lemma kvm_vcpu_balanced calloc create arch_init mmap_size mmap :
  fd_ok create → fd_ok mmap_size → fd_ok mmap →
  let '(priv, ret, ops) := kvm_vcpu_init calloc create arch_init mmap_size mmap in
  let '(priv', ops') := kvm_vcpu_destroy priv in
  priv' = None ∧ balanced ret ops ops'.
Proof.
  intros Ho Hs Hm. unfold kvm_vcpu_init. destruct calloc; [|outcome (@nil handle)].
  destruct create as [fd|e]; simpl in Ho; [|outcome [Memory]].
  cbn [negb]. destruct (Z.ltb_spec arch_init 0); [outcome [Memory; Fd fd]|].
  destruct mmap_size as [n|e]; simpl in Hs; [|outcome [Memory; Fd fd]].
  destruct mmap as [a|e]; simpl in Hm; [outcome [Memory; Fd fd; Mapping a n]|outcome [Memory; Fd fd]].
Qed.

(** The accelerator and each processor give back what they acquired: wherever
    their initialization stopped, destruction releases exactly the descriptors,
    the mapping and the memory that were obtained, each once, in the reverse
    order, so that a virtual machine is closed before the device it came from
    and the shared page is unmapped before its processor is closed.
    Initialization returns zero only if everything was obtained. *)
Theorem kvm_handles_balanced signal calloc open_kvm api create_vm calloc' create arch_init mmap_size mmap :
  fd_ok open_kvm → fd_ok create_vm → fd_ok create → fd_ok mmap_size → fd_ok mmap →
  (let '(priv, ret, ops) := kvm_accel_init signal calloc open_kvm api create_vm in
   let '(priv', ops') := kvm_accel_destroy priv in
   priv' = None ∧ balanced ret ops ops') ∧
  (let '(priv, ret, ops) := kvm_vcpu_init calloc' create arch_init mmap_size mmap in
   let '(priv', ops') := kvm_vcpu_destroy priv in
   priv' = None ∧ balanced ret ops ops').
Proof. intros. split; [by apply kvm_accel_balanced|by apply kvm_vcpu_balanced]. Qed.

(** The slot of the [i]th bank. *)
Definition hw_of (i : nat) (r : Space.mem_region) : hw_region :=
  mk_hw (Z.of_nat i) (Space.ram_gpa r) (Space.ram_size r) (Space.hva r)
    (if has (Space.flags r) Space.MEM_READONLY then KVM_MEM_READONLY else 0).

Inductive machine_step : machine → machine → Prop :=
| machine_ram m gpa size flags calloc pages res :
    is_u64 gpa → is_u64 size → Z.of_nat (length (Space.regions (Space.mem (vm m)))) < 2 ^ 32 - 1 →
    (∀ e, pages = ERR_PTR e → e < 0) → (∀ e, res = Errno e → 0 < e) →
    machine_step m (kvm_add_ram m gpa size flags calloc pages res).1
| machine_io m ctx :
    Space.topology_step (vm m) ctx → Space.mem ctx = Space.mem (vm m) →
    machine_step m (mk_machine ctx (kvm m) (slots m)).

Record slots_inv (m : machine) : Prop := {
  slots_topology : Space.topology_inv (vm m);
  slots_next : mem_slot_idx (kvm m) = Z.of_nat (length (Space.regions (Space.mem (vm m))));
  slots_regions : ∀ z, slots m !! z =
    if decide (0 ≤ z) then hw_of (Z.to_nat z) <$> Space.regions (Space.mem (vm m)) !! Z.to_nat z else None;
}.

Lemma map_ram_ret state slots reg res :
  (∀ e, res = Errno e → 0 < e) → 0 ≤ (kvm_accel_map_ram state slots reg res).2 → res = Done ().
Proof.
  intros He. unfold kvm_accel_map_ram. destruct res as [[]|e]; simpl; [done|].
  pose proof (errno_negative e (He e eq_refl)). lia.
Qed.

Lemma slots_insert (l : list Space.mem_region) (s : gmap Z hw_region) r :
  (∀ z, s !! z = if decide (0 ≤ z) then hw_of (Z.to_nat z) <$> l !! Z.to_nat z else None) →
  ∀ z, <[Z.of_nat (length l) := hw_of (length l) r]> s !! z =
       if decide (0 ≤ z) then hw_of (Z.to_nat z) <$> (l ++ [r]) !! Z.to_nat z else None.
Proof.
  intros Hs z. destruct (decide (z = Z.of_nat (length l))) as [->|Hne].
  - rewrite lookup_insert_eq, decide_True, Nat2Z.id by lia. by rewrite list_lookup_middle.
  - rewrite lookup_insert_ne, Hs by done. destruct (decide (0 ≤ z)); [|done].
    destruct (Nat.lt_ge_cases (Z.to_nat z) (length l)); [by rewrite lookup_app_l by done|].
    rewrite lookup_app_r, lookup_ge_None_2 by lia. simpl. by destruct (Z.to_nat z - length l)%nat eqn:Ez; [lia|].
Qed.

(** The accelerator is called only when the pages are there, and decides. *)
Lemma vm_add_ram_called ctx gpa size flags calloc pages f ctx' ret hva sz rest :
  Space.vm_add_ram ctx gpa size flags calloc pages (Some f) =
    (ctx', ret, Space.AllocNode :: Space.AllocPages hva sz :: rest) →
  ret < 0 → f (Space.mk_ram gpa size hva flags) < 0.
Proof.
  unfold Space.vm_add_ram. intros E Hr. repeat (case_match; simplify_eq/=; try done); lia.
Qed.

Lemma vm_add_ram_slots m gpa size flags calloc pages res :
  slots_inv m → is_u64 gpa → is_u64 size →
  Z.of_nat (length (Space.regions (Space.mem (vm m)))) < 2 ^ 32 - 1 →
  (∀ e, pages = ERR_PTR e → e < 0) → (∀ e, res = Errno e → 0 < e) →
  slots_inv (kvm_add_ram m gpa size flags calloc pages res).1.
Proof.
  intros [It In Is] Hg Hz Hl Hp He. unfold kvm_add_ram. cbv zeta.
  set (f := fun reg => (kvm_accel_map_ram (kvm m) (slots m) reg res).2).
  pose proof (Space.vm_add_ram_inv (vm m) gpa size flags calloc pages (Some f) It Hg Hz) as It'.
  pose proof (Space.vm_add_ram_cases (vm m) gpa size flags calloc pages (Some f) It Hg Hz) as C.
  destruct (Space.vm_add_ram _ _ _ _ _ _ _) as [[ctx ret] ev] eqn:Ea. simpl in It'.
  destruct C as [[-> Hret]|(hva & f' & -> & -> & [= <-] & Hf & -> & -> & _)].
  - assert (ret < 0) as Hneg by (destruct Hret as [|(e & -> & ->)]; eauto).
    destruct ev as [|[] [|[| |hva sz|] rest]]; try done.
    pose proof (vm_add_ram_called _ _ _ _ _ _ _ _ _ _ _ _ Ea Hneg) as Hf. unfold f, kvm_accel_map_ram in Hf |- *.
    by destruct res as [[]|e].
  - apply map_ram_ret in Hf as ->; [|done]. unfold kvm_accel_map_ram. simpl. rewrite In.
    split; simpl; [done|rewrite length_app, u32_small by (unfold is_u32; lia); simpl; lia|].
    rewrite Z.lor_0_l. exact (slots_insert _ _ (Space.mk_ram gpa size hva flags) Is).
Qed.

(** C27. The kernel's view of guest memory is the program's: after any sequence of
    additions of RAM, successful or not, and of changes to the I/O maps, the
    slots are numbered from zero without gaps, each holds exactly the bank that
    was added at that position, with its size, host address and write
    protection, and two slots never overlap. *)
Theorem kvm_slots_match m0 m :
  slots m0 = ∅ → mem_slot_idx (kvm m0) = 0 → Space.regions (Space.mem (vm m0)) = [] →
  Space.topology_inv (vm m0) → rtc machine_step m0 m →
  (∀ z, slots m !! z =
     if decide (0 ≤ z) then hw_of (Z.to_nat z) <$> Space.regions (Space.mem (vm m)) !! Z.to_nat z else None) ∧
  (∀ z1 z2 s1 s2, z1 ≠ z2 → slots m !! z1 = Some s1 → slots m !! z2 = Some s2 →
     Space.apart (guest_phys_addr s1) (memory_size s1) (guest_phys_addr s2) (memory_size s2)).
Proof.
  intros E1 E2 E3 It R. assert (I : slots_inv m0).
  { split; [done|by rewrite E2, E3|]. intros z. rewrite E1, E3. by destruct (decide _). }
  clear E1 E2 E3 It. assert (I' : slots_inv m); [|clear I R].
  { induction R as [|m1 m2 m3 S _ IH]; [done|]. apply IH. destruct S as [m gpa size flags calloc pages res|m ctx St Em].
    - by apply vm_add_ram_slots.
    - destruct I as [It In Is]. split; simpl; [|by rewrite Em..].
      by eapply Space.topology_step_inv. }
  destruct I' as [It _ Is]. split; [done|]. intros z1 z2 s1 s2 Hne H1 H2. rewrite Is in H1, H2.
  destruct (decide (0 ≤ z1)), (decide (0 ≤ z2)); try done.
  apply fmap_Some in H1 as (r1 & H1 & ->). apply fmap_Some in H2 as (r2 & H2 & ->). simpl.
  destruct (decide (z1 < z2)).
  - apply (ForallOrdPairs_lookup _ _ _ _ _ _ (Space.mem_apart _ (Space.topo_mem _ It)) H1 H2). lia.
  - apply Space.apart_sym, (ForallOrdPairs_lookup _ _ _ _ _ _ (Space.mem_apart _ (Space.topo_mem _ It)) H2 H1). lia.
Qed.

(** ** The wakeup signal *)

(** The first real-time signal whose disposition is the default or to ignore it
    ([unused]) and that can be claimed, or -1. *)
Definition initialize_wakeup_signal (sigrtmin sigrtmax : Z) (unused claim : Z → bool) : Z :=
  default (-1) (find (fun signum => unused signum && claim signum) (seqZ sigrtmin (sigrtmax - sigrtmin + 1))).

(** [once] is what [pthread_once] returns. *)
Definition kvm_signal_init (once wakeup_signum : Z) : Z :=
  if negb (once =? 0) then - host_error_from_errno once
  else if wakeup_signum <? 0 then - VM_ENOSPC else 0.

Definition kvm_signal_block (wakeup_signum pthread_sigmask : Z) : Z :=
  if wakeup_signum =? -1 then - VM_EINVAL else - host_error_from_errno pthread_sigmask.

(** The mask of the calling thread, without the wakeup signal. *)
Definition kvm_signal_run_mask (wakeup_signum pthread_sigmask : Z) (mask : gset Z) (sigdelset : sys unit) :
    Z * gset Z :=
  if wakeup_signum =? -1 then (- VM_EINVAL, mask)
  else if negb (pthread_sigmask =? 0) then (- host_error_from_errno pthread_sigmask, mask)
  else
    match sigdelset with
    | Errno e => (- host_error_from_errno e, mask)
    | Done _ => (0, mask ∖ {[wakeup_signum]})
    end.

(** The kernel's format of a signal mask: bit n - 1 for signal n. *)
Definition sigset_bits (mask : gset Z) : Z :=
  foldl (fun bits signum => if bool_decide (signum ∈ mask) then Z.lor bits (Z.shiftl 1 (signum - 1)) else bits)
    0 (seqZ 1 64).

(** The mask that is installed, and the value returned. *)
Definition kvm_vcpu_setup_sigmask (malloc : bool) (run_mask : Z * gset Z) (set_mask : sys unit) : option Z * Z :=
  if negb malloc then (None, - VM_ENOMEM)
  else
    let '(ret, mask) := run_mask in
    if ret <? 0 then (None, ret)
    else
      match set_mask with
      | Errno e => (None, - host_error_from_errno e)
      | Done _ => (Some (sigset_bits mask), 0)
      end.

Lemma sigset_bits_upto (mask : gset Z) n k :
  (n ≤ 64)%nat → 0 ≤ k →
  Z.testbit
    (foldl (fun bits signum => if bool_decide (signum ∈ mask) then Z.lor bits (Z.shiftl 1 (signum - 1)) else bits)
       0 (seqZ 1 (Z.of_nat n))) k =
  bool_decide (k < Z.of_nat n) && bool_decide (k + 1 ∈ mask).
Proof.
  intros Hn Hk. induction n as [|n IH].
  - rewrite Z.bits_0, bool_decide_eq_false_2 by lia. done.
  - rewrite seqZ_S, foldl_app by lia. cbn [foldl]. specialize (IH ltac:(lia)).
    assert (E : Z.testbit (Z.shiftl 1 (1 + Z.of_nat n - 1)) k = bool_decide (k = Z.of_nat n)).
    { rewrite Z.shiftl_1_l, Z.pow2_bits_eqb by lia.
      destruct (Z.eqb_spec (1 + Z.of_nat n - 1) k); symmetry; [apply bool_decide_eq_true|apply bool_decide_eq_false]; lia. }
    destruct (decide (k = Z.of_nat n)) as [->|Hne].
    + rewrite (bool_decide_eq_true_2 (Z.of_nat n < _)) by lia. rewrite bool_decide_eq_false_2 in IH by lia.
      rewrite (Z.add_comm (Z.of_nat n) 1). destruct (bool_decide (1 + _ ∈ mask)); [|by rewrite IH].
      rewrite Z.lor_spec, E, (bool_decide_eq_true_2 (Z.of_nat n = _)) by done. by rewrite orb_true_r.
    + transitivity (bool_decide (k < Z.of_nat n) && bool_decide (k + 1 ∈ mask)).
      * destruct (bool_decide (1 + Z.of_nat n ∈ mask)); [|done].
        rewrite Z.lor_spec, E, IH, (bool_decide_eq_false_2 (k = _)) by done. apply orb_false_r.
      * f_equal. apply bool_decide_ext. lia.
Qed.

(** While a processor runs, the signals that are blocked are those of its thread
    except the wakeup signal, which can always interrupt it. *)
Lemma kvm_sigmask_spec wakeup mask bits ret :
  kvm_vcpu_setup_sigmask true (kvm_signal_run_mask wakeup 0 mask (Done ())) (Done ()) = (Some bits, ret) →
  Z.testbit bits (wakeup - 1) = false ∧
  ∀ n, 1 ≤ n ≤ 64 → n ≠ wakeup → Z.testbit bits (n - 1) = bool_decide (n ∈ mask).
Proof.
  unfold kvm_vcpu_setup_sigmask, kvm_signal_run_mask. simpl. destruct (wakeup =? -1); [done|]. simpl.
  intros [= <- <-]. split.
  - destruct (Z.lt_ge_cases (wakeup - 1) 0); [by apply Z.testbit_neg_r|].
    unfold sigset_bits. rewrite (sigset_bits_upto _ 64) by lia.
    rewrite (bool_decide_eq_false_2 (_ ∈ _)); [apply andb_false_r|].
    rewrite elem_of_difference, elem_of_singleton. intros [_ N]. apply N. lia.
  - intros n Hn Hne. unfold sigset_bits. rewrite (sigset_bits_upto _ 64), Z.sub_add by lia.
    rewrite bool_decide_eq_true_2 by lia. simpl. apply bool_decide_ext.
    rewrite elem_of_difference, elem_of_singleton. tauto.
Qed.
End Init.

(** ** Examples *)

Lemma kvm_handles_balanced_witness :
  let '(priv, ret, ops) := kvm_accel_init (H := linux_errors) 0 true (Done 3) 12 (Errno 12) in
  ret = - VM_ENOMEM ∧ balanced ret ops (kvm_accel_destroy priv).2.
Proof.
  destruct (kvm_handles_balanced (H := linux_errors) 0 true (Done 3) 12 (Errno 12) true (Done 4) 0 (Done 4096) (Done 65536)
    ltac:(done) ltac:(done) ltac:(done) ltac:(done) ltac:(done)) as [[_ B] _].
  split; [reflexivity|exact B].
Defined.

Definition example_machine0 : machine :=
  mk_machine (Space.empty_machine true 4096) (mk_kvm 3 4 0) ∅.
Definition example_machine1 : machine :=
  (kvm_add_ram (H := linux_errors) example_machine0 0 0x9f000 2 true (Ptr 0x7f0000000000) (Done ())).1.
Definition example_machine2 : machine :=
  (kvm_add_ram (H := linux_errors) example_machine1 0x100000 0x100000 2 true (Ptr 0x7f0000100000) (Errno 22)).1.
Definition example_machine3 : machine :=
  (kvm_add_ram (H := linux_errors) example_machine2 0x100000 0x100000 3 true (Ptr 0x7f0000100000) (Done ())).1.

Lemma kvm_slots_match_witness :
  slots example_machine3 !! 1 = Some (mk_hw 1 0x100000 0x100000 0x7f0000100000 2) ∧ slots example_machine3 !! 2 = None.
Proof.
  assert (R : rtc (machine_step (H := linux_errors)) example_machine0 example_machine3).
  { eapply rtc_l; [|eapply rtc_l; [|eapply rtc_once]]; constructor; try (unfold is_u64; lia);
      try (vm_compute; reflexivity); intros e; intros [= <-]; lia. }
  destruct (kvm_slots_match (H := linux_errors) example_machine0 example_machine3
    eq_refl eq_refl eq_refl (Space.empty_machine_inv true 4096) R) as [S _].
  rewrite !S. split; reflexivity.
Defined.

End Accel.
