(* ===== verification/Kick.v ===== *)
(** * Interrupting a processor (src/accel/kvm/signal.c, src/accel/kvm/vcpu.c, src/host/posix/thread.c)

    A thread that wants a processor to stop stores the stop request and then
    sends the processor's thread a signal.  The thread may be anywhere in
    [kvm_vcpu_run] then: it looks at the request before it enters the guest, and
    blocks the signal except while the guest runs, where it interrupts it.  A
    step is one call of either thread; the two race. *)

From S2P Require Import Prelude Host KvmAccel.

Module Kick.
Import Host.

(** Where [kvm_vcpu_run] is: before [kvm_signal_block], before
    [kvm_vcpu_setup_sigmask], before the look at the stop request, before the
    KVM_RUN call, in the guest, returned. *)
Inductive pc : Type := Start | Masking | Check | Entering | Guest | Returned (ret : Z).

(** [mask] are the signals the thread blocks, [run_mask] those it blocks in the
    guest, in the kernel's format; [pending] is whether the wakeup signal waits to
    be delivered; [kickers] counts the threads that have stored the request and
    not sent the signal, and [failed] says that sending it failed once. *)
Record state : Type := mk_state {
  at_pc : pc;
  mask : gset Z;
  run_mask : Z;
  pending : bool;
  stop : bool;
  kickers : nat;
  failed : bool;
}.

Definition eta_state (s : state) : state :=
  mk_state (at_pc s) (mask s) (run_mask s) (pending s) (stop s) (kickers s) (failed s).
#[export] Instance set_at_pc : Setter at_pc := ltac:(derive_setter eta_state).
#[export] Instance set_mask : Setter mask := ltac:(derive_setter eta_state).
#[export] Instance set_run_mask : Setter run_mask := ltac:(derive_setter eta_state).
#[export] Instance set_pending : Setter pending := ltac:(derive_setter eta_state).
#[export] Instance set_stop : Setter stop := ltac:(derive_setter eta_state).
#[export] Instance set_kickers : Setter kickers := ltac:(derive_setter eta_state).
#[export] Instance set_failed : Setter failed := ltac:(derive_setter eta_state).

(** The steps of the processor's thread, with the outcomes of its calls:
    blocking the signal, installing the mask, looking, entering, being
    interrupted, leaving the guest for another reason, which goes round or
    returns; and those of the others: storing the request and sending the signal
    with [pthread_kill]. *)
Inductive event : Type :=
| Block (sigmask : Z)
| Setup (malloc : bool) (sigmask : Z) (sigdelset set_mask : sys unit)
| Look
| Enter
| Interrupt
| Leave (ret : option Z)
| Store
| Signal (kill : Z).

Section Kick.
Context `{HostErrors}.
(** The signal that was claimed for this. *)
Variable wakeup : Z.

Definition in_guest (s : state) : bool := match at_pc s with Guest => true | _ => false end.

(** Does the signal interrupt the guest?  KVM_RUN returns as soon as a signal
    waits that is not in its mask. *)
Definition interrupts (s : state) : bool := pending s && negb (Z.testbit (run_mask s) (wakeup - 1)).

(** A signal that is delivered runs the handler, which does nothing; one that
    the thread blocks, or that comes while the guest runs, waits. *)
Definition kvm_interrupt_handler (s : state) : state := s.

Definition deliver (s : state) : state :=
  if in_guest s || bool_decide (wakeup ∈ mask s) then s <| pending := true |> else kvm_interrupt_handler s.

(** [kvm_vcpu_kick] on the thread, by [host_posix_thread_signal]. *)
Definition kvm_vcpu_kick (s : state) (kill : Z) : state * Z :=
  (if kill =? 0 then deliver s else s, - host_error_from_errno kill).

(** Back from KVM_RUN with EINTR the thread's own mask is in force again: the
    signal is delivered only if that does not block it. *)
Definition kvm_run_interrupted (s : state) : state :=
  let s := if bool_decide (wakeup ∈ mask s) then s else kvm_interrupt_handler (s <| pending := false |>) in
  s <| at_pc := Check |>.

Definition enabled (s : state) (e : event) : Prop :=
  match e, at_pc s with
  | Block r, Start => 0 ≤ r
  | Setup _ r d m, Masking => 0 ≤ r ∧ match d with Errno e => 0 < e | _ => True end ∧ match m with Errno e => 0 < e | _ => True end
  | Look, Check => True
  | Enter, Entering => True
  | Interrupt, Guest => interrupts s = true
  | Leave _, Guest => True
  | Store, _ => True
  | Signal r, _ => (0 < kickers s)%nat ∧ 0 ≤ r
  | _, _ => False
  end.

Definition exec (s : state) (e : event) : state :=
  match e with
  | Block r =>
      let ret := Accel.kvm_signal_block wakeup r in
      if ret <? 0 then s <| at_pc := Returned ret |>
      else let s := s <| mask := {[wakeup]} ∪ mask s |> in s <| at_pc := Masking |>
  | Setup malloc r d m =>
      match Accel.kvm_vcpu_setup_sigmask malloc (Accel.kvm_signal_run_mask wakeup r (mask s) d) m with
      | (Some bits, _) => let s := s <| run_mask := bits |> in s <| at_pc := Check |>
      | (None, ret) => s <| at_pc := Returned ret |>
      end
  | Look => s <| at_pc := if stop s then Returned 0 else Entering |>
  | Enter => if interrupts s then kvm_run_interrupted s else s <| at_pc := Guest |>
  | Interrupt => kvm_run_interrupted s
  | Leave ret => s <| at_pc := match ret with None => Check | Some r => Returned r end |>
  | Store => let s := s <| stop := true |> in s <| kickers := S (kickers s) |>
  | Signal r =>
      let '(s, ret) := kvm_vcpu_kick s r in
      let s := s <| kickers := pred (kickers s) |> in
      if ret <? 0 then s <| failed := true |> else s
  end.

Inductive reach (m : gset Z) : state → Prop :=
| reach_start bits : reach m (mk_state Start m bits false false 0 false)
| reach_step s e : reach m s → enabled s e → reach m (exec s e).

(** ** Invariant *)

Definition prepared (p : pc) : bool := match p with Check | Entering | Guest => true | _ => false end.
Definition past_look (p : pc) : bool := match p with Entering | Guest => true | _ => false end.

Record inv (s : state) : Prop := {
  i_mask : at_pc s = Masking ∨ prepared (at_pc s) = true → wakeup ∈ mask s;
  i_run : prepared (at_pc s) = true → Z.testbit (run_mask s) (wakeup - 1) = false;
  i_stop : (0 < kickers s)%nat → stop s = true;
  i_kick : past_look (at_pc s) = true → stop s = true → (0 < kickers s)%nat ∨ failed s = true ∨ pending s = true;
}.

Lemma setup_unmasks malloc r m d sm bits ret :
  0 ≤ r → match d with Errno e => 0 < e | _ => True end →
  Accel.kvm_vcpu_setup_sigmask malloc (Accel.kvm_signal_run_mask wakeup r m d) sm = (Some bits, ret) →
  Z.testbit bits (wakeup - 1) = false.
Proof.
  intros Hr Hd E. destruct malloc; [|done]. destruct sm as [[]|e].
  2: { unfold Accel.kvm_vcpu_setup_sigmask in E. simpl in E. destruct (Accel.kvm_signal_run_mask _ _ _ _) as [x y]. by destruct (x <? 0). }
  destruct (decide (r = 0)) as [->|Hn].
  - destruct d as [[]|e]; [by apply (Accel.kvm_sigmask_spec wakeup m bits ret) in E as [? _]|].
    unfold Accel.kvm_vcpu_setup_sigmask, Accel.kvm_signal_run_mask in E. simpl in E. destruct (wakeup =? -1); simpl in E; [done|].
    pose proof (host_error_range e). destruct (Z.ltb_spec (- host_error_from_errno e) 0); [done|lia].
  - unfold Accel.kvm_vcpu_setup_sigmask, Accel.kvm_signal_run_mask in E. simpl in E. destruct (wakeup =? -1); simpl in E; [done|].
    destruct (Z.eqb_spec r 0); [lia|]. simpl in E. pose proof (host_error_range r Hn).
    destruct (Z.ltb_spec (- host_error_from_errno r) 0); [done|lia].
Qed.

(** In a state that satisfies the invariant a signal that waits interrupts. *)
Lemma inv_interrupts s : inv s → prepared (at_pc s) = true → interrupts s = pending s.
Proof. intros [_ Hr _ _] Hp. unfold interrupts. rewrite Hr by done. apply andb_true_r. Qed.

Lemma interrupted_inv s : inv s → prepared (at_pc s) = true → inv (kvm_run_interrupted s).
Proof.
  intros [Hm Hr Hs _] Hp. specialize (Hm (or_intror Hp)). unfold kvm_run_interrupted. rewrite bool_decide_true by done.
  split; cbn; auto. done.
Qed.

(** The fields of the invariant, after a step from a known place. *)
Local Ltac fields_hold :=
  split; cbn; intros; repeat match goal with D : _ ∨ _ |- _ => destruct D end; try done; try congruence; auto.

Lemma inv_change s s' :
  inv s → at_pc s' = at_pc s → mask s' = mask s → run_mask s' = run_mask s → stop s' = true →
  (past_look (at_pc s) = true → failed s' = true ∨ pending s' = true) → inv s'.
Proof. intros [Hm Hr Hs Hk] Ea Em Er Es Hp. split; rewrite ?Ea, ?Em, ?Er; auto. Qed.

Lemma signal_inv s kill : inv s → (0 < kickers s)%nat → 0 ≤ kill → inv (exec s (Signal kill)).
Proof.
  intros I Hk0 Hkill. pose proof I as [Hm _ Hs _]. specialize (Hs Hk0). cbn [exec]. unfold kvm_vcpu_kick, deliver.
  destruct (Z.eqb_spec kill 0) as [->|Hn].
  - change (- host_error_from_errno 0 <? 0) with false. cbv iota.
    destruct (in_guest s || bool_decide (wakeup ∈ mask s)) eqn:G; eapply inv_change; eauto; cbn; auto.
    intros Hp. apply orb_false_iff in G as [_ G]. apply bool_decide_eq_false in G. contradict G. apply Hm. right. by destruct (at_pc s).
  - pose proof (host_error_range kill Hn). destruct (Z.ltb_spec (- host_error_from_errno kill) 0); [|lia].
    eapply inv_change; eauto; cbn; auto.
Qed.

Lemma kick_step_inv s e : inv s → enabled s e → inv (exec s e).
Proof.
  intros I En. pose proof I as [Hm Hr Hs Hk]. destruct e; unfold enabled in En;
    [destruct (at_pc s) eqn:E; try done; cbn in *; cbn [exec]..| |].
  - destruct (_ <? 0); fields_hold. apply elem_of_union_l. by apply elem_of_singleton.
  - destruct En as (Hr0 & Hd & _). destruct (Accel.kvm_vcpu_setup_sigmask _ _ _) as [[bits|] ret] eqn:Es; fields_hold.
    by eapply setup_unmasks.
  - destruct (stop s) eqn:Est; fields_hold. rewrite Est. auto.
  - destruct (interrupts s) eqn:Ei; [apply interrupted_inv; [done|by rewrite E]|]. fields_hold.
  - apply interrupted_inv; [done|by rewrite E].
  - destruct ret; fields_hold.
  - cbn [exec]. split; cbn; auto. lia.
  - assert (Hk' : (0 < kickers s)%nat ∧ 0 ≤ kill) by (revert En; by destruct (at_pc s)). destruct Hk' as [Hk1 Hk2]. exact (signal_inv s kill I Hk1 Hk2).
Qed.

Lemma kick_reach_inv m s : reach m s → inv s.
Proof.
  induction 1 as [|s e R IH En]; [|by apply kick_step_inv]. split; cbn; intros; try done; [by destruct H0|lia].
Qed.

(** ** The wakeup is not lost *)

(** Is this a step of the processor's thread? *)
Definition own (e : event) : bool := match e with Store | Signal _ => false | _ => true end.

(** Steps left to the return. *)
Definition rank (p : pc) : nat :=
  match p with Start => 3 | Masking | Entering | Guest => 2 | Check => 1 | Returned _ => 0 end.

Lemma told_to_stop s :
  inv s → stop s = true → kickers s = 0%nat → failed s = false → past_look (at_pc s) = true → pending s = true.
Proof. intros [_ _ _ Hk] Es Ek Ef Hp. destruct (Hk Hp Es) as [?|[?|?]]; [lia|congruence|done]. Qed.

Lemma interrupted_rank s :
  stop s = true → kickers s = 0%nat → failed s = false →
  (rank (at_pc (kvm_run_interrupted s)) < 2)%nat ∧ stop (kvm_run_interrupted s) = true ∧
  kickers (kvm_run_interrupted s) = 0%nat ∧ failed (kvm_run_interrupted s) = false.
Proof. intros. unfold kvm_run_interrupted. destruct (bool_decide _); cbn; split_and!; auto. Qed.

(** C18. Wherever a processor's thread is when it is told to stop: once the
    request is stored and the signals are sent, if none of them failed, the
    processor's thread has returned or can take a step of its own, which needs
    nothing of the guest, and each of its steps brings it closer to the return,
    which is at most three away.  So a stop request never meets a guest that runs
    on, neither when it comes between the look at it and the entry, nor when it
    comes before the thread blocks the signal. *)
Theorem kick_never_lost m s :
  reach m s → stop s = true → kickers s = 0%nat → failed s = false →
  ((∃ r, at_pc s = Returned r) ∨ ∃ e, own e = true ∧ (∀ r, e ≠ Leave r) ∧ enabled s e) ∧
  (∀ e, own e = true → enabled s e →
     (rank (at_pc (exec s e)) < rank (at_pc s))%nat ∧ stop (exec s e) = true ∧ kickers (exec s e) = 0%nat ∧ failed (exec s e) = false).
Proof.
  intros R Es Ek Ef. pose proof (kick_reach_inv m s R) as I. split.
  - destruct (at_pc s) as [| | | | |r] eqn:E; [right..|by eauto].
    + exists (Block 0). unfold enabled. rewrite E. done.
    + exists (Setup true 0 (Done tt) (Done tt)). unfold enabled. rewrite E. done.
    + exists Look. unfold enabled. rewrite E. done.
    + exists Enter. unfold enabled. rewrite E. done.
    + exists Interrupt. unfold enabled. rewrite E. split_and!; [done..|]. rewrite inv_interrupts by (rewrite ?E; done).
      by apply told_to_stop; rewrite ?E.
  - intros e Ho En. destruct e; try done; unfold enabled in En; destruct (at_pc s) eqn:E; try done; cbn [exec].
    + destruct (_ <? 0); cbn; split_and!; auto with lia.
    + destruct (Accel.kvm_vcpu_setup_sigmask _ _ _) as [[]]; cbn; split_and!; auto with lia.
    + rewrite Es. cbn. split_and!; auto with lia.
    + rewrite (inv_interrupts s I), (told_to_stop s I Es Ek Ef) by (by rewrite E). by apply interrupted_rank.
    + by apply interrupted_rank.
    + destruct ret; cbn; split_and!; auto with lia.
Qed.
End Kick.

(** ** Witness *)

#[local] Existing Instance linux_errors.

(** The request comes between the look and the entry, the signal after it. *)
Definition example_state : state :=
  foldl (exec 34) (mk_state Start ∅ 0 false false 0 false)
    [Block 0; Setup true 0 (Done tt) (Done tt); Look; Store; Enter; Signal 0].

Lemma example_state_reached : reach 34 ∅ example_state.
Proof.
  unfold example_state. cbn [foldl]. do 6 (apply reach_step; [|by vm_compute; repeat split; try lia; discriminate]).
  apply reach_start.
Qed.

Lemma kick_never_lost_witness :
  at_pc example_state = Guest ∧ (∃ e, own e = true ∧ (∀ r, e ≠ Leave r) ∧ enabled 34 example_state e) ∧
  at_pc (exec 34 (exec 34 example_state Interrupt) Look) = Returned 0.
Proof.
  split; [vm_compute; reflexivity|]. split; [|vm_compute; reflexivity].
  destruct (kick_never_lost 34 ∅ example_state example_state_reached ltac:(reflexivity) ltac:(reflexivity) ltac:(reflexivity))
    as [[[r E]|E] _]; [|exact E]. exfalso. vm_compute in E. discriminate.
Defined.
End Kick.
