(* ===== verification/VmInit.v ===== *)
(** * Building and destroying a machine (src/core/vm.c: vm_init, vm_destroy)

    [vm_init] builds a machine in steps that may each fail, and registers a
    cleanup for each in the machine's resource pool; [vm_destroy] runs them.
    The function is a program of a small monad with a state and errors; what
    the other parts of the program and the host answer is a parameter. *)

From S2P Require Import Prelude Monad ResPool Device.

Module Init.
Import Prog ResPool.

(** ** Configuration *)

(** A pointer to a backend: NULL, an error pointer, or an object. *)
Inductive pointer (A : Type) : Type := Null | Err | Obj (a : A).
Arguments Null {A}.
Arguments Err {A}.
Arguments Obj {A} a.

(** A board: its [ops->init] may be missing, [late_init] is optional. *)
Inductive board : Type := NoBoard | Broken | Board (late_init : bool).

(** struct vm_config.  A drive is known by its position; a network backend by
    what its [get_mac] returns, an error or six bytes.  The arrays are [None]
    for a NULL pointer, with the number of elements the caller claims. *)
Record vm_config : Type := mk_config {
  accel_name : option (list Z);
  nr_vcpus : Z;
  loader_name : option (list Z);
  loader_opts : option (list Z);
  config_board : board;
  console : pointer unit;
  nr_drives : Z;
  drives : option (list (pointer unit));
  nr_nets : Z;
  nets : option (list (pointer (Z + list Z)));
}.

(** What a hook of the board does to [ctx->resources]: it makes an object that
    goes to the pool, as [virtio_device_alloc] does, or one leaves the pool, for
    that of the device which adopts it or because it is destroyed; and the
    hook's return value if it gets to its end. *)
Inductive hook_op : Type := Make (data : Z) | Leave (data : Z).
Record hook : Type := mk_hook { h_ops : list hook_op; h_ret : Z }.

(** What the rest of the program answers: [io_ctx_create], [host_mutex_create],
    [mem_space_init], whether [accel_find] finds the engine and what its [init]
    returns, the board's hooks, [vcpu_init] for each processor, and
    [ctx->run_error] at the end. *)
Record answers : Type := mk_answers {
  a_io : err_ptr Z;
  a_lock : err_ptr Z;
  a_mem : Z;
  a_accel : option Z;
  a_board : hook;
  a_vcpu : nat → Z;
  a_late : hook;
  a_error : Z;
}.

(** ** Objects with a destructor *)

Inductive cleanup : Type := io_cleanup | mutex_cleanup | memory_cleanup | accel_cleanup | vcpu_cleanup | board_cleanup.
#[export] Instance cleanup_eq : EqDecision cleanup.
Proof. solve_decision. Defined.

Inductive object : Type := IoCtx (a : Z) | ThreadLock (a : Z) | MemSpace | Accel | Vcpu (a : Z) | BoardObj (a : Z).
#[export] Instance object_eq : EqDecision object.
Proof. solve_decision. Defined.

(** The calls that set an object up and tear it down. *)
Inductive event : Type := Init (o : object) | Destroy (o : object).
#[export] Instance event_eq : EqDecision event.
Proof. solve_decision. Defined.

Definition object_of (f : cleanup) (data : Z) : object :=
  match f with
  | io_cleanup => IoCtx data
  | mutex_cleanup => ThreadLock data
  | memory_cleanup => MemSpace
  | accel_cleanup => Accel
  | vcpu_cleanup => Vcpu data
  | board_cleanup => BoardObj data
  end.

(** [accel_destroy] and [vcpu_destroy] do nothing for an object whose
    operations were never set, that is, which was not initialized. *)
Definition run_cleanup (f : cleanup) (data : Z) (t : list event) : list event :=
  if bool_decide (Init (object_of f data) ∈ t) then t ++ [Destroy (object_of f data)] else t.

(** ** The monad

    The pool [ctx->resources], the allocator's next answers, and the calls made
    so far on the objects that are the machine's to tear down; a result is an
    error or a value. *)
Record state : Type := mk_state {
  pool : @res_pool cleanup;
  mem : list (option Z);
  trace : list event;
}.

Definition M (A : Type) : Type := prog state A.
#[local] Open Scope prog_scope.

Definition zalloc (size : Z) : M (option Z) := fun s =>
  let '(p, a) := res_zalloc (Some (pool s)) size (default None (head (mem s))) in
  (mk_state (default (pool s) p) (List.tl (mem s)) (trace s), inr a).

Definition add_action (f : cleanup) (data : Z) : M Z := fun s =>
  let '(p, ret) := res_add_action (Some (pool s)) (Some f) data (default None (head (mem s))) in
  (mk_state (default (pool s) p) (List.tl (mem s)) (trace s), inr ret).

Definition add_action_or_reset (f : cleanup) (data : Z) : M Z := fun s =>
  let '(p, ret, reset) := res_add_action_or_reset (Some (pool s)) (Some f) data (default None (head (mem s))) in
  (mk_state (default (pool s) p) (List.tl (mem s))
     (match reset with Some (f, d) => run_cleanup f d (trace s) | None => trace s end), inr ret).

Definition init (o : object) : M unit := fun s =>
  (mk_state (pool s) (mem s) (trace s ++ [Init o]), inr tt).

(** An object that was just made goes to the pool, or is destroyed at once. *)
Definition own (f : cleanup) (data : Z) : M unit :=
  init (object_of f data) ;;
  let* ret := add_action_or_reset f data in
  check ret.

(** The cleanup of an object is registered before it is set up. *)
Definition register (f : cleanup) (data : Z) : M unit :=
  let* ret := add_action f data in
  check ret.

(** An object leaves the machine's pool, and is no longer the machine's. *)
Definition leave (data : Z) : M Z := fun s =>
  let '(p, ret) := res_cancel_action (Some (pool s)) (Some board_cleanup) data in
  (mk_state (default (pool s) p) (mem s)
     (if ret <? 0 then trace s else filter (fun e => e ≠ Init (BoardObj data)) (trace s)), inr ret).

(** ** vm_init *)

Definition sizeof_vcpu_run_data : Z := 16.
Definition sizeof_ptr : Z := 8.
Definition sizeof_vcpu : Z := 32.

(** Addresses inside struct vm_ctx, which only have to be distinct from NULL. *)
Definition addr_mem_space : Z := 1.
Definition addr_accel : Z := 2.

Definition config_invalid (c : vm_config) : bool :=
  negb (bool_decide (is_Some (accel_name c))) || (nr_vcpus c =? 0) ||
  (SIZE_MAX / sizeof_ptr <? nr_nets c) || (SIZE_MAX / sizeof_ptr <? nr_drives c) ||
  (negb (nr_nets c =? 0) && bool_decide (nets c = None)) ||
  (negb (nr_drives c =? 0) && bool_decide (drives c = None)).

(** The copy of one string. *)
Definition copy_string (str : option (list Z)) : M unit :=
  match str with
  | None => mret tt
  | Some s =>
      let* copy := zalloc (Z.of_nat (length s) + 1) in
      refuse (bool_decide (copy = None)) (- VM_ENOMEM)
  end.

Definition copy_array (n : Z) : M unit :=
  if n =? 0 then mret tt
  else
    let* copy := zalloc (n * sizeof_ptr) in
    refuse (bool_decide (copy = None)) (- VM_ENOMEM).

Definition copy_config (c : vm_config) : M unit :=
  copy_string (accel_name c) ;;
  copy_string (loader_name c) ;;
  copy_string (loader_opts c) ;;
  copy_array (nr_drives c) ;;
  copy_array (nr_nets c).

Fixpoint check_drives (l : list (pointer unit)) : M unit :=
  match l with
  | [] => mret tt
  | Obj _ :: l => check_drives l
  | _ :: _ => fail (- VM_EINVAL)
  end.

(** The inner loop: [mac] against those of the backends before it. *)
Fixpoint check_mac (mac : list Z) (before : list (pointer (Z + list Z))) : M unit :=
  match before with
  | [] => mret tt
  | Obj (inl ret) :: _ => fail ret
  | Obj (inr other) :: before =>
      refuse (bool_decide (mac = other)) (- VM_EEXIST) ;; check_mac mac before
  | _ :: _ => fail (- VM_EINVAL)
  end.

Fixpoint check_nets (before l : list (pointer (Z + list Z))) : M unit :=
  match l with
  | [] => mret tt
  | Obj (inl ret) :: _ => fail ret
  | Obj (inr mac) :: l => check_mac mac before ;; check_nets (before ++ [Obj (inr mac)]) l
  | _ :: _ => fail (- VM_EINVAL)
  end.

(** The I/O context and the lock, up to line 187. *)
Definition make_locks (a : answers) : M unit :=
  match a_io a with
  | ERR_PTR e => fail e
  | Ptr io =>
      own io_cleanup io ;;
      match a_lock a with
      | ERR_PTR e => fail e
      | Ptr lock => own mutex_cleanup lock
      end
  end.

Definition make_memory (a : answers) : M unit :=
  register memory_cleanup addr_mem_space ;;
  init MemSpace ;;
  check (a_mem a).

Definition make_accel (a : answers) : M unit :=
  register accel_cleanup addr_accel ;;
  match a_accel a with
  | None => fail (- VM_ENOENT)
  | Some ret => init Accel ;; check ret
  end.

Fixpoint make_vcpus (a : answers) (i n : nat) : M unit :=
  match n with
  | O => mret tt
  | S n =>
      let* vcpu := zalloc sizeof_vcpu in
      match vcpu with
      | None => fail (- VM_ENOMEM)
      | Some vcpu =>
          register vcpu_cleanup vcpu ;;
          init (Vcpu vcpu) ;;
          check (a_vcpu a i) ;;
          make_vcpus a (S i) n
      end
  end.

(** A hook of the board, which gives up at the first operation that fails. *)
Fixpoint run_ops (ops : list hook_op) : M unit :=
  match ops with
  | [] => mret tt
  | Make d :: ops => own board_cleanup d ;; run_ops ops
  | Leave d :: ops => (let* ret := leave d in check ret) ;; run_ops ops
  end.

Definition run_hook (h : hook) : M unit := run_ops (h_ops h) ;; check (h_ret h).

Definition has_late_init (b : board) : bool := match b with Board late => late | _ => false end.

Definition vm_init_body (config : option vm_config) (a : answers) : M unit :=
  match config with
  | None => fail (- VM_EINVAL)
  | Some c =>
      refuse (config_invalid c) (- VM_EINVAL) ;;
      refuse (match config_board c with Broken => true | _ => false end) (- VM_EINVAL) ;;
      refuse (SIZE_MAX <? nr_vcpus c * sizeof_vcpu_run_data) (- VM_EOVERFLOW) ;;
      copy_config c ;;
      refuse (match console c with Err => true | _ => false end) (- VM_EINVAL) ;;
      check_drives (take (Z.to_nat (nr_drives c)) (default [] (drives c))) ;;
      check_nets [] (take (Z.to_nat (nr_nets c)) (default [] (nets c))) ;;
      make_locks a ;;
      make_memory a ;;
      make_accel a ;;
      (match config_board c with Board _ => run_hook (a_board a) | _ => mret tt end) ;;
      let* vcpus := zalloc (nr_vcpus c * sizeof_ptr) in
      let* vcpu_threads := zalloc (nr_vcpus c * sizeof_ptr) in
      refuse (bool_decide (vcpus = None) || bool_decide (vcpu_threads = None)) (- VM_ENOMEM) ;;
      make_vcpus a 0 (Z.to_nat (nr_vcpus c)) ;;
      (if has_late_init (config_board c) then run_hook (a_late a) else mret tt) ;;
      check (a_error a)
  end.

(** The machine, and the return value: 0 means [VM_READY]. *)
Definition vm_init (id : Z) (allocs : list (option Z)) (config : option vm_config) (a : answers) : state * Z :=
  match vm_init_body config a (mk_state (res_pool_init id) allocs []) with
  | (s, inl e) => (s, e)
  | (s, inr _) => (s, 0)
  end.

(** ** vm_destroy *)

(** The devices, then the pool: their events and the calls that were made. *)
Definition vm_destroy (s : state) (devices : list Dev.device) : option (list Dev.event * list event) :=
  t ← Dev.destroy_devices (S (length devices)) devices;
  match res_release_all (fun f d '(p, w) => (p, run_cleanup f d w)) (Some (pool s)) (trace s) with
  | Some (Released _ calls _) => Some (t, calls)
  | _ => None
  end.

(** ** Unwinding *)

(** Every object set up is torn down once, the newest first. *)
Definition nested (objs : list object) : list event := (Init <$> objs) ++ (Destroy <$> reverse objs).

Definition unwound (s : state) : list event :=
  foldl (fun t '(f, d) => run_cleanup f d t) (trace s) (reverse (obligations (pool s))).

Definition owned (p : @res_pool cleanup) : list object := (fun '(f, d) => object_of f d) <$> obligations p.

(** The board's objects after some operations. *)
Fixpoint kept (here : list Z) (ops : list hook_op) : list Z :=
  match ops with
  | [] => here
  | Make d :: ops => kept (here ++ [d]) ops
  | Leave d :: ops => kept (filter (fun x => x ≠ d) here) ops
  end.

Fixpoint fresh (here : list Z) (ops : list hook_op) : Prop :=
  match ops with
  | [] => True
  | Make d :: ops => d ∉ here ∧ fresh (here ++ [d]) ops
  | Leave d :: ops => fresh (filter (fun x => x ≠ d) here) ops
  end.

(** The objects of the board in a machine that was built. *)
Definition board_objects (b : board) (a : answers) : list Z :=
  match b with
  | Board late => kept [] (h_ops (a_board a) ++ (if late then h_ops (a_late a) else []))
  | _ => []
  end.

Lemma kept_app ops' ops : ∀ here, kept here (ops ++ ops') = kept (kept here ops) ops'.
Proof. induction ops as [|[d|d] ops IH]; intros here; simpl; auto. Qed.

Lemma fresh_app ops' ops : ∀ here, fresh here (ops ++ ops') ↔ fresh here ops ∧ fresh (kept here ops) ops'.
Proof. induction ops as [|[d|d] ops IH]; intros here; simpl; rewrite ?IH; tauto. Qed.

Section Proofs.
(** How many answers the allocator gives in all. *)
Variable n : nat.

Record pool_ok (s : state) : Prop := {
  ok_pool : pool_inv (pool s);
  ok_open : releasing (pool s) = false;
  ok_size : (length (resources (pool s)) + length (mem s) ≤ n)%nat;
}.

(** A machine under construction, with these objects. *)
Record building (objs : list object) (s : state) : Prop := {
  bd_pool : pool_ok s;
  bd_trace : trace s = Init <$> objs;
  bd_owned : owned (pool s) = objs;
  bd_nodup : NoDup objs;
}.

(** The objects of a machine, in the order of construction: those of the board
    come before and after the processors. *)
Definition core (io lock : Z) (bs vs bs' : list Z) : list object :=
  [IoCtx io; ThreadLock lock; MemSpace; Accel] ++ (BoardObj <$> bs) ++ (Vcpu <$> vs) ++ (BoardObj <$> bs').

Definition in_order (objs : list object) : Prop := ∃ io lock bs vs bs', objs `prefix_of` core io lock bs vs bs'.

(** A machine whose construction failed. *)
Definition failed (s : state) : Prop := pool_ok s ∧ ∃ objs, in_order objs ∧ unwound s = nested objs.

#[local] Abbreviation triple := (Prog.triple failed).

(** Running the cleanups of objects that were all set up, on a trace that
    already ends in the teardown of later ones. *)
Lemma run_cleanups obl : ∀ t,
  (∀ f d, (f, d) ∈ obl → Init (object_of f d) ∈ t) →
  foldl (fun t '(f, d) => run_cleanup f d t) t obl = t ++ (Destroy <$> ((fun '(f, d) => object_of f d) <$> obl)).
Proof.
  induction obl as [|[f d] obl IH]; intros t Ht; simpl; [by rewrite app_nil_r|].
  unfold run_cleanup at 2. rewrite bool_decide_eq_true_2 by (apply Ht; left). rewrite IH.
  - by rewrite <- app_assoc.
  - intros f' d' H'. apply elem_of_app. left. apply Ht. by right.
Qed.

Lemma building_unwound objs s : building objs s → unwound s = nested objs.
Proof.
  intros [_ Et Eo _]. unfold unwound, nested. rewrite run_cleanups.
  - rewrite Et. f_equal. f_equal. rewrite <- Eo. unfold owned. by rewrite fmap_reverse.
  - intros f d H. rewrite Et. apply list_elem_of_fmap. eexists. split; [done|]. rewrite <- Eo.
    rewrite elem_of_reverse in H. unfold owned. apply list_elem_of_fmap. by exists (f, d).
Qed.

Lemma building_failed objs s : in_order objs → building objs s → failed s.
Proof. intros Ho B. split; [apply B|]. exists objs. split; [done|]. by apply building_unwound. Qed.

Lemma in_order_app objs l : in_order (objs ++ l) → in_order objs.
Proof. intros (io & lock & bs & vs & bs' & P). exists io, lock, bs, vs, bs'. etrans; [|exact P]. by exists l. Qed.

Lemma zalloc_triple objs size : triple (building objs) (zalloc size) (fun _ => building objs).
Proof.
  intros s B. pose proof B as [[I R L] Et Eo Nd]. unfold zalloc, res_zalloc. destruct (_ || _).
  - simpl. split; [|done..]. split; [done..|]. simpl. destruct (mem s); simpl in *; lia.
  - destruct (mem s) as [|[a|] m] eqn:Em; simpl.
    + split; [|done..]. split; [done..|]. simpl in *. lia.
    + split; [|done|simpl|done].
      * split; [by apply pool_inv_snoc|done|]. simpl in *. rewrite length_app. simpl. lia.
      * unfold owned in *. rewrite obligations_snoc. simpl. by rewrite app_nil_r.
    + split; [|done..]. split; [done..|]. simpl in *. lia.
Qed.

(** [res_add_action] on the pool of the machine. *)
Lemma add_action_cases s f d :
  pool_ok s →
  let '(p, ret) := res_add_action (Some (pool s)) (Some f) d (default None (head (mem s))) in
  ret = 0 ∧ pool_ok (mk_state (default (pool s) p) (List.tl (mem s)) (trace s)) ∧ ((f, d) ∉ obligations (pool s)) ∧
    obligations (default (pool s) p) = obligations (pool s) ++ [(f, d)] ∨
  ret < 0 ∧ p = Some (pool s) ∧ pool_ok (mk_state (pool s) (List.tl (mem s)) (trace s)) ∧
    (ret = - VM_EEXIST → (f, d) ∈ obligations (pool s)).
Proof.
  intros [I R L]. assert (Ok : pool_ok (mk_state (pool s) (List.tl (mem s)) (trace s))).
  { split; [done..|]. simpl. destruct (mem s); simpl in *; lia. }
  unfold res_add_action. rewrite R. destruct (existsb (node_is f d) (resources (pool s))) eqn:Ex.
  - right. split_and!; try done. intros _. apply existsb_exists in Ex as (nd & Hin & Hnd).
    unfold obligations. apply list_elem_of_omap. exists nd. split; [by apply list_elem_of_In|].
    unfold node_is, obligation in *. apply andb_true_iff in Hnd as [E1 E2].
    apply bool_decide_eq_true in E1. apply Z.eqb_eq in E2. rewrite E1, E2. done.
  - apply existsb_obligations in Ex. destruct (mem s) as [|[a|] m] eqn:Em; simpl; [right|left|right]; try done.
    split_and!; try done.
    + split; [apply pool_inv_snoc; simpl; [done..|]; by intros o [= <-]|done|]. simpl in *. rewrite length_app. simpl. lia.
    + by rewrite obligations_snoc.
Qed.

(** Set up an object, then hand it to the pool. *)
Lemma own_triple objs f d :
  in_order (objs ++ [object_of f d]) → object_of f d ∉ objs →
  triple (building objs) (own f d) (fun _ => building (objs ++ [object_of f d])).
Proof.
  intros Ho Hn s [Ok Et Eo Nd]. unfold own, bind, init, add_action_or_reset, res_add_action_or_reset.
  cbn [pool mem trace].
  pose proof (add_action_cases s f d Ok) as C. destruct (res_add_action _ _ _ _) as [p ret].
  destruct C as [(-> & Ok' & Hob & Eob)|(Hr & -> & Ok' & Hex)].
  - simpl. split; simpl; [by destruct Ok'|by rewrite Et, fmap_app| |].
    + unfold owned in *. by rewrite Eob, fmap_app, Eo.
    + apply NoDup_app. split_and!; [done| |apply NoDup_singleton]. by intros x Hx ->%list_elem_of_singleton.
  - destruct (Z.ltb_spec ret 0); [|lia]. destruct (Z.eqb_spec ret (- VM_EEXIST)) as [Ee|]; simpl.
    { destruct Hn. rewrite <- Eo. unfold owned. apply list_elem_of_fmap. exists (f, d). auto. }
    unfold check, refuse. destruct (Z.ltb_spec ret 0); [|lia]. simpl. split; [done|].
    split; [by destruct Ok'|]. exists (objs ++ [object_of f d]). split; [done|]. unfold unwound. simpl.
    unfold run_cleanup at 2. rewrite bool_decide_eq_true_2 by (apply elem_of_app; right; left).
    rewrite run_cleanups.
    + unfold nested. rewrite Et, !fmap_app, reverse_app, fmap_app, <- !app_assoc. simpl. do 3 f_equal.
      rewrite <- Eo. unfold owned. by rewrite <- fmap_reverse.
    + intros f' d' H'. rewrite elem_of_reverse in H'. rewrite !elem_of_app, Et. left. left.
      apply list_elem_of_fmap. eexists. split; [done|]. rewrite <- Eo. apply list_elem_of_fmap. by exists (f', d').
Qed.

(** A cleanup is registered for an object that is not set up yet. *)
Record pending (objs : list object) (o : object) (s : state) : Prop := {
  pd_pool : pool_ok s;
  pd_trace : trace s = Init <$> objs;
  pd_owned : owned (pool s) = objs ++ [o];
  pd_nodup : NoDup (objs ++ [o]);
}.

Lemma pending_failed objs o s : in_order objs → pending objs o s → failed s.
Proof.
  intros Ho [Ok Et Eo Nd]. split; [done|]. exists objs. split; [done|]. unfold unwound.
  unfold owned in Eo. destruct (obligations (pool s)) as [|ob l] eqn:Eob using rev_ind; [by destruct objs|].
  rewrite fmap_app in Eo. apply app_inj_2 in Eo as [Eo Ex]; [|done]. destruct ob as [f d]. simpl in Ex. injection Ex as Ex.
  rewrite reverse_app. simpl. unfold run_cleanup at 2. rewrite Ex, bool_decide_eq_false_2.
  - rewrite run_cleanups.
    + rewrite Et. unfold nested. by rewrite <- Eo, fmap_reverse.
    + intros f' d' H'. rewrite elem_of_reverse in H'. rewrite Et. apply list_elem_of_fmap. eexists. split; [done|].
      rewrite <- Eo. apply list_elem_of_fmap. by exists (f', d').
  - rewrite Et. intros (o' & E & Hin)%list_elem_of_fmap. simplify_eq. apply NoDup_app in Nd as (_ & Nd & _).
    by apply (Nd _ Hin), list_elem_of_singleton.
Qed.

Lemma add_triple objs f d :
  in_order objs → (∀ s, building objs s → object_of f d ∈ objs → (f, d) ∈ obligations (pool s)) →
  triple (building objs) (register f d) (fun _ => pending objs (object_of f d)).
Proof.
  intros Ho Hf s B. pose proof B as [Ok Et Eo Nd]. unfold register, bind, add_action.
  pose proof (add_action_cases s f d Ok) as C. destruct (res_add_action _ _ _ _) as [p ret].
  destruct C as [(-> & Ok' & Hob & Eob)|(Hr & -> & Ok' & _)].
  - simpl. split; simpl; [done|done| |].
    + unfold owned in *. by rewrite Eob, fmap_app, Eo.
    + apply NoDup_app. split_and!; [done| |apply NoDup_singleton]. intros x Hx ->%list_elem_of_singleton.
      by apply Hob, Hf.
  - unfold check, refuse. destruct (Z.ltb_spec ret 0); [|lia]. simpl. split; [done|].
    apply (building_failed objs); [done|]. split; simpl; done.
Qed.

Lemma init_triple objs o : triple (pending objs o) (init o) (fun _ => building (objs ++ [o])).
Proof.
  intros s [Ok Et Eo Nd]. simpl. split; simpl; [by destruct Ok|by rewrite Et, fmap_app|done..].
Qed.

Lemma triple_check_building objs ret :
  in_order objs → triple (building objs) (check ret) (fun _ => building objs).
Proof.
  intros Ho s Hs. unfold check, refuse. destruct (Z.ltb_spec ret 0); simpl; [|done].
  split; [done|]. by eapply building_failed.
Qed.

(** The rest of the program reports errors as negative codes, and the board does
    not make an object at the address of one that is there. *)
Definition answers_ok (a : answers) : Prop :=
  match a_io a with ERR_PTR e => e < 0 | Ptr _ => True end ∧
  match a_lock a with ERR_PTR e => e < 0 | Ptr _ => True end ∧
  fresh [] (h_ops (a_board a) ++ h_ops (a_late a)).

Definition mac_ok (p : pointer (Z + list Z)) : Prop := match p with Obj (inl ret) => ret < 0 | _ => True end.

Lemma in_order_nil : in_order [].
Proof. exists 0, 0, [], [], []. apply prefix_nil. Qed.

Lemma copy_triple size : triple (building [])
  (let* copy := zalloc size in refuse (bool_decide (copy = None)) (- VM_ENOMEM)) (fun _ => building []).
Proof.
  eapply triple_bind; [apply zalloc_triple|]. intros a. apply triple_refuse; [done|].
  intros s. apply building_failed, in_order_nil.
Qed.

Lemma nothing_failed s : building [] s → failed s.
Proof. apply building_failed, in_order_nil. Qed.

Lemma copy_config_triple c : triple (building []) (copy_config c) (fun _ => building []).
Proof.
  assert (S : ∀ o, triple (building []) (copy_string o) (fun _ => building [])).
  { intros [s|]; [apply copy_triple|by apply triple_ret]. }
  assert (A : ∀ k, triple (building []) (copy_array k) (fun _ => building [])).
  { intros k. unfold copy_array. destruct (k =? 0); [by apply triple_ret|apply copy_triple]. }
  unfold copy_config. do 4 (eapply triple_bind; [apply S || apply A|intros ?; cbv beta]). apply A.
Qed.

Lemma check_drives_triple l : triple (building []) (check_drives l) (fun _ => building []).
Proof.
  induction l as [|[| |[]] l IH]; simpl; [by apply triple_ret| | |done]; apply triple_fail; done || apply nothing_failed.
Qed.

Lemma check_mac_triple mac l :
  Forall mac_ok l → triple (building []) (check_mac mac l) (fun _ s => building [] s ∧ Obj (inr mac) ∉ l).
Proof.
  induction 1 as [|[| |[ret|other]] l Hm F IH]; simpl.
  - apply triple_ret. intros s B. split; [done|]. apply not_elem_of_nil.
  - apply triple_fail; [done|apply nothing_failed].
  - apply triple_fail; [done|apply nothing_failed].
  - apply triple_fail; [done|apply nothing_failed].
  - intros s B. unfold bind, refuse. destruct (bool_decide_reflect (mac = other)); simpl; [split; [done|by apply nothing_failed]|].
    specialize (IH s B). destruct (check_mac mac l s) as [s' [e|[]]]; [done|]. destruct IH as [B' N]. split; [done|].
    apply not_elem_of_cons. split; [congruence|done].
Qed.

Lemma check_nets_triple l : ∀ before,
  Forall mac_ok before → Forall mac_ok l → NoDup before →
  triple (building []) (check_nets before l) (fun _ s => building [] s ∧ NoDup (before ++ l)).
Proof.
  induction l as [|p l IH]; intros before Fb F Nd; simpl.
  - apply triple_ret. intros s B. by rewrite app_nil_r.
  - apply Forall_cons in F as [Hp F]. destruct p as [| |[ret|mac]]; try (apply triple_fail; [done|apply nothing_failed]).
    intros s B. unfold bind. pose proof (check_mac_triple mac before Fb s B) as C.
    destruct (check_mac mac before s) as [s' [e|[]]]; [done|]. destruct C as [B' N].
    assert (Nd' : NoDup (before ++ [Obj (inr mac)])).
    { apply NoDup_app. split_and!; [done| |apply NoDup_singleton]. by intros x Hx ->%list_elem_of_singleton. }
    specialize (IH (before ++ [Obj (inr mac)]) ltac:(by apply Forall_app; auto) F Nd' s' B').
    by rewrite <- app_assoc in IH.
Qed.

Lemma core_in_order io lock bs vs bs' objs : objs `prefix_of` core io lock bs vs bs' → in_order objs.
Proof. intros. by exists io, lock, bs, vs, bs'. Qed.

Lemma make_locks_triple a :
  answers_ok a → triple (building []) (make_locks a) (fun _ s => ∃ io lock, building [IoCtx io; ThreadLock lock] s).
Proof.
  intros (Hio & Hl & _). unfold make_locks. destruct (a_io a) as [io|e]; [|apply triple_fail; [done|apply nothing_failed]].
  eapply triple_bind; [apply (own_triple [] io_cleanup io)|intros ?; cbv beta].
  - apply (core_in_order io 0 [] [] []). by eexists.
  - apply not_elem_of_nil.
  - destruct (a_lock a) as [lock|e].
    + intros s B. pose proof (own_triple [IoCtx io] mutex_cleanup lock) as T. specialize (T ltac:(apply (core_in_order io lock [] [] []); by eexists)).
      specialize (T ltac:(by intros ?%list_elem_of_singleton) s B). destruct (own mutex_cleanup lock s) as [s' [|]]; [done|].
      by exists io, lock.
    + apply triple_fail; [done|]. intros s. apply building_failed. apply (core_in_order io 0 [] [] []). by eexists.
Qed.

Lemma make_memory_triple io lock a :
  triple (building [IoCtx io; ThreadLock lock]) (make_memory a) (fun _ => building [IoCtx io; ThreadLock lock; MemSpace]).
Proof.
  unfold make_memory. eapply triple_bind; [apply add_triple|intros ?; cbv beta].
  - apply (core_in_order io lock [] [] []). by eexists.
  - intros s _ Hin. simpl in Hin. rewrite !elem_of_cons, elem_of_nil in Hin. intuition discriminate.
  - eapply triple_bind; [apply init_triple|intros ?; cbv beta]. apply triple_check_building.
    apply (core_in_order io lock [] [] []). by eexists.
Qed.

Lemma make_accel_triple io lock a :
  triple (building [IoCtx io; ThreadLock lock; MemSpace]) (make_accel a) (fun _ => building (core io lock [] [] [])).
Proof.
  unfold make_accel. eapply triple_bind; [apply add_triple|intros ?; cbv beta].
  - apply (core_in_order io lock [] [] []). by eexists.
  - intros s _ Hin. simpl in Hin. rewrite !elem_of_cons, elem_of_nil in Hin. intuition discriminate.
  - destruct (a_accel a) as [ret|].
    + eapply triple_bind; [apply init_triple|intros ?; cbv beta]. apply triple_check_building.
      by apply (core_in_order io lock [] [] []).
    + apply triple_fail; [done|]. intros s. apply pending_failed. apply (core_in_order io lock [] [] []). by eexists.
Qed.

Lemma make_vcpus_triple io lock bs a k : ∀ i vs,
  triple (building (core io lock bs vs [])) (make_vcpus a i k)
    (fun _ s => ∃ vs', length vs' = (length vs + k)%nat ∧ building (core io lock bs vs' []) s).
Proof.
  induction k as [|k IH]; intros i vs; simpl.
  - apply triple_ret. intros s B. exists vs. split; [lia|done].
  - eapply triple_bind; [apply zalloc_triple|intros vcpu; cbv beta].
    destruct vcpu as [v|].
    2: { apply triple_fail; [done|]. intros s. apply building_failed. by apply (core_in_order io lock bs vs []). }
    eapply triple_bind; [apply add_triple|intros ?; cbv beta].
    + by apply (core_in_order io lock bs vs []).
    + intros s [_ _ Eo _] Hin. rewrite <- Eo in Hin. apply list_elem_of_fmap in Hin as ([f d] & E & Hin).
      by destruct f; simplify_eq/=.
    + eapply triple_bind; [apply init_triple|intros ?; cbv beta]. simpl object_of.
      replace (core io lock bs vs [] ++ [Vcpu v]) with (core io lock bs (vs ++ [v]) [])
        by (unfold core; by rewrite fmap_app, !app_nil_r, !app_assoc).
      eapply triple_bind; [apply triple_check_building; by apply (core_in_order io lock bs (vs ++ [v]) [])|intros ?; cbv beta].
      intros s B. specialize (IH (S i) (vs ++ [v]) s B). destruct (make_vcpus a (S i) k s) as [s' [|]]; [done|].
      destruct IH as (vs' & Hl & B'). exists vs'. split; [|done]. rewrite Hl, length_app. simpl. lia.
Qed.

(** ** Lemmas: hooks *)

Lemma filter_init d (objs : list object) :
  filter (fun e => e ≠ Init (BoardObj d)) (Init <$> objs) = Init <$> filter (fun o => o ≠ BoardObj d) objs.
Proof.
  induction objs as [|o objs IH]; [done|]. rewrite fmap_cons, !filter_cons.
  destruct (decide (o = BoardObj d)) as [->|Hne].
  - by rewrite !decide_False by (intros H; by apply H).
  - rewrite !decide_True by congruence. by rewrite IH.
Qed.

Lemma filter_id {A} (P : A → Prop) `{∀ x, Decision (P x)} (l : list A) : Forall P l → filter P l = l.
Proof. induction 1 as [|x l Hx F IH]; [done|]. rewrite filter_cons, decide_True by done. by rewrite IH. Qed.

Lemma filter_unique {A} `{EqDecision A} (x : A) l1 l2 :
  NoDup (l1 ++ x :: l2) → filter (fun y => y ≠ x) (l1 ++ x :: l2) = l1 ++ l2.
Proof.
  intros (Nd1 & Nd2 & [Hx Nd3]%NoDup_cons)%NoDup_app. rewrite filter_app, filter_cons, decide_False by (intros H; by apply H).
  assert (H1 : x ∉ l1) by (intros H; apply (Nd2 x H); by left).
  f_equal; apply filter_id; apply Forall_forall; congruence.
Qed.

Lemma leave_triple objs d :
  in_order objs →
  triple (building objs) (let* ret := leave d in check ret) (fun _ => building (filter (fun o => o ≠ BoardObj d) objs)).
Proof.
  intros Ho s B. pose proof B as [[I R L] Et Eo Nd]. unfold leave, bind, res_cancel_action.
  pose proof (split_node_spec board_cleanup d (resources (pool s))) as S.
  destruct (split_node _ _ _) as [[[l1 x] l2]|]; [|simpl; split; [done|by apply (building_failed objs)]].
  destruct S as [S Ox]. destruct I as [In Iw]. rewrite S in Iw. apply Forall_app in Iw as [Iw1 [Ix Iw2]%Forall_cons].
  rewrite Ix, Z.eqb_refl. cbn [negb default from_option id Z.ltb Z.compare check refuse mret].
  unfold owned, obligations in Eo, In. rewrite S, omap_app in Eo, In. cbn in Eo, In. rewrite Ox in Eo, In.
  rewrite fmap_app in Eo. cbn in Eo. rewrite <- Eo in Nd. apply filter_unique in Nd as Ef. rewrite Eo in Ef, Nd.
  rewrite Ef. split; cbn [pool mem trace].
  - split; [|done|].
    + split; unfold obligations; simpl; [|by apply Forall_app]. rewrite omap_app.
      apply NoDup_app in In as (N1 & N2 & [_ N3]%NoDup_cons). apply NoDup_app. split_and!; [done| |done].
      intros y Hy Hy'. apply (N2 y Hy). by right.
    + simpl. rewrite S, length_app in L. rewrite length_app. simpl in L. lia.
  - by rewrite Et, filter_init, Ef.
  - unfold owned, obligations. simpl. by rewrite omap_app, fmap_app.
  - rewrite <- Ef. by apply NoDup_filter.
Qed.

Lemma filter_core d io lock bs vs bs' :
  filter (fun o => o ≠ BoardObj d) (core io lock bs vs bs') =
  core io lock (filter (fun x => x ≠ d) bs) vs (filter (fun x => x ≠ d) bs').
Proof.
  assert (Fb : ∀ l : list Z, filter (fun o => o ≠ BoardObj d) (BoardObj <$> l) = BoardObj <$> filter (fun x => x ≠ d) l).
  { induction l as [|x l IH]; [done|]. rewrite fmap_cons, !filter_cons. destruct (decide (x = d)) as [->|Hne].
    - by rewrite !decide_False by (intros H; by apply H).
    - rewrite !decide_True by congruence. by rewrite IH. }
  unfold core. rewrite !filter_app, !Fb, (filter_id _ (Vcpu <$> vs)); [done|]. by apply Forall_fmap, Forall_true.
Qed.

Lemma board_in_core d io lock bs vs bs' : BoardObj d ∈ core io lock bs vs bs' → d ∈ bs ++ bs'.
Proof.
  unfold core. rewrite !elem_of_app, !list_elem_of_fmap, !elem_of_cons, elem_of_nil.
  intros [[?|[?|[?|[?|[]]]]]|[(x & E & ?)|[(x & E & ?)|(x & E & ?)]]]; simplify_eq; auto.
Qed.

Lemma run_ops_triple io lock vs ops : ∀ bs bs', fresh (bs ++ bs') ops →
  triple (building (core io lock bs vs bs')) (run_ops ops)
    (fun _ s => ∃ cs cs', kept (bs ++ bs') ops = cs ++ cs' ∧ building (core io lock cs vs cs') s).
Proof.
  induction ops as [|[d|d] ops IH]; intros bs bs' Hf; simpl.
  - apply triple_ret. intros s B. by exists bs, bs'.
  - destruct Hf as [Hd Hf]. rewrite <- app_assoc in *. eapply triple_bind; [|intros ?; exact (IH bs (bs' ++ [d]) Hf)].
    assert (E : core io lock bs vs (bs' ++ [d]) = core io lock bs vs bs' ++ [object_of board_cleanup d])
      by (unfold core; by rewrite fmap_app, !app_assoc).
    rewrite E. apply own_triple; [rewrite <- E; by eapply core_in_order|]. intros H%board_in_core. done.
  - cbn [fresh] in Hf. rewrite filter_app in *. eapply triple_bind; [|intros ?; exact (IH _ _ Hf)].
    rewrite <- filter_core. apply leave_triple. by eapply core_in_order.
Qed.

Lemma run_hook_triple io lock vs h bs bs' : fresh (bs ++ bs') (h_ops h) →
  triple (building (core io lock bs vs bs')) (run_hook h)
    (fun _ s => ∃ cs cs', kept (bs ++ bs') (h_ops h) = cs ++ cs' ∧ building (core io lock cs vs cs') s).
Proof.
  intros Hf. eapply triple_bind; [by apply run_ops_triple|intros ?; cbv beta].
  intros s (cs & cs' & E & B). unfold check, refuse. destruct (Z.ltb_spec (h_ret h) 0); simpl; [|by exists cs, cs'].
  split; [done|]. eapply building_failed; [|exact B]. by eapply core_in_order.
Qed.

(** What construction ends with. *)
Definition built (c : vm_config) (a : answers) (s : state) : Prop :=
  ∃ io lock bs vs bs', bs ++ bs' = board_objects (config_board c) a ∧ length vs = Z.to_nat (nr_vcpus c) ∧
    building (core io lock bs vs bs') s ∧ NoDup (take (Z.to_nat (nr_nets c)) (default [] (nets c))).

Definition early_objects (b : board) (a : answers) : list Z :=
  match b with Board _ => kept [] (h_ops (a_board a)) | _ => [] end.

Lemma board_init_triple io lock b a : answers_ok a →
  triple (building (core io lock [] [] [])) (match b with Board _ => run_hook (a_board a) | _ => mret tt end)
    (fun _ => building (core io lock (early_objects b a) [] [])).
Proof.
  intros (_ & _ & F%fresh_app). destruct b as [| |late]; [by apply triple_ret..|]. intros s B.
  pose proof (run_hook_triple io lock [] (a_board a) [] [] (proj1 F) s B) as T.
  destruct (run_hook _ _) as [s' [e|[]]]; [done|]. destruct T as (cs & cs' & E & B'). simpl in *. rewrite E.
  unfold core in *. simpl in *. by rewrite app_nil_r, fmap_app.
Qed.

Lemma board_late_triple io lock vs b a : answers_ok a →
  triple (building (core io lock (early_objects b a) vs [])) (if has_late_init b then run_hook (a_late a) else mret tt)
    (fun _ s => ∃ cs cs', cs ++ cs' = board_objects b a ∧ building (core io lock cs vs cs') s).
Proof.
  intros (_ & _ & F%fresh_app). destruct b as [| |[|]]; simpl has_late_init; cbv iota.
  1,2,4: apply triple_ret; intros s B; eexists _, []; split; [|exact B]; rewrite app_nil_r; simpl; by rewrite ?app_nil_r.
  intros s B. pose proof (run_hook_triple io lock vs (a_late a) (early_objects (Board true) a) [] ) as T.
  rewrite app_nil_r in T. specialize (T (proj2 F) s B). destruct (run_hook _ _) as [s' [e|[]]]; [done|].
  destruct T as (cs & cs' & E & B'). exists cs, cs'. split; [|done]. simpl. by rewrite kept_app.
Qed.

Lemma vm_init_triple config a :
  answers_ok a → (∀ c, config = Some c → Forall mac_ok (default [] (nets c))) →
  triple (building []) (vm_init_body config a) (fun _ s => ∃ c, config = Some c ∧ built c a s).
Proof.
  intros Ha Hm. destruct config as [c|]; [|apply triple_fail; [done|apply nothing_failed]]. specialize (Hm c eq_refl).
  unfold vm_init_body.
  do 3 (eapply triple_bind; [apply triple_refuse; [done|apply nothing_failed]|intros ?; cbv beta]).
  eapply triple_bind; [apply copy_config_triple|intros ?; cbv beta].
  eapply triple_bind; [apply triple_refuse; [done|apply nothing_failed]|intros ?; cbv beta].
  eapply triple_bind; [apply check_drives_triple|intros ?; cbv beta].
  eapply triple_bind; [apply (check_nets_triple _ []); [constructor|by apply Forall_take|constructor]|intros ?; cbv beta].
  intros s [B Nd]. revert s B.
  match goal with |- ∀ s, _ → match ?m s with _ => _ end =>
    change (triple (building []) m (fun _ s => ∃ c', Some c = Some c' ∧ built c' a s)) end.
  eapply triple_bind; [by apply make_locks_triple|intros ?; cbv beta].
  apply triple_exists. intros io. apply triple_exists. intros lock.
  assert (F : ∀ bs vs bs' s, building (core io lock bs vs bs') s → failed s).
  { intros bs vs bs' s. apply building_failed. by eapply core_in_order. }
  eapply triple_bind; [apply make_memory_triple|intros ?; cbv beta].
  eapply triple_bind; [apply make_accel_triple|intros ?; cbv beta].
  eapply triple_bind; [by apply board_init_triple|intros ?; cbv beta].
  do 2 (eapply triple_bind; [apply zalloc_triple|intros ?; cbv beta]).
  eapply triple_bind; [apply triple_refuse; [done|apply F]|intros ?; cbv beta].
  eapply triple_bind; [apply make_vcpus_triple|intros ?; cbv beta].
  apply triple_exists. intros vs. apply triple_assume. intros Hl.
  eapply triple_bind; [by apply board_late_triple|intros ?; cbv beta]. intros s (bs & bs' & E & B').
  unfold check, refuse. destruct (Z.ltb_spec (a_error a) 0); simpl; [split; [done|by eapply F]|].
  exists c. split; [done|]. exists io, lock, bs, vs, bs'. done.
Qed.
End Proofs.

(** ** When nothing is refused *)

(** The operations of a hook are possible. *)
Fixpoint ops_run (here : list Z) (ops : list hook_op) : Prop :=
  match ops with
  | [] => True
  | Make d :: ops => d ∉ here ∧ ops_run (here ++ [d]) ops
  | Leave d :: ops => d ∈ here ∧ ops_run (filter (fun x => x ≠ d) here) ops
  end.

(** The configuration is valid, the rest of the program refuses nothing, and
    the allocator has distinct addresses for all that is needed. *)
Record unrefused (c : vm_config) (a : answers) (addrs : list Z) : Prop := {
  u_config : config_invalid c = false;
  u_board : config_board c ≠ Broken;
  u_vcpus : 0 < nr_vcpus c ∧ nr_vcpus c * sizeof_vcpu_run_data ≤ SIZE_MAX;
  u_console : console c ≠ Err;
  u_drives : Forall (eq (Obj tt)) (take (Z.to_nat (nr_drives c)) (default [] (drives c)));
  u_nets : ∃ macs, take (Z.to_nat (nr_nets c)) (default [] (nets c)) = (fun mac => Obj (inr mac)) <$> macs ∧ NoDup macs;
  u_strings : ∀ str, Some str ∈ [accel_name c; loader_name c; loader_opts c] →
    Z.of_nat (length str) + 1 ≤ SIZE_MAX - sizeof_res_node;
  u_arrays : ∀ n, n ∈ [nr_drives c; nr_nets c] → 0 ≤ n ∧ n * sizeof_ptr ≤ SIZE_MAX - sizeof_res_node;
  u_locks : (∃ io, a_io a = Ptr io) ∧ ∃ lock, a_lock a = Ptr lock;
  u_core : 0 ≤ a_mem a ∧ (∃ r, a_accel a = Some r ∧ 0 ≤ r) ∧ (∀ i, 0 ≤ a_vcpu a i) ∧ 0 ≤ a_error a;
  u_hooks : 0 ≤ h_ret (a_board a) ∧ 0 ≤ h_ret (a_late a) ∧ ops_run [] (h_ops (a_board a) ++ h_ops (a_late a));
  u_memory : NoDup addrs ∧
    (11 + length (h_ops (a_board a)) + 2 * Z.to_nat (nr_vcpus c) + length (h_ops (a_late a)) ≤ length addrs)%nat;
}.

Section Success.

(** Programs that do not fail. *)
#[local] Abbreviation succeeds := (Prog.triple (fun _ : state => False)).

(** [k] allocations will succeed; what was just allocated, [just], and what will
    be is not the address of a processor of the pool. *)
Record rich (k : nat) (obl : list (cleanup * Z)) (just : list Z) (s : state) : Prop := {
  rc_pool : pool_inv (pool s) ∧ releasing (pool s) = false;
  rc_obl : obligations (pool s) = obl;
  rc_mem : ∃ addrs, mem s = Some <$> addrs ∧ NoDup (just ++ addrs) ∧ (k ≤ length addrs)%nat ∧
    ∀ x, x ∈ just ++ addrs → (vcpu_cleanup, node_data x) ∉ obl;
}.

Lemma rich_le k k' obl just just' s : (k ≤ k')%nat → just `suffix_of` just' → rich k' obl just' s → rich k obl just s.
Proof.
  intros Hk [l ->] [P O (addrs & E & N & L & V)]. split; [done..|]. exists addrs. split; [done|].
  rewrite <- app_assoc in N, V. split; [by apply NoDup_app in N as (_ & _ & ?)|]. split; [lia|].
  intros x Hx. apply V. apply elem_of_app. by right.
Qed.

Lemma zalloc_rich k obl size :
  0 < size ≤ SIZE_MAX - sizeof_res_node →
  succeeds (rich (S k) obl []) (zalloc size) (fun r s => ∃ x, r = Some (node_data x) ∧ rich k obl [x] s).
Proof.
  intros Hs s [[I R] O (addrs & E & N & L & V)]. destruct addrs as [|x addrs]; [simpl in L; lia|].
  unfold zalloc, res_zalloc. rewrite E, R. destruct (Z.eqb_spec size 0); [lia|].
  destruct (Z.ltb_spec (SIZE_MAX - sizeof_res_node) size); [lia|]. simpl. exists x. split; [done|].
  split; simpl; [split; [by apply pool_inv_snoc|done]| |].
  - rewrite obligations_snoc. simpl. by rewrite app_nil_r.
  - exists addrs. simpl in L. split_and!; [done|done|lia|done].
Qed.

Lemma add_action_rich k obl just f d s :
  (f, d) ∉ obl → (∀ x addrs, f = vcpu_cleanup → NoDup (just ++ addrs) → x ∈ addrs → d ≠ node_data x) →
  rich (S k) obl just s →
  ∃ p, res_add_action (Some (pool s)) (Some f) d (default None (head (mem s))) = (Some p, 0) ∧
    ∀ t, rich k (obl ++ [(f, d)]) [] (mk_state p (List.tl (mem s)) t).
Proof.
  intros Hn Hv [[I R] O (addrs & E & N & L & V)]. destruct addrs as [|x addrs]; [simpl in L; lia|].
  unfold res_add_action. rewrite R, E. destruct (existsb (node_is f d) (resources (pool s))) eqn:Ex.
  { destruct Hn. rewrite <- O. apply existsb_exists in Ex as (nd & Hin & Hnd%node_is_spec).
    unfold obligations. apply list_elem_of_omap. exists nd. split; [by apply list_elem_of_In|done]. }
  apply existsb_obligations in Ex. simpl. eexists. split; [done|]. intros t. split; simpl.
  - split; [|done]. apply pool_inv_snoc; [done..|]. by intros o [= <-].
  - rewrite <- O. apply (obligations_snoc (pool s)).
  - exists addrs. simpl in L. split; [done|]. pose proof N as (_ & _ & [_ Nd]%NoDup_cons)%NoDup_app. split; [done|].
    split; [lia|]. intros y Hy [Hin|Heq%list_elem_of_singleton]%elem_of_app.
    + apply (V y); [|done]. rewrite elem_of_app, elem_of_cons. auto.
    + injection Heq as Ef Ed. apply (Hv y (x :: addrs) (eq_sym Ef) N); [by right|done].
Qed.

Lemma register_rich k obl just f d :
  (f, d) ∉ obl → (∀ x addrs, f = vcpu_cleanup → NoDup (just ++ addrs) → x ∈ addrs → d ≠ node_data x) →
  succeeds (rich (S k) obl just) (register f d) (fun _ => rich k (obl ++ [(f, d)]) []).
Proof.
  intros Hn Hv s Hs. unfold register, bind, add_action.
  destruct (add_action_rich k obl just f d s Hn Hv Hs) as (p & -> & Hr). apply Hr.
Qed.

Lemma own_rich k obl f d :
  (f, d) ∉ obl → f ≠ vcpu_cleanup → succeeds (rich (S k) obl []) (own f d) (fun _ => rich k (obl ++ [(f, d)]) []).
Proof.
  intros Hn Hf s Hs. unfold own, bind, init, add_action_or_reset, res_add_action_or_reset. cbn [pool mem].
  destruct (add_action_rich k obl [] f d s Hn ltac:(congruence) Hs) as (p & -> & Hr). apply Hr.
Qed.

Lemma init_rich k obl just o : succeeds (rich k obl just) (init o) (fun _ => rich k obl just).
Proof. intros s [P O E]. by split. Qed.

Lemma check_succeeds P ret : 0 ≤ ret → succeeds P (check ret) (fun _ => P).
Proof. intros H s Hs. unfold check, refuse. by destruct (Z.ltb_spec ret 0); [lia|]. Qed.

Lemma refuse_succeeds P e (b : bool) : b = false → succeeds P (refuse b e) (fun _ => P).
Proof. by intros -> s Hs. Qed.
(** With the board's objects. *)
Definition having (k : nat) (here : list Z) (s : state) : Prop :=
  ∃ obl, (∀ d, (board_cleanup, d) ∈ obl ↔ d ∈ here) ∧ rich k obl [] s.

Lemma having_le k k' here s : (k ≤ k')%nat → having k' here s → having k here s.
Proof. intros Hk (obl & B & R). exists obl. split; [done|]. by eapply rich_le. Qed.

Lemma zalloc_having k here size :
  0 < size ≤ SIZE_MAX - sizeof_res_node →
  succeeds (having (S k) here) (zalloc size) (fun r s => ∃ x, r = Some x ∧ having k here s).
Proof.
  intros Hs s (obl & B & R). pose proof (zalloc_rich k obl size Hs s R) as T. destruct (zalloc size s) as [s' [|r]]; [done|].
  destruct T as (x & -> & R'). eexists. split; [done|]. exists obl. split; [done|]. eapply rich_le; [done| |exact R']. by exists [x].
Qed.

Lemma leave_having k here d :
  d ∈ here → succeeds (having k here) (let* ret := leave d in check ret) (fun _ => having k (filter (fun x => x ≠ d) here)).
Proof.
  intros Hd s (obl & B & [[I R] O (addrs & E & N & L & V)]). unfold leave, bind, res_cancel_action.
  pose proof (split_node_spec board_cleanup d (resources (pool s))) as S.
  assert (Hin : (board_cleanup, d) ∈ obligations (pool s)) by (rewrite O; by apply B).
  destruct (split_node _ _ _) as [[[l1 x] l2]|]; [|done]. destruct S as [S Ox]. destruct I as [In Iw].
  rewrite S in Iw. apply Forall_app in Iw as [Iw1 [Ix Iw2]%Forall_cons]. rewrite Ix, Z.eqb_refl.
  cbn [negb default from_option id Z.ltb Z.compare check refuse mret].
  unfold obligations in O, In. rewrite S, omap_app in O, In. cbn in O, In. rewrite Ox in O, In.
  apply NoDup_app in In as (N1 & N2 & [N4 N3]%NoDup_cons).
  exists (omap obligation l1 ++ omap obligation l2). split; [|split; cbn [pool mem trace]].
  - intros y. rewrite list_elem_of_filter, <- B, <- O. rewrite !elem_of_app, elem_of_cons. split.
    + intros Hy. split; [|tauto]. intros ->. destruct Hy as [Hy|Hy]; [|done]. apply (N2 _ Hy). by left.
    + intros [Hne [Hy|[Hy|Hy]]]; [auto|congruence|auto].
  - split; [|done]. split; unfold obligations; simpl; [|by apply Forall_app]. rewrite omap_app.
    apply NoDup_app. split_and!; [done| |done]. intros y Hy Hy'. apply (N2 y Hy). by right.
  - unfold obligations. simpl. by rewrite omap_app.
  - exists addrs. split_and!; [done..|]. intros y Hy. specialize (V y Hy). rewrite <- O in V.
    rewrite elem_of_app, elem_of_cons in V. rewrite elem_of_app. tauto.
Qed.

Lemma run_ops_having ops : ∀ k here, ops_run here ops →
  succeeds (having (length ops + k) here) (run_ops ops) (fun _ => having k (kept here ops)).
Proof.
  induction ops as [|[d|d] ops IH]; intros k here Hr; simpl; [by apply triple_ret| |]; destruct Hr as [Hd Hr].
  - eapply triple_bind; [|intros ?; exact (IH k _ Hr)]. intros s (obl & B & R).
    pose proof (own_rich (length ops + k) obl board_cleanup d ltac:(by rewrite B) ltac:(done) s R) as T.
    destruct (own board_cleanup d s) as [s' [|]]; [by destruct T|]. exists (obl ++ [(board_cleanup, d)]). split; [|done].
    intros y. rewrite !elem_of_app, !list_elem_of_singleton, B. naive_solver.
  - eapply triple_bind; [|intros ?; exact (IH k _ Hr)]. intros s H%(having_le (length ops + k)); [|lia].
    by apply leave_having.
Qed.

Lemma run_hook_having h k here : ops_run here (h_ops h) → 0 ≤ h_ret h →
  succeeds (having (length (h_ops h) + k) here) (run_hook h) (fun _ => having k (kept here (h_ops h))).
Proof. intros Hr Hh. eapply triple_bind; [by apply run_ops_having|intros ?; by apply check_succeeds]. Qed.

Lemma copy_rich k size :
  0 < size ≤ SIZE_MAX - sizeof_res_node →
  succeeds (rich (S k) [] []) (let* copy := zalloc size in refuse (bool_decide (copy = None)) (- VM_ENOMEM)) (fun _ => rich k [] []).
Proof.
  intros Hs. eapply triple_bind; [by apply zalloc_rich|intros r; cbv beta]. intros s (x & -> & R). simpl.
  eapply rich_le; [done| |exact R]. by exists [x].
Qed.

Lemma copy_config_rich c a addrs k :
  unrefused c a addrs → succeeds (rich (5 + k) [] []) (copy_config c) (fun _ => rich k [] []).
Proof.
  intros U. assert (Cs : ∀ j str, str ∈ [accel_name c; loader_name c; loader_opts c] →
    succeeds (rich (S j) [] []) (copy_string str) (fun _ => rich j [] [])).
  { intros j [str|] Hin; [apply copy_rich; pose proof (u_strings _ _ _ U str Hin); lia|].
    apply triple_ret. intros s. by apply rich_le; [lia|]. }
  assert (A : ∀ j n, n ∈ [nr_drives c; nr_nets c] → succeeds (rich (S j) [] []) (copy_array n) (fun _ => rich j [] [])).
  { intros j n Hin. pose proof (u_arrays _ _ _ U n Hin). unfold copy_array, sizeof_ptr in *. destruct (Z.eqb_spec n 0).
    - apply triple_ret. intros s. by apply rich_le; [lia|].
    - apply copy_rich. lia. }
  unfold copy_config. do 3 (eapply triple_bind; [apply Cs; set_solver|intros ?; cbv beta]).
  eapply triple_bind; [apply A; set_solver|intros ?; cbv beta]. apply A. set_solver.
Qed.

Lemma check_drives_succeeds P l : Forall (eq (Obj tt)) l → succeeds P (check_drives l) (fun _ => P).
Proof. induction 1 as [|x l <- F IH]; simpl; [by apply triple_ret|done]. Qed.

Lemma check_mac_succeeds P mac macs :
  mac ∉ macs → succeeds P (check_mac mac ((fun mac => Obj (inr mac)) <$> macs)) (fun _ => P).
Proof.
  induction macs as [|x macs IH]; simpl; [intros; by apply triple_ret|]. intros [Hx Hm]%not_elem_of_cons.
  eapply triple_bind; [apply refuse_succeeds; by rewrite bool_decide_eq_false|intros ?; by apply IH].
Qed.

Lemma check_nets_succeeds P macs : ∀ before, NoDup (before ++ macs) →
  succeeds P (check_nets ((fun mac => Obj (inr mac)) <$> before) ((fun mac => Obj (inr mac)) <$> macs)) (fun _ => P).
Proof.
  induction macs as [|x macs IH]; intros before N; simpl; [by apply triple_ret|].
  eapply triple_bind; [apply check_mac_succeeds|intros ?; cbv beta].
  - apply NoDup_app in N as (_ & N & _). intros Hx. apply (N x Hx). by left.
  - rewrite cons_middle, app_assoc in N. specialize (IH (before ++ [x]) N). by rewrite fmap_app in IH.
Qed.

Lemma make_vcpus_having a k here n : (∀ i, 0 ≤ a_vcpu a i) → ∀ i,
  succeeds (having (2 * n + k) here) (make_vcpus a i n) (fun _ => having k here).
Proof.
  intros Ha. induction n as [|n IH]; intros i; simpl; [by apply triple_ret|].
  eapply triple_bind with (Q := fun r s => ∃ x obl, r = Some (node_data x) ∧ (∀ d, (board_cleanup, d) ∈ obl ↔ d ∈ here) ∧
    (vcpu_cleanup, node_data x) ∉ obl ∧ rich (S (2 * n + k)) obl [x] s).
  - intros s (obl & B & R). replace (n + S (n + 0) + k)%nat with (S (2 * n + k)) in R by lia.
    pose proof (zalloc_rich (S (2 * n + k)) obl sizeof_vcpu ltac:(done) s R) as T.
    destruct (zalloc sizeof_vcpu s) as [s' [|r]]; [done|]. destruct T as (x & -> & R'). exists x, obl. split; [done|].
    split; [done|]. split; [|done]. destruct R' as [_ _ (addrs & _ & _ & _ & V)]. apply V. by left.
  - intros r s (x & obl & -> & B & Hx & R). revert s R.
    apply (triple_bind _ (rich (S (2 * n + k)) obl [x]) _ (fun _ => rich (2 * n + k) (obl ++ [(vcpu_cleanup, node_data x)]) [])).
    + apply register_rich; [done|]. intros y addrs _ N Hy Ed. apply NoDup_app in N as (_ & N & _). apply (N x); [by left|].
      unfold node_data in Ed. by replace x with y by lia.
    + intros ?. eapply triple_bind; [apply init_rich|intros ?; cbv beta].
      eapply triple_bind; [by apply check_succeeds|intros ?; cbv beta]. intros s R. apply IH.
      eexists. split; [|exact R]. intros d. rewrite elem_of_app, list_elem_of_singleton, B. naive_solver.
Qed.

Lemma ops_run_app ops' ops : ∀ here, ops_run here (ops ++ ops') ↔ ops_run here ops ∧ ops_run (kept here ops) ops'.
Proof. induction ops as [|[d|d] ops IH]; intros here; simpl; rewrite ?IH; tauto. Qed.

Lemma make_locks_rich a k io lock :
  a_io a = Ptr io → a_lock a = Ptr lock →
  succeeds (rich (2 + k) [] []) (make_locks a) (fun _ => rich k [(io_cleanup, io); (mutex_cleanup, lock)] []).
Proof.
  intros Eio El. unfold make_locks. rewrite Eio, El.
  eapply triple_bind; [apply (own_rich (1 + k)); [apply not_elem_of_nil|done]|intros ?; cbv beta].
  apply (own_rich k); [set_solver|done].
Qed.

Lemma make_memory_rich a k obl :
  0 ≤ a_mem a → (memory_cleanup, addr_mem_space) ∉ obl →
  succeeds (rich (1 + k) obl []) (make_memory a) (fun _ => rich k (obl ++ [(memory_cleanup, addr_mem_space)]) []).
Proof.
  intros Hm Hn. eapply triple_bind; [by apply (register_rich k)|intros ?; cbv beta].
  eapply triple_bind; [apply init_rich|intros ?; by apply check_succeeds].
Qed.

Lemma make_accel_having a k obl r :
  a_accel a = Some r → 0 ≤ r → (accel_cleanup, addr_accel) ∉ obl → (∀ d, (board_cleanup, d) ∉ obl) →
  succeeds (rich (1 + k) obl []) (make_accel a) (fun _ => having k []).
Proof.
  intros Er Hr Hn Hb. unfold make_accel. rewrite Er. eapply triple_bind; [by apply (register_rich k)|intros ?; cbv beta].
  eapply triple_bind; [apply init_rich|intros ?; cbv beta]. eapply triple_consequence; [by apply check_succeeds|done|].
  intros ? s R. eexists. split; [|exact R]. intros d. rewrite elem_of_app, list_elem_of_singleton, elem_of_nil.
  split; [intros [H|H]; [by apply (Hb d)|done]|done].
Qed.

Lemma board_having c a addrs k :
  unrefused c a addrs →
  succeeds (having (length (h_ops (a_board a)) + k) [])
    (match config_board c with Board _ => run_hook (a_board a) | _ => mret tt end)
    (fun _ => having k (early_objects (config_board c) a)).
Proof.
  intros U. destruct (u_hooks _ _ _ U) as (H1 & _ & [H2 _]%ops_run_app). unfold early_objects.
  destruct (config_board c); [apply triple_ret; intros s; apply having_le; lia..|by apply run_hook_having].
Qed.

Lemma late_succeeds c a addrs :
  unrefused c a addrs →
  succeeds (having (length (h_ops (a_late a)) + 0) (early_objects (config_board c) a))
    (if has_late_init (config_board c) then run_hook (a_late a) else mret tt) (fun _ _ => True).
Proof.
  intros U. destruct (u_hooks _ _ _ U) as (_ & H1 & [_ H2]%ops_run_app). unfold early_objects.
  destruct (config_board c) as [| |[|]]; simpl; [by apply triple_ret..| |by apply triple_ret].
  eapply triple_consequence; [by apply run_hook_having|done|done].
Qed.

Definition needed (c : vm_config) (a : answers) : nat :=
  length (h_ops (a_board a)) + (2 + (2 * Z.to_nat (nr_vcpus c) + (length (h_ops (a_late a)) + 0))).

Lemma vm_init_body_succeeds c a addrs :
  unrefused c a addrs → succeeds (rich (5 + (4 + needed c a)) [] []) (vm_init_body (Some c) a) (fun _ _ => True).
Proof.
  intros U. assert (Z8 : 0 < nr_vcpus c * sizeof_ptr ≤ SIZE_MAX - sizeof_res_node).
  { destruct (u_vcpus _ _ _ U). unfold sizeof_ptr, sizeof_vcpu_run_data, SIZE_MAX, sizeof_res_node in *. lia. }
  destruct (u_locks _ _ _ U) as ((io & Eio) & lock & El). destruct (u_core _ _ _ U) as (Hm & (r & Er & Hr) & Hv & He).
  unfold vm_init_body. eapply triple_bind; [apply refuse_succeeds, U|intros ?; cbv beta].
  eapply triple_bind; [apply refuse_succeeds; by destruct (config_board c) eqn:E; [|destruct (u_board _ _ _ U)|]|intros ?; cbv beta].
  eapply triple_bind; [apply refuse_succeeds, Z.ltb_ge, (u_vcpus _ _ _ U)|intros ?; cbv beta].
  eapply triple_bind; [by eapply copy_config_rich|intros ?; cbv beta].
  eapply triple_bind; [apply refuse_succeeds; by destruct (console c) eqn:E; [|destruct (u_console _ _ _ U)|]|intros ?; cbv beta].
  eapply triple_bind; [apply check_drives_succeeds, U|intros ?; cbv beta].
  destruct (u_nets _ _ _ U) as (macs & -> & Nm).
  eapply triple_bind; [by apply (check_nets_succeeds _ macs [])|intros ?; cbv beta].
  eapply triple_bind; [by apply (make_locks_rich a (2 + needed c a) io lock)|intros ?; cbv beta].
  eapply triple_bind; [apply (make_memory_rich a (1 + needed c a)); [done|set_solver]|intros ?; cbv beta].
  eapply triple_bind; [eapply (make_accel_having a (needed c a) _ r); [done..|set_solver|set_solver]|intros ?; cbv beta].
  eapply triple_bind; [by eapply board_having|intros ?; cbv beta].
  eapply triple_bind; [by apply zalloc_having|intros ?; cbv beta]. apply triple_exists. intros x. apply triple_assume. intros ->.
  eapply triple_bind; [by apply zalloc_having|intros ?; cbv beta]. apply triple_exists. intros y. apply triple_assume. intros ->.
  eapply triple_bind; [by apply refuse_succeeds|intros ?; cbv beta].
  eapply triple_bind; [by apply make_vcpus_having|intros ?; cbv beta].
  eapply triple_bind; [by eapply late_succeeds|intros ?; cbv beta]. by apply check_succeeds.
Qed.

Lemma vm_init_succeeds id c a addrs :
  unrefused c a addrs → (vm_init id (Some <$> addrs) (Some c) a).2 = 0.
Proof.
  intros U. destruct (u_memory _ _ _ U) as [Nd Hl]. unfold vm_init.
  pose proof (vm_init_body_succeeds c a addrs U (mk_state (res_pool_init id) (Some <$> addrs) [])) as T.
  destruct (vm_init_body _ _ _) as [s [e|]]; [|done]. destruct T as [_ []].
  split; simpl; [split; [split; constructor|done]|done|]. exists addrs. unfold needed. split_and!; [done|done|lia|].
  intros x _. apply not_elem_of_nil.
Qed.

End Success.

(** C19. Building a machine is all or nothing, wherever it fails: what was set up
    is torn down by [vm_destroy] exactly once and in the reverse order, so that
    what the board added late goes before the processors, these before what it
    added early, then the accelerator, guest memory and last the I/O context;
    what the board gave away is not the machine's.  Every failure is a negative
    code; a machine that is ready has all of its processors, the objects its
    board kept, and network backends with distinct addresses; and it is ready
    whenever the configuration is valid, nothing that [vm_init] asks for is
    refused and there is memory. *)
Theorem vm_init_unwinds id allocs config a :
  Z.of_nat (length allocs) ≤ 2 ^ 64 → answers_ok a →
  (∀ c, config = Some c → Forall mac_ok (default [] (nets c))) →
  let '(s, ret) := vm_init id allocs config a in
  ret ≤ 0 ∧ ∃ objs, in_order objs ∧
  (∀ devices t, Dev.destroy_devices (S (length devices)) devices = Some t →
     vm_destroy s devices = Some (t, nested objs)) ∧
  (ret = 0 → ∃ c io lock bs vs bs', config = Some c ∧ objs = core io lock bs vs bs' ∧
     length vs = Z.to_nat (nr_vcpus c) ∧ bs ++ bs' = board_objects (config_board c) a ∧
     NoDup (take (Z.to_nat (nr_nets c)) (default [] (nets c)))) ∧
  (∀ c addrs, config = Some c → allocs = Some <$> addrs → unrefused c a addrs → ret = 0).
Proof.
  intros Hn Ha Hm. assert (Su : ∀ c addrs, config = Some c → allocs = Some <$> addrs → unrefused c a addrs →
    (vm_init id allocs config a).2 = 0) by (intros c addrs -> ->; apply vm_init_succeeds).
  unfold vm_init in *.
  assert (B : building (length allocs) [] (mk_state (res_pool_init id) allocs [])).
  { split; [|done|done|constructor]. split; simpl; [|done|lia]. split; constructor. }
  assert (D : ∀ s objs devices t, pool_ok (length allocs) s → unwound s = nested objs →
    Dev.destroy_devices (S (length devices)) devices = Some t → vm_destroy s devices = Some (t, nested objs)).
  { intros s objs devices t [I R L] E Et. unfold vm_destroy. rewrite Et. cbn [mbind option_bind].
    rewrite (release_order run_cleanup) by (done || lia). by rewrite <- E. }
  pose proof (vm_init_triple (length allocs) config a Ha Hm _ B) as T.
  destruct (vm_init_body config a _) as [s [e|[]]].
  - destruct T as (He & Ok & objs & Ho & E). split; [lia|]. exists objs. split_and!; [done|eauto|lia|exact Su].
  - destruct T as (c & -> & io & lock & bs & vs & bs' & Eb & Hl & Bs & Nd). split; [done|].
    exists (core io lock bs vs bs'). split_and!.
    + by exists io, lock, bs, vs, bs'.
    + intros. apply D; [apply Bs|by eapply building_unwound|done].
    + intros _. by exists c, io, lock, bs, vs, bs'.
    + done.
Qed.

(** A machine with two processors, whose board makes three objects of which a
    device adopts one, and which an error reported meanwhile keeps from being
    ready. *)
Definition example_config : vm_config :=
  mk_config (Some [107; 118; 109]) 2 None None (Board true) Null 0 None 2
    (Some [Obj (inr [2; 0; 0; 0; 0; 1]); Obj (inr [2; 0; 0; 0; 0; 2])]).
Definition example_allocs : list (option Z) := Some <$> seqZ 100 40.
Definition example_answers (error : Z) : answers :=
  mk_answers (Ptr 7) (Ptr 8) 0 (Some 0) (mk_hook [Make 20; Make 21; Leave 20] 0) (fun _ => 0) (mk_hook [Make 22] 0) error.

Lemma example_answers_ok error : answers_ok (example_answers error).
Proof.
  split; [exact I|]. split; [exact I|]. cbn [fresh h_ops a_board a_late app example_answers].
  do 3 (split; [apply (bool_decide_unpack _); vm_compute; exact I|]). exact I.
Qed.

Lemma example_macs c : Some example_config = Some c → Forall mac_ok (default [] (nets c)).
Proof. intros [= <-]. repeat constructor. Qed.

Lemma example_unrefused : unrefused example_config (example_answers 0) (seqZ 100 40).
Proof.
  split; try done; cbn.
  - exists [[2; 0; 0; 0; 0; 1]; [2; 0; 0; 0; 0; 2]]. split; [done|]. apply (bool_decide_unpack _). vm_compute. exact I.
  - intros str. rewrite !elem_of_cons, elem_of_nil. intros [[= ->]|[[=]|[[=]|[]]]]. vm_compute. done.
  - intros n. rewrite !elem_of_cons, elem_of_nil. intros [->|[->|[]]]; vm_compute; done.
  - split; by eexists.
  - split_and!; try done. by exists 0.
  - split_and!; try done; apply (bool_decide_unpack _); vm_compute; exact I.
  - split; [apply NoDup_seqZ|]. vm_compute. lia.
Qed.

Lemma vm_init_unwinds_witness :
  (vm_init 1 example_allocs (Some example_config) (example_answers (- VM_EIO))).2 = - VM_EIO ∧
  (∃ objs, vm_destroy (vm_init 1 example_allocs (Some example_config) (example_answers (- VM_EIO))).1 [] = Some ([], nested objs)) ∧
  (vm_init 1 example_allocs (Some example_config) (example_answers 0)).2 = 0.
Proof.
  split; [vm_compute; reflexivity|].
  assert (T : ∀ error, _) by exact (fun error => vm_init_unwinds 1 example_allocs (Some example_config) (example_answers error)
    ltac:(by vm_compute) (example_answers_ok error) example_macs).
  pose proof (T (- VM_EIO)) as Te. pose proof (T 0) as T0. clear T.
  destruct (vm_init 1 example_allocs (Some example_config) (example_answers (- VM_EIO))) as [s ret].
  destruct (vm_init 1 example_allocs (Some example_config) (example_answers 0)) as [s0 ret0]. split.
  - destruct Te as (_ & objs & _ & D & _). exists objs. by apply D.
  - destruct T0 as (_ & objs & _ & _ & _ & S). exact (S _ _ eq_refl eq_refl example_unrefused).
Defined.

End Init.
