(* ===== verification/VmRun.v ===== *)
(** * Running and stopping a machine (src/core/vm.c: vm_run, vm_request_shutdown)

    One thread calls [vm_run], which starts a thread for each processor,
    dispatches device work and finally joins the threads.  Meanwhile any thread
    may request a shutdown or report an error.  A step is a section of one of
    these threads between two points where others can interfere; sections
    under the thread lock are one step, except for the loop that starts the
    threads, during which the lock is held.

    A thread handle is the number of its processor.  [None] as the result of a
    step is a fault: a handle used after its thread was destroyed. *)

From S2P Require Import Prelude Topology.

Module VmRun.
Import Space.

(** ** State *)

(** Where [vcpu_thread_fn] is: before it has had the lock, before it looks at
    [stop_requested], in [vcpu_run], inside [vm_report_error] (the error is
    recorded and the stop requested), at its end. *)
Inductive thread_pc : Type := AtGate | AtCheck | Running | Reporting | Ended.
#[export] Instance thread_pc_eq : EqDecision thread_pc.
Proof. solve_decision. Defined.

(** [kicked] says whether a wakeup signal was sent to the thread. *)
Record thread : Type := mk_thread { t_pc : thread_pc; kicked : bool }.

(** Where [vm_run] is: not called; before the boot; in the loop that starts the
    threads, holding the lock; in [io_ctx_run]; at the label out with its value
    of [ret]; in the shutdown of [vm_report_error]; before the shutdown of
    [run_cleanup] and in it; in the loop that joins, with the handle it took;
    returned. *)
Inductive main_pc : Type :=
| Idle
| Starting
| Publishing (i : nat)
| Dispatching
| Leaving (ret : Z)
| Kicking
| Cleanup
| CleanupKicking
| Joining (i : nat) (taken : option nat)
| Returned (ret : Z).

(** [slots] is [ctx->vcpu_threads], one for each processor; [threads] are the
    threads not destroyed yet; [shutting] counts the calls of
    [vm_request_shutdown] by other threads that have stored the stop request but
    not taken the lock; [reports] are the errors reported so far. *)
Record machine : Type := mk_machine {
  vmstate : vm_state;
  stop : bool;
  run_error : Z;
  slots : list (option nat);
  threads : gmap nat thread;
  shutting : nat;
  io_stopped : bool;
  main : main_pc;
  reports : list Z;
}.

Definition eta_machine (m : machine) : machine :=
  mk_machine (vmstate m) (stop m) (run_error m) (slots m) (threads m) (shutting m) (io_stopped m) (main m) (reports m).
#[export] Instance set_vmstate : Setter vmstate := ltac:(derive_setter eta_machine).
#[export] Instance set_stop : Setter stop := ltac:(derive_setter eta_machine).
#[export] Instance set_run_error : Setter run_error := ltac:(derive_setter eta_machine).
#[export] Instance set_slots : Setter slots := ltac:(derive_setter eta_machine).
#[export] Instance set_threads : Setter threads := ltac:(derive_setter eta_machine).
#[export] Instance set_shutting : Setter shutting := ltac:(derive_setter eta_machine).
#[export] Instance set_io_stopped : Setter io_stopped := ltac:(derive_setter eta_machine).
#[export] Instance set_main : Setter main := ltac:(derive_setter eta_machine).
#[export] Instance set_reports : Setter reports := ltac:(derive_setter eta_machine).

(** Is the lock held across steps? *)
Definition locked (m : machine) : bool := match main m with Publishing _ => true | _ => false end.

(** ** Shutdown *)

(** [atomic_compare_exchange_strong(&ctx->run_error, 0, e)]. *)
Definition record_error (e : Z) (m : machine) : machine :=
  (if run_error m =? 0 then m <| run_error := e |> else m) <| reports := reports m ++ [e] |>.

(** The loop of [vm_request_shutdown] over the slots; [kick t] is what the kick
    of a thread returns. *)
Fixpoint kick_slots (kick : nat → Z) (l : list (option nat)) (m : machine) : option machine :=
  match l with
  | [] => Some m
  | None :: l => kick_slots kick l m
  | Some t :: l =>
      th ← threads m !! t;
      let m :=
        if kick t <? 0 then record_error (kick t) m
        else m <| threads := <[t := mk_thread (t_pc th) true]> (threads m) |> in
      kick_slots kick l m
  end.

(** [vm_request_shutdown] after the store: under the lock, then the context. *)
Definition shutdown_rest (kick : nat → Z) (m : machine) : option machine :=
  m ← kick_slots kick (slots m) m;
  Some (m <| io_stopped := true |>).

(** [vm_report_error] up to the store. *)
Definition report (e : Z) (m : machine) : machine :=
  if 0 <=? e then m else record_error e m <| stop := true |>.

(** ** Steps *)

Inductive event : Type :=
| Run (run_data : bool) (add_action : Z)
| Boot (ret : Z)
| Spawn (ret : Z)
| Spawned
| IoReturns (ret : Z)
| Out
| MainKick (kick : nat → Z)
| CleanupStop
| Take
| Join
| Request
| Report (e : Z)
| OtherKick (kick : nat → Z)
| Pass (t : nat)
| Look (t : nat)
| Exit (t : nat)
| Failed (t : nat) (e : Z)
| ThreadKick (t : nat) (kick : nat → Z).

Definition thread_at (m : machine) (t : nat) (pc : thread_pc) : bool :=
  match threads m !! t with Some th => bool_decide (t_pc th = pc) | None => false end.

(** When a step can happen.  [io_ctx_run] returns once the context is stopped,
    or with an error; a join returns once the thread has ended; the lock is
    taken when it is free.  [BUG]s and results of the host are not positive. *)
Definition enabled (m : machine) (e : event) : bool :=
  match e, main m with
  | Run _ r, Idle => r <=? 0
  | Boot _, Starting => true
  | Spawn _, Publishing i => (i <? length (slots m))%nat && negb (stop m)
  | Spawned, Publishing i => negb (i <? length (slots m))%nat || stop m
  | IoReturns r, Dispatching => (r <=? 0) && (io_stopped m || (r <? 0))
  | Out, Leaving _ => true
  | MainKick _, (Kicking | CleanupKicking) => true
  | CleanupStop, Cleanup => true
  | Take, Joining _ None => true
  | Join, Joining _ (Some t) => thread_at m t Ended
  | (Request | Report _), _ => true
  | OtherKick _, _ => negb (locked m) && (0 <? shutting m)%nat
  | Pass t, _ => negb (locked m) && thread_at m t AtGate
  | Look t, _ => thread_at m t AtCheck
  | (Exit t | Failed t _), _ => thread_at m t Running
  | ThreadKick t _, _ => negb (locked m) && thread_at m t Reporting
  | _, _ => false
  end.

Definition set_pc (m : machine) (t : nat) (pc : thread_pc) : machine :=
  m <| threads := alter (fun th => mk_thread pc (kicked th)) t (threads m) |>.

Definition exec (m : machine) (e : event) : option machine :=
  match e, main m with
  | Run run_data add_action, _ =>
      if negb (bool_decide (vmstate m = VM_READY)) then Some (m <| main := Returned (- VM_EINVAL) |>)
      else if stop m then
        let m := m <| vmstate := VM_STOPPED |> in
        Some (m <| main := Returned (run_error m) |>)
      else if negb run_data || (add_action <? 0) then
        m ← shutdown_rest (fun _ => 0) (report (if run_data then add_action else - VM_ENOMEM) m);
        let m := m <| vmstate := VM_STOPPED |> in
        Some (m <| main := Returned (run_error m) |>)
      else
        let m := m <| vmstate := VM_RUNNING |> in
        Some (m <| main := Starting |>)
  | Boot ret, _ =>
      Some (m <| main := if stop m then Leaving 0 else if ret <? 0 then Leaving ret else Publishing 0 |>)
  | Spawn ret, Publishing i =>
      if ret <? 0 then Some (m <| main := Leaving ret |>)
      else
        let m := m <| slots := <[i := Some i]> (slots m) |> in
        let m := m <| threads := <[i := mk_thread AtGate false]> (threads m) |> in
        Some (m <| main := Publishing (i + 1) |>)
  | Spawned, _ => Some (m <| main := Dispatching |>)
  | IoReturns ret, _ => Some (m <| main := Leaving ret |>)
  | Out, Leaving ret =>
      let m := report ret m in
      Some (m <| main := if ret <? 0 then Kicking else Cleanup |>)
  | MainKick kick, pc =>
      m ← shutdown_rest kick m;
      Some (m <| main := match pc with CleanupKicking => Joining 0 None | _ => Cleanup end |>)
  | CleanupStop, _ =>
      let m := m <| stop := true |> in
      Some (m <| main := CleanupKicking |>)
  | Take, Joining i _ =>
      match slots m !! i with
      | None =>
          let m := m <| vmstate := VM_STOPPED |> in
          Some (m <| main := Returned (run_error m) |>)
      | Some None => Some (m <| main := Joining (i + 1) None |>)
      | Some (Some t) =>
          let m := m <| slots := <[i := None]> (slots m) |> in
          Some (m <| main := Joining i (Some t) |>)
      end
  | Join, Joining i (Some t) =>
      _ ← threads m !! t;
      let m := m <| threads := delete t (threads m) |> in
      Some (m <| main := Joining (i + 1) None |>)
  | Request, _ =>
      let m := m <| stop := true |> in
      Some (m <| shutting := S (shutting m) |>)
  | Report e, _ =>
      if 0 <=? e then Some m
      else
        let m := report e m in
        Some (m <| shutting := S (shutting m) |>)
  | OtherKick kick, _ =>
      m ← shutdown_rest kick m;
      Some (m <| shutting := pred (shutting m) |>)
  | Pass t, _ => Some (set_pc m t AtCheck)
  | Look t, _ => Some (set_pc m t (if stop m then Ended else Running))
  | Exit t, _ => Some (set_pc m t Ended)
  | Failed t e, _ => if 0 <=? e then Some (set_pc m t Ended) else Some (set_pc (report e m) t Reporting)
  | ThreadKick t kick, _ =>
      m ← shutdown_rest kick m;
      Some (set_pc m t Ended)
  | _, _ => None
  end.

(** A machine that [vm_init] has built, before [vm_run]. *)
Definition ready (n : nat) : machine :=
  mk_machine VM_READY false 0 (replicate n None) ∅ 0 false Idle [].

Inductive reach (n : nat) : machine → Prop :=
| reach_ready : reach n (ready n)
| reach_step m e m' : reach n m → enabled m e = true → exec m e = Some m' → reach n m'.

(** ** Invariant *)

(** Errors are negative, and the first one counts. *)
Definition errors_ok (m : machine) : Prop :=
  Forall (fun e => e < 0) (reports m) ∧ run_error m = default 0 (head (reports m)).

Definition taken (pc : main_pc) : option nat := match pc with Joining _ tk => tk | _ => None end.

(** A shutdown that will still reach every thread and the context. *)
Definition coming (m : machine) : Prop :=
  (0 < shutting m)%nat ∨ (∃ t th, threads m !! t = Some th ∧ t_pc th = Reporting) ∨
  main m = Kicking ∨ main m = CleanupKicking.

Definition woken (m : machine) (th : thread) : Prop := kicked th = true ∨ run_error m ≠ 0.

Definition main_ok (m : machine) : Prop :=
  match main m with
  | Idle => threads m = ∅ ∧ vmstate m = VM_READY
  | Starting => threads m = ∅
  | Publishing _ => ∀ t th, threads m !! t = Some th → t_pc th = AtGate
  | Kicking | CleanupKicking => stop m = true
  | Joining i tk =>
      stop m = true ∧ (∀ j, (j < i)%nat → slots m !! j ≠ Some (Some j)) ∧
      (∀ t th, threads m !! t = Some th → t_pc th = Running → woken m th) ∧
      match tk with
      | Some t => t = i ∧ slots m !! i = Some None ∧ is_Some (threads m !! t)
      | None => True
      end
  | Returned r => threads m = ∅ ∧ vmstate m = VM_STOPPED ∧ (r ≠ 0 → run_error m = r)
  | _ => True
  end.

Record inv (n : nat) (m : machine) : Prop := {
  i_len : length (slots m) = n;
  i_slot : ∀ i t, slots m !! i = Some (Some t) → t = i ∧ is_Some (threads m !! t);
  i_owner : ∀ t th, threads m !! t = Some th → slots m !! t = Some (Some t) ∨ taken (main m) = Some t;
  i_errors : errors_ok m;
  i_main : main_ok m;
  i_kick : ∀ t th, threads m !! t = Some th → t_pc th = Running → stop m = true → woken m th ∨ coming m;
  i_io : stop m = true → io_stopped m = true ∨ coming m;
}.

Lemma record_error_ok e m : e < 0 → errors_ok m → errors_ok (record_error e m).
Proof.
  intros He [F E]. unfold record_error, errors_ok. split.
  - simpl. apply Forall_app. auto.
  - destruct (reports m) as [|e0 l] eqn:Er; simpl in *.
    + by rewrite E.
    + apply Forall_cons in F as [F0 _]. destruct (Z.eqb_spec (run_error m) 0); simpl; [lia|]. done.
Qed.

Lemma record_error_set e m : e < 0 → run_error (record_error e m) ≠ 0.
Proof. intros He. unfold record_error. destruct (Z.eqb_spec (run_error m) 0); simpl; lia. Qed.

Lemma record_error_keeps e m : run_error m ≠ 0 → run_error (record_error e m) = run_error m.
Proof. intros He. unfold record_error. by destruct (Z.eqb_spec (run_error m) 0). Qed.

(** What kicking the threads of some slots changes. *)
Record kicks (m m' : machine) : Prop := {
  k_vmstate : vmstate m' = vmstate m;
  k_stop : stop m' = stop m;
  k_slots : slots m' = slots m;
  k_shutting : shutting m' = shutting m;
  k_io : io_stopped m' = io_stopped m;
  k_main : main m' = main m;
  k_errors : errors_ok m → errors_ok m';
  k_error : run_error m ≠ 0 → run_error m' = run_error m;
  k_back : ∀ t th', threads m' !! t = Some th' →
    ∃ th, threads m !! t = Some th ∧ t_pc th = t_pc th' ∧ (kicked th = true → kicked th' = true);
  k_forth : ∀ t th, threads m !! t = Some th → ∃ th', threads m' !! t = Some th' ∧ t_pc th' = t_pc th;
}.

Lemma kicks_refl m : kicks m m.
Proof. split; eauto. Qed.

Lemma kicks_trans m1 m2 m3 : kicks m1 m2 → kicks m2 m3 → kicks m1 m3.
Proof.
  intros [] []. split; try congruence; auto.
  - intros Hn. rewrite k_error1; auto. rewrite k_error0; auto.
  - intros t th3 H3. destruct (k_back1 t th3 H3) as (th2 & H2 & E2 & K2). destruct (k_back0 t th2 H2) as (th1 & H1 & E1 & K1).
    exists th1. split_and!; [done|congruence|auto].
  - intros t th1 H1. destruct (k_forth0 t th1 H1) as (th2 & H2 & E2). destruct (k_forth1 t th2 H2) as (th3 & H3 & E3).
    exists th3. split; [done|congruence].
Qed.

Lemma kick_slots_ok kick l : ∀ m,
  (∀ t, Some t ∈ l → is_Some (threads m !! t)) →
  ∃ m', kick_slots kick l m = Some m' ∧ kicks m m' ∧
    ∀ t th', Some t ∈ l → threads m' !! t = Some th' → woken m' th'.
Proof.
  induction l as [|[t|] l IH]; intros m Hl; simpl.
  - exists m. split_and!; [done|apply kicks_refl|]. by intros ? ? ?%elem_of_nil.
  - destruct (Hl t ltac:(left)) as [th Hth]. rewrite Hth. cbn [mbind option_bind]. cbv zeta. set (m1 := if _ <? _ then _ else _).
    assert (K1 : kicks m m1 ∧ ∃ th1, threads m1 !! t = Some th1 ∧ woken m1 th1).
    { unfold m1. destruct (Z.ltb_spec (kick t) 0) as [Hk|Hk].
      - split.
        + unfold record_error. split; try (by destruct (run_error m =? 0)).
          * by apply record_error_ok.
          * by apply record_error_keeps.
          * intros t' th'. destruct (run_error m =? 0); simpl; eauto.
          * intros t' th'. destruct (run_error m =? 0); simpl; eauto.
        + exists th. split; [by unfold record_error; destruct (run_error m =? 0)|]. right. by apply record_error_set.
      - split; [|exists (mk_thread (t_pc th) true); split; [simpl; by rewrite lookup_insert_eq|by left]].
        split; simpl; try done.
        + intros t' th' [[<- <-]|[Hne Ht']]%lookup_insert_Some; eauto.
        + intros t' th' Ht'. destruct (decide (t' = t)) as [->|Hne].
          * simplify_eq. rewrite lookup_insert_eq. eauto.
          * rewrite lookup_insert_ne by done. eauto. }
    destruct K1 as [K1 (th1 & Ht1 & W1)].
    destruct (IH m1) as (m' & E & K & W).
    { intros t' Ht'. destruct (Hl t' ltac:(by right)) as [th' Hth']. destruct (k_forth _ _ K1 t' th' Hth') as (? & ? & _). by eexists. }
    exists m'. split_and!; [done|by eapply kicks_trans|].
    intros t' th' [?|Ht']%elem_of_cons Hth'; [|by eapply W]. simplify_eq.
    destruct (k_back _ _ K t th' Hth') as (th2 & Ht2 & _ & Hk). simplify_eq.
    destruct W1 as [W1|W1]; [left; auto|right]. by rewrite (k_error _ _ K).
  - destruct (IH m) as (m' & E & K & W).
    { intros t Ht. apply Hl. by right. }
    exists m'. split_and!; [done..|]. intros t th' [?|Ht]%elem_of_cons Hth'; [done|by eapply W].
Qed.

(** After a shutdown: every thread in the guest is woken, the context stopped. *)
Lemma shutdown_ok n kick m :
  inv n m → ∃ m', shutdown_rest kick m = Some (m' <| io_stopped := true |>) ∧ kicks m m' ∧
    ∀ t th', threads m' !! t = Some th' → t_pc th' = Running → woken m' th'.
Proof.
  intros I. destruct (kick_slots_ok kick (slots m) m) as (m' & E & K & W).
  { intros t [i Hi]%list_elem_of_lookup. by apply (i_slot n m I) in Hi as [_ ?]. }
  exists m'. unfold shutdown_rest. rewrite E. split_and!; [done..|].
  intros t th' Ht' Hpc. destruct (k_back _ _ K t th' Ht') as (th & Ht & Epc & Hk).
  destruct (i_owner n m I t th Ht) as [Hs|Htk].
  - apply (W t); [|done]. apply list_elem_of_lookup. by exists t.
  - pose proof (i_main n m I) as Hm. unfold main_ok in Hm. destruct (main m); try done. destruct Hm as (_ & _ & Hw & _).
    destruct (Hw t th Ht ltac:(congruence)) as [?|?]; [left; auto|right]. by rewrite (k_error _ _ K).
Qed.

(** Everything but the part that belongs to [vm_run], once all are woken. *)
Lemma woken_inv n m m2 :
  inv n m → slots m2 = slots m → (∀ t, is_Some (threads m2 !! t) ↔ is_Some (threads m !! t)) → errors_ok m2 →
  (∀ t th, threads m2 !! t = Some th → slots m !! t = Some (Some t) ∨ taken (main m2) = Some t) →
  (∀ t th, threads m2 !! t = Some th → t_pc th = Running → woken m2 th) →
  io_stopped m2 = true → main_ok m2 → inv n m2.
Proof.
  intros I Es Et Ee Eo Ew Ei Em. split; rewrite ?Es; try done.
  - apply I.
  - intros i t Hi. destruct (i_slot n m I i t Hi) as [-> Ht]. split; [done|]. by apply Et.
  - intros t th Ht Hpc _. left. eauto.
  - by left.
Qed.

Lemma kicks_threads m m' : kicks m m' → ∀ t, is_Some (threads m' !! t) ↔ is_Some (threads m !! t).
Proof.
  intros K t. split; intros [th Ht].
  - destruct (k_back _ _ K t th Ht) as (? & ? & _). by eexists.
  - destruct (k_forth _ _ K t th Ht) as (? & ? & _). by eexists.
Qed.

Lemma kicks_owner n m m' :
  inv n m → kicks m m' → ∀ t th, threads m' !! t = Some th → slots m !! t = Some (Some t) ∨ taken (main m) = Some t.
Proof. intros I K t th Ht. destruct (k_back _ _ K t th Ht) as (th0 & Ht0 & _). by eapply (i_owner n m I). Qed.

(** A step of another thread that makes a shutdown does not disturb [vm_run]. *)
Lemma kicks_main_ok m m' :
  kicks m m' → locked m = false → main_ok m →
  (∀ t th', threads m' !! t = Some th' → t_pc th' = Running → woken m' th') → main_ok m'.
Proof.
  intros K L M W. assert (Em : threads m = ∅ → threads m' = ∅).
  { intros E. apply map_empty. intros t. destruct (threads m' !! t) eqn:Ht; [|done].
    destruct (k_back _ _ K t _ Ht) as (th & Hth & _). by rewrite E in Hth. }
  unfold main_ok, locked in *. rewrite (k_main _ _ K). destruct (main m) as [| | | | | | | |i tk|r];
    rewrite ?(k_vmstate _ _ K), ?(k_stop _ _ K), ?(k_slots _ _ K); try done.
  - destruct M; auto.
  - auto.
  - destruct M as (Hs & Hj & _ & Ht). split_and!; try done. destruct tk as [t|]; [|done].
    destruct Ht as (-> & Hi & Hth). split_and!; [done..|]. by apply (kicks_threads _ _ K).
  - destruct M as (Ht & Hv & Hr). split_and!; auto. intros Hn. specialize (Hr Hn). rewrite (k_error _ _ K); [done|congruence].
Qed.

Definition step_ok (n : nat) (m : machine) (e : event) : Prop := ∃ m', exec m e = Some m' ∧ inv n m'.

Lemma main_kick_step n m kick : inv n m → enabled m (MainKick kick) = true → step_ok n m (MainKick kick).
Proof.
  intros I En. destruct (shutdown_ok n kick m I) as (m' & E & K & W). unfold step_ok. cbn [exec]. rewrite E.
  cbn [mbind option_bind]. unfold enabled in En. pose proof (i_main n m I) as M. unfold main_ok in M.
  pose proof (kicks_owner n m m' I K) as O. pose proof (k_errors _ _ K (i_errors n m I)).
  destruct (main m) eqn:Em; try done; eexists; (split; [done|]);
    eapply woken_inv; simpl; eauto using kicks_threads; try apply K; try done.
  split_and!; try done; [simpl; by rewrite (k_stop _ _ K)|]. lia.
Qed.

Lemma other_kick_step n m kick : inv n m → enabled m (OtherKick kick) = true → step_ok n m (OtherKick kick).
Proof.
  intros I En. destruct (shutdown_ok n kick m I) as (m' & E & K & W). unfold step_ok. cbn [exec]. rewrite E.
  cbn [mbind option_bind]. apply andb_true_iff in En as [L _]. apply negb_true_iff in L.
  pose proof (kicks_owner n m m' I K) as O. pose proof (k_errors _ _ K (i_errors n m I)).
  pose proof (kicks_main_ok m m' K L (i_main n m I) W) as M.
  eexists. split; [done|]. eapply woken_inv; simpl; eauto using kicks_threads; try apply K. by rewrite (k_main _ _ K).
Qed.

Lemma thread_at_spec m t pc : thread_at m t pc = true → ∃ th, threads m !! t = Some th ∧ t_pc th = pc.
Proof. unfold thread_at. destruct (threads m !! t) as [th|]; [|done]. rewrite bool_decide_eq_true. eauto. Qed.

(** The threads after one has moved. *)
Lemma set_pc_lookup m t th pc t' th' :
  threads m !! t = Some th → threads (set_pc m t pc) !! t' = Some th' →
  t' = t ∧ th' = mk_thread pc (kicked th) ∨ t' ≠ t ∧ threads m !! t' = Some th'.
Proof.
  intros Ht. unfold set_pc. simpl. destruct (decide (t' = t)) as [->|Hne].
  - rewrite lookup_alter_eq, Ht. simpl. intros. simplify_eq. auto.
  - rewrite lookup_alter_ne by done. auto.
Qed.

Lemma set_pc_is_Some m t pc t' : is_Some (threads (set_pc m t pc) !! t') ↔ is_Some (threads m !! t').
Proof.
  unfold set_pc. simpl. destruct (decide (t' = t)) as [->|Hne].
  - rewrite lookup_alter_eq. by rewrite fmap_is_Some.
  - by rewrite lookup_alter_ne.
Qed.

Lemma set_pc_keeps m t th pc t' th' :
  threads m !! t = Some th → threads m !! t' = Some th' → t' ≠ t → threads (set_pc m t pc) !! t' = Some th'.
Proof. intros _ H Hne. unfold set_pc. simpl. by rewrite lookup_alter_ne. Qed.

Lemma no_threads m t th : threads m !! t = Some th → threads m ≠ ∅.
Proof. intros H E. by rewrite E in H. Qed.

(** The part of [vm_run] when a thread moves outside of the loop that starts
    the threads. *)
Lemma set_pc_main_ok m t th pc :
  main_ok m → threads m !! t = Some th → locked m = false → (pc = Running → stop m = false) → main_ok (set_pc m t pc).
Proof.
  intros M Ht L Hp. pose proof (no_threads m t th Ht). unfold main_ok, locked in *. change (main (set_pc m t pc)) with (main m).
  destruct (main m) as [| | | | | | | |i tk|r]; try tauto; try done.
  destruct M as (Hs & Hj & Hw & Htk). split_and!; try done.
  - intros t' th' Ht' Hpc. destruct (set_pc_lookup m t th pc t' th' Ht Ht') as [[-> ->]|[_ H']]; [|by apply (Hw t' th')].
    simpl in Hpc. specialize (Hp Hpc). congruence.
  - destruct tk as [t0|]; [|done]. destruct Htk as (-> & Hi & H0). split_and!; [done..|]. by apply set_pc_is_Some.
Qed.

Lemma set_pc_inv n m t th pc :
  inv n m → threads m !! t = Some th → t_pc th ≠ Reporting → locked m = false → (pc = Running → stop m = false) →
  inv n (set_pc m t pc).
Proof.
  intros I Ht Hr L Hp. assert (C : coming m → coming (set_pc m t pc)).
  { intros [?|[(t' & th' & Ht' & Hpc)|?]]; [by left| |by right; right]. right. left. exists t', th'. split; [|done].
    apply (set_pc_keeps m t th); [done..|]. intros ->. simplify_eq. }
  split.
  - apply I.
  - intros i t' Hi. destruct (i_slot n m I i t' Hi) as [-> Hs]. split; [done|]. by apply set_pc_is_Some.
  - intros t' th' Ht'. destruct (set_pc_lookup m t th pc t' th' Ht Ht') as [[-> _]|[_ H']]; by eapply (i_owner n m I).
  - apply I.
  - by eapply set_pc_main_ok; [apply I|..].
  - intros t' th' Ht' Hpc Hs. destruct (set_pc_lookup m t th pc t' th' Ht Ht') as [[-> ->]|[_ H']].
    + simpl in Hpc. specialize (Hp Hpc). simpl in Hs. congruence.
    + destruct (i_kick n m I t' th' H' Hpc Hs) as [?|?]; auto.
  - intros Hs. destruct (i_io n m I Hs); auto.
Qed.

(** No thread is past the gate while the lock is held. *)
Lemma past_gate n m t th : inv n m → threads m !! t = Some th → t_pc th ≠ AtGate → locked m = false.
Proof.
  intros I Ht Hp. pose proof (i_main n m I) as M. unfold main_ok, locked in *. destruct (main m); try done.
  by destruct Hp; eapply M.
Qed.

Lemma thread_kick_step n m t kick : inv n m → enabled m (ThreadKick t kick) = true → step_ok n m (ThreadKick t kick).
Proof.
  intros I En. apply andb_true_iff in En as [L (th & Ht & Hpc)%thread_at_spec]. apply negb_true_iff in L.
  destruct (shutdown_ok n kick m I) as (m' & E & K & W). unfold step_ok. cbn [exec]. rewrite E.
  cbn [mbind option_bind]. pose proof (k_errors _ _ K (i_errors n m I)). destruct (k_forth _ _ K t th Ht) as (th1 & Ht1 & _).
  assert (B : ∀ t' th', threads (set_pc m' t Ended) !! t' = Some th' →
    is_Some (threads m' !! t') ∧ (t_pc th' = Running → woken m' th')).
  { intros t' th' Ht'. destruct (set_pc_lookup m' t th1 Ended t' th' Ht1 Ht') as [[-> ->]|[_ H']]; [by eauto|]. eauto. }
  eexists. split; [done|]. apply (woken_inv n m); simpl; try done.
  - apply K.
  - intros t'. etrans; [apply (set_pc_is_Some m' t Ended)|]. by apply kicks_threads.
  - intros t' th' Ht'. destruct (B t' th' Ht') as [[th2 H2] _]. destruct (kicks_owner n m m' I K t' th2 H2); [by left|].
    right. by rewrite (k_main _ _ K).
  - intros t' th' Ht'. by apply (B t' th').
  - eapply (set_pc_main_ok m' t th1 Ended); [|done| |done].
    + by apply (kicks_main_ok m m' K L (i_main n m I)).
    + unfold locked. by rewrite (k_main _ _ K).
Qed.

(** A stop request, by a thread that will wake the others. *)
Record reported (e : Z) (m m' : machine) : Prop := {
  rp_frame : slots m' = slots m ∧ threads m' = threads m ∧ main m' = main m ∧ vmstate m' = vmstate m ∧
    shutting m' = shutting m ∧ io_stopped m' = io_stopped m;
  rp_stop : stop m' = true;
  rp_errors : errors_ok m → errors_ok m';
  rp_error : run_error m' ≠ 0;
  rp_first : run_error m ≠ 0 → run_error m' = run_error m;
}.

Lemma report_spec e m : e < 0 → reported e m (report e m).
Proof.
  intros He. unfold report. destruct (Z.leb_spec 0 e); [lia|]. split; simpl.
  - unfold record_error. by destruct (run_error m =? 0).
  - done.
  - intros Ok. by apply (record_error_ok e) in Ok.
  - by apply record_error_set.
  - by apply record_error_keeps.
Qed.

Lemma request_inv n m m2 :
  inv n m → slots m2 = slots m → threads m2 = threads m → main m2 = main m → vmstate m2 = vmstate m → stop m2 = true →
  errors_ok m2 → (run_error m ≠ 0 → run_error m2 = run_error m) → coming m2 → inv n m2.
Proof.
  intros I Es Et Em Ev Est Ee Er C. split; rewrite ?Es, ?Et, ?Em; try apply I; try done; [|by auto|by auto].
  pose proof (i_main n m I) as M. unfold main_ok in *. rewrite Em. destruct (main m) as [| | | | | | | |i tk|r];
    rewrite ?Es, ?Et, ?Ev; try done.
  - destruct M as (Hs & Hj & Hw & Ht). split_and!; try done. intros t th Hth Hpc.
    destruct (Hw t th Hth Hpc) as [?|Hn]; [by left|right]. by rewrite Er.
  - destruct M as (Ht & Hv & Hr). split_and!; try done. intros Hn. specialize (Hr Hn). rewrite Er; congruence.
Qed.

Lemma request_step n m : inv n m → step_ok n m Request.
Proof.
  intros I. unfold step_ok. cbn [exec]. eexists. split; [done|]. eapply request_inv; try done; [apply I|]. left. simpl. lia.
Qed.

Lemma report_step n m e : inv n m → step_ok n m (Report e).
Proof.
  intros I. unfold step_ok. cbn [exec]. destruct (Z.leb_spec 0 e) as [|He]; [by eauto|]. eexists. split; [done|].
  destruct (report_spec e m He) as [(Es & Et & Em & Ev & Eh & Eio) Est Ee _ Er].
  eapply request_inv; simpl; try done; [by apply Ee, I|]. left. simpl. lia.
Qed.

Lemma failed_step n m t e : inv n m → enabled m (Failed t e) = true → step_ok n m (Failed t e).
Proof.
  intros I (th & Ht & Hpc)%thread_at_spec. pose proof (past_gate n m t th I Ht ltac:(congruence)) as L.
  unfold step_ok. cbn [exec]. destruct (Z.leb_spec 0 e) as [|He].
  - eexists. split; [done|]. apply (set_pc_inv n m t th); congruence.
  - eexists. split; [done|]. destruct (report_spec e m He) as [(Es & Et & Em & Ev & Eh & Eio) Est Ee En Er].
    assert (C : coming (set_pc (report e m) t Reporting)).
    { right. left. exists t, (mk_thread Reporting (kicked th)). split; [|done]. unfold set_pc. simpl.
      by rewrite Et, lookup_alter_eq, Ht. }
    assert (Ht' : threads (report e m) !! t = Some th) by congruence.
    split.
    + unfold set_pc. simpl. rewrite Es. apply I.
    + intros i t' Hi. unfold set_pc in Hi. simpl in Hi. rewrite Es in Hi. destruct (i_slot n m I i t' Hi) as [-> Hs].
      split; [done|]. apply set_pc_is_Some. congruence.
    + intros t' th' H'. change (main (set_pc (report e m) t Reporting)) with (main (report e m)). rewrite Em.
      change (slots (set_pc (report e m) t Reporting)) with (slots (report e m)). rewrite Es.
      destruct (set_pc_lookup _ _ _ _ _ _ Ht' H') as [[-> _]|[_ H2]]; eapply (i_owner n m I); [done|]. by rewrite <- Et.
    + apply Ee, I.
    + apply (set_pc_main_ok _ _ th); [|done| |done].
      * pose proof (i_main n m I) as M. pose proof (no_threads m t th Ht). unfold main_ok in *. rewrite Em.
        destruct (main m) as [| | | | | | | |i tk|r]; rewrite ?Es, ?Et, ?Ev; try done; try tauto.
        destruct M as (Hs & Hj & Hw & Htk). split_and!; try done. intros. by right.
      * unfold locked. by rewrite Em.
    + by right.
    + by right.
Qed.

Lemma thread_step n m e :
  inv n m → enabled m e = true → match e with Pass _ | Look _ | Exit _ => True | _ => False end → step_ok n m e.
Proof.
  intros I En He. destruct e; try done; unfold step_ok; cbn [exec]; (eexists; split; [done|]).
  - apply andb_true_iff in En as [L (th & Ht & Hpc)%thread_at_spec]. apply negb_true_iff in L.
    apply (set_pc_inv n m t th); congruence.
  - apply thread_at_spec in En as (th & Ht & Hpc). pose proof (past_gate n m t th I Ht ltac:(congruence)).
    apply (set_pc_inv n m t th); try congruence. by destruct (stop m).
  - apply thread_at_spec in En as (th & Ht & Hpc). pose proof (past_gate n m t th I Ht ltac:(congruence)).
    apply (set_pc_inv n m t th); congruence.
Qed.

(** [vm_run] goes on, and nothing else changes. *)
Lemma move_inv n m v pc :
  inv n m → main m ≠ Kicking → main m ≠ CleanupKicking → taken pc = taken (main m) →
  main_ok (m <| vmstate := v |> <| main := pc |>) → inv n (m <| vmstate := v |> <| main := pc |>).
Proof.
  intros I H1 H2 Htk M. assert (C : coming m → coming (m <| vmstate := v |> <| main := pc |>)).
  { intros [?|[?|[?|?]]]; [by left|by right; left|done..]. }
  split; simpl; try apply I; try done.
  - intros. rewrite Htk. by eapply (i_owner n m I).
  - intros t th Ht Hpc Hs. destruct (i_kick n m I t th Ht Hpc Hs); auto.
  - intros Hs. destruct (i_io n m I Hs); auto.
Qed.

Lemma move_main n m pc :
  inv n m → main m ≠ Kicking → main m ≠ CleanupKicking → taken pc = taken (main m) →
  main_ok (m <| main := pc |>) → inv n (m <| main := pc |>).
Proof.
  intros I H1 H2 Htk M. replace (m <| main := pc |>) with (m <| vmstate := vmstate m |> <| main := pc |>) in *
    by (by destruct m). by apply move_inv.
Qed.

Lemma run_step n m d r : inv n m → enabled m (Run d r) = true → step_ok n m (Run d r).
Proof.
  intros I En. pose proof (i_main n m I) as M. unfold enabled, main_ok in *. destruct (main m) eqn:Em; try done.
  destruct M as [Et Ev]. unfold step_ok. cbn [exec]. rewrite Ev. rewrite bool_decide_eq_true_2 by done. cbn [negb].
  destruct (stop m) eqn:Es.
  - eexists. split; [done|]. apply move_inv; rewrite ?Em; try done.
  - destruct (negb d || (r <? 0)) eqn:Ef.
    + set (e := if d then r else - VM_ENOMEM). assert (He : e < 0).
      { unfold e, VM_ENOMEM. destruct d; [|lia]. simpl in Ef. lia. }
      destruct (report_spec e m He) as [(Esl & Eth & Ema & Evs & Eh & Eio) Est Ee _ Er].
      destruct (kick_slots_ok (fun _ => 0) (slots (report e m)) (report e m)) as (m' & E & K & W).
      { rewrite Esl, Eth. intros t [i Hi]%list_elem_of_lookup. by apply (i_slot n m I) in Hi as [_ ?]. }
      unfold shutdown_rest. rewrite E. cbn [mbind option_bind]. eexists. split; [done|].
      assert (Em' : threads m' = ∅).
      { apply map_empty. intros t. destruct (threads m' !! t) eqn:Ht; [|done].
        destruct (k_back _ _ K t _ Ht) as (th & Hth & _). by rewrite Eth, Et in Hth. }
      apply (woken_inv n m); simpl; try done.
      * rewrite (k_slots _ _ K). done.
      * intros t. by rewrite Em', Et.
      * by apply K, Ee, I.
      * intros t th. by rewrite Em'.
      * intros t th. by rewrite Em'.
    + eexists. split; [done|]. apply move_inv; rewrite ?Em; done.
Qed.

Lemma spawn_step n m r : inv n m → enabled m (Spawn r) = true → step_ok n m (Spawn r).
Proof.
  intros I En. pose proof I as [Hl Hs Ho He M Hk Hi]. unfold enabled, main_ok in *. destruct (main m) as [| |i| | | | | | |] eqn:Em; try done.
  apply andb_true_iff in En as [Hlt Hst]. apply Nat.ltb_lt in Hlt. apply negb_true_iff in Hst.
  unfold step_ok, exec. rewrite Em. destruct (r <? 0); (eexists; split; [done|]).
  - apply move_main; rewrite ?Em; done.
  - split; simpl.
    + by rewrite length_insert.
    + intros j t. rewrite list_lookup_insert_Some. intros [(<- & [= <-] & _)|(Hne & Hj)].
      * rewrite lookup_insert_eq. split; [done|]. by eexists.
      * destruct (Hs j t Hj) as [-> Ht]. split; [done|]. by rewrite lookup_insert_ne.
    + intros t th. rewrite lookup_insert_Some. intros [[<- _]|[Hne Ht]]; left.
      * by rewrite list_lookup_insert_eq.
      * rewrite list_lookup_insert_ne by done. by destruct (Ho t th Ht).
    + done.
    + unfold main_ok. simpl. intros t th. rewrite lookup_insert_Some. intros [[_ <-]|[_ Ht]]; [done|by eapply M].
    + congruence.
    + congruence.
Qed.

Lemma out_step n m : inv n m → enabled m Out = true → step_ok n m Out.
Proof.
  intros I En. unfold enabled in En. destruct (main m) as [| | | |ret| | | | |] eqn:Em; try done.
  unfold step_ok, exec. rewrite Em. eexists. split; [done|]. destruct (Z.ltb_spec ret 0) as [Hr|Hr].
  - destruct (report_spec ret m Hr) as [(Es & Et & Ema & Ev & Eh & Eio) Est Ee _ Er].
    assert (C : coming (report ret m <| main := Kicking |>)) by (right; right; by left).
    split; simpl; rewrite ?Es, ?Et; try apply I; try done; auto.
    + intros t th Ht. pose proof (i_owner n m I t th Ht) as O. by rewrite Em in O.
    + by apply Ee, I.
  - unfold report. destruct (Z.leb_spec 0 ret); [|lia]. apply move_main; rewrite ?Em; done.
Qed.

Lemma cleanup_stop_step n m : inv n m → enabled m CleanupStop = true → step_ok n m CleanupStop.
Proof.
  intros I En. unfold enabled in En. destruct (main m) eqn:Em; try done.
  unfold step_ok, exec. eexists. split; [done|].
  assert (C : coming (m <| stop := true |> <| main := CleanupKicking |>)) by (right; right; by right).
  split; simpl; try apply I; try done; auto.
  intros t th Ht. pose proof (i_owner n m I t th Ht) as O. by rewrite Em in O.
Qed.

Lemma vcpu_take_step n m : inv n m → enabled m Take = true → step_ok n m Take.
Proof.
  intros I En. pose proof I as [Hl Hs Ho He M Hk Hi]. unfold enabled in En. unfold main_ok in M.
  destruct (main m) as [| | | | | | | |i [|]|] eqn:Em; try done. destruct M as (Hst & Hj & Hw & _).
  unfold step_ok, exec. rewrite Em. destruct (slots m !! i) as [[t|]|] eqn:Ei.
  - destruct (Hs i t Ei) as [-> Ht]. eexists. split; [done|].
    assert (Li : (i < length (slots m))%nat) by (by eapply lookup_lt_Some). split; simpl.
    + by rewrite length_insert.
    + intros j t. rewrite list_lookup_insert_Some. intros [(_ & ? & _)|(_ & H')]; [done|]. by apply Hs.
    + intros t th Hth. destruct (decide (t = i)) as [->|Hne]; [by right|left].
      rewrite list_lookup_insert_ne by done. by destruct (Ho t th Hth).
    + done.
    + unfold main_ok. simpl. split_and!; try done.
      * intros j Hlt. rewrite list_lookup_insert_ne by lia. by apply Hj.
      * by rewrite list_lookup_insert_eq.
    + intros t th Hth Hpc _. left. by apply (Hw t th).
    + intros _. destruct (Hi Hst) as [?|C]; [by left|right]. destruct C as [?|[?|[?|?]]]; [by left|by right; left|congruence..].
  - eexists. split; [done|]. apply move_main; rewrite ?Em; try done. unfold main_ok. simpl. split_and!; try done.
    intros j Hlt. destruct (decide (j = i)) as [->|]; [congruence|]. apply Hj. lia.
  - eexists. split; [done|]. apply move_inv; rewrite ?Em; try done. unfold main_ok. simpl. split_and!; try done.
    apply map_empty. intros t. destruct (threads m !! t) as [th|] eqn:Ht; [|done].
    destruct (Ho t th Ht) as [H'|]; [|done]. destruct (decide (t < i)%nat); [by destruct (Hj t)|].
    apply lookup_ge_None_1 in Ei. apply lookup_lt_Some in H'. lia.
Qed.

Lemma join_step n m : inv n m → enabled m Join = true → step_ok n m Join.
Proof.
  intros I En. pose proof I as [Hl Hs Ho He M Hk Hi]. unfold enabled in En. unfold main_ok in M.
  destruct (main m) as [| | | | | | | |i [t|]|] eqn:Em; try done. destruct M as (Hst & Hj & Hw & -> & Hn & _).
  apply thread_at_spec in En as (th & Ht & Hpc). unfold step_ok, exec. rewrite Em, Ht. cbn [mbind option_bind].
  eexists. split; [done|]. split; simpl.
  - done.
  - intros j t Hjt. destruct (Hs j t Hjt) as [-> Htj]. split; [done|]. rewrite lookup_delete_ne; [done|]. congruence.
  - intros t th' [Hne Ht']%lookup_delete_Some. left. by destruct (Ho t th' Ht') as [|[= ->]].
  - done.
  - unfold main_ok. simpl. split_and!; try done.
    + intros j Hlt. destruct (decide (j = i)) as [->|]; [congruence|]. apply Hj. lia.
    + intros t th' [_ Ht']%lookup_delete_Some. by apply (Hw t th').
  - intros t th' [_ Ht']%lookup_delete_Some Hpc' _. left. by apply (Hw t th').
  - intros _. destruct (Hi Hst) as [?|C]; [by left|right]. destruct C as [?|[(t' & th' & H' & Hp')|[?|?]]]; [by left| |congruence..].
    right. left. exists t', th'. split; [|done]. simpl. rewrite lookup_delete_ne; [done|]. congruence.
Qed.

Lemma run_step_inv n m e : inv n m → enabled m e = true → step_ok n m e.
Proof.
  intros I En. pose proof (i_main n m I) as M. destruct e.
  - by apply run_step.
  - unfold enabled in En. destruct (main m) eqn:Em; try done. unfold step_ok. cbn [exec]. eexists. split; [done|].
    unfold main_ok in M. rewrite Em in M.
    destruct (stop m); [|destruct (ret <? 0)]; apply move_main; rewrite ?Em; try done. intros t th. simpl. by rewrite M.
  - by apply spawn_step.
  - unfold enabled in En. destruct (main m) eqn:Em; try done. eexists. split; [done|]. apply move_main; rewrite ?Em; done.
  - unfold enabled in En. destruct (main m) eqn:Em; try done. eexists. split; [done|]. apply move_main; rewrite ?Em; done.
  - by apply out_step.
  - by apply main_kick_step.
  - by apply cleanup_stop_step.
  - by apply vcpu_take_step.
  - by apply join_step.
  - by apply request_step.
  - by apply report_step.
  - by apply other_kick_step.
  - by apply thread_step.
  - by apply thread_step.
  - by apply thread_step.
  - by apply failed_step.
  - by apply thread_kick_step.
Qed.

Lemma run_reach_inv n m : reach n m → inv n m.
Proof.
  induction 1 as [|m e m' R IH En E].
  - split; simpl; try done; [by rewrite length_replicate|]. intros i t Hi. by apply lookup_replicate in Hi as [? _].
  - destruct (run_step_inv n m e IH En) as (m2 & E2 & I2). by simplify_eq.
Qed.

(** [vm_run] returns the error that is recorded then. *)
Lemma returns n m e m' r :
  inv n m → enabled m e = true → exec m e = Some m' → main m' = Returned r → main m = Returned r ∨ r = run_error m'.
Proof.
  intros I En E Er. pose proof (i_main n m I) as M. unfold main_ok in M.
  assert (K : ∀ kick m1, shutdown_rest kick m = Some m1 → main m1 = main m).
  { intros kick m1 E1. destruct (shutdown_ok n kick m I) as (m2 & E2 & K & _). rewrite E1 in E2. simplify_eq. simpl. apply K. }
  unfold enabled in En. unfold exec in E. destruct e; try (destruct (main m) as [| | | | | | | |i [|]|] eqn:Em; done).
  - destruct (main m) eqn:Em; try done. destruct M as [_ Ev]. rewrite Ev in E. rewrite bool_decide_eq_true_2 in E by done. simpl in E.
    destruct (stop m); [simplify_eq/=; by right|]. destruct (_ || _); [|by simplify_eq/=].
    destruct (shutdown_rest _ _); simplify_eq/=. by right.
  - simplify_eq/=. by destruct (stop m), (ret <? 0).
  - destruct (main m); try done. by destruct (ret <? 0); simplify_eq/=.
  - by simplify_eq/=.
  - by simplify_eq/=.
  - destruct (main m); try done. simplify_eq/=. by destruct (_ <? 0).
  - destruct (shutdown_rest kick m) eqn:Es; simplify_eq/=. by destruct (main m).
  - by simplify_eq/=.
  - destruct (main m) as [| | | | | | | |i [|]|]; try done. destruct (slots m !! i) as [[|]|]; simplify_eq/=; auto; done.
  - destruct (main m) as [| | | | | | | |i [t|]|]; try done. destruct (threads m !! t); by simplify_eq/=.
  - simplify_eq/=. by left.
  - destruct (Z.leb_spec 0 e) as [|He]; simplify_eq/=; [by left|]. left.
    destruct (report_spec e m He) as [(_ & _ & Ema & _) _ _ _ _]. congruence.
  - destruct (shutdown_rest kick m) as [m1|] eqn:Es; simplify_eq/=. left. rewrite <- Er. symmetry. by eapply K.
  - simplify_eq/=. by left.
  - simplify_eq/=. by left.
  - simplify_eq/=. by left.
  - destruct (Z.leb_spec 0 e) as [|He]; simplify_eq/=; [by left|]. left.
    destruct (report_spec e m He) as [(_ & _ & Ema & _) _ _ _ _]. congruence.
  - destruct (shutdown_rest kick m) as [m1|] eqn:Es; simplify_eq/=. left. rewrite <- Er. symmetry. by eapply K.
Qed.

(** C16. Running a machine, against shutdown requests and errors of any thread at
    any time: no step touches a thread that was destroyed; when [vm_run] returns
    every thread it started was joined, no handle is published any more, and the
    machine is stopped; it returns the first error that was reported, 0 if none
    was. *)
Theorem vm_run_safe n m :
  reach n m →
  (∀ e, enabled m e = true → is_Some (exec m e)) ∧
  (∀ r, main m = Returned r → threads m = ∅ ∧ vmstate m = VM_STOPPED ∧ ∀ i t, slots m !! i ≠ Some (Some t)) ∧
  (∀ e m' r, enabled m e = true → exec m e = Some m' → main m' = Returned r → main m ≠ Returned r →
     r = default 0 (head (reports m'))).
Proof.
  intros R. pose proof (run_reach_inv n m R) as I. split_and!.
  - intros e En. destruct (run_step_inv n m e I En) as (m' & -> & _). by eexists.
  - intros r Er. pose proof (i_main n m I) as M. unfold main_ok in M. rewrite Er in M. destruct M as (Et & Ev & _).
    split_and!; try done. intros i t Hi. destruct (i_slot n m I i t Hi) as [_ Ht]. by rewrite Et in Ht; destruct Ht.
  - intros e m' r En E Er Hne. destruct (run_step_inv n m e I En) as (m2 & E2 & I2).
    rewrite E in E2. injection E2 as <-. destruct (i_errors n m' I2) as [_ <-]. by destruct (returns n m e m' r I En E Er).
Qed.

(** C17. Stopping a machine always comes to an end: once a stop is requested the
    device dispatcher is stopped, or a thread is on its way to stop it; and a
    thread that [vm_run] waits for has ended, or can go on by itself, or is in
    the guest and was sent the wakeup signal (unless sending it failed, which is
    then the machine's error). *)
Theorem vm_run_wakes n m :
  reach n m →
  (stop m = true → io_stopped m = true ∨ (0 < shutting m)%nat ∨
     (∃ t, thread_at m t Reporting = true) ∨ main m = Kicking ∨ main m = CleanupKicking) ∧
  (∀ i t, main m = Joining i (Some t) → ∃ th, threads m !! t = Some th ∧
     match t_pc th with
     | AtGate => enabled m (Pass t) = true
     | AtCheck => exec m (Look t) = Some (set_pc m t Ended)
     | Running => kicked th = true ∨ run_error m < 0
     | Reporting => ∀ kick, enabled m (ThreadKick t kick) = true
     | Ended => enabled m Join = true
     end).
Proof.
  intros R. pose proof (run_reach_inv n m R) as I. split.
  - intros Hs. destruct (i_io n m I Hs) as [?|[?|[(t & th & Ht & Hpc)|?]]]; auto. right. right. left. exists t.
    unfold thread_at. rewrite Ht. by apply bool_decide_eq_true.
  - intros i t Em. pose proof (i_main n m I) as M. unfold main_ok in M. rewrite Em in M.
    destruct M as (Hst & _ & Hw & -> & _ & [th Ht]). exists th. split; [done|].
    assert (At : ∀ pc, t_pc th = pc → thread_at m i pc = true).
    { intros pc Hpc. unfold thread_at. rewrite Ht. by apply bool_decide_eq_true. }
    unfold enabled, locked. rewrite Em. destruct (t_pc th) eqn:Hpc; simpl; auto.
    + by rewrite Hst.
    + destruct (Hw i th Ht Hpc) as [?|Hn]; [by left|right]. destruct (i_errors n m I) as [F E].
      destruct (reports m) as [|e l]; simpl in *; [done|]. apply Forall_cons in F as [F _]. lia.
Qed.

(** A run: two processors; the second fails while the guest of the first runs,
    and reports its error; the shutdown wakes the first. *)
Definition no_error (_ : nat) : Z := 0.
Definition example_events : list event :=
  [Run true 0; Boot 0; Spawn 0; Spawn 0; Spawned; Pass 0; Pass 1; Look 0; Look 1; Failed 1 (- VM_EFAULT);
   ThreadKick 1 no_error; IoReturns 0; Out; CleanupStop; MainKick no_error; Take].

Fixpoint run_events (m : machine) (l : list event) : option machine :=
  match l with
  | [] => Some m
  | e :: l => if enabled m e then m ← exec m e; run_events m l else None
  end.

Lemma run_reach n l : ∀ m m', reach n m → run_events m l = Some m' → reach n m'.
Proof.
  induction l as [|e l IH]; simpl; intros m m' R E; [by simplify_eq|].
  destruct (enabled m e) eqn:En; [|done]. destruct (exec m e) as [m1|] eqn:E1; simpl in E; [|done].
  eapply IH; [|done]. by eapply reach_step.
Qed.

Definition example_machine : machine := default (ready 2) (run_events (ready 2) example_events).

Lemma example_run_reached : reach 2 example_machine.
Proof. apply (run_reach 2 example_events (ready 2)); [constructor|]. vm_compute. reflexivity. Qed.

Lemma vm_run_safe_witness :
  is_Some (exec example_machine (Exit 0)) ∧ main example_machine = Joining 0 (Some 0%nat) ∧
  run_error example_machine = - VM_EFAULT.
Proof.
  split; [|split; reflexivity]. apply (vm_run_safe 2 example_machine example_run_reached). reflexivity.
Defined.

Lemma vm_run_wakes_witness : ∃ th, threads example_machine !! 0%nat = Some th ∧ t_pc th = Running.
Proof.
  destruct (proj2 (vm_run_wakes 2 example_machine example_run_reached) 0%nat 0%nat eq_refl) as (th & Ht & _).
  exists th. split; [exact Ht|]. vm_compute in Ht. by simplify_eq.
Defined.

End VmRun.
