(* ===== verification/Lines.v ===== *)
(** * Interrupt lines and the power-off port (src/core/irq.c, src/core/accel.c,
      src/accel/kvm/kvm_main.c, src/hw/board/x86_64/pc.c, src/hw/misc/debug_exit.c)

    The way of an interrupt from a device to the kernel: the device sets the
    level of its line, the board's handler passes it to the accelerator, and
    that makes the KVM_IRQ_LINE call.  An error on the way is reported to the
    machine, which then stops.  The other way a guest has of stopping the machine
    without leaving a processor is to write to the power-off port. *)

From S2P Require Import Prelude ResPool Topology Host KvmAccel VmRun PcBoard.

Module Lines.
Import Space Host.

(** ** Lines (src/core/irq.c) *)

(** struct irq: the callback with its data, a function of the world [M] it
    changes. *)
Record irq (M : Type) : Type := mk_irq { cb : option (Z → M → M) }.
Arguments mk_irq {M} cb.
Arguments cb {M} i.

Definition sizeof_irq : Z := 16.

(** [alloc] is what the allocator returns. *)
Definition irq_alloc {M Fn} (pool : option (ResPool.res_pool (Fn := Fn))) (handler : option (Z → M → M)) (alloc : option Z) :
    option (ResPool.res_pool (Fn := Fn)) * option (irq M) :=
  match pool, handler with
  | Some _, Some _ =>
      let '(pool, p) := ResPool.res_zalloc pool sizeof_irq alloc in
      (pool, (fun _ => mk_irq handler) <$> p)
  | _, _ => (pool, None)
  end.

(** A line that is not wired is NULL. *)
Definition irq_set_level {M} (i : option (irq M)) (level : Z) (m : M) : M :=
  match i ≫= cb with Some f => f level m | None => m end.

(** ** Accelerators (src/core/accel.c) *)

(** struct accel_ops, on the state [K] of the host; the operations that may be
    absent are options. *)
Record accel_ops (K : Type) : Type := mk_ops {
  op_init : K → K * Z;
  op_destroy : option (K → K);
  op_setup_irqchip : option (K → K * Z);
  op_set_irq : option (K → Z → Z → K * Z);
}.
Arguments mk_ops {K} _ _ _ _.
Arguments op_init {K} _.
Arguments op_destroy {K} _.
Arguments op_setup_irqchip {K} _.
Arguments op_set_irq {K} _.

(** struct accel; [host] is what the operations work on. *)
Record accel (K : Type) : Type := mk_accel { desc : option (accel_ops K); host : K }.
Arguments mk_accel {K} desc host.
Arguments desc {K} a.
Arguments host {K} a.

Section Accel.
Context {K : Type}.
Implicit Types a : accel K.

(** [args] says whether the pointers are valid, [found] is what [accel_find]
    returns for the name. *)
Definition accel_init a (args : bool) (found : option (accel_ops K)) : accel K * Z :=
  if negb args then (a, - VM_EINVAL)
  else match found with
       | None => (mk_accel None (host a), - VM_ENOENT)
       | Some d => let '(k, ret) := op_init d (host a) in (mk_accel (Some d) k, ret)
       end.

Definition accel_setup_irqchip a : accel K * Z :=
  match desc a with
  | None => (a, - VM_EINVAL)
  | Some d =>
      match op_setup_irqchip d with
      | None => (a, - VM_ENOTSUP)
      | Some setup => let '(k, ret) := setup (host a) in (mk_accel (desc a) k, ret)
      end
  end.

Definition accel_set_irq a (gsi level : Z) : accel K * Z :=
  match desc a with
  | None => (a, - VM_EINVAL)
  | Some d =>
      match op_set_irq d with
      | None => (a, - VM_ENOTSUP)
      | Some set => let '(k, ret) := set (host a) gsi level in (mk_accel (desc a) k, ret)
      end
  end.

Definition accel_destroy a : accel K :=
  match desc a with
  | None => a
  | Some d => match op_destroy d with Some destroy => mk_accel (desc a) (destroy (host a)) | None => a end
  end.
End Accel.

(** ** The kernel's lines *)

(** KVM_IRQ_LINE. *)
Class KvmIrq (K : Type) := { irq_line : K → Z → Z → K * sys unit }.

(** [level_of] is the level the interrupt controllers of the kernel see on an
    input; a call that succeeds sets it, and a call that fails changes nothing. *)
Class KvmIrqLaws (K : Type) `{KvmIrq K} := {
  level_of : K → Z → bool;
  law_irq_line k gsi level :
    let '(k', r) := irq_line k gsi level in
    match r with
    | Done _ => ∀ g, level_of k' g = if decide (g = gsi) then negb (level =? 0) else level_of k g
    | Errno e => 0 < e ∧ ∀ g, level_of k' g = level_of k g
    end;
}.

Section Kvm.
Context {K : Type} `{KvmIrq K} `{HostErrors}.

Definition kvm_accel_set_irq (k : K) (gsi level : Z) : K * Z :=
  match irq_line k gsi level with
  | (k, Errno e) => (k, - host_error_from_errno e)
  | (k, Done _) => (k, 0)
  end.

(** The board's handler, with the run state of the machine that
    [vm_report_error] changes. *)
Record machine : Type := mk_machine { m_accel : accel K; m_run : VmRun.machine }.

Definition vm_report_error (m : machine) (e : Z) : machine :=
  mk_machine (m_accel m) (default (m_run m) (VmRun.exec (m_run m) (VmRun.Report e))).

Definition pc_irq_handler (gsi level : Z) (m : machine) : machine :=
  let '(a, ret) := accel_set_irq (m_accel m) gsi level in
  let m := mk_machine a (m_run m) in
  if ret <? 0 then vm_report_error m ret else m.

(** The inputs the board's lines are routed to: the serial port's, and the four
    of the PCI bridge. *)
Definition pc_gsis : list Z := 4 :: Pc.pc_pirq_routing.

Definition pc_irq (i : nat) : option (irq machine) :=
  (fun gsi => mk_irq (Some (pc_irq_handler gsi))) <$> pc_gsis !! i.

(** Levels set on the board's lines, in order. *)
Definition drive (m : machine) (l : list (nat * Z)) : machine :=
  foldl (fun m '(i, level) => irq_set_level (pc_irq i) level m) m l.
End Kvm.
Arguments machine K : clear implicits.

(** ** The power-off port (src/hw/misc/debug_exit.c) *)

Record debug_exit_pdata : Type := mk_pdata { pd_space : io_space; pd_base : Z }.

Definition sizeof_debug_exit_ctx : Z := 8.

(** [dev] is the device with the pool [dev_pool]; the allocations are those of
    the context, of the region and of its cleanup action.  Whether the device
    has its operations is the third result. *)
Definition debug_exit_realize (vm : vm_ctx) (dev_pool : ResPool.res_pool (Fn := cleanup)) (dev : Z)
    (pdata : option debug_exit_pdata) (alloc0 alloc1 alloc2 : option Z) :
    vm_ctx * ResPool.res_pool (Fn := cleanup) * bool * Z :=
  match pdata with
  | None => (vm, dev_pool, false, - VM_EINVAL)
  | Some plat =>
      match ResPool.res_zalloc (Some dev_pool) sizeof_debug_exit_ctx alloc0 with
      | (Some dev_pool, Some _) =>
          match io_map_register_region_locked vm (pd_space plat) (pd_base plat) 1 dev dev_pool true alloc1 alloc2 with
          | (vm, dev_pool, ERR_PTR e) => (vm, dev_pool, true, e)
          | (vm, dev_pool, Ptr _) => (vm, dev_pool, true, 0)
          end
      | (Some dev_pool, None) => (vm, dev_pool, false, - VM_ENOMEM)
      | (None, _) => (vm, dev_pool, false, - VM_ENOMEM)
      end
  end.

(** The device's write operation, as the I/O map calls it. *)
Definition debug_exit_write (region : io_region) (offset val size : Z) (m : VmRun.machine) : VmRun.machine :=
  default m (VmRun.exec m VmRun.Request).

(** ** Levels reach the kernel *)

(** The level last set on a line or an input. *)
Definition last_level {A} `{EqDecision A} (l : list (A * Z)) (x : A) : option Z :=
  snd <$> last (filter (fun p => p.1 = x) l).

Lemma last_level_cons {A} `{EqDecision A} (l : list (A * Z)) y v x :
  last_level ((y, v) :: l) x =
  match last_level l x with Some w => Some w | None => if decide (y = x) then Some v else None end.
Proof.
  unfold last_level. rewrite filter_cons. simpl. destruct (decide (y = x)); [|by destruct (last _)].
  rewrite last_cons. by destruct (last _).
Qed.

Lemma pc_gsis_inj i j g : pc_gsis !! i = Some g → pc_gsis !! j = Some g → i = j.
Proof. apply NoDup_lookup. apply (bool_decide_unpack _). vm_compute. done. Qed.

(** The inputs of the kernel and the levels they are to get. *)
Definition line_calls (l : list (nat * Z)) : list (Z * Z) :=
  omap (fun '(i, level) => (fun gsi => (gsi, level)) <$> pc_gsis !! i) l.

Lemma last_level_calls l i g : pc_gsis !! i = Some g → last_level (line_calls l) g = last_level l i.
Proof.
  intros Hi. induction l as [|[j v] l IH]; [done|]. rewrite last_level_cons, <- IH. unfold line_calls. cbn [omap list_omap].
  destruct (pc_gsis !! j) as [g'|] eqn:Ej; cbn [fmap option_fmap option_map].
  - rewrite last_level_cons. destruct (last_level _ g); [done|].
    destruct (decide (g' = g)) as [->|]; [by rewrite decide_True by (by eapply pc_gsis_inj)|].
    rewrite decide_False; [done|]. intros ->. congruence.
  - destruct (last_level _ g); [done|]. rewrite decide_False; [done|]. intros ->. congruence.
Qed.

Lemma last_level_other l g : g ∉ pc_gsis → last_level (line_calls l) g = None.
Proof.
  intros Hg. induction l as [|[j v] l IH]; [done|]. unfold line_calls. cbn [omap list_omap].
  destruct (pc_gsis !! j) as [g'|] eqn:Ej; cbn [fmap option_fmap option_map]; [|done].
  rewrite last_level_cons. unfold line_calls in IH. rewrite IH. rewrite decide_False; [done|]. intros ->. apply Hg.
  by eapply list_elem_of_lookup_2.
Qed.

(** KVM_IRQ_LINE calls in order, with what the kernel answers; the errors among
    the answers, and the calls that succeeded. *)
Fixpoint irq_calls {K} `{KvmIrq K} (k : K) (cs : list (Z * Z)) : K * list (Z * Z * sys unit) :=
  match cs with
  | [] => (k, [])
  | (gsi, level) :: cs =>
      let '(k, r) := irq_line k gsi level in
      let '(k, rs) := irq_calls k cs in
      (k, (gsi, level, r) :: rs)
  end.

Definition refusals (rs : list (Z * Z * sys unit)) : list Z :=
  omap (fun '(_, r) => match r with Errno e => Some e | Done _ => None end) rs.
Definition accepted (rs : list (Z * Z * sys unit)) : list (Z * Z) :=
  omap (fun '(c, r) => match r with Errno _ => None | Done _ => Some c end) rs.

Lemma all_accepted {K} `{KvmIrq K} cs : ∀ k : K, refusals (irq_calls k cs).2 = [] → accepted (irq_calls k cs).2 = cs.
Proof.
  induction cs as [|[g v] cs IH]; intros k; simpl; [done|]. destruct (irq_line k g v) as [k1 r]. specialize (IH k1).
  destruct (irq_calls k1 cs) as [k2 rs]. simpl in *. destruct r; simpl; [|done]. intros E. by rewrite IH.
Qed.

Lemma accepted_sub {K} `{KvmIrq K} cs : ∀ (k : K) g, last_level cs g = None → last_level (accepted (irq_calls k cs).2) g = None.
Proof.
  induction cs as [|[x v] cs IH]; intros k g; simpl; [done|]. rewrite last_level_cons.
  destruct (irq_line k x v) as [k1 r]. specialize (IH k1 g). destruct (irq_calls k1 cs) as [k2 rs]. simpl in *.
  destruct (last_level cs g); [done|]. destruct (decide (x = g)) eqn:Ex; [done|]. intros _. unfold accepted. cbn [omap list_omap].
  destruct r; [|by apply IH]. rewrite last_level_cons. fold (accepted rs). by rewrite IH, Ex.
Qed.

Section KvmSpec.
Context {K : Type} `{KvmIrqLaws K} `{HostErrors}.
Implicit Types m : machine K.

(** The accelerator is KVM's. *)
Definition uses_kvm m : Prop := ∃ d, desc (m_accel m) = Some d ∧ op_set_irq d = Some kvm_accel_set_irq.

Definition line_level m (g : Z) : bool := level_of (host (m_accel m)) g.

(** The machine has stopped for the error [e], or for an earlier one. *)
Definition doomed (e : Z) m m' : Prop :=
  VmRun.stop (m_run m') = true ∧
  VmRun.run_error (m_run m') = if VmRun.run_error (m_run m) =? 0 then e else VmRun.run_error (m_run m).

Lemma vm_report_error_spec n m e :
  e < 0 → VmRun.reach n (m_run m) →
  VmRun.reach n (m_run (vm_report_error m e)) ∧ doomed e m (vm_report_error m e).
Proof.
  intros He R. unfold vm_report_error, doomed. cbn [m_run VmRun.exec]. destruct (Z.leb_spec 0 e); [lia|]. cbn [default from_option id].
  split; [eapply (VmRun.reach_step n (m_run m) (VmRun.Report e)); [exact R| |]|].
  - by destruct (VmRun.main (m_run m)) as [| | | | | | | |? []|].
  - cbn [VmRun.exec]. by destruct (Z.leb_spec 0 e); [lia|].
  - unfold VmRun.report. destruct (Z.leb_spec 0 e); [lia|]. unfold VmRun.record_error.
    by destruct (Z.eqb_spec (VmRun.run_error (m_run m)) 0).
Qed.

(** One call of the handler. *)
Lemma pc_irq_handler_spec n m gsi level :
  uses_kvm m → VmRun.reach n (m_run m) →
  let m' := pc_irq_handler gsi level m in
  let '(k, r) := irq_line (host (m_accel m)) gsi level in
  uses_kvm m' ∧ VmRun.reach n (m_run m') ∧ host (m_accel m') = k ∧
  match r with Done _ => m_run m' = m_run m | Errno e => 0 < e ∧ doomed (- host_error_from_errno e) m m' end ∧
  ∀ g, line_level m' g = match r with
                         | Done _ => if decide (g = gsi) then negb (level =? 0) else line_level m g
                         | Errno _ => line_level m g
                         end.
Proof.
  intros (d & Ed & Es) R. unfold pc_irq_handler, accel_set_irq. rewrite Ed, Es. unfold kvm_accel_set_irq.
  pose proof (law_irq_line (host (m_accel m)) gsi level) as L.
  destruct (irq_line (host (m_accel m)) gsi level) as [k [[]|e]].
  - cbn. split_and!; [by exists d|done..].
  - destruct L as [He L]. pose proof (host_error_range e ltac:(lia)). destruct (Z.ltb_spec (- host_error_from_errno e) 0); [|lia].
    match goal with |- context [vm_report_error ?m1 ?e1] =>
      destruct (vm_report_error_spec n m1 e1 ltac:(lia) R) as [R' D] end.
    split_and!; [by exists d|done..].
Qed.

(** A line that is not the board's does nothing. *)
Lemma pc_irq_none i level m : pc_gsis !! i = None → irq_set_level (pc_irq i) level m = m.
Proof. intros E. unfold irq_set_level, pc_irq. by rewrite E. Qed.

(** The lines and the kernel's calls, step by step. *)
Lemma drive_spec n l : ∀ m, uses_kvm m → VmRun.reach n (m_run m) →
  let '(k, rs) := irq_calls (host (m_accel m)) (line_calls l) in
  host (m_accel (drive m l)) = k ∧ VmRun.reach n (m_run (drive m l)) ∧
  (∀ g, line_level (drive m l) g =
     match last_level (accepted rs) g with Some v => negb (v =? 0) | None => line_level m g end) ∧
  match refusals rs with
  | [] => m_run (drive m l) = m_run m
  | e :: _ => doomed (- host_error_from_errno e) m (drive m l)
  end.
Proof.
  induction l as [|[i level] l IH]; intros m U R; [done|]. unfold line_calls, drive. cbn [omap list_omap foldl].
  fold (line_calls l). fold (drive (irq_set_level (pc_irq i) level m) l).
  destruct (pc_gsis !! i) as [gsi|] eqn:Eg; cbn [fmap option_fmap option_map]; [|rewrite pc_irq_none by done; by apply IH].
  unfold irq_set_level, pc_irq. rewrite Eg. cbn [fmap option_fmap option_map mbind option_bind cb irq_calls].
  pose proof (pc_irq_handler_spec n m gsi level U R) as S. cbv zeta in S.
  set (m1 := pc_irq_handler gsi level m) in *. clearbody m1.
  destruct (irq_line (host (m_accel m)) gsi level) as [k r]. destruct S as (U1 & R1 & Eh & Er & El).
  specialize (IH m1 U1 R1). rewrite Eh in IH. destruct (irq_calls k (line_calls l)) as [k' rs].
  destruct IH as (I1 & I2 & I3 & I4). split; [done|]. split; [done|]. split.
  - intros g. rewrite I3. unfold accepted. cbn [omap list_omap]. fold (accepted rs). destruct r as [[]|e]; [|by rewrite El].
    rewrite last_level_cons, El. destruct (last_level (accepted rs) g); [done|].
    destruct (decide (g = gsi)) as [->|]; [by rewrite decide_True|]. by rewrite decide_False.
  - unfold refusals. cbn [omap list_omap]. fold (refusals rs). destruct r as [[]|e].
    + destruct (refusals rs); [congruence|]. unfold doomed in *. by rewrite <- Er.
    + destruct Er as [He [E1 E2]]. destruct (refusals rs) as [|e' es]; [unfold doomed; by rewrite I4|].
      destruct I4 as [D1 D2]. split; [done|]. rewrite D2. pose proof (host_error_range e ltac:(lia)).
      destruct (Z.eqb_spec (VmRun.run_error (m_run m)) 0) as [E0|E0]; rewrite E2.
      * destruct (Z.eqb_spec (- host_error_from_errno e) 0); [lia|done].
      * destruct (Z.eqb_spec (VmRun.run_error (m_run m)) 0); [done|done].
Qed.

(** C31. Interrupts reach the kernel: whatever levels the devices of the PC set
    on their lines, in any order, exactly the calls for the inputs they are
    routed to are made, in that order.  An input shows the level last set that
    the kernel accepted, and an input of no line is untouched.  If the kernel
    refused none, every input shows the level last set on its line and the run
    state of the machine is as it was; if it refused one, the machine stops with
    the first error the kernel gave, unless it had a run error already. *)
Theorem pc_lines_reach_kernel n m l :
  uses_kvm m → VmRun.reach n (m_run m) →
  let m' := drive m l in
  let '(k, rs) := irq_calls (host (m_accel m)) (line_calls l) in
  host (m_accel m') = k ∧ VmRun.reach n (m_run m') ∧
  (∀ g, line_level m' g = match last_level (accepted rs) g with Some v => negb (v =? 0) | None => line_level m g end) ∧
  (∀ g, g ∉ pc_gsis → line_level m' g = line_level m g) ∧
  match refusals rs with
  | [] =>
      m_run m' = m_run m ∧
      ∀ i g, pc_gsis !! i = Some g →
        line_level m' g = match last_level l i with Some v => negb (v =? 0) | None => line_level m g end
  | e :: _ => doomed (- host_error_from_errno e) m m'
  end.
Proof.
  intros U R. cbv zeta. pose proof (drive_spec n l m U R) as D.
  pose proof (all_accepted (line_calls l) (host (m_accel m))) as A.
  pose proof (accepted_sub (line_calls l) (host (m_accel m))) as Sb.
  destruct (irq_calls (host (m_accel m)) (line_calls l)) as [k rs]. cbn [snd] in A, Sb. destruct D as (D1 & D2 & D3 & D4).
  split_and!; [done..| |].
  - intros g Hg. rewrite D3, (Sb g); [done|]. by apply last_level_other.
  - destruct (refusals rs); [|done]. split; [done|]. intros i g Hi. rewrite D3, A by done. by rewrite (last_level_calls l i g Hi).
Qed.
End KvmSpec.

(** ** Powering off *)

Lemma request_stops n r : VmRun.reach n r →
  let r' := default r (VmRun.exec r VmRun.Request) in
  VmRun.reach n r' ∧ VmRun.stop r' = true ∧ VmRun.run_error r' = VmRun.run_error r ∧ (0 < VmRun.shutting r')%nat.
Proof.
  intros R. cbv zeta. split; [|cbn; split_and!; [done..|lia]].
  apply (VmRun.reach_step n r VmRun.Request); [exact R| |reflexivity]. by destruct (VmRun.main r) as [| | | | | | | |? []|].
Qed.

(** The power-off port: once the device is realized the topology is still
    sound, and a guest that writes a byte to its port, whatever the byte, asks
    the machine to stop: the processors will be woken, and no error is recorded,
    so the machine ends as if it had been shut down.  A wider write does not fit
    the port and does nothing. *)
Theorem debug_exit_powers_off vm pool dev plat alloc0 alloc1 alloc2 dev_write n r val :
  topology_inv vm → is_u64 (pd_base plat) → fresh_alloc vm alloc1 → dev_write dev = Some debug_exit_write →
  VmRun.reach n r →
  let '(vm', _, ops, ret) := debug_exit_realize vm pool dev (Some plat) alloc0 alloc1 alloc2 in
  topology_inv vm' ∧
  (ret = 0 → ops = true ∧
     let r' := io_map_write dev_write (io vm') (pd_space plat) (pd_base plat) val 1 r in
     VmRun.reach n r' ∧ VmRun.stop r' = true ∧ VmRun.run_error r' = VmRun.run_error r ∧ (0 < VmRun.shutting r')%nat ∧
     ∀ size, 1 < size → io_map_write dev_write (io vm') (pd_space plat) (pd_base plat) val size r = r).
Proof.
  intros I Hb Hf Hd R. unfold debug_exit_realize.
  destruct (ResPool.res_zalloc (Some pool) sizeof_debug_exit_ctx alloc0) as [[pool1|] [a0|]]; try (split; [done|discriminate]).
  pose proof (register_cases vm (pd_space plat) (pd_base plat) 1 dev pool1 true alloc1 alloc2 I Hb ltac:(done) Hf) as C.
  pose proof (register_inv vm (pd_space plat) (pd_base plat) 1 dev pool1 true alloc1 alloc2 I Hb ltac:(done) Hf) as I'.
  destruct (io_map_register_region_locked _ _ _ _ _ _ _ _ _) as [[vm' pool'] [reg|e]]; simpl in I';
    [|split; [done|]; intros ->; by destruct C].
  split; [done|]. intros _. split; [done|]. destruct C as (Ev & (addr & -> & _) & Sp & _).
  set (reg := mk_io _ _ _ _ _ _) in *.
  assert (Hin : reg ∈ io_list (io vm') (pd_space plat)).
  { rewrite Ev. cbn [io]. cbv [update]. cbn. rewrite io_list_set. apply elem_of_app. right. by apply list_elem_of_singleton. }
  cbv zeta. destruct (io_dispatch (fun _ => None) dev_write vm' (pd_space plat) (pd_base plat) val 1 r I' Hb eq_refl) as [D _].
  destruct (D reg Hin) as [_ ->]; [split; [done|]; simpl; lia|]. change (Space.dev reg) with dev. rewrite Hd. unfold debug_exit_write.
  destruct (request_stops n r R) as (R' & Hs & He & Hk). split_and!; [done..|].
  intros size Hz. unfold io_map_write. destruct (io_size_valid size) eqn:Es; [|done]. cbn [negb].
  destruct (io_dispatch (fun _ => None) dev_write vm' (pd_space plat) (pd_base plat) val size r I' Hb Es) as [_ N].
  unfold io_map_write in N. rewrite Es in N. apply N. intros r2 Hr2 (En & Hb2 & He2).
  assert (C2 : claims (pd_base plat) r2 = true) by (apply (claims_spec vm' (pd_space plat)); [done..|split; [done|lia]]).
  assert (C1 : claims (pd_base plat) reg = true) by (apply (claims_spec vm' (pd_space plat)); [done..|split; [done|simpl; lia]]).
  pose proof (find_claims _ _ _ _ I' Hr2 C2) as F2. rewrite (find_claims _ _ _ _ I' Hin C1) in F2. simplify_eq. simpl in *. lia.
Qed.

(** ** Witnesses *)

(** Interrupt controllers with 24 inputs. *)
#[local] Instance example_chip : KvmIrq (gset Z) := {
  irq_line k gsi level :=
    if (0 <=? gsi) && (gsi <? 24) then (if level =? 0 then k ∖ {[gsi]} else {[gsi]} ∪ k, Done tt) else (k, Errno 22)
}.

#[local] Instance example_chip_laws : KvmIrqLaws (gset Z).
Proof.
  refine {| level_of k g := bool_decide (g ∈ k) |}. intros k gsi level. unfold irq_line, example_chip.
  destruct (_ && _); [|by split]. intros g. destruct (Z.eqb_spec level 0); destruct (decide (g = gsi)) as [->|].
  - apply bool_decide_eq_false. rewrite elem_of_difference, elem_of_singleton. tauto.
  - apply bool_decide_ext. rewrite elem_of_difference, elem_of_singleton. tauto.
  - apply bool_decide_eq_true. rewrite elem_of_union, elem_of_singleton. tauto.
  - apply bool_decide_ext. rewrite elem_of_union, elem_of_singleton. tauto.
Qed.

#[local] Existing Instance linux_errors.

Definition example_machine : machine (gset Z) :=
  mk_machine (mk_accel (Some (mk_ops (fun k => (k, 0)) None None (Some kvm_accel_set_irq))) ∅) (VmRun.ready 1).

(** The serial port raises and lowers its line, PIRQB stays up. *)
Lemma pc_lines_reach_kernel_witness :
  let m := drive example_machine [(0%nat, 1); (2%nat, 1); (0%nat, 0)] in
  level_of (host (m_accel m)) 4 = false ∧ level_of (host (m_accel m)) 9 = true ∧ VmRun.stop (m_run m) = false.
Proof.
  cbv zeta. pose proof (pc_lines_reach_kernel 1 example_machine [(0%nat, 1); (2%nat, 1); (0%nat, 0)]
    ltac:(by eexists) (VmRun.reach_ready 1)) as H. cbv zeta in H.
  destruct (irq_calls _ _) as [k rs] eqn:E. assert (Er : refusals rs = []) by (vm_compute in E; simplify_eq; reflexivity).
  rewrite Er in H. destruct H as (_ & _ & _ & _ & Em & L). split_and!.
  - apply (L 0%nat 4 eq_refl).
  - apply (L 2%nat 9 eq_refl).
  - rewrite Em. reflexivity.
Defined.

Lemma debug_exit_powers_off_witness :
  let '(vm, _, _, ret) := debug_exit_realize (empty_machine true 4096) (ResPool.mk_pool 1 [] false) 7
    (Some (mk_pdata IO_PIO 0x501)) (Some 0x1000) (Some 0x2000) (Some 0x3000) in
  ret = 0 ∧
  VmRun.stop (io_map_write (fun _ => Some debug_exit_write) (io vm) IO_PIO 0x501 0x31 1 (VmRun.ready 1)) = true.
Proof.
  pose proof (debug_exit_powers_off (empty_machine true 4096) (ResPool.mk_pool 1 [] false) 7 (mk_pdata IO_PIO 0x501)
    (Some 0x1000) (Some 0x2000) (Some 0x3000) (fun _ => Some debug_exit_write) 1 (VmRun.ready 1) 0x31
    (empty_machine_inv true 4096) ltac:(done) ltac:(by intros ? [] ?; apply not_elem_of_nil) eq_refl (VmRun.reach_ready 1)) as H.
  destruct (debug_exit_realize _ _ _ _ _ _ _) as [[[vm p] ops] ret] eqn:E.
  assert (R : ret = 0) by (vm_compute in E; congruence). split; [exact R|]. apply (proj2 H R).
Defined.
End Lines.
