(* ===== verification/LinuxFile.v ===== *)
(** * Disk images (src/backend/block/linux_file.c)

    The storage behind a block device is a file or a block device of the host.
    The system calls on the descriptor are a class with the laws POSIX gives
    them: transfers may be short and may be interrupted.  The backend turns
    them into whole transfers, and so is an instance of the interface that the
    VirtIO block device is verified against. *)

From S2P Require Import Prelude Host Block Cmdline.

Module File.
Import Host Cmdline.

(** pread, pwrite and fsync on a descriptor.  A read returns the bytes. *)
Class HostFile (F : Type) := {
  f_pread : F → Z → Z → F * sys (list Z);
  f_pwrite : F → list Z → Z → F * sys Z;
  f_fsync : F → F * sys unit;
}.

(** [f_intr] counts the interruptions a file's calls still meet: a signal
    handler does not interrupt them forever. *)
Class HostFileLaws (F : Type) `{HostFile F} := {
  f_bytes : F → Z → Z;
  f_intr : F → Z;
  law_f_intr f : 0 ≤ f_intr f < 2 ^ 63;
  law_f_bytes f x : is_u8 (f_bytes f x);
  law_f_pread f n off :
    0 < n → 0 ≤ off →
    let '(f', r) := f_pread f n off in
    f_bytes f' = f_bytes f ∧ f_intr f' ≤ f_intr f ∧
    match r with
    | Done l => Z.of_nat (length l) ≤ n ∧ l = disk_slice (f_bytes f) off (Z.of_nat (length l))
    | Errno e => 0 < e ∧ (e = EINTR → f_intr f' < f_intr f)
    end;
  law_f_pwrite f buf off :
    buf ≠ [] → Forall is_u8 buf → 0 ≤ off →
    let '(f', r) := f_pwrite f buf off in
    (∀ x, ¬ (off ≤ x < off + Z.of_nat (length buf)) → f_bytes f' x = f_bytes f x) ∧ f_intr f' ≤ f_intr f ∧
    match r with
    | Done n => 0 ≤ n ≤ Z.of_nat (length buf) ∧ disk_slice (f_bytes f') off n = take (Z.to_nat n) buf
    | Errno e => 0 < e ∧ (e = EINTR → f_intr f' < f_intr f)
    end;
  law_f_fsync f :
    let '(f', r) := f_fsync f in
    f_bytes f' = f_bytes f ∧ f_intr f' ≤ f_intr f ∧
    match r with Done _ => True | Errno e => 0 < e ∧ (e = EINTR → f_intr f' < f_intr f) end;
}.

Definition INT64_MAX : Z := 2 ^ 63 - 1.
Definition PTRDIFF_MAX : Z := 2 ^ 63 - 1.

Section Backend.
Context {F : Type} `{HostFile F} `{HostErrors}.

(** struct block_linux_ctx; [file] is what the descriptor refers to, and
    [capacity] is a [uint64_t]. *)
Record block_linux_ctx : Type := mk_file {
  file : F;
  capacity : Z;
  readonly : bool;
  capacity_u64 : is_u64 capacity;
}.

Definition with_file (c : block_linux_ctx) (f : F) : block_linux_ctx :=
  mk_file f (capacity c) (readonly c) (capacity_u64 c).

(** [data] is what a read has stored in the buffer. *)
Record transfer_state : Type := mk_transfer { t_file : F; t_data : list Z; t_done : Z }.

Definition transfer_body (write_op : bool) (buf : list Z) (count offset : Z) (st : transfer_state) :
    transfer_state + (transfer_state * Z) :=
  let done := t_done st in
  if negb (done <? count) then inr (st, done)
  else
    let chunk := if SSIZE_MAX <? count - done then SSIZE_MAX else count - done in
    let '(f, data, r) :=
      if write_op then
        let '(f, r) := f_pwrite (t_file st) (take (Z.to_nat chunk) (drop (Z.to_nat done) buf)) (offset + done) in
        (f, [], r)
      else
        match f_pread (t_file st) chunk (offset + done) with
        | (f, Done l) => (f, l, Done (Z.of_nat (length l)))
        | (f, Errno e) => (f, [], Errno e)
        end in
    let st := mk_transfer f (t_data st ++ data) done in
    match r with
    | Errno e => if e =? EINTR then inl st else inr (st, - host_error_from_errno e)
    | Done n => if n =? 0 then inr (st, - VM_EIO) else inl (mk_transfer f (t_data st) (done + n))
    end.

(** The file after the transfer, the bytes read, and the return value. *)
Definition linux_transfer (c : block_linux_ctx) (buf : list Z) (count offset : Z) (write_op : bool) :
    block_linux_ctx * list Z * Z :=
  if write_op && readonly c then (c, [], - VM_EROFS)
  else if (capacity c <? offset) || (capacity c - offset <? count) || (INT64_MAX <? offset)
          || (INT64_MAX - offset <? count) || (PTRDIFF_MAX <? count)
  then (c, [], - VM_EINVAL)
  else
    match loop (transfer_body write_op buf count offset) (mk_transfer (file c) [] 0) with
    | inr (st, ret) => (with_file c (t_file st), t_data st, ret)
    | inl st => (with_file c (t_file st), t_data st, 0)
    end.

Definition block_linux_read (c : block_linux_ctx) (count offset : Z) : block_linux_ctx * list Z * Z :=
  linux_transfer c [] count offset false.

Definition block_linux_write (c : block_linux_ctx) (buf : list Z) (offset : Z) : block_linux_ctx * Z :=
  let '(c, _, ret) := linux_transfer c buf (Z.of_nat (length buf)) offset true in (c, ret).

Definition flush_body (f : F) : F + (F * Z) :=
  match f_fsync f with
  | (f, Done _) => inr (f, 0)
  | (f, Errno e) => if e =? EINTR then inl f else inr (f, - host_error_from_errno e)
  end.

Definition block_linux_flush (c : block_linux_ctx) : block_linux_ctx * Z :=
  match loop flush_body (file c) with
  | inr (f, ret) => (with_file c f, ret)
  | inl f => (with_file c f, 0)
  end.

Definition block_linux_get_capacity (c : block_linux_ctx) : Z := capacity c.

#[export] Instance block_linux_ops : BlockBackend block_linux_ctx := {
  blk_read := block_linux_read;
  blk_write := block_linux_write;
  blk_flush := Some block_linux_flush;
  blk_capacity := block_linux_get_capacity;
  blk_readonly := readonly;
}.
End Backend.
Arguments block_linux_ctx F : clear implicits.
Arguments transfer_state F : clear implicits.

(** ** Opening an image *)

(** The mode bits of struct stat that are tested, and its size. *)
Record stat : Type := mk_stat { S_ISREG : bool; S_ISBLK : bool; st_size : Z }.

Definition key_path : str := [112; 97; 116; 104].
Definition key_readonly : str := [114; 101; 97; 100; 111; 110; 108; 121].
Definition str_on : str := [111; 110].
Definition str_1 : str := [49].
Definition str_off : str := [111; 102; 102].
Definition str_0 : str := [48].

Definition parse_readonly (ro_str : option str) : option bool :=
  match ro_str with
  | None => Some false
  | Some v =>
      if bool_decide (v = str_on) || bool_decide (v = str_1) then Some true
      else if negb (bool_decide (v = str_off)) && negb (bool_decide (v = str_0)) then None
      else Some false
  end.

Inductive file_op : Type := Opened (path : str) (ro : bool) (fd : Z) | Closed (fd : Z).

Section Create.
Context `{HostErrors}.

(** From the allocations on: [alloc] says whether they succeed, [open] is given
    the path and whether it opens read-only, [fstat] and [blkgetsize64] are the
    outcomes of those calls on the descriptor.  The result is the descriptor,
    the capacity and the mode, with the descriptors opened and closed. *)
Definition open_image (path : str) (readonly alloc : bool)
    (open : str → bool → sys Z) (fstat : Z → sys stat) (blkgetsize64 : Z → sys Z) :
    err_ptr (Z * Z * bool) * list file_op :=
  if negb alloc then (ERR_PTR (- VM_ENOMEM), [])
  else
    match open path readonly with
    | Errno e => (ERR_PTR (- host_error_from_errno e), [])
    | Done fd =>
        let err_close ret := (ERR_PTR ret, [Opened path readonly fd; Closed fd]) in
        match fstat fd with
        | Errno e => err_close (- host_error_from_errno e)
        | Done st =>
            if negb (S_ISREG st) && negb (S_ISBLK st) then err_close (- VM_EINVAL)
            else if S_ISBLK st then
              match blkgetsize64 fd with
              | Errno e => err_close (- host_error_from_errno e)
              | Done size => (Ptr (fd, size, readonly), [Opened path readonly fd])
              end
            else if st_size st <? 0 then err_close (- VM_EINVAL)
            else (Ptr (fd, st_size st, readonly), [Opened path readonly fd])
        end
    end.

(** [alloc_path] and [alloc_ro] say whether the options can be copied. *)
Definition block_linux_create (opts : option str) (alloc_path alloc_ro alloc : bool)
    (open : str → bool → sys Z) (fstat : Z → sys stat) (blkgetsize64 : Z → sys Z) :
    err_ptr (Z * Z * bool) * list file_op :=
  match cmdline_extract_opt opts (Some key_path) alloc_path with
  | Some (ERR_PTR e) => (ERR_PTR e, [])
  | None => (ERR_PTR (- VM_EINVAL), [])
  | Some (Ptr path) =>
      match cmdline_extract_opt opts (Some key_readonly) alloc_ro with
      | Some (ERR_PTR e) => (ERR_PTR e, [])
      | ro =>
          match parse_readonly (match ro with Some (Ptr v) => Some v | _ => None end) with
          | None => (ERR_PTR (- VM_EINVAL), [])
          | Some readonly => open_image path readonly alloc open fstat blkgetsize64
          end
      end
  end.

(** [block_linux_destroy]: the descriptor is closed. *)
Definition block_linux_destroy (fd : Z) : list file_op := if 0 <=? fd then [Closed fd] else [].
End Create.

(** ** Whole transfers *)

Section Transfer.
Context {F : Type} `{HostFileLaws F} `{HostErrors}.
Implicit Types (c : block_linux_ctx F) (st : transfer_state F).

(** What a transfer has done so far. *)
Record transfer_inv (f : F) (write_op : bool) (buf : list Z) (count offset : Z) (st : transfer_state F) : Prop := {
  tr_done : 0 ≤ t_done st ≤ count;
  tr_read : write_op = false →
    f_bytes (t_file st) = f_bytes f ∧ t_data st = disk_slice (f_bytes f) offset (t_done st);
  tr_write : write_op = true →
    (∀ x, ¬ (offset ≤ x < offset + count) → f_bytes (t_file st) x = f_bytes f x) ∧
    disk_slice (f_bytes (t_file st)) offset (t_done st) = take (Z.to_nat (t_done st)) buf;
}.

Definition transfer_measure (count : Z) (st : transfer_state F) : Z := count - t_done st + f_intr (t_file st).

Definition transfer_post (f : F) (write_op : bool) (buf : list Z) (count offset : Z) (r : transfer_state F * Z) : Prop :=
  transfer_inv f write_op buf count offset r.1 ∧ (r.2 = count ∧ t_done r.1 = count ∨ r.2 < 0 ∧ t_done r.1 < count).

Lemma errno_code e : 0 < e → - host_error_from_errno e < 0.
Proof. intros. pose proof (host_error_range e). lia. Qed.

Lemma read_step f buf count offset st :
  0 ≤ offset → offset + count ≤ INT64_MAX → transfer_inv f false buf count offset st →
  match transfer_body false buf count offset st with
  | inl st' => transfer_inv f false buf count offset st' ∧ 0 ≤ transfer_measure count st' < transfer_measure count st
  | inr r => transfer_post f false buf count offset r
  end.
Proof.
  intros Ho Hb [Hd Hr _]. destruct (Hr eq_refl) as [Ef Ed]. unfold transfer_body, transfer_post.
  destruct (Z.ltb_spec (t_done st) count) as [L|L]; cbn [negb].
  2: { split; [by split|]. left. simpl. lia. }
  destruct (Z.ltb_spec SSIZE_MAX (count - t_done st)); [unfold SSIZE_MAX, INT64_MAX in *; lia|].
  pose proof (law_f_pread (t_file st) (count - t_done st) (offset + t_done st) ltac:(lia) ltac:(lia)) as Law.
  destruct (f_pread _ _ _) as [f' [l|e]]; destruct Law as (Eb & Ei & Law).
  - destruct Law as [Hl El]. pose proof (law_f_intr f').
    assert (T : transfer_inv f false buf count offset (mk_transfer f' (t_data st ++ l) (t_done st + Z.of_nat (length l)))).
    { split; simpl; [lia| |done]. intros _. split; [congruence|].
      rewrite disk_slice_app by lia. rewrite <- Ed. f_equal. rewrite <- Ef. exact El. }
    destruct (Z.eqb_spec (Z.of_nat (length l)) 0) as [E0|E0].
    + split; simpl; [|right; unfold VM_EIO; lia]. by rewrite E0, Z.add_0_r in T.
    + split; [done|]. unfold transfer_measure. simpl. lia.
  - destruct Law as [He Hi]. pose proof (law_f_intr f'). pose proof (errno_code e He).
    assert (T : transfer_inv f false buf count offset (mk_transfer f' (t_data st ++ []) (t_done st))).
    { rewrite app_nil_r. split; simpl; [done| |done]. intros _. split; [congruence|done]. }
    destruct (Z.eqb_spec e EINTR) as [->|]; simpl.
    + split; [done|]. unfold transfer_measure. simpl. specialize (Hi eq_refl). lia.
    + split; [done|]. simpl. lia.
Qed.

Lemma write_step f buf count offset st :
  0 ≤ offset → offset + count ≤ INT64_MAX → count = Z.of_nat (length buf) → Forall is_u8 buf →
  transfer_inv f true buf count offset st →
  match transfer_body true buf count offset st with
  | inl st' => transfer_inv f true buf count offset st' ∧ 0 ≤ transfer_measure count st' < transfer_measure count st
  | inr r => transfer_post f true buf count offset r
  end.
Proof.
  intros Ho Hb Hc Hu [Hd _ Hw]. destruct (Hw eq_refl) as [Eo Ew]. unfold transfer_body, transfer_post.
  destruct (Z.ltb_spec (t_done st) count) as [L|L]; cbn [negb].
  2: { split; [by split|]. left. simpl. lia. }
  destruct (Z.ltb_spec SSIZE_MAX (count - t_done st)); [unfold SSIZE_MAX, INT64_MAX in *; lia|].
  set (chunk := take _ _). assert (Lc : Z.of_nat (length chunk) = count - t_done st).
  { unfold chunk. rewrite length_take, length_drop. lia. }
  pose proof (law_f_pwrite (t_file st) chunk (offset + t_done st)) as Law.
  specialize (Law ltac:(intros E; rewrite E in Lc; simpl in Lc; lia) ltac:(by apply Forall_take, Forall_drop) ltac:(lia)).
  destruct (f_pwrite _ _ _) as [f' r]. destruct Law as (Eb & Ei & Law). rewrite Lc in Eb. cbv zeta.
  assert (Keep : ∀ x, ¬ (offset ≤ x < offset + count) → f_bytes f' x = f_bytes f x).
  { intros x Hx. rewrite Eb by lia. apply Eo. lia. }
  assert (Pre : disk_slice (f_bytes f') offset (t_done st) = take (Z.to_nat (t_done st)) buf).
  { rewrite <- Ew. apply disk_slice_ext. intros x Hx. apply Eb. lia. }
  pose proof (law_f_intr f'). destruct r as [n|e].
  - destruct Law as [Hn En].
    assert (T : transfer_inv f true buf count offset (mk_transfer f' (t_data st ++ []) (t_done st + n))).
    { split; simpl; [lia|done|]. intros _. split; [done|]. rewrite disk_slice_app, Pre, En by lia.
      unfold chunk. rewrite take_take, Nat.min_l by lia. rewrite <- (take_drop (Z.to_nat (t_done st)) buf) at 3.
      rewrite take_app_ge by (rewrite length_take; lia). f_equal. f_equal. rewrite length_take. lia. }
    destruct (Z.eqb_spec n 0) as [->|E0].
    + split; simpl; [|right; unfold VM_EIO; lia]. by rewrite Z.add_0_r in T.
    + split; [done|]. unfold transfer_measure. simpl. lia.
  - destruct Law as [He Hi]. pose proof (errno_code e He).
    assert (T : transfer_inv f true buf count offset (mk_transfer f' (t_data st ++ []) (t_done st))) by (by split).
    destruct (Z.eqb_spec e EINTR) as [->|]; simpl.
    + split; [done|]. unfold transfer_measure. simpl. specialize (Hi eq_refl). lia.
    + split; [done|]. simpl. lia.
Qed.

(** A transfer that is not refused ends: its loop makes progress or is
    interrupted. *)
Lemma transfer_ends c buf count offset write_op :
  0 ≤ offset → 0 ≤ count → (write_op = true → count = Z.of_nat (length buf) ∧ Forall is_u8 buf) →
  offset + count ≤ INT64_MAX →
  ∃ st ret, loop (transfer_body write_op buf count offset) (mk_transfer (file c) [] 0) = inr (st, ret) ∧
    transfer_post (file c) write_op buf count offset (st, ret).
Proof.
  intros Ho Hc Hw Hb.
  destruct (loop_total (transfer_body write_op buf count offset) (transfer_inv (file c) write_op buf count offset)
    (transfer_measure count) (transfer_post (file c) write_op buf count offset) (mk_transfer (file c) [] 0))
    as ([st ret] & E & P); [| | |by exists st, ret].
  - intros st I. destruct write_op; [|by apply read_step]. destruct (Hw eq_refl). by apply write_step.
  - by split.
  - unfold transfer_measure. simpl. pose proof (law_f_intr (file c)). unfold INT64_MAX in Hb. lia.
Qed.

(** Everything a transfer can do. *)
Inductive transferred c (buf : list Z) (count offset : Z) (write_op : bool) : block_linux_ctx F * list Z * Z → Prop :=
| tr_rofs : write_op = true → readonly c = true → transferred c buf count offset write_op (c, [], - VM_EROFS)
| tr_range : write_op && readonly c = false → capacity c < offset + count ∨ INT64_MAX < offset + count →
    transferred c buf count offset write_op (c, [], - VM_EINVAL)
| tr_io st ret : write_op && readonly c = false → offset + count ≤ capacity c → offset + count ≤ INT64_MAX →
    transfer_post (file c) write_op buf count offset (st, ret) →
    transferred c buf count offset write_op (with_file c (t_file st), t_data st, ret).

Lemma transfer_cases c buf count offset write_op :
  0 ≤ offset → 0 ≤ count → (write_op = true → count = Z.of_nat (length buf) ∧ Forall is_u8 buf) →
  transferred c buf count offset write_op (linux_transfer c buf count offset write_op).
Proof.
  intros Ho Hc Hw. unfold linux_transfer.
  destruct (write_op && readonly c) eqn:Er; [apply andb_true_iff in Er as []; by constructor|].
  destruct (_ || _) eqn:Eb.
  - apply tr_range; [done|]. unfold PTRDIFF_MAX, INT64_MAX in *.
    rewrite !orb_true_iff, !Z.ltb_lt in Eb. lia.
  - rewrite !orb_false_iff, !Z.ltb_ge in Eb. unfold PTRDIFF_MAX, INT64_MAX in Eb.
    destruct (transfer_ends c buf count offset write_op) as (st & ret & -> & P); [done..|unfold INT64_MAX; lia|].
    apply tr_io; [done|lia|unfold INT64_MAX; lia|done].
Qed.

#[export] Instance linux_file_laws : BlockLaws (block_linux_ctx F).
Proof.
  refine {| disk c := f_bytes (file c) |}.
  - intros c. apply capacity_u64.
  - intros c x. apply law_f_bytes.
  - intros c n off Hn Ho Hc. cbn [blk_read block_linux_ops]. unfold block_linux_read.
    destruct (transfer_cases c [] n off false Ho ltac:(lia) ltac:(done)) as [| |st ret _ _ _ [[Hd Hr _] R]];
      simpl; unfold VM_EROFS, VM_EINVAL; try done.
    + repeat split; lia.
    + destruct (Hr eq_refl) as [Ef Ed]. simpl in R, Ed, Hd. rewrite Ed, length_disk_slice.
      repeat split; [done|lia|lia|]. intros E. destruct R as [[_ ->]|]; [done|lia].
  - intros c buf off Hn Hu Ho Hc. cbn [blk_write block_linux_ops]. unfold block_linux_write.
    destruct (transfer_cases c buf (Z.of_nat (length buf)) off true Ho ltac:(lia) ltac:(done))
      as [| |st ret _ _ _ [[Hd _ Hw] R]]; simpl; unfold VM_EROFS, VM_EINVAL.
    + repeat split; lia.
    + repeat split; lia.
    + destruct (Hw eq_refl) as [Eo Ew]. simpl in R, Ew, Hd. repeat split; [done|].
      intros E. destruct R as [[_ Et]|]; [|lia]. rewrite Et, Nat2Z.id, firstn_all in Ew. done.
  - intros fl c [= <-]. unfold block_linux_flush.
    destruct (loop_total flush_body (fun f => f_bytes f = f_bytes (file c)) f_intr
      (fun r => f_bytes r.1 = f_bytes (file c)) (file c)) as ([f ret] & -> & P); [|done| |done].
    + intros f Ef. unfold flush_body. pose proof (law_f_fsync f) as Law. destruct (f_fsync f) as [f' [[]|e]].
      * simpl. destruct Law as [-> _]. done.
      * destruct Law as (Eb & Ei & He & Hi). pose proof (law_f_intr f').
        destruct (Z.eqb_spec e EINTR) as [->|]; simpl; [|congruence]. specialize (Hi eq_refl). split; [congruence|lia].
    + pose proof (law_f_intr (file c)). lia.
Defined.

Lemma write_result c buf offset :
  0 ≤ offset → buf ≠ [] → Forall is_u8 buf →
  let n := Z.of_nat (length buf) in
  let '(c1, ret) := block_linux_write c buf offset in
  capacity c1 = capacity c ∧
  (capacity c < offset + n ∨ INT64_MAX < offset + n → c1 = c ∧ ret < 0) ∧
  (readonly c = true → c1 = c ∧ ret = - VM_EROFS) ∧ (ret = n ∨ ret < 0) ∧
  (∀ x, ¬ (offset ≤ x < offset + n) → f_bytes (file c1) x = f_bytes (file c) x) ∧
  (ret = n → disk_slice (f_bytes (file c1)) offset n = buf).
Proof.
  intros Ho Hn Hu n. unfold block_linux_write. fold n.
  assert (Hp : 0 < n) by (unfold n; destruct buf; simpl; [done|lia]).
  destruct (transfer_cases c buf n offset true Ho ltac:(lia) ltac:(done))
    as [_ Er|Er Hr|st ret Er Hcap Hmax [[Hd _ Hw] R]]; simpl in Er.
  - unfold VM_EROFS. repeat split; try done; lia.
  - unfold VM_EINVAL. rewrite Er. repeat split; try done; lia.
  - destruct (Hw eq_refl) as [Eo Ew]. simpl in *. rewrite Er. repeat split; try done; try lia.
    intros E. destruct R as [[_ Et]|]; [|lia]. rewrite Et in Ew. unfold n in Ew at 2. by rewrite Nat2Z.id, firstn_all in Ew.
Qed.

Lemma read_result c n offset :
  0 ≤ offset → 0 < n →
  let '(c2, data, ret) := block_linux_read c n offset in
  (capacity c < offset + n ∨ INT64_MAX < offset + n → c2 = c ∧ ret = - VM_EINVAL) ∧
  (ret = n ∨ ret < 0) ∧ f_bytes (file c2) = f_bytes (file c) ∧
  data = disk_slice (f_bytes (file c)) offset (Z.of_nat (length data)) ∧ (ret = n → Z.of_nat (length data) = n).
Proof.
  intros Ho Hn. unfold block_linux_read.
  destruct (transfer_cases c [] n offset false Ho ltac:(lia) ltac:(done)) as [|_ Hr|st ret _ Hcap Hmax [[Hd Hr _] R]];
    [done|..].
  - unfold VM_EINVAL. repeat split; try done; lia.
  - destruct (Hr eq_refl) as [Ef Ed]. simpl in *. rewrite Ed, length_disk_slice, Z2Nat.id by lia.
    repeat split; try done; lia.
Qed.

(** C25. A disk image behaves as storage, however the host splits and interrupts
    the system calls: a transfer always ends; a range outside the image and a
    write to a read-only one are refused without touching the file; a write that
    reports success is what the next successful read of the range returns, and
    no byte outside the range has changed; a transfer that fails returns a
    negative code, and what a failed read stored is still the file's bytes. *)
Theorem linux_transfer_spec c buf offset :
  0 ≤ offset → buf ≠ [] → Forall is_u8 buf →
  let n := Z.of_nat (length buf) in
  let '(c1, ret) := block_linux_write c buf offset in
  let '(c2, data, ret2) := block_linux_read c1 n offset in
  (capacity c < offset + n ∨ INT64_MAX < offset + n → c1 = c ∧ c2 = c ∧ ret < 0 ∧ ret2 = - VM_EINVAL) ∧
  (readonly c = true → c1 = c ∧ ret = - VM_EROFS) ∧
  (ret = n ∨ ret < 0) ∧ (ret2 = n ∨ ret2 < 0) ∧
  (∀ x, ¬ (offset ≤ x < offset + n) → f_bytes (file c2) x = f_bytes (file c) x) ∧
  data = disk_slice (f_bytes (file c1)) offset (Z.of_nat (length data)) ∧
  (ret = n → ret2 = n → data = buf).
Proof.
  intros Ho Hn Hu n. pose proof (write_result c buf offset Ho Hn Hu) as W. cbv zeta in W. fold n in W.
  assert (Hp : 0 < n) by (unfold n; destruct buf; simpl; [done|lia]).
  destruct (block_linux_write c buf offset) as [c1 ret]. destruct W as (Ec & Wr & Wo & W & Wx & Ww).
  pose proof (read_result c1 n offset Ho Hp) as R. destruct (block_linux_read c1 n offset) as [[c2 data] ret2].
  rewrite Ec in R. destruct R as (Rr & R & Rb & Rd & Rn). split_and!; try done.
  - intros Hc. destruct (Wr Hc) as [-> Hw], (Rr Hc) as [-> ->]. done.
  - intros x Hx. rewrite Rb. by apply Wx.
  - intros E1 E2. by rewrite Rd, (Rn E2), Ww.
Qed.
End Transfer.

(** ** Opening and closing *)

Section Opening.
Context `{HostErrors}.

Context (open : str → bool → sys Z) (fstat : Z → sys stat) (size : Z → sys Z).
Hypothesis open_ok : ∀ path ro, match open path ro with Done fd => 0 ≤ fd | Errno e => 0 < e end.
Hypothesis fstat_ok : ∀ fd, match fstat fd with Done st => st_size st < 2 ^ 63 | Errno e => 0 < e end.
Hypothesis size_ok : ∀ fd, match size fd with Done n => is_u64 n | Errno e => 0 < e end.

Lemma open_image_cases path ro al :
  let '(r, ops) := open_image path ro al open fstat size in
  match r with
  | ERR_PTR e => e < 0 ∧ (ops = [] ∨ ∃ fd, ops = [Opened path ro fd; Closed fd])
  | Ptr (fd, cap, ro') => 0 ≤ fd ∧ is_u64 cap ∧ ro' = ro ∧ ops = [Opened path ro fd]
  end.
Proof.
  unfold open_image. destruct al; cbn [negb]; [|unfold VM_ENOMEM; split; [lia|by left]].
  pose proof (open_ok path ro) as Ho. destruct (open path ro) as [fd|e]; [|split; [by apply errno_code|by left]].
  cbv zeta. pose proof (fstat_ok fd) as Hf. destruct (fstat fd) as [st|e]; [|split; [by apply errno_code|eauto]].
  destruct (negb _ && negb _); [unfold VM_EINVAL; split; [lia|eauto]|].
  destruct (S_ISBLK st).
  - pose proof (size_ok fd) as Hz. destruct (size fd) as [n|e]; [done|split; [by apply errno_code|eauto]].
  - destruct (Z.ltb_spec (st_size st) 0); [unfold VM_EINVAL; split; [lia|eauto]|]. unfold is_u64. repeat split; lia.
Qed.

Lemma parse_readonly_spec v ro : parse_readonly v = Some ro → (ro = true ↔ ∃ x, v = Some x ∧ (x = str_on ∨ x = str_1)).
Proof.
  unfold parse_readonly. destruct v as [x|]; [|intros; simplify_eq; split; [done|by intros (? & ? & _)]].
  destruct (_ || _) eqn:E; [|destruct (_ && _); [done|]]; intros; simplify_eq; rewrite ?orb_true_iff, ?orb_false_iff in E.
  - rewrite !bool_decide_eq_true in E. split; [eauto|done].
  - rewrite !bool_decide_eq_false in E. split; [done|]. intros (y & ? & C). simplify_eq. tauto.
Qed.

(** Creating a backend either fails with a negative code and leaves nothing
    open, or keeps exactly one descriptor, which destruction closes; an image
    is opened read-only exactly if the options say so, and its capacity is a
    64-bit size. *)
Theorem block_linux_create_spec opts ap ar al :
  let '(r, ops) := block_linux_create opts ap ar al open fstat size in
  match r with
  | ERR_PTR e => e < 0 ∧ (ops = [] ∨ ∃ path ro fd, ops = [Opened path ro fd; Closed fd])
  | Ptr (fd, cap, ro) => is_u64 cap ∧ ∃ path,
      ops ++ block_linux_destroy fd = [Opened path ro fd; Closed fd] ∧
      cmdline_extract_opt opts (Some key_path) ap = Some (Ptr path) ∧
      (ro = true ↔ ∃ v, cmdline_extract_opt opts (Some key_readonly) ar = Some (Ptr v) ∧ (v = str_on ∨ v = str_1))
  end.
Proof.
  unfold block_linux_create. pose proof (extract_negative opts) as Neg.
  destruct (cmdline_extract_opt opts (Some key_path) ap) as [[path|e]|] eqn:Ep; [|eauto|unfold VM_EINVAL; split; [lia|eauto]].
  destruct (cmdline_extract_opt opts (Some key_readonly) ar) as [[v|e]|] eqn:Er; [|eauto|];
    (destruct (parse_readonly _) as [ro|] eqn:Ero; [|unfold VM_EINVAL; split; [lia|eauto]]);
    apply parse_readonly_spec in Ero;
    pose proof (open_image_cases path ro al) as C; destruct (open_image _ _ _ _ _ _) as [[[[fd cap] ro']|e] ops];
    try (destruct C as [? [|[fd ->]]]; eauto 6; fail); destruct C as (Hfd & Hc & -> & ->);
    (split; [done|]); exists path; unfold block_linux_destroy;
    (destruct (Z.leb_spec 0 fd); [|lia]); repeat split; try done.
  all: rewrite Ero; intros (x & Hx & C); simplify_eq; eauto.
Qed.
End Opening.

(** ** A file that transfers two bytes at a time, and whose first call is interrupted *)

Definition example_file : Type := (Z → Z) * bool.
Definition example_bytes (f : example_file) (x : Z) : Z := u8 (f.1 x).

Definition example_pread (f : example_file) (n off : Z) : example_file * sys (list Z) :=
  if f.2 then ((f.1, false), Errno EINTR) else (f, Done (disk_slice (example_bytes f) off (Z.min n 2))).

Definition example_pwrite (f : example_file) (buf : list Z) (off : Z) : example_file * sys Z :=
  if f.2 then ((f.1, false), Errno EINTR)
  else
    let l := take 2 buf in
    ((fun x => if off <=? x then default (f.1 x) (l !! Z.to_nat (x - off)) else f.1 x, false), Done (Z.of_nat (length l))).

#[local] Instance example_host_file : HostFile example_file := {
  f_pread := example_pread;
  f_pwrite := example_pwrite;
  f_fsync f := (f, Done ());
}.

#[local] Instance example_host_file_laws : HostFileLaws example_file.
Proof.
  refine {| f_bytes := example_bytes; f_intr f := if f.2 then 1 else 0 |}.
  - intros [d []]; simpl; lia.
  - intros f x. apply u8_range.
  - intros [d []] n off Hn Ho; simpl; [done|]. rewrite length_disk_slice, Z2Nat.id by lia. repeat split; lia.
  - intros [d []] buf off Hn Hu Ho; cbn [f_pwrite example_host_file]; unfold example_pwrite; cbn [fst snd]; [done|].
    assert (L : (length (take 2 buf) ≤ length buf)%nat) by (rewrite length_take; lia).
    split; [|split; [done|]].
    + intros x Hx. unfold example_bytes. simpl. destruct (Z.leb_spec off x); [|done].
      rewrite lookup_ge_None_2; [done|]. lia.
    + split; [lia|]. rewrite Nat2Z.id. apply list_eq. intros i. unfold disk_slice.
      rewrite list_lookup_fmap. destruct (decide (i < length (take 2 buf))%nat) as [Hi|Hi].
      * rewrite lookup_seqZ_lt by lia. simpl. unfold example_bytes. simpl.
        destruct (Z.leb_spec off (off + Z.of_nat i)); [|lia].
        replace (Z.to_nat (off + Z.of_nat i - off)) with i by lia.
        destruct (lookup_lt_is_Some_2 _ _ Hi) as [v Hv]. rewrite Hv. simpl.
        rewrite u8_small; [|eapply Forall_lookup_1; [apply Forall_take, Hu|exact Hv]].
        symmetry. rewrite lookup_take_lt by lia. rewrite lookup_take_Some in Hv. tauto.
      * rewrite lookup_seqZ_ge by lia. simpl. symmetry. apply lookup_ge_None_2. rewrite length_take. lia.
  - intros f. done.
Qed.

Definition example_image : block_linux_ctx example_file.
Proof. refine (mk_file (fun _ => 7, true) 512 false _). unfold is_u64. lia. Defined.

Lemma linux_transfer_spec_witness :
  (block_linux_write (H0 := linux_errors) example_image [1; 2; 3; 4; 5] 100).2 = 5 ∧
  (block_linux_write (H0 := linux_errors) example_image [1; 2; 3; 4; 5] 510).2 < 0.
Proof.
  pose proof (linux_transfer_spec (H1 := linux_errors) example_image [1; 2; 3; 4; 5] 100 ltac:(lia) ltac:(done)
    ltac:(repeat constructor; unfold is_u8; lia)) as S.
  pose proof (linux_transfer_spec (H1 := linux_errors) example_image [1; 2; 3; 4; 5] 510 ltac:(lia) ltac:(done)
    ltac:(repeat constructor; unfold is_u8; lia)) as S2.
  split; [vm_compute; reflexivity|]. cbv zeta in S2.
  destruct (block_linux_write example_image [1; 2; 3; 4; 5] 510) as [c1 ret].
  destruct (block_linux_read _ _ _) as [[c2 data] ret2]. destruct S2 as [S2 _]. apply S2. left. vm_compute. reflexivity.
Defined.

End File.
