(* ===== verification/LinuxTap.v ===== *)
(** * Network interfaces (src/backend/net/linux_tap.c)

    The network behind a VirtIO network device is a tap interface of the host.
    Frames are written to its descriptor as they come; received frames are read
    by the backend's service, one at a time: the descriptor is polled again only
    when the guest's device has taken the last one. *)

From S2P Require Import Prelude Host Service Cmdline IoCtx VirtioNet.

Module Tap.
Import Host Cmdline.

Abbreviation service := Service.host_posix_service.

(** struct net_linux_ctx *)
Record net_linux_ctx : Type := mk_tap {
  fd : Z;
  svc : option service;
  binding : option Z;
  mac : list Z;
}.

Definition eta_tap (c : net_linux_ctx) : net_linux_ctx := mk_tap (fd c) (svc c) (binding c) (mac c).
#[export] Instance set_tap_svc : Setter svc := ltac:(derive_setter eta_tap).
#[export] Instance set_tap_binding : Setter binding := ltac:(derive_setter eta_tap).

Definition IFNAMSIZ : Z := 16.

(** ** The address option

    [sscanf] with "%2x:%2x:%2x:%2x:%2x:%2x%n".  A conversion skips white space
    and takes at most two characters of what [strtoul] accepts in base 16: a
    sign, then digits, perhaps after 0x.  What it takes has to be a number, not
    only the start of one. *)

Definition isspace (c : Z) : bool := (c =? 32) || (9 <=? c) && (c <=? 13).

Definition hex_digit (c : Z) : option Z :=
  if (48 <=? c) && (c <=? 57) then Some (c - 48)
  else if (97 <=? c) && (c <=? 102) then Some (c - 87)
  else if (65 <=? c) && (c <=? 70) then Some (c - 55)
  else None.

Fixpoint skip_space (s : str) : str :=
  match s with
  | c :: s' => if isspace c then skip_space s' else s
  | [] => []
  end.

Definition PLUS : Z := 43.
Definition MINUS : Z := 45.
Definition COLON : Z := 58.

(** The value stored, as an [unsigned], and the rest of the input. *)
Definition scan_hex2 (s : str) : option (Z * str) :=
  match skip_space s with
  | [] => None
  | c :: s1 =>
      if (c =? PLUS) || (c =? MINUS) then
        match s1 with
        | [] => None
        | d :: s2 => v ← hex_digit d; Some (u32 (if c =? MINUS then - v else v), s2)
        end
      else
        v ← hex_digit c;
        match s1 with
        | [] => Some (v, [])
        | d :: s2 =>
            if (c =? 48) && ((d =? 120) || (d =? 88)) then None
            else match hex_digit d with
                 | Some w => Some (16 * v + w, s2)
                 | None => Some (v, s1)
                 end
        end
  end.

(** One conversion, and [more] others that follow a colon. *)
Fixpoint scan_octets (more : nat) (s : str) : option (list Z * str) :=
  '(v, s) ← scan_hex2 s;
  match more, s with
  | O, _ => Some ([v], s)
  | S more, c :: s => if c =? COLON then '(l, s) ← scan_octets more s; Some (v :: l, s) else None
  | S _, [] => None
  end.

(** The address, if the option is valid and the address may be assigned. *)
Definition parse_mac (s : str) : option (list Z) :=
  match scan_octets 5 s with
  | Some (octets, rest) =>
      let used := Z.of_nat (length s) - Z.of_nat (length rest) in
      if (used =? 17) && bool_decide (rest = []) then
        let l := u8 <$> octets in
        if negb (Z.land (aget l 0) 1 =? 0) || bool_decide (l = replicate 6 0) then None else Some l
      else None
  | None => None
  end.

(** ** Attaching to an interface *)

Definition key_ifname : str := [105; 102; 110; 97; 109; 101].
Definition key_mac : str := [109; 97; 99].

(** What was done with the tun device: [Attached] is TUNSETIFF with the name
    asked for, which is empty if the kernel chooses. *)
Inductive tap_op : Type := Opened (fd : Z) | Attached (name : str) | Closed (fd : Z).

Section Create.
Context `{HostErrors}.

(** The address: the option's, or one from [getrandom], whose outcomes are
    [random]; [None] if all of them are interruptions. *)
Definition choose_mac (opts : option str) (alloc_mac : bool) (random : list (sys (list Z))) : option (err_ptr (list Z)) :=
  match cmdline_extract_opt opts (Some key_mac) alloc_mac with
  | Some (ERR_PTR e) => Some (ERR_PTR e)
  | Some (Ptr s) =>
      Some (match parse_mac s with Some l => Ptr l | None => ERR_PTR (- VM_EINVAL) end)
  | None =>
      r ← retry_intr random;
      Some (match r with
            | Errno e => ERR_PTR (- host_error_from_errno e)
            | Done l =>
                if negb (Z.of_nat (length l) =? 6) then ERR_PTR (- VM_EIO)
                else Ptr (aset l 0 (Z.lor (Z.land (aget l 0) 0xfc) 2))
            end)
  end.

(** From the check of the name on: [alloc] says whether there is memory for the
    backend and [alloc_mac] whether the option can be copied; [open] and
    [tunsetiff] are the outcomes of those calls. *)
Definition attach_tap (opts : option str) (name : str) (alloc alloc_mac : bool) (open : sys Z)
    (tunsetiff : str → sys unit) (random : list (sys (list Z))) : option (err_ptr net_linux_ctx * list tap_op) :=
  if IFNAMSIZ <=? Z.of_nat (length name) then Some (ERR_PTR (- VM_ENAMETOOLONG), [])
  else if negb alloc then Some (ERR_PTR (- VM_ENOMEM), [])
  else
    match open with
    | Errno e => Some (ERR_PTR (- host_error_from_errno e), [])
    | Done fd =>
        match tunsetiff name with
        | Errno e => Some (ERR_PTR (- host_error_from_errno e), [Opened fd; Closed fd])
        | Done _ =>
            r ← choose_mac opts alloc_mac random;
            Some (match r with
                  | ERR_PTR e => (ERR_PTR e, [Opened fd; Attached name; Closed fd])
                  | Ptr l => (Ptr (mk_tap fd None None l), [Opened fd; Attached name])
                  end)
        end
    end.

(** [alloc_name] says whether the first option can be copied; without it the
    name is empty. *)
Definition net_linux_create (opts : option str) (alloc_name alloc alloc_mac : bool) (open : sys Z)
    (tunsetiff : str → sys unit) (random : list (sys (list Z))) : option (err_ptr net_linux_ctx * list tap_op) :=
  match cmdline_extract_opt opts (Some key_ifname) alloc_name with
  | Some (ERR_PTR e) => Some (ERR_PTR e, [])
  | Some (Ptr name) => attach_tap opts name alloc alloc_mac open tunsetiff random
  | None => attach_tap opts [] alloc alloc_mac open tunsetiff random
  end.
End Create.

(** ** Transmission *)

Section Write.
Context {K : Type} `{HostWrite K} `{HostErrors}.

Definition tap_write_body (fd : Z) (buf : list Z) (k : K) : K + K * sys Z :=
  match k_write k fd buf with
  | (k, Errno e) => if e =? EINTR then inl k else inr (k, Errno e)
  | (k, Done n) => inr (k, Done n)
  end.

Definition net_linux_write (k : K) (c : net_linux_ctx) (buf : list Z) : K * Z :=
  if SSIZE_MAX <? Z.of_nat (length buf) then (k, - VM_EOVERFLOW)
  else if bool_decide (buf = []) then (k, 0)
  else
    match loop (tap_write_body (fd c) buf) k with
    | inl k => (k, 0)
    | inr (k, Errno e) => (k, - host_error_from_errno e)
    | inr (k, Done n) => (k, n)
    end.
End Write.

Definition net_linux_get_mac (c : net_linux_ctx) : list Z * Z := (mac c, 0).

(** ** Reception *)

(** What an operation asks of the receiver. *)
Inductive tap_action : Type := Submit (frame : list Z) | Notify (err : Z).

(** [host_posix_service_update_locked] on the context's service, for its only
    source; [None] is a fault. *)
Definition update_tap (c : net_linux_ctx) (ev : Z) : option net_linux_ctx :=
  s ← svc c; s ← Service.host_posix_service_update_locked s 0 ev; Some (c <| svc := Some s |>).

Definition tap_consumed (c : net_linux_ctx) : option net_linux_ctx := update_tap c Service.HOST_POSIX_READ.

(** [outs] are the outcomes of [read], which is asked for NET_MAX_FRAME_SIZE
    bytes. *)
Definition net_linux_rx_cb `{HostErrors} (c : net_linux_ctx) (events : Z) (outs : list (sys (list Z))) :
    option (net_linux_ctx * list tap_action) :=
  let refuse_input error := c ← update_tap c 0; Some (c, [Notify error]) in
  if negb (Z.land events Service.HOST_POSIX_ERROR =? 0) then refuse_input (- VM_EIO)
  else
    ret ← retry_intr outs;
    match ret with
    | Done [] => refuse_input (- VM_EIO)
    | Done frame => c ← update_tap c 0; Some (c, [Submit frame])
    | Errno e => if e =? EAGAIN then Some (c, []) else refuse_input (- host_error_from_errno e)
    end.

Definition tap_failed (err : Z) : list tap_action := [Notify err].

(** [create] is the outcome of [host_posix_service_create] on this source. *)
Definition tap_source (c : net_linux_ctx) : list Service.host_posix_source :=
  [Service.mk_spec (fd c) Service.HOST_POSIX_READ true].

Definition net_linux_bind (c : net_linux_ctx) (b : Z) (create : err_ptr service) : net_linux_ctx * Z :=
  let c := c <| binding := Some b |> in
  match create with
  | ERR_PTR e => (c <| svc := None |> <| binding := None |>, e)
  | Ptr s => (c <| svc := Some s |>, 0)
  end.

(** The service is destroyed first, which joins its worker. *)
Definition net_linux_unbind (c : net_linux_ctx) : net_linux_ctx :=
  c <| svc := None |> <| binding := None |>.

(** The descriptor closed; [None] is the [BUG_ON] on a backend still in use. *)
Definition net_linux_destroy (c : net_linux_ctx) (bound : bool) : option (list tap_op) :=
  if bound then None else Some (if 0 <=? fd c then [Closed (fd c)] else []).

(** The tap as the network of a VirtIO device: [b] is the receiver, [create]
    the outcome of starting the service. *)
Definition net_linux_ops {K} `{HostWrite K} `{HostErrors} (b : Z) (create : err_ptr service) :
    Net.NetBackend (K * net_linux_ctx) := {|
  Net.net_write := fun '(k, c) buf => let '(k, r) := net_linux_write k c buf in (k, c, r);
  Net.net_get_mac := fun '(_, c) => net_linux_get_mac c;
  Net.net_bind_locked := fun '(k, c) => let '(c, r) := net_linux_bind c b create in (k, c, r);
  Net.net_unbind_locked := fun '(k, c) => (k, net_linux_unbind c);
|}.

(** ** A tap in use

    [taken] are the frames read since the tap was bound, [frames] those that
    were submitted; [in_flight] counts the ones that the device has not consumed;
    [stuck] says that reading failed. *)
Section System.
Context `{HostErrors}.

Record tap : Type := mk_sys {
  ctx : net_linux_ctx;
  taken : list (list Z);
  frames : list (list Z);
  in_flight : nat;
  stuck : bool;
}.

Inductive event : Type :=
| Bind (b : Z) (alloc : bool) (mutex : Z) (pipe2 : sys unit) (thread : Z)
| Unbind
| Rx (events : Z) (outs : list (sys (list Z)))
| Consumed.

(** What the descriptor is polled for. *)
Definition interest (c : net_linux_ctx) : Z :=
  match svc c with
  | Some s => match Service.sources s !! 0%nat with Some src => Service.events src | None => 0 end
  | None => 0
  end.

(** The service calls back only for a source that it polls for something;
    [read] returns no more than was asked for; a frame is consumed after it was
    submitted. *)
Definition enabled (s : tap) (e : event) : Prop :=
  match e with
  | Bind _ _ _ _ _ => svc (ctx s) = None
  | Unbind => is_Some (svc (ctx s))
  | Rx _ outs => interest (ctx s) ≠ 0 ∧ is_Some (retry_intr outs) ∧
      Forall (fun r => match r with Done l => Z.of_nat (length l) ≤ Net.NET_MAX_FRAME_SIZE | Errno e => 0 < e end) outs
  | Consumed => (0 < in_flight s)%nat
  end.

Definition submitted (l : list tap_action) : list (list Z) :=
  omap (fun a => match a with Submit f => Some f | Notify _ => None end) l.

(** What the callback reads. *)
Definition got (events : Z) (outs : list (sys (list Z))) : list (list Z) :=
  if Z.land events Service.HOST_POSIX_ERROR =? 0 then
    match retry_intr outs with Some (Done (b :: l)) => [b :: l] | _ => [] end
  else [].

Definition exec (s : tap) (e : event) : option tap :=
  let c := ctx s in
  match e with
  | Bind b alloc mutex pipe2 thread =>
      let '(r, _) := Service.host_posix_service_create (tap_source c) true alloc mutex pipe2 thread in
      let '(c, _) := net_linux_bind c b r in
      Some (mk_sys c [] [] 0 false)
  | Unbind => Some (mk_sys (net_linux_unbind c) [] [] 0 false)
  | Rx events outs =>
      '(c, l) ← net_linux_rx_cb c events outs;
      Some (mk_sys c (taken s ++ got events outs) (frames s ++ submitted l) (in_flight s + length (submitted l))
              (stuck s || (length (submitted l) <? length l)%nat))
  | Consumed => c ← tap_consumed c; Some (mk_sys c (taken s) (frames s) (in_flight s - 1) (stuck s))
  end.

Inductive reach (c : net_linux_ctx) : tap → Prop :=
| reach_created : reach c (mk_sys c [] [] 0 false)
| reach_step s e s' : reach c s → enabled s e → exec s e = Some s' → reach c s'.

(** ** Invariant *)

Definition armed (s : tap) : bool := Nat.eqb (in_flight s) 0 && negb (stuck s).

Definition frame_ok (f : list Z) : Prop := f ≠ [] ∧ Z.of_nat (length f) ≤ Net.NET_MAX_FRAME_SIZE.

Record tap_inv (s : tap) : Prop := {
  ti_frames : frames s = taken s;
  ti_sizes : Forall frame_ok (frames s);
  ti_flight : (in_flight s ≤ 1)%nat ∧ (stuck s = true → in_flight s = 0%nat);
  ti_unbound : svc (ctx s) = None → in_flight s = 0%nat;
  ti_bound : ∀ sv, svc (ctx s) = Some sv → ∃ r,
    Service.sources sv = [Service.mk_source (fd (ctx s)) (if armed s then Service.HOST_POSIX_READ else 0) r];
}.

Lemma update_tap_ok c sv src ev :
  svc c = Some sv → Service.sources sv = [src] → Service.events_ok ev = true →
  ∃ sv' r, update_tap c ev = Some (c <| svc := Some sv' |>) ∧
    Service.sources sv' = [Service.mk_source (Service.fd src) ev r].
Proof.
  intros E Es He. unfold update_tap, Service.host_posix_service_update_locked. rewrite E. cbn [mbind option_bind].
  rewrite Es, He. by do 2 eexists.
Qed.

(** The outcomes of the callback. *)
Inductive rx_result (c : net_linux_ctx) : list (list Z) → net_linux_ctx → list tap_action → Prop :=
| rx_nothing : rx_result c [] c []
| rx_stops sv r err : Service.sources sv = [Service.mk_source (fd c) 0 r] →
    rx_result c [] (c <| svc := Some sv |>) [Notify err]
| rx_frame sv r f : Service.sources sv = [Service.mk_source (fd c) 0 r] → frame_ok f →
    rx_result c [f] (c <| svc := Some sv |>) [Submit f].

Lemma tap_rx_cb_result c sv ev r events outs :
  svc c = Some sv → Service.sources sv = [Service.mk_source (fd c) ev r] → is_Some (retry_intr outs) →
  Forall (fun r => match r with Done l => Z.of_nat (length l) ≤ Net.NET_MAX_FRAME_SIZE | Errno e => 0 < e end) outs →
  ∃ c' l, net_linux_rx_cb c events outs = Some (c', l) ∧ rx_result c (got events outs) c' l.
Proof.
  intros E Es [o Ho] F. pose proof (retry_intr_forall _ _ _ F Ho) as Hl.
  destruct (update_tap_ok c sv _ 0 E Es eq_refl) as (sv' & r' & Eu & Es').
  unfold net_linux_rx_cb, got. destruct (Z.land _ _ =? 0); cbn [negb].
  - rewrite Ho. cbn [mbind option_bind]. destruct o as [[|b l]|e]; [rewrite Eu..|].
    + do 2 eexists. split; [done|]. by eapply rx_stops.
    + do 2 eexists. split; [done|]. by eapply rx_frame.
    + destruct (e =? EAGAIN); [do 2 eexists; split; [done|]; constructor|].
      rewrite Eu. do 2 eexists. split; [done|]. by eapply rx_stops.
  - rewrite Eu. do 2 eexists. split; [done|]. by eapply rx_stops.
Qed.

Lemma armed_spec s : armed s = true ↔ in_flight s = 0%nat ∧ stuck s = false.
Proof. unfold armed. rewrite andb_true_iff, negb_true_iff, Nat.eqb_eq. tauto. Qed.

Lemma tap_rx_step s events outs :
  tap_inv s → enabled s (Rx events outs) → ∃ s', exec s (Rx events outs) = Some s' ∧ tap_inv s'.
Proof.
  intros [If Is Ifl Iu Ib] (Hi & Hr & F). unfold interest in Hi. destruct (svc (ctx s)) as [sv|] eqn:Esv; [|done].
  destruct (Ib sv eq_refl) as [r Es]. rewrite Es in Hi. simpl in Hi. destruct (armed s) eqn:Ea; [|done].
  apply armed_spec in Ea as [En Et]. destruct (tap_rx_cb_result _ _ _ _ events outs Esv Es Hr F) as (c' & l & E & R).
  cbn [exec]. rewrite E. cbn [mbind option_bind]. eexists. split; [done|].
  rewrite If in Is. assert (Ub : ∀ sv' r', Service.sources sv' = [Service.mk_source (fd (ctx s)) 0 r'] →
    ∀ sv1, Some sv' = Some sv1 → ∃ r0, Service.sources sv1 = [Service.mk_source (fd (ctx s)) 0 r0]).
  { intros sv' r' E' ? [= <-]. by exists r'. }
  destruct R as [|sv' r' err Es'|sv' r' f Es' Hf]; simpl; rewrite En, Et, If, ?app_nil_r.
  - split; simpl; try done; [lia|]. by rewrite Esv.
  - split; simpl; try done; [lia|]. by apply (Ub sv' r').
  - split; simpl; try done; [apply Forall_app; split; [done|by constructor]|]. by apply (Ub sv' r').
Qed.

Lemma tap_consumed_step s : tap_inv s → (0 < in_flight s)%nat → ∃ s', exec s Consumed = Some s' ∧ tap_inv s'.
Proof.
  intros [If Is [Ifl Ist] Iu Ib] Hi. destruct (svc (ctx s)) as [sv|] eqn:Esv; [|specialize (Iu eq_refl); lia].
  destruct (Ib sv eq_refl) as [r Es]. destruct (stuck s) eqn:Et; [specialize (Ist eq_refl); lia|].
  destruct (update_tap_ok (ctx s) sv _ Service.HOST_POSIX_READ Esv Es eq_refl) as (sv' & r' & Eu & Es').
  cbn [exec]. unfold tap_consumed. rewrite Eu. cbn [mbind option_bind]. eexists. split; [done|].
  assert (E0 : (in_flight s - 1 = 0)%nat) by lia. split; simpl; rewrite ?E0, ?Et; try done; [lia|].
  intros ? [= <-]. by exists r'.
Qed.

Lemma tap_bind_step s b alloc mutex pipe2 thread :
  tap_inv s → 0 ≤ fd (ctx s) → ∃ s', exec s (Bind b alloc mutex pipe2 thread) = Some s' ∧ tap_inv s'.
Proof.
  intros _ Hf. cbn [exec].
  assert (C : (∃ e l, Service.host_posix_service_create (tap_source (ctx s)) true alloc mutex pipe2 thread = (ERR_PTR e, l)) ∨
    ∃ sv l, Service.host_posix_service_create (tap_source (ctx s)) true alloc mutex pipe2 thread = (Ptr sv, l) ∧
      Service.sources sv = [Service.mk_source (fd (ctx s)) Service.HOST_POSIX_READ 0]).
  { unfold Service.host_posix_service_create. simpl. destruct (Z.ltb_spec (fd (ctx s)) 0); [lia|]. simpl.
    destruct alloc; [|eauto]. simpl. destruct (mutex <? 0); [eauto|]. destruct pipe2; [|eauto].
    destruct (thread <? 0); [eauto|]. right. eauto. }
  destruct C as [(e & l & ->)|(sv & l & -> & Es)]; eexists; (split; [done|]); split; simpl; try done; auto.
  intros ? [= <-]. by exists 0.
Qed.

Lemma exec_fd s e s' : exec s e = Some s' → fd (ctx s') = fd (ctx s).
Proof.
  assert (U : ∀ c c' ev, update_tap c ev = Some c' → fd c' = fd c).
  { unfold update_tap. intros c c' ev E. destruct (svc c); [|done]. simpl in E.
    destruct (Service.host_posix_service_update_locked _ _ _); by simplify_eq/=. }
  destruct e; cbn [exec].
  - destruct (Service.host_posix_service_create _ _ _ _ _ _) as [[]]; intros [= <-]; done.
  - by intros [= <-].
  - unfold net_linux_rx_cb. intros E. repeat (case_match; simplify_option_eq; try done); eauto.
  - unfold tap_consumed. destruct (update_tap _ _) eqn:E; intros [= <-]. by apply U in E.
Qed.

Lemma tap_step_inv s e : tap_inv s → 0 ≤ fd (ctx s) → enabled s e → ∃ s', exec s e = Some s' ∧ tap_inv s'.
Proof.
  intros I Hf En. destruct e.
  - by apply tap_bind_step.
  - eexists. split; [done|]. split; simpl; try done; auto.
  - by apply tap_rx_step.
  - by apply tap_consumed_step.
Qed.

Lemma tap_reach_inv c s : 0 ≤ fd c → svc c = None → reach c s → tap_inv s ∧ fd (ctx s) = fd c.
Proof.
  intros Hf Hn. induction 1 as [|s e s' R [IH Ef] En E].
  - split; [|done]. split; simpl; rewrite ?Hn; try done; auto.
  - destruct (tap_step_inv s e IH ltac:(lia) En) as (s2 & E2 & I2). simplify_eq. by rewrite (exec_fd _ _ _ E).
Qed.

(** A frame of this size is queued by an open receiver. *)
Lemma frame_queued f : frame_ok f → ∀ io b r a,
  Io.heap io !! b = Some r → Io.open r = true → Io.stopped io = false →
  ∃ io', Io.io_receiver_submit io b Net.NET_MAX_FRAME_SIZE f true (Some a) true = Some (io', 0, None) ∧
    Io.work io' = Io.work io ++ [Io.mk_work b Io.IO_DATA (Io.mk_delivery a true true 0 f)].
Proof.
  intros [Hn Hl] io b r a Hr Ho Hs. unfold Io.io_receiver_submit, Io.io_binding_post.
  destruct (Z.eqb_spec (Z.of_nat (length f)) 0); [by destruct f|]. destruct (Z.ltb_spec Net.NET_MAX_FRAME_SIZE (Z.of_nat (length f))); [lia|].
  cbn. rewrite Hr. cbn. rewrite Hs, Ho. by eexists.
Qed.

(** C24. Reception: no operation faults; the frames read since the tap was bound
    were submitted to the device whole, once and in order, none of a size
    that the receiver refuses: submitted to an open receiver it is queued; at
    most one is not consumed yet, and the descriptor is polled exactly
    when there is none and reading has not failed, so a failure is final until
    the tap is bound again although consuming a frame rearms the source without
    looking. *)
Theorem tap_one_in_flight c s :
  0 ≤ fd c → svc c = None → reach c s →
  (∀ e, enabled s e → is_Some (exec s e)) ∧
  frames s = taken s ∧
  Forall (fun f => ∀ io b r a, Io.heap io !! b = Some r → Io.open r = true → Io.stopped io = false →
    ∃ io', Io.io_receiver_submit io b Net.NET_MAX_FRAME_SIZE f true (Some a) true = Some (io', 0, None) ∧
      Io.work io' = Io.work io ++ [Io.mk_work b Io.IO_DATA (Io.mk_delivery a true true 0 f)]) (frames s) ∧
  (in_flight s ≤ 1)%nat ∧
  (is_Some (svc (ctx s)) → (interest (ctx s) = Service.HOST_POSIX_READ ↔ in_flight s = 0%nat ∧ stuck s = false)).
Proof.
  intros Hf Hn R. destruct (tap_reach_inv c s Hf Hn R) as [I Ef]. pose proof I as [If Is Ifl Iu Ib]. split_and!.
  - intros e En. destruct (tap_step_inv s e I ltac:(lia) En) as (s' & -> & _). by eexists.
  - done.
  - eapply Forall_impl; [exact Is|]. intros f Hk. by apply frame_queued.
  - lia.
  - intros [sv Esv]. destruct (Ib sv Esv) as [r Es]. unfold interest. rewrite Esv, Es. simpl. rewrite <- armed_spec.
    by destruct (armed s).
Qed.
End System.

(** ** What transmission does *)

Section WriteSpec.
Context {K : Type} `{HostWriteLaws K} `{HostErrors}.

(** Transmission of a frame returns, with an error and nothing written or with
    the number of bytes that were. *)
Theorem tap_write_spec k c buf :
  let '(k', n) := net_linux_write k c buf in
  (0 ≤ n → n ≤ Z.of_nat (length buf) ∧ k_out k' (fd c) = k_out k (fd c) ++ take (Z.to_nat n) buf) ∧
  (n < 0 → -4095 ≤ n ∧ k_out k' (fd c) = k_out k (fd c)).
Proof.
  unfold net_linux_write. destruct (SSIZE_MAX <? _); [unfold VM_EOVERFLOW; split; [lia|by split; [lia|]]|].
  destruct (bool_decide_reflect (buf = [])) as [->|_]; [split; [simpl; by rewrite app_nil_r|lia]|].
  destruct (loop_total (tap_write_body (fd c) buf) (fun k' => k_out k' (fd c) = k_out k (fd c)) k_intr
    (fun '(k', r) => match r with
       | Done n => 0 ≤ n ≤ Z.of_nat (length buf) ∧ k_out k' (fd c) = k_out k (fd c) ++ take (Z.to_nat n) buf
       | Errno e => 0 < e ∧ k_out k' (fd c) = k_out k (fd c) end) k) as ([k' [n|e]] & -> & P); [|done|..].
  - intros k1 E. unfold tap_write_body. pose proof (law_k_write k1 (fd c) buf) as W.
    destruct (k_write k1 (fd c) buf) as [k2 [n|e]]; destruct W as (_ & _ & W); [by rewrite <- E|].
    destruct W as (He & Eo & Hi). destruct (Z.eqb_spec e EINTR); [|by rewrite <- E].
    split; [by rewrite Eo|]. pose proof (law_k_intr k2). pose proof (law_k_intr k1). split; [lia|]. by apply Hi.
  - pose proof (law_k_intr k). lia.
  - split; [tauto|lia].
  - destruct P as [He Eo]. pose proof (host_error_range e ltac:(lia)). split; [lia|]. split; [lia|done].
Qed.
End WriteSpec.

(** ** Addresses *)

Definition hex_char (d : Z) : Z := if d <? 10 then 48 + d else 87 + d.
Definition hex2 (b : Z) : str := [hex_char (b / 16); hex_char (b mod 16)].

Fixpoint print_mac (l : list Z) : str :=
  match l with
  | [] => []
  | [b] => hex2 b
  | b :: l => hex2 b ++ COLON :: print_mac l
  end.

(** Six bytes, the address of a single station. *)
Record assignable (l : list Z) : Prop := {
  as_length : length l = 6%nat;
  as_bytes : Forall is_u8 l;
  as_unicast : Z.land (aget l 0) 1 = 0;
  as_nonzero : l ≠ replicate 6 0;
}.

Lemma hex_char_spec d : 0 ≤ d < 16 →
  hex_digit (hex_char d) = Some d ∧ isspace (hex_char d) = false ∧
  ((hex_char d =? PLUS) || (hex_char d =? MINUS)) = false ∧ ((hex_char d =? 120) || (hex_char d =? 88)) = false ∧
  hex_char d ≠ COMMA.
Proof.
  intros Hd. assert (F : Forall (fun d => hex_digit (hex_char d) = Some d ∧ isspace (hex_char d) = false ∧
    ((hex_char d =? PLUS) || (hex_char d =? MINUS)) = false ∧ ((hex_char d =? 120) || (hex_char d =? 88)) = false ∧
    hex_char d ≠ COMMA) (seqZ 0 16)) by (repeat constructor; discriminate).
  rewrite Forall_forall in F. apply F, elem_of_seqZ. lia.
Qed.

Lemma scan_hex2_print b rest : is_u8 b → scan_hex2 (hex2 b ++ rest) = Some (b, rest).
Proof.
  intros Hb. unfold is_u8 in Hb. destruct (hex_char_spec (b / 16)) as (H1 & S1 & P1 & _);
    [split; [apply Z.div_pos; lia|apply Z.div_lt_upper_bound; lia]|].
  destruct (hex_char_spec (b mod 16)) as (H2 & _ & _ & X2 & _); [apply Z.mod_pos_bound; lia|].
  unfold scan_hex2, hex2. cbn [app skip_space]. rewrite S1, P1, H1. cbn [mbind option_bind]. rewrite X2, andb_false_r, H2.
  do 2 f_equal. rewrite (Z.div_mod b 16) at 3 by lia. done.
Qed.

Lemma scan_octets_print l : ∀ b, Forall is_u8 (b :: l) →
  scan_octets (length l) (print_mac (b :: l)) = Some (b :: l, []) ∧
  length (print_mac (b :: l)) = (2 + 3 * length l)%nat ∧ COMMA ∉ print_mac (b :: l).
Proof.
  assert (C : ∀ b, is_u8 b → COMMA ∉ hex2 b).
  { intros b Hb. unfold is_u8 in Hb. unfold hex2. rewrite !elem_of_cons.
    destruct (hex_char_spec (b / 16)) as (_ & _ & _ & _ & C1);
      [split; [apply Z.div_pos; lia|apply Z.div_lt_upper_bound; lia]|].
    destruct (hex_char_spec (b mod 16)) as (_ & _ & _ & _ & C2); [apply Z.mod_pos_bound; lia|].
    intros [|[|E]]; [congruence..|by apply elem_of_nil in E]. }
  induction l as [|b' l IH]; intros b F; apply Forall_cons in F as [Hb F].
  - split; [|by split; [|apply C]]. cbn [scan_octets print_mac length]. rewrite <- (app_nil_r (hex2 b)), scan_hex2_print by done. done.
  - destruct (IH b' F) as (S & L & Co). change (print_mac (b :: b' :: l)) with (hex2 b ++ COLON :: print_mac (b' :: l)).
    split_and!.
    + cbn [scan_octets length]. rewrite scan_hex2_print by done. cbn [mbind option_bind]. rewrite Z.eqb_refl, S. done.
    + rewrite length_app. cbn [length]. rewrite L. simpl. lia.
    + rewrite elem_of_app, elem_of_cons. intros [E|[E|E]]; [by eapply C|done|done].
Qed.

Lemma parse_print l : assignable l → parse_mac (print_mac l) = Some l ∧ COMMA ∉ print_mac l.
Proof.
  intros [Hl Hb Hu Hz]. destruct l as [|b l]; [done|]. injection Hl as Hl.
  destruct (scan_octets_print l b Hb) as (S & L & C). split; [|done].
  unfold parse_mac. rewrite Hl in S, L. rewrite S, L. cbn [length].
  assert (E : u8 <$> b :: l = b :: l).
  { rewrite <- (list_fmap_id (b :: l)) at 2. apply list_fmap_ext. intros i x Hx. apply u8_small. by eapply Forall_lookup_1. }
  simpl in E |- *. rewrite E, Hu. simpl. by rewrite bool_decide_eq_false_2.
Qed.

Lemma parse_mac_assignable s l : parse_mac s = Some l → assignable l.
Proof.
  unfold parse_mac. destruct (scan_octets 5 s) as [[octets rest]|] eqn:E; [|done].
  assert (L : ∀ n s o r, scan_octets n s = Some (o, r) → length o = S n).
  { clear. induction n as [|n IH]; intros s o r; cbn [scan_octets]; destruct (scan_hex2 s) as [[v s1]|]; try done; cbn [mbind option_bind].
    - by intros [= <- <-].
    - destruct s1 as [|c s1]; [done|]. destruct (c =? COLON); [|done].
      destruct (scan_octets n s1) as [[l r']|] eqn:E; [|done]. intros [= <- <-]. simpl. f_equal. by eapply IH. }
  destruct (_ && _); [|done]. destruct (negb _ || _) eqn:G; [done|]. apply orb_false_iff in G as [G1 G2].
  apply negb_false_iff, Z.eqb_eq in G1. apply bool_decide_eq_false in G2. intros [= <-].
  split; [|apply Forall_fmap, Forall_true; intros; apply u8_range|done..].
  rewrite length_fmap. by eapply L.
Qed.

(** A random address is one that was assigned locally. *)
Lemma random_assignable l :
  length l = 6%nat → Forall is_u8 l →
  let l' := aset l 0 (Z.lor (Z.land (aget l 0) 0xfc) 2) in assignable l' ∧ Z.testbit (aget l' 0) 1 = true.
Proof.
  intros Hl Hb l'. set (v := Z.lor _ 2) in l'.
  assert (Hv : is_u8 v) by (apply (lor_range _ _ 8); [lia|by apply land_range|lia]).
  assert (H1 : Z.testbit v 1 = true) by (unfold v; by rewrite Z.lor_spec, orb_true_r).
  assert (E0 : aget l' 0 = v) by (apply aget_aset_eq; rewrite Hl; lia).
  split; [|by rewrite E0]. split.
  - unfold l'. by rewrite length_aset.
  - by apply Forall_aset.
  - rewrite E0. unfold v. rewrite Z.land_lor_distr_l, <- Z.land_assoc. by rewrite Z.land_0_r.
  - intros E. rewrite E in E0. unfold aget in E0. simpl in E0. rewrite <- E0 in H1. done.
Qed.

Section CreateSpec.
Context `{HostErrors}.

(** The outcome of a call as the kernel gives it: an error number is positive;
    [getrandom] returns at most six bytes here. *)
Definition sys_ok {A} (P : A → Prop) (r : sys A) : Prop := match r with Done a => P a | Errno e => 0 < e end.

Lemma sys_error {A} (P : A → Prop) e : sys_ok P (Errno e) → -4095 ≤ - host_error_from_errno e < 0.
Proof. intros He. simpl in He. pose proof (host_error_range e). lia. Qed.

Lemma choose_mac_spec opts alloc random :
  is_Some (retry_intr random) → Forall (sys_ok (fun l => (length l ≤ 6)%nat ∧ Forall is_u8 l)) random →
  ∃ r, choose_mac opts alloc random = Some r ∧
    match r with Ptr l => assignable l | ERR_PTR e => -4095 ≤ e < 0 end.
Proof.
  intros [o Ho] F. unfold choose_mac. destruct (cmdline_extract_opt _ _ _) as [[s|e]|] eqn:E.
  - eexists. split; [done|]. destruct (parse_mac s) eqn:Ep; [by eapply parse_mac_assignable|unfold VM_EINVAL; lia].
  - apply extract_error in E as ->. eexists. split; [done|]. unfold VM_ENOMEM. lia.
  - pose proof (retry_intr_forall _ _ _ F Ho) as Hr. rewrite Ho. eexists. split; [done|]. destruct o as [l|e].
    + destruct Hr as [_ Hb]. destruct (Z.eqb_spec (Z.of_nat (length l)) 6); simpl; [|unfold VM_EIO; lia].
      apply random_assignable; [lia|done].
    + by apply sys_error in Hr.
Qed.

(** What the constructor leaves behind. *)
Definition attached (open : sys Z) (tunsetiff : str → sys unit) (r : err_ptr net_linux_ctx) (ops : list tap_op) : Prop :=
  match r with
  | Ptr c => open = Done (fd c) ∧ svc c = None ∧ assignable (mac c) ∧
      ∃ name, ops = [Opened (fd c); Attached name] ∧ Z.of_nat (length name) < IFNAMSIZ ∧ tunsetiff name = Done tt
  | ERR_PTR e => -4095 ≤ e < 0 ∧
      (ops = [] ∨ ∃ fd mid, open = Done fd ∧ ops = Opened fd :: mid ++ [Closed fd] ∧ Closed fd ∉ mid)
  end.

Lemma attach_tap_spec opts name alloc alloc_mac open tunsetiff random :
  sys_ok (fun fd => 0 ≤ fd) open → (∀ name, sys_ok (fun _ => True) (tunsetiff name)) →
  is_Some (retry_intr random) → Forall (sys_ok (fun l => (length l ≤ 6)%nat ∧ Forall is_u8 l)) random →
  ∃ r ops, attach_tap opts name alloc alloc_mac open tunsetiff random = Some (r, ops) ∧ attached open tunsetiff r ops.
Proof.
  intros Ho Ht Hr Hf. unfold attach_tap.
  destruct (Z.leb_spec IFNAMSIZ (Z.of_nat (length name))).
  { do 2 eexists. split; [done|]. split; [unfold VM_ENAMETOOLONG; lia|by left]. }
  destruct alloc; cbn [negb]; [|do 2 eexists; split; [done|]; split; [unfold VM_ENOMEM; lia|by left]].
  destruct open as [fd|e]; [|do 2 eexists; split; [done|]; split; [by apply sys_error in Ho|by left]].
  specialize (Ht name). destruct (tunsetiff name) as [[]|e] eqn:Et.
  - destruct (choose_mac_spec opts alloc_mac random Hr Hf) as ([l|e] & -> & Hm); do 2 eexists; (split; [done|]).
    + split_and!; [done..|]. by exists name.
    + split; [done|]. right. exists fd, [Attached name]. split_and!; [done..|]. intros E%list_elem_of_singleton. discriminate.
  - do 2 eexists. split; [done|]. split; [by apply sys_error in Ht|]. right. exists fd, []. split_and!; [done..|].
    apply not_elem_of_nil.
Qed.

(** Attaching to a tap: whatever the options and the outcomes of the system
    calls, the constructor ends with an error code, having closed the descriptor
    if it opened it, or with a backend on the open descriptor, attached under a
    name that fits the interface structure, whose six-byte address is neither
    zero nor a group address. *)
Theorem tap_create_spec opts alloc_name alloc alloc_mac open tunsetiff random :
  sys_ok (fun fd => 0 ≤ fd) open → (∀ name, sys_ok (fun _ => True) (tunsetiff name)) →
  is_Some (retry_intr random) → Forall (sys_ok (fun l => (length l ≤ 6)%nat ∧ Forall is_u8 l)) random →
  ∃ r ops, net_linux_create opts alloc_name alloc alloc_mac open tunsetiff random = Some (r, ops) ∧
    attached open tunsetiff r ops.
Proof.
  intros Ho Ht Hr Hf. unfold net_linux_create. destruct (cmdline_extract_opt _ _ _) as [[name|e]|] eqn:E;
    [by apply attach_tap_spec| |by apply attach_tap_spec].
  apply extract_error in E as ->. do 2 eexists. split; [done|]. split; [unfold VM_ENOMEM; lia|by left].
Qed.

(** The options of a tap as they are printed are what the backend gets. *)
Theorem tap_options_roundtrip name l fd random :
  COMMA ∉ name → Z.of_nat (length name) < IFNAMSIZ → assignable l →
  net_linux_create (Some (render [(key_ifname, name); (key_mac, print_mac l)])) true true true
    (Done fd) (fun _ => Done tt) random = Some (Ptr (mk_tap fd None None l), [Opened fd; Attached name]).
Proof.
  intros Hc Hn Hl. destruct (parse_print l Hl) as [Hp Hpc]. set (opts := [_; _]).
  assert (Key : ∀ k, k = key_ifname ∨ k = key_mac → k ≠ [] ∧ (COMMA ∉ k) ∧ (EQUALS ∉ k)).
  { intros k [->| ->]; (split; [done|]); split; apply (bool_decide_unpack _); exact I. }
  assert (Fo : Forall field_ok opts).
  { repeat constructor; simpl; try done; try (apply Key; tauto). }
  assert (Le : Z.of_nat (length (render opts)) ≤ SIZE_MAX).
  { unfold opts. cbn [render]. unfold field. cbn [fst snd]. rewrite !length_app. cbn [length]. rewrite !length_app. cbn [length].
    destruct l as [|b l0]; [by destruct Hl|]. destruct (scan_octets_print l0 b (as_bytes _ Hl)) as (_ & -> & _).
    pose proof (as_length _ Hl) as L6. simpl in L6. unfold IFNAMSIZ in Hn. unfold SIZE_MAX. simpl length. lia. }
  assert (Ex : ∀ k, k = key_ifname ∨ k = key_mac →
    cmdline_extract_opt (Some (render opts)) (Some k) true = Ptr <$> first_value opts k).
  { intros k Hk. destruct (Key k Hk) as (? & ? & ?). by apply cmdline_roundtrip. }
  unfold net_linux_create, attach_tap, choose_mac. rewrite !Ex by auto.
  change (first_value opts key_ifname) with (Some name). change (first_value opts key_mac) with (Some (print_mac l)).
  cbn [fmap option_fmap option_map negb].
  destruct (Z.leb_spec IFNAMSIZ (Z.of_nat (length name))); [lia|]. by rewrite Hp.
Qed.
End CreateSpec.

(** The pattern is wider than the check of its length suggests: an octet may be
    a blank or a sign with one digit, here " 2:+2:-3:44:55:66". *)
Theorem parse_mac_lenient :
  parse_mac [32; 50; 58; 43; 50; 58; 45; 51; 58; 52; 52; 58; 53; 53; 58; 54; 54] = Some [2; 2; 0xfd; 0x44; 0x55; 0x66].
Proof. vm_compute. reflexivity. Qed.

(** ** Witnesses *)

Definition example_frame : list Z := replicate 60 0xff.
Definition example_tap : net_linux_ctx := mk_tap 7 None None [2; 0; 0; 0; 0; 1].
Definition example_events : list event :=
  [Bind 3 true 0 (Done tt) 0; Rx 1 [Errno EINTR; Done example_frame]; Consumed; Rx 4 [Errno EAGAIN]].
Definition example_start : tap := mk_sys example_tap [] [] 0 false.
#[local] Existing Instance linux_errors.

(** The states of the run. *)
Definition example_state (n : nat) : tap :=
  default example_start (foldl (fun s e => s ← s; exec s e) (Some example_start) (take n example_events)).

Lemma example_tap_reached : reach example_tap (example_state 4).
Proof.
  apply (reach_step _ (example_state 3) (Rx 4 [Errno EAGAIN])); [|by vm_compute; repeat constructor; eauto|by vm_compute].
  apply (reach_step _ (example_state 2) Consumed); [|by vm_compute; repeat constructor|by vm_compute].
  apply (reach_step _ (example_state 1) (Rx 1 [Errno EINTR; Done example_frame]));
    [|by vm_compute; repeat constructor; eauto|by vm_compute].
  apply (reach_step _ (example_state 0) (Bind 3 true 0 (Done tt) 0)); [|by vm_compute|by vm_compute].
  apply reach_created.
Qed.

(** A frame is taken and consumed, then the interface fails. *)
Lemma tap_one_in_flight_witness :
  frames (example_state 4) = [example_frame] ∧ stuck (example_state 4) = true ∧
  interest (ctx (example_state 4)) ≠ Service.HOST_POSIX_READ ∧ is_Some (exec (example_state 4) Unbind).
Proof.
  destruct (tap_one_in_flight example_tap (example_state 4) ltac:(by vm_compute) ltac:(done) example_tap_reached)
    as (Hs & _ & _ & _ & Hi).
  split; [reflexivity|]. split; [reflexivity|]. split.
  - intros E. apply Hi in E as [_ E]; [discriminate|]. vm_compute. eauto.
  - apply Hs. vm_compute. eauto.
Defined.

(** "ifname=tap0", with a random address. *)
Lemma tap_create_spec_witness :
  let tunsetiff := fun _ : str => Done tt in
  ∃ r ops, net_linux_create (Some (render [(key_ifname, [116; 97; 112; 48])])) true true true (Done 7) tunsetiff
    [Errno EINTR; Done (replicate 6 0xff)] = Some (r, ops) ∧ attached (Done 7) tunsetiff r ops ∧
    ops = [Opened 7; Attached [116; 97; 112; 48]].
Proof.
  cbv zeta. destruct (tap_create_spec (Some (render [(key_ifname, [116; 97; 112; 48])])) true true true (Done 7) (fun _ => Done tt)
    [Errno EINTR; Done (replicate 6 0xff)]) as (r & ops & E & A).
  - by vm_compute.
  - by intros.
  - vm_compute. eauto.
  - repeat constructor; vm_compute; congruence.
  - exists r, ops. split; [exact E|]. split; [exact A|]. vm_compute in E. congruence.
Defined.

Lemma tap_options_roundtrip_witness :
  net_linux_create (Some (render [(key_ifname, [116; 97; 112; 48]); (key_mac, print_mac (mac example_tap))])) true true true
    (Done 7) (fun _ => Done tt) [] = Some (Ptr example_tap, [Opened 7; Attached [116; 97; 112; 48]]).
Proof.
  apply (tap_options_roundtrip [116; 97; 112; 48] (mac example_tap) 7 []).
  - by apply (bool_decide_unpack _).
  - by vm_compute.
  - split; [done|repeat constructor; vm_compute; congruence|done|discriminate].
Defined.
End Tap.
