(* ===== verification/LinuxLoader.v ===== *)
(** * The Linux loader (src/loader/linux_x86.c, src/loader/e820.h)

    Parsing a bzImage, placing the kernel and the initial ramdisk in guest
    RAM, and filling the boot parameters: header, command line and memory map. *)

From S2P Require Import Prelude HostMem Topology Virtqueue Cmdline.

Module Linux.
Import Space Vq Cmdline.

Definition LINUX_MAGIC_HDR : Z := 0x53726448.
Definition BOOT_PARAM_E820_ENTRIES : Z := 0x01E8.
Definition BOOT_PARAM_HDR_OFFSET : Z := 0x01F1.
Definition BOOT_PARAM_E820_TABLE : Z := 0x02D0.
Definition SETUP_SECTS_OFFSET : Z := 0x01F1.
Definition SETUP_MAGIC_OFFSET : Z := 0x0202.
Definition SETUP_VERSION : Z := 0x0206.
Definition SETUP_INITRD_ADDR_MAX : Z := 0x022C.
Definition SETUP_KERNEL_ALIGNMENT : Z := 0x0230.
Definition SETUP_RELOCATABLE : Z := 0x0234.
Definition SETUP_PREF_ADDRESS : Z := 0x0258.
Definition SETUP_INIT_SIZE : Z := 0x0260.
Definition SETUP_TYPE_OF_LOADER : Z := 0x0210.
Definition SETUP_RAMDISK_IMAGE : Z := 0x0218.
Definition SETUP_RAMDISK_SIZE : Z := 0x021C.
Definition SETUP_CMDLINE_PTR : Z := 0x0228.
Definition ZERO_PAGE_GPA : Z := 0x090000.
Definition CMDLINE_GPA : Z := 0x09E000.
Definition KERNEL_GPA : Z := 0x100000.

Definition VM_E820_RAM : Z := 1.
Definition VM_E820_RESERVED : Z := 2.

(** ** The memory map *)

Record e820_entry : Type := mk_e820 { e_addr : Z; e_size : Z; e_type : Z }.

Definition e820_of (r : mem_region) : e820_entry :=
  mk_e820 (ram_gpa r) (ram_size r)
    (if has (flags r) (Z.lor MEM_RESERVED MEM_READONLY) then VM_E820_RESERVED else VM_E820_RAM).

(** The while loop that finds the place of an entry, with the table from its
    last entry to its first. *)
Fixpoint e820_place (table : list e820_entry) (e : e820_entry) : list e820_entry :=
  match table with
  | [] => [e]
  | x :: rest => if e_addr e <? e_addr x then x :: e820_place rest e else e :: table
  end.

Fixpoint e820_loop (rs : list mem_region) (table : list e820_entry) : list e820_entry * Z :=
  match rs with
  | [] => (table, 0)
  | r :: rs =>
      if Z.of_nat (length table) =? 128 then (table, - VM_E2BIG)
      else e820_loop rs (e820_place table (e820_of r))
  end.

(** struct e820_entry, packed. *)
Definition e820_bytes (e : e820_entry) : list Z := le_put 8 (e_addr e) ++ le_put 8 (e_size e) ++ le_put 4 (e_type e).

Definition linux_x86_e820_table_build (m : hmem) (ms : mem_space) (zero_page : Z) : hmem * Z :=
  let '(table, ret) := e820_loop (regions ms) [] in
  let m := hm_write m (zero_page + BOOT_PARAM_E820_TABLE) (concat (e820_bytes <$> reverse table)) in
  if ret <? 0 then (m, ret)
  else (hm_write m (zero_page + BOOT_PARAM_E820_ENTRIES) [u8 (Z.of_nat (length table))], 0).

(** ** Files *)

(** A stdio stream: its bytes, how many of them can be read before an I/O
    error, the error of the n-th seek, if it fails, and whether [ftell] fails. *)
Record FILE : Type := mk_file {
  contents : list Z;
  readable_bytes : Z;
  seek_error : nat → option Z;
  tell_fails : bool;
}.

(** [fread] of [n] bytes at a position. *)
Definition fread (f : FILE) (pos n : Z) : list Z :=
  take (Z.to_nat n) (drop (Z.to_nat pos) (take (Z.to_nat (readable_bytes f)) (contents f))).

Definition file_length (f : FILE) : Z := Z.of_nat (length (contents f)).

(** [ftell] at the end of the file. *)
Definition ftell (f : FILE) : Z := if tell_fails f then - 1 else file_length f.

(** ** Options *)

(** "append=", "kernel" and "initrd". *)
Definition key_append : str := [97; 112; 112; 101; 110; 100; 61].
Definition key_kernel : str := [107; 101; 114; 110; 101; 108].
Definition key_initrd : str := [105; 110; 105; 116; 114; 100].

(** One turn of the loop that looks for "append=": the options are
    [before ++ field]. *)
Definition append_body (st : str * str) : (str * str) + (str * option str) :=
  let '(before, field) := st in
  if has_prefix field key_append then inr (before, Some (drop 7 field))
  else
    match strchr field COMMA with
    | None => inr (before ++ field, None)
    | Some s => inl (before ++ take (length field - length s + 1) field, drop 1 s)
    end.

(** The options before "append=", and the command line behind it. *)
Definition split_append (opts : str) : str * option str :=
  match loop append_body ([], opts) with inr r => r | inl _ => (opts, None) end.

(** The kernel's path, the command line and the path of the ramdisk; [allocs]
    says which allocations succeed. *)
Definition parse_options (opts : option str) (allocs : nat → bool) :
    option str * option str * option str + Z :=
  if negb (allocs 0%nat) then inr (- VM_ENOMEM)
  else
    let '(options, append) := split_append (default [] opts) in
    let cmdline := match append with
                   | Some c => Some (if allocs 1%nat then Ptr c else ERR_PTR (- VM_ENOMEM))
                   | None => None
                   end in
    let kernel_path := cmdline_extract_opt (Some options) (Some key_kernel) (allocs 2%nat) in
    let initrd_path := cmdline_extract_opt (Some options) (Some key_initrd) (allocs 3%nat) in
    match kernel_path, cmdline, initrd_path with
    | Some (ERR_PTR e), _, _ | _, Some (ERR_PTR e), _ | _, _, Some (ERR_PTR e) => inr e
    | None, _, _ => inr (- VM_EINVAL)
    | Some (Ptr k), c, i =>
        inl (Some k, match c with Some (Ptr c) => Some c | _ => None end,
             match i with Some (Ptr i) => Some i | _ => None end)
    end.

(** ** The setup header *)

Record boot_header : Type := mk_header {
  pref_address : Z;
  alignment : Z;
  init_size : Z;
  initrd_max : Z;
  relocatable : bool;
  setup_size : Z;
}.

(** The fields read from the header, and the size of the setup code that the
    loader computes once the kernel is placed. *)
Definition parse_header (header_buf : list Z) : boot_header + Z :=
  if negb (get_le header_buf SETUP_MAGIC_OFFSET 4 =? LINUX_MAGIC_HDR) then inr (- VM_EINVAL)
  else if get_le header_buf SETUP_VERSION 2 <? 0x020a then inr (- VM_EINVAL)
  else
    let setup_sects := aget header_buf SETUP_SECTS_OFFSET in
    let setup_sects := if setup_sects =? 0 then 4 else setup_sects in
    inl (mk_header (get_le header_buf SETUP_PREF_ADDRESS 8) (get_le header_buf SETUP_KERNEL_ALIGNMENT 4)
           (get_le header_buf SETUP_INIT_SIZE 4) (get_le header_buf SETUP_INITRD_ADDR_MAX 4)
           (negb (aget header_buf SETUP_RELOCATABLE =? 0)) ((setup_sects + 1) * 512)).

(** ** Placement *)

Definition usable (r : mem_region) : bool := negb (has (flags r) (Z.lor MEM_READONLY MEM_RESERVED)).

(** One pass over the regions. *)
Definition extend_pass (ms : mem_space) (low_ram : Z) : Z * bool :=
  foldl (fun '(low_ram, extended) region =>
    let base := ram_gpa region in
    let end_ := u64 (base + ram_size region) in
    if usable region && (base <=? low_ram) && (low_ram <? end_) then (end_, true)
    else (low_ram, extended)) (low_ram, false) (regions ms).

Definition extend_body (ms : mem_space) (low_ram : Z) : Z + Z :=
  let '(low_ram, extended) := extend_pass ms low_ram in
  if extended then inl low_ram else inr low_ram.

Definition find_low_ram (ms : mem_space) : Z :=
  let low_ram := match loop (extend_body ms) KERNEL_GPA with inl l => l | inr l => l end in
  if 2 ^ 32 <? low_ram then 2 ^ 32 else low_ram.

(** Where the kernel decompresses itself to: from the first address up to the
    second. *)
Definition place_runtime (h : boot_header) (low_ram : Z) : Z * Z + Z :=
  let check runtime_start :=
    if (init_size h =? 0) || (runtime_start <? KERNEL_GPA) || (low_ram <=? runtime_start)
       || (low_ram - runtime_start <? init_size h)
    then inr (- VM_ENOSPC)
    else inl (runtime_start, u64 (runtime_start + init_size h)) in
  if relocatable h then
    if (alignment h =? 0) || negb (Z.land (alignment h) (alignment h - 1) =? 0) then inr (- VM_EINVAL)
    else
      let runtime_start := if pref_address h <? KERNEL_GPA then KERNEL_GPA else pref_address h in
      if UINT64_MAX - (alignment h - 1) <? runtime_start then inr (- VM_EINVAL)
      else check (clr_bits (u64 (runtime_start + alignment h - 1)) (alignment h - 1))
  else check (pref_address h).

(** The address of the ramdisk. *)
Definition place_initrd (initrd_limit rd_size runtime_end payload_size : Z) : Z + Z :=
  if initrd_limit <? rd_size then inr (- VM_ENOSPC)
  else
    let initrd_gpa := clr_bits (initrd_limit - rd_size) 4095 in
    if (initrd_gpa <? runtime_end) || (initrd_gpa <? KERNEL_GPA + payload_size) then inr (- VM_ENOSPC)
    else inl initrd_gpa.

(** ** Loading *)

(** One turn of the loops that stream a file into guest memory. *)
Definition stream_body (ms : mem_space) (f : FILE) (pos gpa size : Z) (st : hmem * Z) :
    hmem * Z + hmem * Z :=
  let '(m, done) := st in
  if size <=? done then inr (m, 0)
  else
    match mem_map_chunk ms (u64 (gpa + done)) (size - done) true with
    | (Some hva, chunk) =>
        if chunk =? 0 then inr (m, - VM_EFAULT)
        else
          let bs := fread f (pos + done) chunk in
          let m := hm_write m hva bs in
          if negb (Z.of_nat (length bs) =? chunk) then inr (m, - VM_EIO) else inl (m, done + chunk)
    | (None, _) => inr (m, - VM_EFAULT)
    end.

Definition load_stream (m : hmem) (ms : mem_space) (f : FILE) (pos gpa size : Z) : hmem * Z :=
  match loop (stream_body ms f pos gpa size) (m, 0) with inr r => r | inl (m, _) => (m, - VM_EIO) end.

(** The zero page and the command line, before the memory map. *)
Definition write_boot_params (m : hmem) (header_buf : list Z) (cmdline : option str)
    (hva_zero_page hva_cmdline : Z) : hmem :=
  let m := hm_write m hva_zero_page (replicate 4096 0) in
  let m := hm_write m (hva_zero_page + BOOT_PARAM_HDR_OFFSET) (drop (Z.to_nat BOOT_PARAM_HDR_OFFSET) header_buf) in
  let m := hm_write m (hva_zero_page + SETUP_TYPE_OF_LOADER) [0xFF] in
  match cmdline with
  | Some c =>
      let m := hm_write m hva_cmdline (take 4095 (c ++ replicate 4095 0)) in
      let m := hm_write m (hva_cmdline + 4095) [0] in
      hm_write m (hva_zero_page + SETUP_CMDLINE_PTR) (le_put 4 CMDLINE_GPA)
  | None => hm_write m (hva_zero_page + SETUP_CMDLINE_PTR) (le_put 4 0)
  end.

(** The ramdisk, from opening its file to its two boot parameters; the second
    component is the error, if there is one. *)
Definition load_initrd (m : hmem) (ms : mem_space) (file : FILE + Z)
    (initrd_limit runtime_end payload_size hva_zero_page : Z) : hmem * option Z :=
  match file with
  | inr e => (m, Some (- e))
  | inl f =>
      match seek_error f 0%nat, seek_error f 1%nat with
      | Some e, _ | None, Some e => (m, Some (- e))
      | None, None =>
          let rd_size := ftell f in
          if rd_size <=? 0 then (m, Some (- VM_EINVAL))
          else
            match place_initrd initrd_limit rd_size runtime_end payload_size with
            | inr e => (m, Some e)
            | inl initrd_gpa =>
                let '(m, ret) := load_stream m ms f 0 initrd_gpa rd_size in
                if ret <? 0 then (m, Some ret)
                else
                  let m := hm_write m (hva_zero_page + SETUP_RAMDISK_IMAGE) (le_put 4 initrd_gpa) in
                  (hm_write m (hva_zero_page + SETUP_RAMDISK_SIZE) (le_put 4 rd_size), None)
            end
      end
  end.

Record linux_loader_ctx : Type := mk_lctx { entry_pc : Z; zero_page : Z }.

(** The kernel's file [f] and everything that follows, up to the context. *)
Definition load_kernel (m : hmem) (ms : mem_space) (f : FILE) (cmdline : option str)
    (initrd : option (FILE + Z)) (alloc : bool) : hmem * (linux_loader_ctx + Z) :=
  let header_buf := fread f 0 1024 in
  if negb (Z.of_nat (length header_buf) =? 1024) then (m, inr (- VM_EIO))
  else
    match parse_header header_buf with
    | inr e => (m, inr e)
    | inl h =>
        let low_ram := find_low_ram ms in
        match place_runtime h low_ram with
        | inr e => (m, inr e)
        | inl (_, runtime_end) =>
            let initrd_limit := initrd_max h + 1 in
            let initrd_limit := if low_ram <? initrd_limit then low_ram else initrd_limit in
            match seek_error f 0%nat with
            | Some e => (m, inr (- e))
            | None =>
                let file_size := ftell f in
                if file_size <? setup_size h then (m, inr (- VM_EINVAL))
                else
                  match mem_map_range ms ZERO_PAGE_GPA 4096 true, mem_map_range ms CMDLINE_GPA 4096 true with
                  | Some hva_zero_page, Some hva_cmdline =>
                      let m := write_boot_params m header_buf cmdline hva_zero_page hva_cmdline in
                      let '(m, ret) := linux_x86_e820_table_build m ms hva_zero_page in
                      if ret <? 0 then (m, inr ret)
                      else
                        match seek_error f 1%nat with
                        | Some e => (m, inr (- e))
                        | None =>
                            let payload_size := file_size - setup_size h in
                            if low_ram <? KERNEL_GPA + payload_size then (m, inr (- VM_ENOSPC))
                            else
                              let '(m, ret) := load_stream m ms f (setup_size h) KERNEL_GPA payload_size in
                              if ret <? 0 then (m, inr ret)
                              else
                                match (match initrd with
                                       | Some file =>
                                           load_initrd m ms file initrd_limit runtime_end payload_size hva_zero_page
                                       | None => (m, None)
                                       end) with
                                | (m, Some e) => (m, inr e)
                                | (m, None) =>
                                    if negb alloc then (m, inr (- VM_ENOMEM))
                                    else (m, inl (mk_lctx KERNEL_GPA ZERO_PAGE_GPA))
                                end
                        end
                  | _, _ => (m, inr (- VM_EFAULT))
                  end
            end
        end
    end.

(** [fopen] gives the file at a path or its error; the result is the loader's
    context or an error. *)
Definition linux_loader_load (m : hmem) (ms : mem_space) (opts : option str) (fopen : str → FILE + Z)
    (allocs : nat → bool) : hmem * (linux_loader_ctx + Z) :=
  match parse_options opts allocs with
  | inl (Some kernel_path, cmdline, initrd_path) =>
      match fopen kernel_path with
      | inr e => (m, inr (- e))
      | inl f => load_kernel m ms f cmdline (fopen <$> initrd_path) (allocs 4%nat)
      end
  | inl (None, _, _) => (m, inr (- VM_EINVAL))
  | inr e => (m, inr e)
  end.

(** ** Lemmas: the memory map *)

Lemma e820_place_perm l e : e820_place l e ≡ₚ e :: l.
Proof.
  induction l as [|x l IH]; [done|]. simpl. destruct (_ <? _); [|done]. rewrite IH. apply Permutation_swap.
Qed.

(** [l] is the table from its last entry to its first. *)
Definition descending (l : list e820_entry) : Prop :=
  ForallOrdPairs (fun x y => e_addr y + e_size y ≤ e_addr x) l.

Definition e_apart (x y : e820_entry) : Prop := apart (e_addr x) (e_size x) (e_addr y) (e_size y).

Lemma e820_place_descending l e :
  descending l → 0 < e_size e → Forall (fun x => 0 < e_size x ∧ e_apart e x) l → descending (e820_place l e).
Proof.
  intros D He. induction D as [|x l Hx D IH]; intros F; [constructor; constructor|].
  apply Forall_cons in F as [[Hs Ha] F]. simpl. unfold e_apart, apart in Ha.
  destruct (Z.ltb_spec (e_addr e) (e_addr x)).
  - constructor; [|by apply IH]. rewrite e820_place_perm. constructor; [lia|done].
  - constructor; [|by constructor]. constructor; [lia|]. eapply Forall_impl; [exact Hx|]. simpl. lia.
Qed.

Lemma descending_reverse l :
  descending l → ForallOrdPairs (fun x y => e_addr x + e_size x ≤ e_addr y) (reverse l).
Proof.
  induction 1 as [|x l Hx D IH]; [constructor|]. rewrite reverse_cons. apply ForallOrdPairs_snoc; [done|].
  by rewrite reverse_Permutation.
Qed.

Lemma e820_loop_spec rs : ∀ table,
  Z.of_nat (length table) ≤ 128 →
  let '(t, ret) := e820_loop rs table in
  if Z.of_nat (length table + length rs) <=? 128
  then ret = 0 ∧ t ≡ₚ (e820_of <$> rs) ++ table ∧
       (descending table → Forall (fun x => 0 < e_size x) table →
        ForallOrdPairs ram_apart rs → Forall (fun r => 0 < ram_size r) rs →
        Forall (fun r => Forall (e_apart (e820_of r)) table) rs → descending t)
  else ret = - VM_E2BIG.
Proof.
  induction rs as [|r rs IH]; intros table Hl; simpl.
  - rewrite Nat.add_0_r. destruct (Z.leb_spec (Z.of_nat (length table)) 128); [|lia]. done.
  - destruct (Z.eqb_spec (Z.of_nat (length table)) 128) as [E|Hne].
    { destruct (Z.leb_spec (Z.of_nat (length table + S (length rs))) 128); [lia|done]. }
    assert (Len : length (e820_place table (e820_of r)) = S (length table))
      by (by rewrite (e820_place_perm table (e820_of r))).
    specialize (IH (e820_place table (e820_of r)) ltac:(lia)).
    destruct (e820_loop rs _) as [t ret]. rewrite Len in IH.
    replace (S (length table) + length rs)%nat with (length table + S (length rs))%nat in IH by lia.
    destruct (_ <=? 128); [|done]. destruct IH as (-> & P & D). split_and!; [done| |].
    + rewrite P, e820_place_perm. symmetry. apply Permutation_middle.
    + intros Dt Ft A S Ap. apply Forall_cons in S as [Sr S]. apply Forall_cons in Ap as [Ar Ap].
      inversion A as [|? ? Arr A']; subst.
      apply D; [| |exact A'|done|].
      * apply e820_place_descending; [done..|]. rewrite Forall_forall in Ft. rewrite Forall_forall in Ar.
        apply Forall_forall. auto.
      * rewrite e820_place_perm. by constructor.
      * rewrite Forall_forall in Ap. rewrite Forall_forall in Arr.
        apply Forall_forall. intros r' Hr'. rewrite e820_place_perm. constructor; [|auto].
        specialize (Arr r' Hr'). unfold ram_apart in Arr. by apply apart_sym.
Qed.

(** The bytes of consecutive records of one size. *)
Lemma hm_read_concat {A} (f : A → list Z) n m l : ∀ a i x,
  (∀ x, Z.of_nat (length (f x)) = n) → 0 ≤ n →
  hm_read m a (n * Z.of_nat (length l)) = concat (f <$> l) →
  l !! i = Some x → hm_read m (a + n * Z.of_nat i) n = f x.
Proof.
  induction l as [|y l IH]; intros a i x Hf Hn E Hi; [done|]. cbn [length fmap list_fmap concat] in E.
  replace (n * Z.of_nat (S (length l))) with (n + n * Z.of_nat (length l)) in E by lia.
  rewrite hm_read_app in E by lia.
  apply app_inj_1 in E as [E1 E2]; [|rewrite length_hm_read; specialize (Hf y); lia].
  destruct i as [|i]; simpl in Hi.
  - simplify_eq. rewrite Z.mul_0_r, Z.add_0_r. exact E1.
  - rewrite <- (IH (a + n) i x Hf Hn E2 Hi). f_equal. lia.
Qed.

Lemma length_e820_bytes e : Z.of_nat (length (e820_bytes e)) = 20.
Proof.
  unfold e820_bytes. rewrite !length_app. pose proof (length_le_put 8 (e_addr e)).
  pose proof (length_le_put 8 (e_size e)). pose proof (length_le_put 4 (e_type e)). lia.
Qed.

Lemma length_e820_table l : Z.of_nat (length (concat (e820_bytes <$> l))) = 20 * Z.of_nat (length l).
Proof.
  induction l as [|e l IH]; [done|]. cbn [fmap list_fmap concat length]. rewrite length_app.
  pose proof (length_e820_bytes e). lia.
Qed.

Lemma e820_bytes_u8 e : Forall is_u8 (e820_bytes e).
Proof. unfold e820_bytes. rewrite !Forall_app. split_and!; by apply le_put_bytes. Qed.

(** Reading a record back. *)
Lemma e820_fields m a e :
  is_u64 (e_addr e) → is_u64 (e_size e) → is_u32 (e_type e) → hm_read m a 20 = e820_bytes e →
  le_get m a 8 = e_addr e ∧ le_get m (a + 8) 8 = e_size e ∧ le_get m (a + 16) 4 = e_type e.
Proof.
  intros H1 H2 H3 E. replace 20 with (8 + (8 + 4)) in E by lia. rewrite !hm_read_app in E by lia.
  unfold e820_bytes in E. pose proof (length_le_put 8 (e_addr e)). pose proof (length_le_put 8 (e_size e)).
  apply app_inj_1 in E as [E1 E]; [|rewrite length_hm_read; lia].
  apply app_inj_1 in E as [E2 E3]; [|rewrite length_hm_read; lia].
  rewrite <- Z.add_assoc in E3. unfold le_get. change (8 + 8) with 16 in E3. rewrite E1, E2, E3. unfold le_put.
  rewrite !little_endian_to_Z_to_little_endian by lia. unfold is_u64, is_u32 in *.
  split_and!; apply Z.mod_small; lia.
Qed.

(** What the map says of a region: where it is, and whether it is RAM (1) or,
    when it is read-only or reserved, not for the kernel to use (2). *)
Definition region_entry (r : mem_region) : Z * Z * Z :=
  (ram_gpa r, ram_size r, if Z.testbit (flags r) 0 || Z.testbit (flags r) 2 then 2 else 1).

(** The zero page at [zp] holds the map of [ms]: the number of its regions and,
    in order of address and without overlap, one entry for each. *)
Definition e820_map (ms : mem_space) (zp : Z) (m : hmem) : Prop :=
  ∃ table : list (Z * Z * Z),
    table ≡ₚ region_entry <$> regions ms ∧
    ForallOrdPairs (fun x y => x.1.1 + x.1.2 ≤ y.1.1) table ∧
    hm_get m (zp + BOOT_PARAM_E820_ENTRIES) = Z.of_nat (length table) ∧
    ∀ i addr size type, table !! i = Some (addr, size, type) →
      let a := zp + BOOT_PARAM_E820_TABLE + 20 * Z.of_nat i in
      le_get m a 8 = addr ∧ le_get m (a + 8) 8 = size ∧ le_get m (a + 16) 4 = type.

Definition e820_offset (ms : mem_space) (o : Z) : Prop :=
  o = BOOT_PARAM_E820_ENTRIES ∨
  BOOT_PARAM_E820_TABLE ≤ o < BOOT_PARAM_E820_TABLE + 20 * Z.of_nat (length (regions ms)).

(** The bytes of the page at [zp] are the same but for some offsets. *)
Definition page_same (zp : Z) (but : Z → Prop) (m m' : hmem) : Prop :=
  ∀ o, 0 ≤ o < 4096 → ¬ but o → hm_get m' (zp + o) = hm_get m (zp + o).

Definition entry_fields (e : e820_entry) : Z * Z * Z := (e_addr e, e_size e, e_type e).

Lemma entry_fields_of r : entry_fields (e820_of r) = region_entry r.
Proof.
  unfold entry_fields, region_entry. simpl. do 2 f_equal.
  change MEM_RESERVED with (2 ^ 2). change MEM_READONLY with (2 ^ 0). rewrite <- !has_pow2 by lia.
  rewrite has_lor, orb_comm. done.
Qed.

Lemma ForallOrdPairs_fields l :
  ForallOrdPairs (fun x y => e_addr x + e_size x ≤ e_addr y) l →
  ForallOrdPairs (fun x y => x.1.1 + x.1.2 ≤ y.1.1) (entry_fields <$> l).
Proof. induction 1 as [|x l Hx H IH]; [constructor|]. constructor; [|done]. by apply Forall_fmap. Qed.

(** The memory map a kernel boots with is the machine's.  If there are at
    most 128 memory regions it is built, and no other byte changes; if there
    are more, building fails. *)
Theorem linux_e820_table m ms zp :
  mem_inv ms →
  let '(m', ret) := linux_x86_e820_table_build m ms zp in
  if Z.of_nat (length (regions ms)) <=? 128 then
    ret = 0 ∧ e820_map ms zp m' ∧ page_same zp (e820_offset ms) m m' ∧
    (∀ x, x < zp ∨ zp + 4096 ≤ x → hm_get m' x = hm_get m x)
  else ret = - VM_E2BIG.
Proof.
  intros I. assert (U : Forall (fun r => is_u64 (ram_gpa r) ∧ is_u64 (ram_size r)) (regions ms)).
  { eapply Forall_impl; [apply (mem_span _ I)|]. intros r (? & ? & ?). word. }
  unfold linux_x86_e820_table_build. pose proof (e820_loop_spec (regions ms) [] ltac:(done)) as L.
  destruct (e820_loop (regions ms) []) as [t ret]. cbn [length Nat.add] in L.
  destruct (Z.leb_spec (Z.of_nat (length (regions ms))) 128) as [H128|]; [|by rewrite L].
  destruct L as (-> & P & D). cbn [Z.ltb Z.compare]. rewrite app_nil_r in P. cbv zeta.
  assert (Pr : reverse t ≡ₚ e820_of <$> regions ms) by (by rewrite reverse_Permutation).
  assert (Lr : length t = length (reverse t)) by (by rewrite length_reverse).
  assert (Lt : length (reverse t) = length (regions ms)) by (by rewrite Pr, length_fmap).
  assert (Lc : Z.of_nat (length (concat (e820_bytes <$> reverse t))) = 20 * Z.of_nat (length (reverse t)))
    by apply length_e820_table.
  rewrite Lr. split_and!; [done| | |].
  - exists (entry_fields <$> reverse t). split_and!.
    + rewrite Pr, <- list_fmap_compose. apply Permutation_refl'. apply list_fmap_ext. intros i r _. apply entry_fields_of.
    + apply ForallOrdPairs_fields, descending_reverse, D; try constructor; [apply (mem_apart _ I)| |].
      * eapply Forall_impl; [apply (mem_span _ I)|]. simpl. unfold span_ok. tauto.
      * apply Forall_forall. constructor.
    + rewrite length_fmap. unfold hm_get. simpl. rewrite lookup_insert_eq. cbn [default from_option id].
      rewrite (u8_small (u8 _)) by apply u8_range. apply u8_small. unfold is_u8. lia.
    + intros i addr size type Hi. rewrite list_lookup_fmap in Hi.
      destruct (reverse t !! i) as [e|] eqn:Ei; [|done]. injection Hi as <- <- <-.
      assert (He : e ∈ e820_of <$> regions ms) by (rewrite <- Pr; by eapply list_elem_of_lookup_2).
      apply list_elem_of_fmap in He as (r & -> & Hr). rewrite Forall_forall in U. destruct (U r Hr) as [U1 U2].
      apply e820_fields; [done..| |].
      * simpl. destruct (has _ _); unfold is_u32, VM_E820_RESERVED, VM_E820_RAM; lia.
      * apply (hm_read_concat e820_bytes 20 _ (reverse t) (zp + BOOT_PARAM_E820_TABLE) i (e820_of r)
          length_e820_bytes ltac:(lia)); [|done].
        unfold BOOT_PARAM_E820_TABLE, BOOT_PARAM_E820_ENTRIES in *. rewrite hm_read_write_out by (simpl; lia).
        rewrite <- Lc. apply hm_read_write. apply Forall_concat, Forall_fmap, Forall_true. apply e820_bytes_u8.
  - intros o Ho Hb. unfold e820_offset, BOOT_PARAM_E820_TABLE, BOOT_PARAM_E820_ENTRIES in *.
    rewrite !hm_get_write_out by (simpl; lia). done.
  - intros x Hx. unfold BOOT_PARAM_E820_TABLE, BOOT_PARAM_E820_ENTRIES in *.
    rewrite !hm_get_write_out by (simpl; lia). done.
Qed.

(** The map is read from the bytes it is in. *)
Lemma e820_map_keep ms zp m m' but :
  (length (regions ms) ≤ 128)%nat → page_same zp but m m' → (∀ o, e820_offset ms o → ¬ but o) →
  e820_map ms zp m → e820_map ms zp m'.
Proof.
  intros L S D (t & P & A & N & E). unfold e820_offset in D.
  assert (Lt : length t = length (regions ms)) by (by rewrite P, length_fmap).
  unfold BOOT_PARAM_E820_TABLE, BOOT_PARAM_E820_ENTRIES in *.
  assert (G : ∀ x k, 0 ≤ k → zp + 720 ≤ x → x + k ≤ zp + 720 + 20 * Z.of_nat (length t) → le_get m' x k = le_get m x k).
  { intros x k Hk H1 H2. apply (le_get_agree m' m x k); [|lia..]. intros y Hy. replace y with (zp + (y - zp)) by lia.
    apply S; [lia|]. apply D. lia. }
  exists t. split; [done|]. split; [done|]. split; [rewrite <- N; apply S; [lia|apply D; lia]|].
  intros i addr size type Hi. pose proof (lookup_lt_Some _ _ _ Hi). cbv zeta.
  unfold BOOT_PARAM_E820_TABLE. rewrite !G by lia. by apply (E i).
Qed.

(** ** Lemmas: guest memory behind host addresses *)

(** The backing stores of the regions do not overlap. *)
Definition hva_apart (ms : mem_space) : Prop :=
  ForallOrdPairs (fun r s => apart (hva r) (ram_size r) (hva s) (ram_size s)) (regions ms).

Section Memory.
Variable ms : mem_space.
Hypothesis ms_inv : mem_inv ms.
Hypothesis ms_apart : hva_apart ms.

Definition mapped (l : list Z) : Prop := ∀ a, a ∈ l → byte_mapped ms true a.

Lemma hva_of_inj a b :
  byte_mapped ms true a → byte_mapped ms true b → hva_of ms a = hva_of ms b → a = b.
Proof.
  intros (r & Hr & Ha & _) (r' & Hr' & Hb & _). unfold hva_of.
  rewrite (proj2 (find_region_spec ms a r ms_inv) (conj Hr Ha)), (proj2 (find_region_spec ms b r' ms_inv) (conj Hr' Hb)).
  destruct (ForallOrdPairs_elem _ _ r r' (fun x y => apart_sym _ _ _ _) ms_apart Hr Hr') as [->|A]; [lia|].
  unfold apart, in_ram in *. lia.
Qed.

(** What is written elsewhere in the guest leaves a list of bytes alone. *)
Lemma stream_read_touches m m' l l' :
  only_touches ms l' m m' → mapped l → mapped l' → (∀ a, a ∈ l → a ∉ l') →
  stream_read ms m' l = stream_read ms m l.
Proof.
  intros T Ml Ml' D. apply list_fmap_ext. intros i a Ha%list_elem_of_lookup_2. apply T. intros b Hb E.
  apply (D a Ha). by rewrite <- (hva_of_inj b a (Ml' b Hb) (Ml a Ha) E).
Qed.

Lemma stream_read_write l : ∀ m bs,
  NoDup l → mapped l → length bs = length l → Forall is_u8 bs →
  stream_read ms (stream_write ms m l bs) l = bs.
Proof.
  induction l as [|a l IH]; intros m [|b bs] N M L F; try done. apply NoDup_cons in N as [Ha N].
  apply Forall_cons in F as [Hb F]. simpl in *.
  assert (Ml : mapped l) by (intros x Hx; apply M; by right). f_equal; [|apply IH; done || lia].
  rewrite (stream_write_touches ms l).
  - unfold hm_get. rewrite lookup_insert_eq. by apply u8_small.
  - intros x Hx E. apply Ha. by rewrite <- (hva_of_inj x a (Ml x Hx) (M a ltac:(by left)) E).
Qed.

(** A range that is mapped in one piece. *)
Lemma range_page g n h :
  is_u64 g → is_u64 n → mem_map_range ms g n true = Some h →
  mapped (seqZ g n) ∧ ∀ i, 0 ≤ i < n → hva_of ms (g + i) = h + i.
Proof.
  intros Hg Hn (r & Hr & H1 & H2 & H3 & W & ->)%mem_map_range_inside; [|done..]. split.
  - intros a Ha%elem_of_seqZ. exists r. unfold in_ram. split_and!; [done|lia|lia|done].
  - intros i Hi. unfold hva_of. rewrite (proj2 (find_region_spec ms (g + i) r ms_inv)); [lia|].
    split; [done|]. unfold in_ram. lia.
Qed.

Lemma page_write g n h m off bs :
  (∀ i, 0 ≤ i < n → hva_of ms (g + i) = h + i) → 0 ≤ off → off + Z.of_nat (length bs) ≤ n →
  only_touches ms (seqZ g n) m (hm_write m (h + off) bs).
Proof.
  intros Hh Ho Hl x Hx. apply hm_get_write_out.
  destruct (decide (x < h + off ∨ h + off + Z.of_nat (length bs) ≤ x)) as [|Hin]; [done|].
  destruct (Hx (g + (x - h))); [apply elem_of_seqZ; lia|]. rewrite Hh by lia. lia.
Qed.

(** A page keeps its bytes when other guest bytes are written. *)
Lemma page_keeps g n h m m' l :
  mapped (seqZ g n) → (∀ i, 0 ≤ i < n → hva_of ms (g + i) = h + i) →
  only_touches ms l m m' → mapped l → (∀ a, a ∈ l → a < g ∨ g + n ≤ a) →
  ∀ x, h ≤ x < h + n → hm_get m' x = hm_get m x.
Proof.
  intros M Hh T Ml D x Hx. apply T. intros a Ha E.
  assert (Ep : hva_of ms (g + (x - h)) = x) by (rewrite Hh by lia; lia). rewrite <- Ep in E.
  assert (Hp : g + (x - h) ∈ seqZ g n) by (apply elem_of_seqZ; lia).
  apply hva_of_inj in E; [|by apply Ml|by apply M]. specialize (D a Ha). lia.
Qed.

(** ** Lemmas: streaming a file *)

Lemma fread_app f pos n k : 0 ≤ pos → 0 ≤ n → 0 ≤ k → fread f pos (n + k) = fread f pos n ++ fread f (pos + n) k.
Proof.
  intros. unfold fread. rewrite Z2Nat.inj_add, Z2Nat.inj_add by lia. rewrite <- drop_drop.
  set (l := drop (Z.to_nat pos) _). clearbody l. symmetry. apply take_take_drop.
Qed.

(** A complete read is a part of the file. *)
Lemma fread_full f pos n :
  0 ≤ pos → Z.of_nat (length (fread f pos n)) = n →
  fread f pos n = take (Z.to_nat n) (drop (Z.to_nat pos) (contents f)).
Proof.
  intros Hp. unfold fread. set (R := Z.to_nat (readable_bytes f)). intros Hl.
  rewrite length_take, length_drop, length_take in Hl.
  destruct (Z.to_nat n) as [|k] eqn:En; [by rewrite !firstn_O|].
  assert (Hle : (Z.to_nat pos + S k ≤ R)%nat) by lia.
  rewrite !take_drop_commute, take_take. f_equal. f_equal. lia.
Qed.

Lemma load_stream_spec m f pos gpa size :
  0 ≤ pos → 0 ≤ gpa → 0 ≤ size → gpa + size ≤ UINT64_MAX →
  let '(m', ret) := load_stream m ms f pos gpa size in
  ret ≤ 0 ∧
  (ret = 0 → Z.of_nat (length (fread f pos size)) = size ∧ mapped (seqZ gpa size) ∧
     m' = stream_write ms m (seqZ gpa size) (fread f pos size)).
Proof.
  intros Hp Hg Hs Hw. unfold load_stream.
  destruct (loop_total (stream_body ms f pos gpa size)
    (fun '(m1, done) => 0 ≤ done ≤ size ∧ Z.of_nat (length (fread f pos done)) = done ∧
       mapped (seqZ gpa done) ∧ m1 = stream_write ms m (seqZ gpa done) (fread f pos done))
    (fun '(_, done) => size - done)
    (fun '(m', ret) => ret ≤ 0 ∧
      (ret = 0 → Z.of_nat (length (fread f pos size)) = size ∧ mapped (seqZ gpa size) ∧
        m' = stream_write ms m (seqZ gpa size) (fread f pos size))) (m, 0)) as ([m' ret] & -> & P); [..|done].
  - intros [m1 done] (Hd & Hl & Hm & E1). unfold stream_body.
    destruct (Z.leb_spec size done); [assert (done = size) as -> by lia; done|].
    rewrite u64_small by word.
    pose proof (chunk_mapped ms (gpa + done) (size - done) true ms_inv ltac:(word) ltac:(word) ltac:(lia) ltac:(lia)) as C.
    destruct (mem_map_chunk ms (gpa + done) (size - done) true) as [[h|] k]; [|done].
    destruct C as (Hk & Ck & Ch). destruct (Z.eqb_spec k 0); [done|]. cbv zeta.
    destruct (Z.eqb_spec (Z.of_nat (length (fread f (pos + done) k))) k) as [El|]; cbn [negb]; [|done].
    split; [|lia]. split; [lia|]. rewrite fread_app, seqZ_app by lia. split_and!.
    + rewrite length_app. lia.
    + intros a [Ha|Ha%elem_of_seqZ]%elem_of_app; [by apply Hm|]. apply Ck. lia.
    + rewrite stream_write_app by (rewrite length_seqZ; lia). rewrite <- E1. apply stream_write_chunk.
      * intros i a Hi. apply lookup_seqZ in Hi as [-> Hi]. rewrite <- Ch by lia. f_equal.
      * rewrite length_seqZ. lia.
  - split; [lia|]. split; [done|]. split; [|done]. intros a Ha. by apply elem_of_nil in Ha.
  - simpl. word.
Qed.

(** ** Lemmas: low memory *)

(** A guest byte of usable RAM. *)
Definition usable_byte (a : Z) : Prop := ∃ r, r ∈ regions ms ∧ usable r = true ∧ in_ram r a.

Lemma extend_pass_spec low :
  KERNEL_GPA ≤ low ≤ UINT64_MAX →
  let '(low', ext) := extend_pass ms low in
  low ≤ low' ≤ UINT64_MAX ∧ (∀ a, low ≤ a < low' → usable_byte a) ∧
  if ext then low < low' else low' = low ∧ ¬ usable_byte low.
Proof.
  intros Hl. unfold extend_pass.
  assert (G : ∀ rs l0 e0, (∀ r, r ∈ rs → r ∈ regions ms) → low ≤ l0 ≤ UINT64_MAX →
    (∀ a, low ≤ a < l0 → usable_byte a) → (if e0 : bool then low < l0 else l0 = low) →
    let '(low', ext) := foldl (fun '(low_ram, extended) region =>
        let base := ram_gpa region in
        let end_ := u64 (base + ram_size region) in
        if usable region && (base <=? low_ram) && (low_ram <? end_) then (end_, true)
        else (low_ram, extended)) (l0, e0) rs in
    low ≤ low' ≤ UINT64_MAX ∧ (∀ a, low ≤ a < low' → usable_byte a) ∧
    if ext then low < low' else low' = low ∧ e0 = false ∧ ∀ r, r ∈ rs → usable r = true → ¬ in_ram r low).
  { induction rs as [|r rs IH]; intros l0 e0 Hr H0 C0 E0.
    - simpl. split; [done|]. split; [done|]. destruct e0; [done|]. split_and!; [done|done|].
      intros r Hn. by apply elem_of_nil in Hn.
    - cbn [foldl]. cbv zeta. pose proof (ram_span ms r ms_inv (Hr r ltac:(by left))) as (S1 & S2 & S3).
      rewrite (u64_small (ram_gpa r + ram_size r)) by word.
      assert (Hrs : ∀ x, x ∈ rs → x ∈ regions ms) by (intros; apply Hr; by right).
      destruct (usable r && (ram_gpa r <=? l0) && (l0 <? ram_gpa r + ram_size r)) eqn:Cd.
      + apply andb_prop in Cd as [[Us Hb%Z.leb_le]%andb_prop He%Z.ltb_lt].
        specialize (IH (ram_gpa r + ram_size r) true Hrs ltac:(lia)).
        destruct (foldl _ _ rs) as [low' ext]. destruct IH as (I1 & I2 & I3); [|lia|].
        * intros a Ha. destruct (decide (a < l0)); [apply C0; lia|]. exists r. unfold in_ram.
          split_and!; [apply Hr; by left|done|lia|lia].
        * split; [done|]. split; [done|]. destruct ext; [done|]. by destruct I3 as (_ & ? & _).
      + specialize (IH l0 e0 Hrs H0 C0 E0). destruct (foldl _ _ rs) as [low' [|]]; [done|].
        destruct IH as (I1 & I2 & I3 & -> & IH). split; [done|]. split; [done|]. split; [done|]. split; [done|].
        intros x [->|Hx]%elem_of_cons Hu [Hi1 Hi2]; [|by apply (IH x)]. subst l0. rewrite Hu in Cd.
        destruct (Z.leb_spec (ram_gpa r) low), (Z.ltb_spec low (ram_gpa r + ram_size r)); done || lia. }
  specialize (G (regions ms) low false ltac:(done) ltac:(lia) ltac:(intros; lia) eq_refl).
  destruct (foldl _ _ (regions ms)) as [low' [|]]; [done|]. destruct G as (? & ? & ? & _ & G).
  split; [done|]. split; [done|]. split; [done|]. intros (r & Hr & Hu & Hi). by apply (G r).
Qed.

Lemma find_low_ram_spec :
  let low := find_low_ram ms in
  KERNEL_GPA ≤ low ≤ 2 ^ 32 ∧ (∀ a, KERNEL_GPA ≤ a < low → usable_byte a) ∧
  (low < 2 ^ 32 → ¬ usable_byte low).
Proof.
  cbv zeta. unfold find_low_ram.
  destruct (loop_total (extend_body ms)
    (fun low => KERNEL_GPA ≤ low ≤ UINT64_MAX ∧ ∀ a, KERNEL_GPA ≤ a < low → usable_byte a)
    (fun low => UINT64_MAX - low)
    (fun low => KERNEL_GPA ≤ low ≤ UINT64_MAX ∧ (∀ a, KERNEL_GPA ≤ a < low → usable_byte a) ∧ ¬ usable_byte low)
    KERNEL_GPA) as (low & -> & P1 & P2 & P3).
  - intros low [H1 H2]. unfold extend_body. pose proof (extend_pass_spec low H1) as E.
    destruct (extend_pass ms low) as [low' [|]].
    + destruct E as (E1 & E2 & E3). split; [|lia]. split; [lia|]. intros a Ha.
      destruct (decide (a < low)); [apply H2; lia|apply E2; lia].
    + destruct E as (_ & _ & -> & E). done.
  - split; [unfold KERNEL_GPA; word|]. intros; lia.
  - unfold KERNEL_GPA. word.
  - destruct (Z.ltb_spec (2 ^ 32) low).
    + split; [unfold KERNEL_GPA; lia|]. split; [|lia]. intros a Ha. apply P2. lia.
    + split; [lia|]. split; [done|]. done.
Qed.

(** A file that can be read to its end. *)
Definition readable_file (f : FILE) : Prop :=
  readable_bytes f = file_length f ∧ seek_error f 0%nat = None ∧ seek_error f 1%nat = None ∧ tell_fails f = false.

Lemma length_fread f pos n :
  readable_file f → 0 ≤ pos → 0 ≤ n → pos + n ≤ file_length f → Z.of_nat (length (fread f pos n)) = n.
Proof.
  intros (R & _) Hp Hn Hl. unfold fread. rewrite R. unfold file_length in *.
  rewrite length_take, length_drop, length_take. lia.
Qed.

(** Streaming into memory that is there succeeds. *)
Lemma load_stream_complete m f pos gpa size :
  readable_file f → 0 ≤ pos → 0 ≤ gpa → 0 ≤ size → gpa + size ≤ UINT64_MAX → pos + size ≤ file_length f →
  mapped (seqZ gpa size) → ∃ m', load_stream m ms f pos gpa size = (m', 0).
Proof.
  intros F Hp Hg Hs Hw Hl M. unfold load_stream.
  destruct (loop_total (stream_body ms f pos gpa size) (fun '(_, done) => 0 ≤ done ≤ size)
    (fun '(_, done) => size - done) (fun '(_, ret) => ret = 0) (m, 0)) as ([m' ret] & -> & ->);
    [|lia|unfold UINT64_MAX in *; lia|by eexists].
  intros [m1 done] Hd. unfold stream_body. destruct (Z.leb_spec size done); [done|].
  rewrite u64_small by word.
  pose proof (chunk_mapped ms (gpa + done) (size - done) true ms_inv ltac:(word) ltac:(word) ltac:(lia) ltac:(lia)) as C.
  destruct (mem_map_chunk ms (gpa + done) (size - done) true) as [[h|] k].
  - destruct C as (Hk & _). destruct (Z.eqb_spec k 0); [lia|]. cbv zeta.
    rewrite length_fread by (done || lia). rewrite Z.eqb_refl. cbn [negb]. lia.
  - destruct C. apply M, elem_of_seqZ. lia.
Qed.

Lemma usable_mapped g n :
  (∀ a, g ≤ a < g + n → usable_byte a) → mapped (seqZ g n).
Proof.
  intros U a Ha%elem_of_seqZ. destruct (U a Ha) as (r & Hr & Hu & Hi). exists r. split_and!; [done|done|].
  unfold usable in Hu. unfold ram_allows. cbn [andb].
  apply negb_true_iff. apply negb_true_iff in Hu. unfold has in *.
  apply negb_false_iff, Z.eqb_eq in Hu. rewrite Z.land_lor_distr_r in Hu.
  apply Z.lor_eq_0_iff in Hu as [-> _]. done.
Qed.

(** ** Lemmas: placement *)

Lemma place_runtime_spec h low rs re :
  is_u64 (pref_address h) → is_u32 (alignment h) → is_u32 (init_size h) → KERNEL_GPA ≤ low ≤ 2 ^ 32 →
  place_runtime h low = inl (rs, re) →
  KERNEL_GPA ≤ rs ∧ re = rs + init_size h ∧ re ≤ low ∧ pref_address h ≤ rs ∧
  (relocatable h = true → rs mod alignment h = 0).
Proof.
  intros Hp Ha Hi Hl. unfold place_runtime.
  assert (Ck : ∀ x, is_u64 x →
    (if (init_size h =? 0) || (x <? KERNEL_GPA) || (low <=? x) || (low - x <? init_size h)
     then inr (- VM_ENOSPC) else inl (x, u64 (x + init_size h))) = @inl (Z * Z) Z (rs, re) →
    KERNEL_GPA ≤ rs ∧ re = rs + init_size h ∧ re ≤ low ∧ rs = x).
  { intros x Hx E. destruct (_ || _ || _ || _) eqn:G; [done|].
    apply orb_false_elim in G as [[[_ G1%Z.ltb_ge]%orb_false_elim G2%Z.leb_gt]%orb_false_elim G3%Z.ltb_ge].
    injection E as <- <-. rewrite u64_small by word. lia. }
  cbv zeta. destruct (relocatable h).
  - destruct (_ || negb _) eqn:G; [done|].
    apply orb_false_elim in G as [G1%Z.eqb_neq G2%negb_false_iff%Z.eqb_eq].
    destruct (pow2_test (alignment h) ltac:(word) G2) as (k & Hk & Ek).
    set (s0 := if pref_address h <? KERNEL_GPA then KERNEL_GPA else pref_address h).
    assert (Hs0 : is_u64 s0 ∧ pref_address h ≤ s0).
    { unfold s0. destruct (Z.ltb_spec (pref_address h) KERNEL_GPA); unfold KERNEL_GPA in *; word. }
    destruct (Z.ltb_spec (UINT64_MAX - (alignment h - 1)) s0); [done|].
    rewrite (u64_small (s0 + alignment h - 1)) by word. intros E.
    destruct (round_up s0 (alignment h) ltac:(word)) as (R1 & R2 & _). cbv zeta in R1, R2.
    assert (Ec : clr_bits (s0 + alignment h - 1) (alignment h - 1) =
      s0 + alignment h - 1 - (s0 + alignment h - 1) mod alignment h) by (rewrite Ek; apply clr_low_bits; lia).
    rewrite Ec in E. apply Ck in E as (E1 & E2 & E3 & ->); [|word]. split_and!; try done; lia.
  - intros E. apply Ck in E as (E1 & E2 & E3 & ->); [|done]. split_and!; try done; lia.
Qed.

Lemma place_initrd_spec limit rd re payload g :
  0 ≤ rd → place_initrd limit rd re payload = inl g →
  g mod 4096 = 0 ∧ 0 ≤ g ∧ g + rd ≤ limit ∧ re ≤ g ∧ KERNEL_GPA + payload ≤ g.
Proof.
  intros Hr. unfold place_initrd. destruct (Z.ltb_spec limit rd); [done|].
  replace (clr_bits (limit - rd) 4095) with (limit - rd - (limit - rd) mod 4096)
    by (symmetry; apply (clr_low_bits _ 12); lia).
  pose proof (Z.mod_pos_bound (limit - rd) 4096 ltac:(lia)).
  assert (E : limit - rd - (limit - rd) mod 4096 = 4096 * ((limit - rd) / 4096))
    by (rewrite (Z.mod_eq (limit - rd) 4096) by lia; lia).
  pose proof (Z.div_pos (limit - rd) 4096 ltac:(lia) ltac:(lia)).
  destruct (_ || _) eqn:G; [done|]. apply orb_false_elim in G as [G1%Z.ltb_ge G2%Z.ltb_ge].
  intros [= <-]. split_and!; try lia. rewrite E, Z.mul_comm. apply Z.mod_mul. lia.
Qed.

(** ** Lemmas: the pages *)

Lemma e820_loop_length rs : ∀ table,
  (length table ≤ 128)%nat → (length (e820_loop rs table).1 ≤ 128)%nat.
Proof.
  induction rs as [|r rs IH]; intros table Hl; [done|]. simpl.
  destruct (Z.eqb_spec (Z.of_nat (length table)) 128); [done|]. apply IH. rewrite e820_place_perm. simpl. lia.
Qed.

(** The memory map stays in its place in the page. *)
Lemma e820_build_keeps m zp :
  let m' := (linux_x86_e820_table_build m ms zp).1 in
  ∀ x, x < zp + BOOT_PARAM_E820_ENTRIES ∨ zp + BOOT_PARAM_E820_ENTRIES < x < zp + BOOT_PARAM_E820_TABLE ∨
       zp + 4096 ≤ x → hm_get m' x = hm_get m x.
Proof.
  unfold linux_x86_e820_table_build. pose proof (e820_loop_length (regions ms) [] ltac:(simpl; lia)) as Hl.
  destruct (e820_loop (regions ms) []) as [t ret]. cbn [fst] in Hl. cbv zeta. intros x Hx.
  pose proof (length_e820_table (reverse t)) as Lt. rewrite length_reverse in Lt.
  unfold BOOT_PARAM_E820_TABLE, BOOT_PARAM_E820_ENTRIES in *.
  destruct (ret <? 0); cbn [fst]; rewrite !hm_get_write_out by (simpl; lia); done.
Qed.

Lemma only_touches_app_l l l' m m' : only_touches ms l m m' → only_touches ms (l ++ l') m m'.
Proof. apply only_touches_mono. intros a Ha. apply elem_of_app. by left. Qed.
Lemma only_touches_app_r l l' m m' : only_touches ms l' m m' → only_touches ms (l ++ l') m m'.
Proof. apply only_touches_mono. intros a Ha. apply elem_of_app. by right. Qed.

Lemma mapped_app l l' : mapped l → mapped l' → mapped (l ++ l').
Proof. intros M M' a [Ha|Ha]%elem_of_app; auto. Qed.

(** The two pages of the boot parameters. *)
Variables zp cp : Z.
Hypothesis zp_mapped : mapped (seqZ ZERO_PAGE_GPA 4096).
Hypothesis zp_hva : ∀ i, 0 ≤ i < 4096 → hva_of ms (ZERO_PAGE_GPA + i) = zp + i.
Hypothesis cp_mapped : mapped (seqZ CMDLINE_GPA 4096).
Hypothesis cp_hva : ∀ i, 0 ≤ i < 4096 → hva_of ms (CMDLINE_GPA + i) = cp + i.

Abbreviation zero_bytes := (seqZ ZERO_PAGE_GPA 4096).
Abbreviation cmdline_bytes := (seqZ CMDLINE_GPA 4096).

Lemma zp_write m off bs :
  0 ≤ off → off + Z.of_nat (length bs) ≤ 4096 → only_touches ms zero_bytes m (hm_write m (zp + off) bs).
Proof. by apply page_write. Qed.

(** What other guest addresses get leaves a field of the zero page alone. *)
Lemma zp_field m m' l off n :
  only_touches ms l m m' → mapped l → (∀ a, a ∈ l → a < ZERO_PAGE_GPA ∨ ZERO_PAGE_GPA + 4096 ≤ a) →
  0 ≤ off → 0 ≤ n → off + n ≤ 4096 → le_get m' (zp + off) n = le_get m (zp + off) n.
Proof.
  intros T M D Ho Hn Hl. apply (le_get_agree m' m (zp + off) n); [|lia..]. intros x Hx.
  apply (page_keeps ZERO_PAGE_GPA 4096 zp m m' l zp_mapped zp_hva T M D). lia.
Qed.

(** The command line as the guest reads it. *)
Definition cmdline_page (c : str) : list Z := take 4095 (c ++ replicate 4095 0) ++ [0].

Lemma length_cmdline_page c : length (cmdline_page c) = 4096%nat.
Proof. unfold cmdline_page. rewrite length_app, length_take, length_app, length_replicate. cbn [length]. lia. Qed.

(** The command line a guest finds, with the boot parameter that points to it. *)
Definition cmdline_set (m : hmem) (cmdline : option str) : Prop :=
  match cmdline with
  | Some c => le_get m (zp + SETUP_CMDLINE_PTR) 4 = CMDLINE_GPA ∧
              stream_read ms m cmdline_bytes = cmdline_page c
  | None => le_get m (zp + SETUP_CMDLINE_PTR) 4 = 0
  end.

Lemma cmdline_set_keep m m' l cmdline :
  only_touches ms l m m' → mapped l → (∀ a, a ∈ l → a ∉ cmdline_bytes) →
  le_get m' (zp + SETUP_CMDLINE_PTR) 4 = le_get m (zp + SETUP_CMDLINE_PTR) 4 →
  cmdline_set m cmdline → cmdline_set m' cmdline.
Proof.
  intros T M D E. unfold cmdline_set. rewrite E. destruct cmdline; [|done]. intros [-> R]. split; [done|].
  rewrite (stream_read_touches m m' _ l T cp_mapped M); [done|]. intros a Ha Hb. by apply (D a).
Qed.

Lemma write_boot_params_spec m buf cmdline :
  length buf = 1024%nat → (∀ c, cmdline = Some c → Forall is_u8 c) →
  let m' := write_boot_params m buf cmdline zp cp in
  only_touches ms (zero_bytes ++ cmdline_bytes) m m' ∧ cmdline_set m' cmdline.
Proof.
  intros Lb Hc. unfold write_boot_params, cmdline_set. cbv zeta.
  set (m3 := hm_write (hm_write (hm_write m _ _) _ _) _ _).
  assert (T3 : only_touches ms zero_bytes m m3).
  { unfold m3, BOOT_PARAM_HDR_OFFSET, SETUP_TYPE_OF_LOADER.
    apply only_touches_trans with (m2 := hm_write (hm_write m zp (replicate 4096 0)) (zp + 497)
      (drop (Z.to_nat 497) buf)); [apply only_touches_trans with (m2 := hm_write m zp (replicate 4096 0))|].
    - rewrite <- (Z.add_0_r zp). apply zp_write; rewrite ?length_replicate; lia.
    - apply zp_write; rewrite ?length_drop; lia.
    - apply zp_write; cbn [length]; lia. }
  clearbody m3. pose proof (fun v => length_le_put 4 v) as L4.
  assert (Tp : ∀ m v, only_touches ms zero_bytes m (hm_write m (zp + SETUP_CMDLINE_PTR) (le_put 4 v))).
  { intros m0 v. apply zp_write; unfold SETUP_CMDLINE_PTR; [lia|]. rewrite L4; lia. }
  destruct cmdline as [c|]; [|split; [|by rewrite le_get_put]].
  2: { apply only_touches_app_l. by eapply only_touches_trans. }
  set (m4 := hm_write m3 cp _).
  assert (E5 : hm_write m4 (cp + 4095) [0] = hm_write m3 cp (cmdline_page c)).
  { unfold m4, cmdline_page. rewrite hm_write_app. do 2 f_equal.
    rewrite length_take, length_app, length_replicate. lia. }
  rewrite E5. clear m4 E5. set (m5 := hm_write m3 cp (cmdline_page c)).
  assert (T5 : only_touches ms cmdline_bytes m3 m5).
  { unfold m5. rewrite <- (Z.add_0_r cp). apply (page_write _ 4096); [done|lia|]. rewrite length_cmdline_page. lia. }
  split; [|split; [by rewrite le_get_put|]].
  - eapply only_touches_trans; [by apply only_touches_app_l|].
    eapply only_touches_trans; [by apply only_touches_app_r|]. by apply only_touches_app_l.
  - rewrite (stream_read_touches m5 _ _ zero_bytes); [|done..|].
    + rewrite <- (stream_read_chunk ms m5 cmdline_bytes cp).
      * rewrite length_seqZ. change (Z.of_nat (Z.to_nat 4096)) with (Z.of_nat 4096).
        rewrite <- (length_cmdline_page c). apply hm_read_write. unfold cmdline_page. apply Forall_app.
        split; [|by repeat constructor]. apply Forall_take, Forall_app. split; [by apply Hc|].
        apply Forall_replicate. unfold is_u8. lia.
      * intros i a Hi. apply lookup_seqZ in Hi as [-> Hi]. apply cp_hva. lia.
    + intros a Ha%elem_of_seqZ Hb%elem_of_seqZ. unfold CMDLINE_GPA, ZERO_PAGE_GPA in *. lia.
Qed.

(** A byte of the page as the header gives it: the setup header is copied from
    where it starts to the end of what was read of the file, and the rest is
    zero. *)
Definition header_byte (file : list Z) (o : Z) : Z :=
  if (BOOT_PARAM_HDR_OFFSET <=? o) && (o <? 1024) then aget file o else 0.

Lemma hm_get_written m a bs i :
  Forall is_u8 bs → 0 ≤ i < Z.of_nat (length bs) → hm_get (hm_write m a bs) (a + i) = aget bs i.
Proof.
  intros F Hi. unfold aget. pose proof (hm_read_write m a bs F) as E. rewrite <- E at 2. unfold hm_read.
  rewrite list_lookup_fmap. by rewrite (proj2 (lookup_seqZ 0 (Z.of_nat (length bs)) (Z.to_nat i) i) ltac:(lia)).
Qed.

Definition params_offset (o : Z) : Prop :=
  o = SETUP_TYPE_OF_LOADER ∨ SETUP_CMDLINE_PTR ≤ o < SETUP_CMDLINE_PTR + 4.

Lemma write_boot_params_page m buf cmdline :
  length buf = 1024%nat → Forall is_u8 buf →
  let m' := write_boot_params m buf cmdline zp cp in
  hm_get m' (zp + SETUP_TYPE_OF_LOADER) = 0xFF ∧
  ∀ o, 0 ≤ o < 4096 → ¬ params_offset o → hm_get m' (zp + o) = header_byte buf o.
Proof.
  intros Lb Fb. unfold write_boot_params, params_offset, header_byte. cbv zeta.
  unfold BOOT_PARAM_HDR_OFFSET, SETUP_TYPE_OF_LOADER, SETUP_CMDLINE_PTR.
  set (m2 := hm_write (hm_write m _ _) _ _). set (m3 := hm_write m2 _ _).
  assert (H3 : hm_get m3 (zp + 528) = 0xFF).
  { rewrite <- (Z.add_0_r (zp + 528)). unfold m3. rewrite hm_get_written; [done| |done].
    constructor; [unfold is_u8; lia|constructor]. }
  assert (K3 : ∀ o, 0 ≤ o < 4096 → o ≠ 528 →
    hm_get m3 (zp + o) = if (497 <=? o) && (o <? 1024) then aget buf o else 0).
  { intros o Ho Hne. unfold m3. rewrite hm_get_write_out by (cbn [length]; lia). unfold m2.
    destruct (Z.leb_spec 497 o); [destruct (Z.ltb_spec o 1024)|]; cbn [andb].
    - replace (zp + o) with (zp + 497 + (o - 497)) by lia.
      rewrite hm_get_written; [|by apply Forall_drop|rewrite length_drop; lia].
      unfold aget. rewrite lookup_drop. do 2 f_equal. lia.
    - rewrite hm_get_write_out by (rewrite length_drop; lia). apply hm_get_zeros. lia.
    - rewrite hm_get_write_out by lia. apply hm_get_zeros. lia. }
  clearbody m3. clear m2. pose proof (fun v => length_le_put 4 v ltac:(lia)) as L4.
  destruct cmdline as [c|].
  2: { split; [|intros o Ho Hp]; rewrite hm_get_write_out by (rewrite L4; lia); [done|]. apply K3; lia. }
  set (m5 := hm_write (hm_write m3 cp _) _ _).
  assert (T5 : only_touches ms cmdline_bytes m3 m5).
  { apply (only_touches_trans ms _ m3 (hm_write m3 cp (take 4095 (c ++ replicate 4095 0))) m5).
    - rewrite <- (Z.add_0_r cp). apply (page_write _ 4096); [done|lia|].
      rewrite length_take, length_app, length_replicate. lia.
    - apply (page_write _ 4096); [done|lia|]. cbn [length]. lia. }
  assert (K5 : ∀ x, zp ≤ x < zp + 4096 → hm_get m5 x = hm_get m3 x).
  { apply (page_keeps ZERO_PAGE_GPA 4096 zp m3 m5 _ zp_mapped zp_hva T5 cp_mapped).
    intros a Ha%elem_of_seqZ. unfold CMDLINE_GPA, ZERO_PAGE_GPA in *. lia. }
  split; [|intros o Ho Hp]; rewrite hm_get_write_out by (rewrite L4; lia); rewrite K5 by lia; [done|].
  apply K3; lia.
Qed.

(** A file that streamed completely. *)
Lemma load_stream_ok m m' f pos gpa size :
  0 ≤ pos → 0 ≤ gpa → 0 ≤ size → gpa + size ≤ UINT64_MAX → Forall is_u8 (contents f) →
  load_stream m ms f pos gpa size = (m', 0) →
  mapped (seqZ gpa size) ∧ only_touches ms (seqZ gpa size) m m' ∧
  stream_read ms m' (seqZ gpa size) = take (Z.to_nat size) (drop (Z.to_nat pos) (contents f)).
Proof.
  intros Hp Hg Hs Hw F E. pose proof (load_stream_spec m f pos gpa size Hp Hg Hs Hw) as S.
  rewrite E in S. destruct S as (_ & S). destruct (S eq_refl) as (L & M & ->). split; [done|].
  split; [apply stream_write_touches|]. rewrite <- (fread_full f pos size Hp L).
  apply stream_read_write; [apply NoDup_seqZ|done|rewrite length_seqZ; lia|].
  rewrite (fread_full f pos size Hp L). by apply Forall_take, Forall_drop.
Qed.

Lemma load_stream_ret m m' f pos gpa size ret :
  0 ≤ pos → 0 ≤ gpa → 0 ≤ size → gpa + size ≤ UINT64_MAX →
  load_stream m ms f pos gpa size = (m', ret) → (ret <? 0) = false → ret = 0.
Proof.
  intros Hp Hg Hs Hw E R%Z.ltb_ge. pose proof (load_stream_spec m f pos gpa size Hp Hg Hs Hw) as S.
  rewrite E in S. lia.
Qed.

(** Where a loaded ramdisk is and what the boot parameters say of it. *)
Definition initrd_loaded (m : hmem) (f : FILE) (limit runtime_end payload g : Z) : Prop :=
  0 < file_length f ∧ g mod 4096 = 0 ∧ g + file_length f ≤ limit ∧ runtime_end ≤ g ∧
  KERNEL_GPA + payload ≤ g ∧ le_get m (zp + SETUP_RAMDISK_IMAGE) 4 = g ∧
  le_get m (zp + SETUP_RAMDISK_SIZE) 4 = file_length f ∧
  stream_read ms m (seqZ g (file_length f)) = contents f.

Definition ramdisk_offset (o : Z) : Prop := SETUP_RAMDISK_IMAGE ≤ o < SETUP_RAMDISK_SIZE + 4.

Lemma page_same_cmdline m m' but :
  page_same zp but m m' → (∀ o, SETUP_CMDLINE_PTR ≤ o < SETUP_CMDLINE_PTR + 4 → ¬ but o) →
  le_get m' (zp + SETUP_CMDLINE_PTR) 4 = le_get m (zp + SETUP_CMDLINE_PTR) 4.
Proof.
  intros S D. unfold SETUP_CMDLINE_PTR in *. apply (le_get_agree m' m (zp + 552) 4); [|lia..]. intros x Hx.
  replace x with (zp + (x - zp)) by lia. apply S; [lia|]. apply D. lia.
Qed.

Lemma load_initrd_spec m m' file limit re payload :
  0 ≤ payload → limit ≤ 2 ^ 32 → (∀ f, file = inl f → Forall is_u8 (contents f)) →
  load_initrd m ms file limit re payload zp = (m', None) →
  ∃ f g, file = inl f ∧ initrd_loaded m' f limit re payload g ∧
    mapped (seqZ g (file_length f)) ∧
    only_touches ms (seqZ g (file_length f) ++ zero_bytes) m m' ∧
    page_same zp ramdisk_offset m m'.
Proof.
  intros Hp Hl Hf. unfold load_initrd. destruct file as [f|]; [|done].
  destruct (seek_error f 0), (seek_error f 1); try done. specialize (Hf f eq_refl). unfold ftell.
  destruct (tell_fails f); [done|]. destruct (Z.leb_spec (file_length f) 0) as [|Hs]; [done|].
  destruct (place_initrd _ _ _ _) as [g|] eqn:Pl; [|done].
  apply place_initrd_spec in Pl as (P1 & P2 & P3 & P4 & P5); [|lia].
  assert (Hw : g + file_length f ≤ UINT64_MAX) by (unfold UINT64_MAX; lia).
  destruct (load_stream m ms f 0 g (file_length f)) as [m1 ret] eqn:E. destruct (ret <? 0) eqn:R; [done|].
  pose proof (load_stream_ret m m1 f 0 g (file_length f) ret ltac:(lia) P2 ltac:(lia) Hw E R). subst ret.
  destruct (load_stream_ok m m1 f 0 g (file_length f) ltac:(lia) P2 ltac:(lia) Hw Hf E) as (M & T & S).
  unfold KERNEL_GPA in *. unfold SETUP_RAMDISK_IMAGE, SETUP_RAMDISK_SIZE, SETUP_CMDLINE_PTR in *.
  intros Em%(f_equal fst). cbn [fst] in Em. subst m'. pose proof (fun v => length_le_put 4 v ltac:(lia)) as L4.
  set (m2 := hm_write m1 (zp + 536) (le_put 4 g)). set (m3 := hm_write m2 (zp + 540) (le_put 4 (file_length f))).
  assert (T3 : only_touches ms zero_bytes m1 m3).
  { apply (only_touches_trans ms _ m1 m2 m3); apply zp_write; rewrite ?L4; lia. }
  assert (D : ∀ a, a ∈ seqZ g (file_length f) → a ∉ zero_bytes).
  { intros a Ha%elem_of_seqZ Hb%elem_of_seqZ. unfold ZERO_PAGE_GPA in Hb. lia. }
  exists f, g. split; [done|]. split_and!.
  - unfold initrd_loaded. unfold SETUP_RAMDISK_IMAGE, SETUP_RAMDISK_SIZE, KERNEL_GPA. split_and!; try lia.
    + unfold m3. rewrite le_get_write_out by (rewrite ?L4; lia). unfold m2. rewrite le_get_put by lia.
      apply Z.mod_small. lia.
    + unfold m3. rewrite le_get_put by lia. apply Z.mod_small. lia.
    + rewrite (stream_read_touches m1 m3 _ zero_bytes T3 M zp_mapped D), S. rewrite drop_0.
      apply take_ge. unfold file_length. lia.
  - done.
  - eapply only_touches_trans; [by apply only_touches_app_l|by apply only_touches_app_r].
  - intros o Ho Hb. unfold ramdisk_offset, SETUP_RAMDISK_IMAGE, SETUP_RAMDISK_SIZE in Hb.
    unfold m3, m2. rewrite !hm_get_write_out by (rewrite ?L4; lia).
    apply (page_keeps ZERO_PAGE_GPA 4096 zp m m1 _ zp_mapped zp_hva T M); [|lia].
    intros a Ha%elem_of_seqZ. unfold ZERO_PAGE_GPA. lia.
Qed.

(** The memory map stays in the zero page and leaves the command line alone. *)
Lemma e820_build_cmdline m m' ret cmdline :
  linux_x86_e820_table_build m ms zp = (m', ret) → cmdline_set m cmdline → cmdline_set m' cmdline.
Proof.
  intros E. pose proof (e820_build_keeps m zp) as K. rewrite E in K. cbv zeta in K. cbn [fst] in K.
  unfold BOOT_PARAM_E820_ENTRIES, BOOT_PARAM_E820_TABLE in K.
  apply (cmdline_set_keep m m' zero_bytes).
  - intros x Hx. apply K. destruct (decide (zp ≤ x < zp + 4096)); [|lia].
    destruct (Hx (ZERO_PAGE_GPA + (x - zp))); [apply elem_of_seqZ; lia|]. rewrite zp_hva by lia. lia.
  - done.
  - intros a Ha%elem_of_seqZ Hb%elem_of_seqZ. unfold CMDLINE_GPA, ZERO_PAGE_GPA in *. lia.
  - unfold SETUP_CMDLINE_PTR. apply (le_get_agree m' m (zp + 552) 4); [|lia..]. intros x Hx. apply K. lia.
Qed.

(** The two files, streamed one after the other behind the boot parameters. *)
Lemma load_files_spec m m1 m' f pos n cmdline initrd limit re :
  0 ≤ pos → 0 ≤ n → KERNEL_GPA + n ≤ 2 ^ 32 → limit ≤ 2 ^ 32 → Forall is_u8 (contents f) →
  (∀ rd, initrd = Some (inl rd) → Forall is_u8 (contents rd)) →
  load_stream m ms f pos KERNEL_GPA n = (m1, 0) →
  match initrd with Some file => load_initrd m1 ms file limit re n zp | None => (m1, None) end = (m', None) →
  cmdline_set m cmdline →
  stream_read ms m' (seqZ KERNEL_GPA n) = take (Z.to_nat n) (drop (Z.to_nat pos) (contents f)) ∧
  cmdline_set m' cmdline ∧ page_same zp (fun o => initrd ≠ None ∧ ramdisk_offset o) m m' ∧
  match initrd with
  | Some file => ∃ rd g, file = inl rd ∧ initrd_loaded m' rd limit re n g
  | None => True
  end.
Proof.
  intros Hp Hn Hk Hl F Fr E Ei C. unfold KERNEL_GPA in *.
  destruct (load_stream_ok m m1 f pos 1048576 n Hp ltac:(lia) Hn ltac:(unfold UINT64_MAX; lia) F E) as (M & T & S).
  assert (S1 : page_same zp (fun _ => False) m m1).
  { intros o Ho _. apply (page_keeps ZERO_PAGE_GPA 4096 zp m m1 _ zp_mapped zp_hva T M); [|lia].
    intros a Ha%elem_of_seqZ. unfold ZERO_PAGE_GPA. lia. }
  assert (C1 : cmdline_set m1 cmdline).
  { apply (cmdline_set_keep m m1 _ _ T M); [|by apply (page_same_cmdline m m1 _ S1); auto|done].
    intros a Ha%elem_of_seqZ Hb%elem_of_seqZ. unfold CMDLINE_GPA in Hb. lia. }
  destruct initrd as [file|].
  2: { simplify_eq. split_and!; [done..| |done]. intros o Ho _. by apply S1; [|intros []]. }
  destruct (load_initrd_spec m1 m' file limit re n Hn Hl ltac:(intros; subst; auto) Ei)
    as (rd & g & -> & I & Mi & Ti & Ei').
  pose proof I as (_ & _ & _ & _ & Hg & _). unfold KERNEL_GPA in Hg.
  pose proof (mapped_app _ _ Mi zp_mapped) as Ma. split_and!.
  - rewrite (stream_read_touches m1 m' _ _ Ti M Ma); [done|].
    intros a Ha%elem_of_seqZ [Hb%elem_of_seqZ|Hb%elem_of_seqZ]%elem_of_app; unfold ZERO_PAGE_GPA in *; lia.
  - apply (cmdline_set_keep m1 m' _ _ Ti Ma); [|apply (page_same_cmdline m1 m' _ Ei')|done].
    2: { unfold ramdisk_offset, SETUP_RAMDISK_IMAGE, SETUP_RAMDISK_SIZE, SETUP_CMDLINE_PTR. lia. }
    intros a [Ha%elem_of_seqZ|Ha%elem_of_seqZ]%elem_of_app Hb%elem_of_seqZ;
      unfold CMDLINE_GPA, ZERO_PAGE_GPA in *; lia.
  - intros o Ho Hb. rewrite <- (S1 o Ho ltac:(tauto)). apply Ei'; [done|]. intros H. by apply Hb.
  - by exists rd, g.
Qed.

End Memory.

(** ** Lemmas: loading *)

Lemma split_append_u8 opts c : Forall is_u8 opts → (split_append opts).2 = Some c → Forall is_u8 c.
Proof.
  intros F. unfold split_append.
  pose proof (loop_inv append_body (fun st => Forall is_u8 st.2) (fun r => ∀ c, r.2 = Some c → Forall is_u8 c)
    ([], opts)) as L. destruct (loop _ _) as [|r]; [done|]. apply L; [|done].
  intros [before fld] Ff. simpl in Ff. unfold append_body. destruct (has_prefix _ _).
  - intros c' [= <-]. by apply Forall_drop.
  - assert (S : ∀ s, strchr fld COMMA = Some s → Forall is_u8 s).
    { clear L. induction Ff as [|x l Hx Ff IH]; [done|]. simpl. destruct (x =? COMMA); [|done].
      intros s [= <-]. by constructor. }
    destruct (strchr fld COMMA) as [s'|]; [|done]. simpl. by apply Forall_drop, S.
Qed.

Lemma parse_options_u8 opts allocs k c i :
  Forall is_u8 (default [] opts) → parse_options opts allocs = inl (k, Some c, i) → Forall is_u8 c.
Proof.
  intros F. unfold parse_options. destruct (negb _); [done|].
  pose proof (split_append_u8 (default [] opts)) as S. destruct (split_append _) as [options app].
  destruct (cmdline_extract_opt (Some options) (Some key_kernel) (allocs 2%nat)) as [[kp|]|], app as [a|],
    (allocs 1%nat), (cmdline_extract_opt (Some options) (Some key_initrd) (allocs 3%nat)) as [[ip|]|];
    try done; intros E; simplify_eq; by apply S.
Qed.

Lemma parse_header_ranges buf h :
  Forall is_u8 buf → parse_header buf = inl h →
  is_u64 (pref_address h) ∧ is_u32 (alignment h) ∧ is_u32 (init_size h) ∧ 0 < setup_size h.
Proof.
  intros F. unfold parse_header. destruct (negb _); [done|]. destruct (_ <? _); [done|]. cbv zeta.
  intros [= <-]. cbn [pref_address alignment init_size setup_size].
  pose proof (get_le_range buf SETUP_PREF_ADDRESS 8 ltac:(lia) F).
  pose proof (get_le_range buf SETUP_KERNEL_ALIGNMENT 4 ltac:(lia) F).
  pose proof (get_le_range buf SETUP_INIT_SIZE 4 ltac:(lia) F).
  pose proof (aget_range is_u8 buf SETUP_SECTS_OFFSET ltac:(unfold is_u8; lia) F) as Hs.
  unfold is_u8, is_u64, is_u32 in *. destruct (Z.eqb_spec (aget buf SETUP_SECTS_OFFSET) 0); lia.
Qed.

(** The boot parameters of a kernel file [f] on the page at [zp]: a loader of no
    assigned type, the memory map of the machine, and, where the loader puts
    nothing of its own, the setup header of the file. *)
Definition boot_params (ms : mem_space) (zp : Z) (m : hmem) (f : FILE) (ramdisk : bool) : Prop :=
  hm_get m (zp + SETUP_TYPE_OF_LOADER) = 0xFF ∧ e820_map ms zp m ∧
  ∀ o, 0 ≤ o < 4096 → ¬ params_offset o → ¬ e820_offset ms o → ¬ (ramdisk = true ∧ ramdisk_offset o) →
    hm_get m (zp + o) = header_byte (contents f) o.

(** What a guest finds in its memory after a kernel file [f] was loaded with
    a command line and a ramdisk. *)
Definition boot_memory (ms : mem_space) (m : hmem) (f : FILE) (cmdline : option str) (initrd : option (FILE + Z)) : Prop :=
  let low := find_low_ram ms in
  ∃ h zp runtime_start runtime_end,
    parse_header (take 1024 (contents f)) = inl h ∧
    mem_map_range ms ZERO_PAGE_GPA 4096 true = Some zp ∧
    (KERNEL_GPA ≤ runtime_start ∧ pref_address h ≤ runtime_start ∧
     (relocatable h = true → runtime_start mod alignment h = 0) ∧
     runtime_end = runtime_start + init_size h ∧ runtime_end ≤ low) ∧
    let payload := drop (Z.to_nat (setup_size h)) (contents f) in
    let n := Z.of_nat (length payload) in
    KERNEL_GPA + n ≤ low ∧
    stream_read ms m (seqZ KERNEL_GPA n) = payload ∧
    cmdline_set ms zp m cmdline ∧ boot_params ms zp m f (bool_decide (initrd ≠ None)) ∧
    match initrd with
    | Some file => ∃ rd g, file = inl rd ∧
        initrd_loaded ms zp m rd (Z.min low (initrd_max h + 1)) runtime_end n g
    | None => True
    end.

Lemma header_byte_take l o : header_byte (take 1024 l) o = header_byte l o.
Proof.
  unfold header_byte. destruct (Z.leb_spec BOOT_PARAM_HDR_OFFSET o), (Z.ltb_spec o 1024); cbn [andb]; try done.
  unfold aget. by rewrite lookup_take_lt by (unfold BOOT_PARAM_HDR_OFFSET in *; lia).
Qed.

(** The parameters, the memory map and what is streamed after them add up. *)
Lemma boot_params_loaded ms zp m1 m2 m4 ret f (ramdisk : bool) :
  mem_inv ms → hm_get m1 (zp + SETUP_TYPE_OF_LOADER) = 0xFF →
  (∀ o, 0 ≤ o < 4096 → ¬ params_offset o → hm_get m1 (zp + o) = header_byte (contents f) o) →
  linux_x86_e820_table_build m1 ms zp = (m2, ret) → (ret <? 0) = false →
  page_same zp (fun o => ramdisk = true ∧ ramdisk_offset o) m2 m4 →
  boot_params ms zp m4 f ramdisk.
Proof.
  intros I H1 K1 E R S. pose proof (linux_e820_table m1 ms zp I) as B. rewrite E in B.
  destruct (Z.leb_spec (Z.of_nat (length (regions ms))) 128) as [L|L]; [|by subst ret].
  destruct B as (-> & Em & S2 & _). unfold ramdisk_offset, SETUP_RAMDISK_IMAGE, SETUP_RAMDISK_SIZE in *. split_and!.
  - assert (Hb : ¬ e820_offset ms SETUP_TYPE_OF_LOADER)
      by (unfold e820_offset, BOOT_PARAM_E820_ENTRIES, BOOT_PARAM_E820_TABLE, SETUP_TYPE_OF_LOADER; lia).
    rewrite (S SETUP_TYPE_OF_LOADER), (S2 SETUP_TYPE_OF_LOADER); unfold SETUP_TYPE_OF_LOADER in *; done || lia.
  - apply (e820_map_keep ms zp m2 m4 _ ltac:(lia) S); [|done].
    unfold e820_offset, BOOT_PARAM_E820_ENTRIES, BOOT_PARAM_E820_TABLE. intros o Ho. lia.
  - intros o Ho Hp He Hr. rewrite (S o Ho Hr), (S2 o Ho He). by apply K1.
Qed.

Lemma load_kernel_spec m ms f cmdline initrd alloc m' lctx :
  mem_inv ms → hva_apart ms → Forall is_u8 (contents f) →
  (∀ c, cmdline = Some c → Forall is_u8 c) →
  (∀ rd, initrd = Some (inl rd) → Forall is_u8 (contents rd)) →
  load_kernel m ms f cmdline initrd alloc = (m', inl lctx) →
  lctx = mk_lctx KERNEL_GPA ZERO_PAGE_GPA ∧ boot_memory ms m' f cmdline initrd.
Proof.
  intros I A F Fc Fr. unfold load_kernel. cbv zeta.
  destruct (Z.eqb_spec (Z.of_nat (length (fread f 0 1024))) 1024) as [L|]; cbn [negb]; [|done].
  assert (Eb : fread f 0 1024 = take 1024 (contents f)) by (by apply fread_full).
  assert (Lb : length (take 1024 (contents f)) = 1024%nat) by (rewrite <- Eb; lia). rewrite Eb. clear L Eb.
  destruct (parse_header _) as [h|] eqn:Eh; [|done].
  destruct (parse_header_ranges _ _ (Forall_take _ _ _ F) Eh) as (R1 & R2 & R3 & R4).
  pose proof (find_low_ram_spec ms I) as (Hlow & _).
  destruct (place_runtime h _) as [[rs re]|] eqn:Ep; [|done].
  destruct (place_runtime_spec h _ rs re R1 R2 R3 Hlow Ep) as (P1 & P2 & P3 & P4 & P5).
  destruct (seek_error f 0) as [|]; [done|]. unfold ftell.
  destruct (tell_fails f); [rewrite (proj2 (Z.ltb_lt _ _)) by lia; done|].
  destruct (Z.ltb_spec (file_length f) (setup_size h)); [done|].
  destruct (mem_map_range ms ZERO_PAGE_GPA 4096 true) as [zp|] eqn:Ez; [|done].
  destruct (mem_map_range ms CMDLINE_GPA 4096 true) as [cp|] eqn:Ec; [|done].
  destruct (range_page ms I ZERO_PAGE_GPA 4096 _ ltac:(done) ltac:(done) Ez) as (Mz & Hz).
  destruct (range_page ms I CMDLINE_GPA 4096 _ ltac:(done) ltac:(done) Ec) as (Mc & Hc).
  destruct (write_boot_params_spec ms I A zp cp Mz Hz Mc Hc m _ cmdline Lb Fc) as (_ & C1).
  destruct (write_boot_params_page ms I A zp cp Mz Hz Mc Hc m _ cmdline Lb (Forall_take _ _ _ F)) as (Y1 & K1).
  setoid_rewrite header_byte_take in K1.
  set (m1 := write_boot_params _ _ _ _ _) in *. clearbody m1.
  destruct (linux_x86_e820_table_build m1 ms zp) as [m2 r2] eqn:E2. destruct (r2 <? 0) eqn:Rt; [done|].
  pose proof (e820_build_cmdline ms I A zp Mz Hz Mc m1 m2 r2 cmdline E2 C1) as C2.
  destruct (seek_error f 1) as [|]; [done|]. set (n := file_length f - setup_size h).
  destruct (Z.ltb_spec (find_low_ram ms) (KERNEL_GPA + n)) as [|Hn]; [done|].
  destruct (load_stream m2 ms f _ KERNEL_GPA n) as [m3 r3] eqn:E3. destruct (r3 <? 0) eqn:R; [done|].
  assert (Hn0 : 0 ≤ n) by lia.
  assert (r3 = 0) as ->.
  { apply (load_stream_ret ms I m2 m3 f (setup_size h) KERNEL_GPA n r3);
      [lia|unfold KERNEL_GPA; lia|lia|unfold UINT64_MAX; lia|done..]. }
  set (limit := if _ <? initrd_max h + 1 then _ else _).
  assert (El : limit = Z.min (find_low_ram ms) (initrd_max h + 1)).
  { unfold limit. destruct (Z.ltb_spec (find_low_ram ms) (initrd_max h + 1)); lia. }
  destruct (match initrd with Some file => _ | None => _ end) as [m4 [|]] eqn:E4; [done|].
  destruct alloc; cbn [negb]; [|done]. intros Em. injection Em as <- <-. split; [done|].
  destruct (load_files_spec ms I A zp Mz Hz Mc m2 m3 m4 f (setup_size h) n cmdline initrd limit re)
    as (S & C4 & Pg & Si); [lia..|done|done|done|done|done|].
  pose proof (boot_params_loaded ms zp m1 m2 m4 r2 f (bool_decide (initrd ≠ None)) I Y1 K1 E2 Rt) as Bp.
  exists h, zp, rs, re. split; [done|]. split; [done|]. split; [by split_and!|]. cbv zeta.
  assert (Ln : Z.of_nat (length (drop (Z.to_nat (setup_size h)) (contents f))) = n).
  { rewrite length_drop. unfold n, file_length in *. lia. }
  rewrite Ln, <- El. split; [done|]. split; [rewrite S; apply take_ge; lia|]. split; [done|]. split; [|done].
  apply Bp. intros o Ho Hb. apply Pg; [done|]. by rewrite bool_decide_eq_true in Hb.
Qed.

(** What loading needs: a readable kernel file with a valid header, room for
    it and for its ramdisk in low RAM, the two pages, and a memory map that
    fits. *)
Definition bootable (ms : mem_space) (kernel : FILE + Z) (initrd : option (FILE + Z)) : Prop :=
  let low := find_low_ram ms in
  ∃ f h runtime_start runtime_end,
    kernel = inl f ∧ readable_file f ∧ 1024 ≤ file_length f ∧
    parse_header (take 1024 (contents f)) = inl h ∧ setup_size h ≤ file_length f ∧
    place_runtime h low = inl (runtime_start, runtime_end) ∧
    is_Some (mem_map_range ms ZERO_PAGE_GPA 4096 true) ∧ is_Some (mem_map_range ms CMDLINE_GPA 4096 true) ∧
    (length (regions ms) ≤ 128)%nat ∧
    KERNEL_GPA + (file_length f - setup_size h) ≤ low ∧
    match initrd with
    | Some file => ∃ rd g, file = inl rd ∧ readable_file rd ∧ 0 < file_length rd ∧
        place_initrd (Z.min low (initrd_max h + 1)) (file_length rd) runtime_end
          (file_length f - setup_size h) = inl g
    | None => True
    end.

Lemma e820_build_ret m ms zp :
  (length (regions ms) ≤ 128)%nat → (linux_x86_e820_table_build m ms zp).2 = 0.
Proof.
  intros Hl. unfold linux_x86_e820_table_build.
  pose proof (e820_loop_spec (regions ms) [] ltac:(done)) as L. cbn [length Nat.add] in L.
  destruct (e820_loop (regions ms) []) as [t ret].
  destruct (Z.leb_spec (Z.of_nat (length (regions ms))) 128); [|lia]. by destruct L as (-> & _).
Qed.

Lemma load_initrd_complete m ms rd g limit re payload zp :
  mem_inv ms → readable_file rd → 0 < file_length rd → 0 ≤ payload → limit ≤ find_low_ram ms →
  place_initrd limit (file_length rd) re payload = inl g →
  ∃ m', load_initrd m ms (inl rd) limit re payload zp = (m', None).
Proof.
  intros I R Hl Hp Hlim Pl. unfold load_initrd, ftell. pose proof R as (_ & -> & -> & ->).
  destruct (Z.leb_spec (file_length rd) 0); [lia|]. rewrite Pl.
  apply place_initrd_spec in Pl as (_ & P2 & P3 & _ & P5); [|lia].
  destruct (find_low_ram_spec ms I) as (Hlow & U & _).
  destruct (load_stream_complete ms I m rd 0 g (file_length rd)) as (m1 & ->);
    [done|lia|lia|lia|unfold UINT64_MAX; lia|lia| |by eexists].
  apply usable_mapped. intros a Ha. apply U. lia.
Qed.

Lemma load_kernel_complete m ms f cmdline initrd :
  mem_inv ms → Forall is_u8 (contents f) → bootable ms (inl f) initrd →
  ∃ m' lctx, load_kernel m ms f cmdline initrd true = (m', inl lctx).
Proof.
  intros I F (f' & h & rs & re & Ef & R & Lf & Eh & Hs & Ep & (zp & Ez) & (cp & Ec) & Hr & Hk & Hi).
  injection Ef as <-. unfold load_kernel, ftell. cbv zeta.
  pose proof (length_fread f 0 1024 R ltac:(lia) ltac:(lia) ltac:(lia)) as L.
  rewrite L. cbn [Z.eqb Pos.eqb negb]. rewrite (fread_full f 0 1024 ltac:(lia) L).
  change (take _ (drop _ (contents f))) with (take 1024 (contents f)). rewrite Eh, Ep.
  destruct (parse_header_ranges _ _ (Forall_take _ _ _ F) Eh) as (_ & _ & _ & R4).
  destruct (find_low_ram_spec ms I) as (Hlow & U & _).
  pose proof R as (_ & -> & -> & ->). destruct (Z.ltb_spec (file_length f) (setup_size h)); [lia|].
  rewrite Ez, Ec. set (m1 := write_boot_params _ _ _ _ _). clearbody m1.
  pose proof (e820_build_ret m1 ms zp Hr) as E2.
  destruct (linux_x86_e820_table_build m1 ms zp) as [m2 r2]. cbn [snd] in E2. subst r2. cbn [Z.ltb Z.compare].
  destruct (Z.ltb_spec (find_low_ram ms) (KERNEL_GPA + (file_length f - setup_size h))); [lia|].
  destruct (load_stream_complete ms I m2 f (setup_size h) KERNEL_GPA (file_length f - setup_size h))
    as (m3 & E3); [done|lia|unfold KERNEL_GPA; lia|lia|unfold UINT64_MAX; lia|lia| |].
  { apply usable_mapped. intros a Ha. apply U. lia. }
  rewrite E3. cbn [Z.ltb Z.compare]. destruct initrd as [file|]; [|by do 2 eexists].
  destruct Hi as (rd & g & -> & Rr & Hl & Pl).
  set (limit := if _ <? initrd_max h + 1 then _ else _).
  assert (El : limit = Z.min (find_low_ram ms) (initrd_max h + 1)).
  { unfold limit. destruct (Z.ltb_spec (find_low_ram ms) (initrd_max h + 1)); lia. }
  rewrite <- El in Pl.
  destruct (load_initrd_complete m3 ms rd g limit re (file_length f - setup_size h) zp) as (m4 & ->);
    [done|done|lia|lia|lia|done|by do 2 eexists].
Qed.

(** A kernel that can boot boots with what its user gave.  Loading fails
    only if the options name no kernel, memory runs out, a file cannot be
    read, or the kernel is not bootable on this machine.  When it succeeds the
    entry point is the payload of the kernel file, which is in the guest's
    memory at 1 MiB, below the end of the usable RAM that starts there; the
    region the kernel will decompress itself into lies in that RAM too,
    aligned if the kernel is relocatable.  The command line is on its page,
    NUL-terminated, with its pointer in the boot parameters.  The ramdisk, if
    one is named, is in memory byte for byte, page-aligned, above both the
    payload and the decompression region and below both the end of RAM and the
    header's limit, with its address and size in the boot parameters.  The other
    boot parameters are the memory map, the loader's type and the setup header. *)
Theorem linux_load_spec m ms opts fopen allocs :
  mem_inv ms → hva_apart ms → Forall is_u8 (default [] opts) →
  (∀ path f, fopen path = inl f → Forall is_u8 (contents f)) →
  let '(m', r) := linux_loader_load m ms opts fopen allocs in
  match r with
  | inl lctx =>
      lctx = mk_lctx KERNEL_GPA ZERO_PAGE_GPA ∧
      (∀ a, KERNEL_GPA ≤ a < find_low_ram ms → usable_byte ms a) ∧
      ∃ kernel_path cmdline initrd_path f,
        parse_options opts allocs = inl (Some kernel_path, cmdline, initrd_path) ∧
        fopen kernel_path = inl f ∧ boot_memory ms m' f cmdline (fopen <$> initrd_path)
  | inr _ =>
      ∀ kernel_path cmdline initrd_path,
        parse_options opts allocs = inl (Some kernel_path, cmdline, initrd_path) → allocs 4%nat = true →
        ¬ bootable ms (fopen kernel_path) (fopen <$> initrd_path)
  end.
Proof.
  intros I A Fo Ff. unfold linux_loader_load.
  destruct (parse_options opts allocs) as [[[[k|] c] i]|] eqn:Eo; [|by intros ???..].
  destruct (fopen k) as [f|] eqn:Ef.
  2: { intros ??? [= <- <- <-] _ (f & ? & ? & ? & E & _). by rewrite Ef in E. }
  pose proof (load_kernel_complete m ms f c (fopen <$> i) I (Ff k f Ef)) as Co.
  pose proof (load_kernel_spec m ms f c (fopen <$> i) (allocs 4%nat)) as Sp.
  destruct (load_kernel m ms f c (fopen <$> i) (allocs 4%nat)) as [m' [lctx|e]] eqn:El.
  - destruct (Sp m' lctx I A) as (-> & B); [by eapply Ff| | |done|].
    + intros c' ->. by eapply parse_options_u8.
    + intros rd Hrd. destruct i as [i|]; [|done]. injection Hrd as Hrd. by eapply Ff.
    + split; [done|]. split; [apply (find_low_ram_spec ms I)|]. by exists k, c, i, f.
  - intros ??? [= <- <- <-] Ha Bo. rewrite Ef in Bo. rewrite Ha in El.
    destruct (Co Bo) as (m2 & l2 & E2). by rewrite El in E2.
Qed.

(** ** A small machine and a small kernel *)

(** 2 MiB of RAM in two pieces and a reserved page. *)
Definition example_guest : mem_space :=
  mk_space [mk_ram 0x180000 0x80000 0x10000000 0; mk_ram 0 0x180000 0x700000 0;
            mk_ram 0xfee00000 0x1000 0x20000000 MEM_RESERVED] 0x201000 0x1000.

(** A relocatable kernel of protocol 2.15 with one setup sector. *)
Definition example_bzimage : FILE :=
  let h := replicate 1024 0 in
  let h := put_le h SETUP_SECTS_OFFSET 1 1 in
  let h := put_le h SETUP_MAGIC_OFFSET 4 LINUX_MAGIC_HDR in
  let h := put_le h SETUP_VERSION 2 0x020f in
  let h := put_le h SETUP_INITRD_ADDR_MAX 4 0x7fffffff in
  let h := put_le h SETUP_KERNEL_ALIGNMENT 4 0x20000 in
  let h := put_le h SETUP_RELOCATABLE 1 1 in
  let h := put_le h SETUP_PREF_ADDRESS 8 0x110000 in
  let h := put_le h SETUP_INIT_SIZE 4 0x8000 in
  mk_file (h ++ [0xfc; 0x0f; 0x01]) 2048 (fun _ => None) false.

Definition example_ramdisk : FILE := mk_file [0x1f; 0x8b] 2 (fun _ => None) false.

(** "kernel=k,initrd=r,append=ro,debug". *)
Definition example_options : str :=
  key_kernel ++ [EQUALS; 107; COMMA] ++ key_initrd ++ [EQUALS; 114; COMMA] ++ key_append
    ++ [114; 111; COMMA; 100; 101; 98; 117; 103].

Definition example_fopen (path : str) : FILE + Z :=
  if bool_decide (path = [107]) then inl example_bzimage
  else if bool_decide (path = [114]) then inl example_ramdisk else inr VM_ENOENT.

Lemma example_guest_inv : mem_inv example_guest.
Proof.
  split; cbn [regions host_page_size total_ram example_guest].
  - rewrite !Forall_cons. unfold span_ok. simpl. split_and!; done || lia.
  - rewrite !Forall_cons. simpl. split_and!; done.
  - repeat apply FOP_cons; rewrite ?Forall_cons; [..|apply FOP_nil]; unfold ram_apart, apart; simpl;
      split_and?; done || lia.
  - done.
  - done.
Qed.

Lemma example_guest_apart : hva_apart example_guest.
Proof.
  unfold hva_apart. cbn [regions example_guest].
  repeat apply FOP_cons; rewrite ?Forall_cons; [..|apply FOP_nil]; unfold apart; simpl; split_and?; done || lia.
Qed.

Lemma linux_e820_table_witness :
  mem_inv example_guest ∧
  e820_map example_guest 0x790000 (linux_x86_e820_table_build ∅ example_guest 0x790000).1.
Proof.
  split; [exact example_guest_inv|].
  pose proof (linux_e820_table ∅ example_guest 0x790000 example_guest_inv) as H.
  destruct (linux_x86_e820_table_build ∅ example_guest 0x790000) as [m' ret].
  destruct H as (_ & H & _). exact H.
Defined.

Lemma linux_load_witness :
  let r := linux_loader_load ∅ example_guest (Some example_options) example_fopen (fun _ => true) in
  r.2 = inl (mk_lctx KERNEL_GPA ZERO_PAGE_GPA) ∧
  boot_memory example_guest r.1 example_bzimage (Some [114; 111; COMMA; 100; 101; 98; 117; 103])
    (Some (inl example_ramdisk)).
Proof.
  intros r. assert (E : r.2 = inl (mk_lctx KERNEL_GPA ZERO_PAGE_GPA)) by (vm_compute; reflexivity).
  split; [exact E|].
  pose proof (linux_load_spec ∅ example_guest (Some example_options) example_fopen (fun _ => true)
    example_guest_inv example_guest_apart) as S. fold r in S.
  destruct r as [m' r2]. cbn [fst snd] in *. subst r2. destruct S as (_ & _ & k & c & i & f & P & O & B).
  - apply (bool_decide_unpack _). vm_compute. exact I.
  - intros path f. unfold example_fopen. repeat case_bool_decide; intros [= <-];
      apply (bool_decide_unpack _); vm_compute; exact I.
  - assert (Po : parse_options (Some example_options) (fun _ => true) =
      inl (Some [107], Some [114; 111; COMMA; 100; 101; 98; 117; 103], Some [114])) by (vm_compute; reflexivity).
    rewrite Po in P. injection P as <- <- <-. injection O as <-. exact B.
Defined.

End Linux.
