(* ===== verification/Boot.v ===== *)
(** * Booting (src/core/loader.c, src/loader/image.c, raw_x86.c, linux_x86.c,
    src/hw/board/x86_64/pc.c: pc_boot)

    [vm_run] asks the board to boot; the board runs the loader that was chosen by
    name.  A loader puts an image into guest memory and then sets the registers
    of the first processor; what it keeps for itself belongs to the machine.  The
    theorems follow a boot from the loader's name to the state the guest starts
    in, for both loaders. *)

From S2P Require Import Prelude ResPool HostMem Topology Cmdline Registry Host KvmRegs LinuxLoader.

Module Boot.
Import Space Cmdline Linux Host Regs.

(** ** The raw image loader *)

Definition loader_load_raw (m : hmem) (ms : mem_space) (file : FILE + Z) (gpa : Z) : hmem * Z :=
  match file with
  | inr error => (m, - error)
  | inl fp =>
      match seek_error fp 0%nat with
      | Some _ => (m, - VM_EIO)
      | None =>
          let size := ftell fp in
          if size <=? 0 then (m, - VM_EINVAL)
          else
            match mem_map_range ms gpa size true with
            | None => (m, - VM_EFAULT)
            | Some hva =>
                let bs := fread fp 0 size in
                let m := hm_write m hva bs in
                if negb (Z.of_nat (length bs) =? size) then (m, - VM_EIO) else (m, 0)
            end
      end
  end.

(** ** Loaders *)

Section Loader.
Context `{HostErrors} {K R : Type} `{!KvmVcpuFd K R}.

(** What a loader works on: guest memory and the first processor. *)
Record guest : Type := mk_guest { g_mem : hmem; g_cpu : K }.

(** struct loader_desc without its name: [load] gives the value stored through
    [out_priv], if any; [destroy] may be missing. *)
Record loader_ops : Type := mk_loader {
  load : guest → str → guest * Z * option linux_loader_ctx;
  setup_bsp : guest → option linux_loader_ctx → guest * Z;
  has_destroy : bool;
}.

(** struct loader_instance_ctx. *)
Record loader_instance_ctx : Type := mk_inst { i_destroy : bool; i_priv : option linux_loader_ctx }.

Inductive cleanup : Type := loader_instance_cleanup.
#[export] Instance cleanup_eq : EqDecision cleanup.
Proof. solve_decision. Defined.

(** What the cleanup of an instance destroys. *)
Definition run_cleanup (inst : loader_instance_ctx) : list linux_loader_ctx :=
  if i_destroy inst then match i_priv inst with Some p => [p] | None => [] end else [].

(** The guest, the pool of the machine and the instances in it. *)
Record booting : Type := mk_boot {
  b_guest : guest;
  b_pool : ResPool.res_pool (Fn := cleanup);
  b_insts : gmap Z loader_instance_ctx;
}.

Definition sizeof_loader_instance_ctx : Z := 16.

(** [vcpus] says that the first processor exists. *)
Definition loader_execute (descs : list (Reg.desc loader_ops)) (vcpus : bool) (s : booting) (name opts : option str)
    (alloc1 alloc2 : option Z) : booting * Z :=
  match name, opts, vcpus with
  | Some n, Some o, true =>
      match Reg.lookup descs (Some n) with
      | None => (s, - VM_ENOENT)
      | Some desc =>
          let ops := Reg.d_ops desc in
          match ResPool.res_zalloc (Some (b_pool s)) sizeof_loader_instance_ctx alloc1 with
          | (pool, None) => (mk_boot (b_guest s) (default (b_pool s) pool) (b_insts s), - VM_ENOMEM)
          | (pool, Some inst) =>
              let s := mk_boot (b_guest s) (default (b_pool s) pool) (<[inst := mk_inst (has_destroy ops) None]> (b_insts s)) in
              let '(pool, ret, _) :=
                ResPool.res_add_action_or_reset (Some (b_pool s)) (Some loader_instance_cleanup) inst alloc2 in
              let s := mk_boot (b_guest s) (default (b_pool s) pool) (b_insts s) in
              if ret <? 0 then (s, ret)
              else
                let '(g, ret, priv) := load ops (b_guest s) o in
                let s := mk_boot g (b_pool s) (<[inst := mk_inst (has_destroy ops) priv]> (b_insts s)) in
                if ret <? 0 then (s, ret)
                else
                  let '(g, ret) := setup_bsp ops (b_guest s) priv in
                  let s := mk_boot g (b_pool s) (b_insts s) in
                  if ret <? 0 then (s, ret) else (s, 0)
          end
      end
  | _, _, _ => (s, - VM_EINVAL)
  end.

Definition pc_boot (descs : list (Reg.desc loader_ops)) (vcpus : bool) (s : booting) (loader_name loader_opts : option str)
    (alloc1 alloc2 : option Z) : booting * Z :=
  match loader_name, loader_opts with
  | Some n, Some o =>
      let '(s, ret) := loader_execute descs vcpus s (Some n) (Some o) alloc1 alloc2 in
      if ret <? 0 then (s, ret) else (s, 0)
  | _, _ => (s, - VM_ENOENT)
  end.

(** ** The two loaders *)

Section Images.
(** The machine's memory, and the files of the host. *)
Variable ms : mem_space.
Variable fopen : str → FILE + Z.
Variable allocs : nat → bool.

Definition raw_loader_load (g : guest) (opts : str) : guest * Z * option linux_loader_ctx :=
  match opts with
  | [] => (g, - VM_EINVAL, None)
  | _ =>
      let '(m, ret) := loader_load_raw (g_mem g) ms (fopen opts) 0 in
      (mk_guest m (g_cpu g), ret, None)
  end.

Definition raw_desc : loader_ops :=
  mk_loader raw_loader_load
    (fun g _ => let '(k, ret) := raw_loader_setup_bsp (g_cpu g) in (mk_guest (g_mem g) k, ret)) false.

(** The Linux loader publishes its context when everything is in place, and its
    second hook is not called before. *)
Definition linux_desc : loader_ops :=
  mk_loader
    (fun g opts =>
       match linux_loader_load (g_mem g) ms (Some opts) fopen allocs with
       | (m, inl lctx) => (mk_guest m (g_cpu g), 0, Some lctx)
       | (m, inr e) => (mk_guest m (g_cpu g), e, None)
       end)
    (fun g priv =>
       match priv with
       | Some lctx =>
           let '(k, ret) := linux_loader_setup_bsp (g_cpu g) (entry_pc lctx) (zero_page lctx) in
           (mk_guest (g_mem g) k, ret)
       | None => (g, - VM_EINVAL)
       end) true.

(** "raw-x86" and "linux-x86". *)
Definition name_raw : str := [114; 97; 119; 45; 120; 56; 54].
Definition name_linux : str := [108; 105; 110; 117; 120; 45; 120; 56; 54].
Definition loader_descs : list (Reg.desc loader_ops) :=
  [Reg.mk_desc (Some name_linux) linux_desc; Reg.mk_desc (Some name_raw) raw_desc].

(** ** Lemmas: errors are negative *)

(** Host errors are positive codes. *)
Definition files_ok : Prop :=
  (∀ path e, fopen path = inr e → 0 < e) ∧ ∀ path f i e, fopen path = inl f → seek_error f i = Some e → 0 < e.





(** What the raw loader leaves. *)
Lemma raw_load_ok g o :
  mem_inv ms → files_ok → (∀ path f, fopen path = inl f → Forall is_u8 (contents f) ∧ file_length f < 2 ^ 64) →
  let '(g1, r1, priv) := raw_loader_load g o in
  priv = None ∧ g_cpu g1 = g_cpu g ∧
  ((r1 = 0 ∧ ∃ f hva, fopen o = inl f ∧ mem_map_range ms 0 (file_length f) true = Some hva ∧
      hm_read (g_mem g1) hva (file_length f) = contents f) ∨
   (r1 < 0 ∧ ∀ f hva, o ≠ [] → fopen o = inl f → readable_file f → 0 < file_length f →
      mem_map_range ms 0 (file_length f) true ≠ Some hva)).
Proof.
  intros I [F1 F2] Ff. unfold raw_loader_load. destruct o as [|c o]; [split_and!; [done..|right]; done|].
  unfold loader_load_raw. destruct (fopen (c :: o)) as [f|x] eqn:Ef.
  2: { split_and!; [done..|right]. specialize (F1 _ _ Ef). split; [lia|done]. }
  destruct (seek_error f 0%nat) as [x|] eqn:E0.
  { split_and!; [done..|right]. split; [done|]. intros f' hva _ [= <-] (_ & R0 & _). congruence. }
  cbv zeta. unfold ftell. destruct (tell_fails f) eqn:Et.
  { split_and!; [done..|right]. split; [done|]. intros f' hva _ [= <-] (_ & _ & _ & Rt). congruence. }
  destruct (Z.leb_spec (file_length f) 0) as [Hs|Hs].
  { split_and!; [done..|right]. split; [done|]. intros f' hva _ [= <-] _. lia. }
  destruct (Ff _ f Ef) as [F8 Fl].
  destruct (mem_map_range ms 0 (file_length f) true) as [hva|] eqn:Em.
  2: { split_and!; [done..|right]. split; [done|]. intros f' hva _ [= <-]. by rewrite Em. }
  destruct (Z.eqb_spec (Z.of_nat (length (fread f 0 (file_length f)))) (file_length f)) as [El|El]; cbn [negb].
  - split_and!; [done..|left]. split; [done|]. exists f, hva. split_and!; [done..|]. cbn [g_mem].
    assert (Ec : fread f 0 (file_length f) = contents f).
    { rewrite fread_full by done. unfold file_length. rewrite Nat2Z.id, drop_0. by apply take_ge. }
    rewrite Ec. unfold file_length. by apply hm_read_write.
  - split_and!; [done..|right]. split; [done|]. intros f' h _ [= <-] Rd _ _. apply El.
    apply length_fread; [done|lia..].
Qed.

(** ** Lemmas: running a loader *)

(** The pool can take an instance. *)
Definition pool_ready (s : booting) (alloc : option Z) : Prop :=
  ResPool.pool_inv (b_pool s) ∧ ResPool.releasing (b_pool s) = false ∧
  ∀ a, alloc = Some a → (loader_instance_cleanup, ResPool.node_data a) ∉ ResPool.obligations (b_pool s).

(** What [loader_execute] does with the loader it found, if there is memory. *)
Inductive executed (s : booting) (ops : loader_ops) (o : str) (memory : Prop) : booting → Z → Prop :=
| ex_memory s' :
    ¬ memory →
    b_guest s' = b_guest s → ResPool.obligations (b_pool s') = ResPool.obligations (b_pool s) →
    executed s ops o memory s' (- VM_ENOMEM)
| ex_ran s' inst g1 r1 priv ret :
    load ops (b_guest s) o = (g1, r1, priv) → ResPool.pool_inv (b_pool s') →
    ResPool.obligations (b_pool s') = ResPool.obligations (b_pool s) ++ [(loader_instance_cleanup, inst)] →
    b_insts s' !! inst = Some (mk_inst (has_destroy ops) priv) →
    (b_guest s', ret) = (if r1 <? 0 then (g1, r1)
                         else let '(g2, r2) := setup_bsp ops g1 priv in (g2, if r2 <? 0 then r2 else 0)) →
    executed s ops o memory s' ret.

Lemma loader_execute_ran descs s n o desc alloc1 alloc2 :
  pool_ready s alloc1 → Reg.lookup descs (Some n) = Some desc →
  let '(s', ret) := loader_execute descs true s (Some n) (Some o) alloc1 alloc2 in
  executed s (Reg.d_ops desc) o (alloc1 ≠ None ∧ alloc2 ≠ None) s' ret.
Proof.
  intros (I & Hr & Fr) E. unfold loader_execute. rewrite E. unfold ResPool.res_zalloc. rewrite Hr.
  change (false || (sizeof_loader_instance_ctx =? 0) || (SIZE_MAX - ResPool.sizeof_res_node <? sizeof_loader_instance_ctx)) with false.
  cbv iota. destruct alloc1 as [a|]; [|by apply ex_memory; [intros []|..]]. specialize (Fr a eq_refl). unfold default, id.
  set (pool := b_pool s <| ResPool.resources := _ |>).
  assert (Ip : ResPool.pool_inv pool) by (by apply ResPool.pool_inv_snoc).
  assert (Op : ResPool.obligations pool = ResPool.obligations (b_pool s)).
  { unfold pool. rewrite ResPool.obligations_snoc. simpl. by rewrite app_nil_r. }
  assert (Rp : ResPool.releasing pool = false) by done.
  cbn [b_pool b_guest b_insts]. clearbody pool.
  unfold ResPool.res_add_action_or_reset, ResPool.res_add_action. rewrite Rp.
  destruct (existsb _ _) eqn:Ex.
  { destruct Fr. rewrite <- Op. apply existsb_exists in Ex as (nd & Hin & Ho%ResPool.node_is_spec). unfold ResPool.obligations.
    rewrite list_elem_of_omap. exists nd. split; [by apply list_elem_of_In|done]. }
  apply ResPool.existsb_obligations in Ex. destruct alloc2 as [a2|]; simpl; [|by apply ex_memory; [intros []|..]].
  destruct (load (Reg.d_ops desc) (b_guest s) o) as [[g1 r1] priv] eqn:El.
  set (pool2 := pool <| ResPool.resources := _ |>).
  assert (Ip2 : ResPool.pool_inv pool2) by (apply ResPool.pool_inv_snoc; [done..|]; by intros x [= <-]).
  assert (Op2 : ResPool.obligations pool2 = ResPool.obligations (b_pool s) ++ [(loader_instance_cleanup, ResPool.node_data a)]).
  { rewrite <- Op. apply (ResPool.obligations_snoc pool). }
  clearbody pool2. cbn [b_pool b_guest b_insts].
  destruct (r1 <? 0) eqn:Er; [|destruct (setup_bsp (Reg.d_ops desc) g1 priv) as [g2 r2] eqn:Es; destruct (r2 <? 0) eqn:Er2].
  all: eapply ex_ran; [exact El|exact Ip2|exact Op2|apply lookup_insert_eq|]; rewrite Er, ?Es, ?Er2; done.
Qed.

(** ** Properties *)

Context `{!KvmVcpuLaws K R}.

(** The one cleanup that [loader_execute] leaves in the pool, and what it will
    destroy. *)
Definition owns (s s' : booting) (privs : list linux_loader_ctx) : Prop :=
  ∃ inst i, ResPool.obligations (b_pool s') = ResPool.obligations (b_pool s) ++ [(loader_instance_cleanup, inst)] ∧
    b_insts s' !! inst = Some i ∧ run_cleanup i = privs.


(** A raw boot.  If [pc_boot] returns 0 for the raw loader, the bytes of the
    file are in guest memory from address zero on, the first processor is in real
    mode with its code segment and instruction pointer at zero, and the loader
    keeps nothing.  It gives up only if memory runs out, the kernel refuses a
    register, or the file cannot be read into the RAM at address zero. *)
Theorem raw_boot_spec s o alloc1 alloc2 :
  mem_inv ms → files_ok → (∀ path f, fopen path = inl f → Forall is_u8 (contents f) ∧ file_length f < 2 ^ 64) →
  pool_ready s alloc1 →
  sregs_kept (raw_bsp_sregs (sregs_unpack (sregs_of (g_cpu (b_guest s))))) →
  let '(s', ret) := pc_boot loader_descs true s (Some name_raw) (Some o) alloc1 alloc2 in
  let k := g_cpu (b_guest s) in let k' := g_cpu (b_guest s') in
  (ret = 0 ∧
   (∃ f hva, fopen o = inl f ∧ mem_map_range ms 0 (file_length f) true = Some hva ∧
      hm_read (g_mem (b_guest s')) hva (file_length f) = contents f) ∧
   base (cs (sregs_unpack (sregs_of k'))) = 0 ∧ selector (cs (sregs_unpack (sregs_of k'))) = 0 ∧
   cr0 (sregs_unpack (sregs_of k')) = cr0 (sregs_unpack (sregs_of k)) ∧
   read_reg (regs_of k') X86_REG_RIP = 0 ∧ read_reg (regs_of k') X86_REG_RFLAGS = 2 ∧ owns s s' []) ∨
  (ret < 0 ∧
   (¬ (alloc1 ≠ None ∧ alloc2 ≠ None) ∨ ¬ kvm_reliable ∨
    ∀ f hva, o ≠ [] → fopen o = inl f → readable_file f → 0 < file_length f →
      mem_map_range ms 0 (file_length f) true ≠ Some hva)).
Proof.
  intros I F Ff P Kept. unfold pc_boot.
  pose proof (loader_execute_ran loader_descs s name_raw o _ alloc1 alloc2 P eq_refl) as X.
  destruct (loader_execute _ _ _ _ _ _ _) as [s' ret]. destruct X as [s' Hm _ _|s' inst g1 r1 priv ret El _ Ob Ei Eg].
  { right. split; [done|]. by left. }
  pose proof (raw_load_ok (b_guest s) o I F Ff) as L. simpl in El. rewrite El in L.
  destruct L as (-> & Ec & [(-> & L)|(Hr & L)]).
  - simpl in Eg. rewrite Ec in Eg. pose proof (raw_bsp_spec (g_cpu (b_guest s)) Kept) as B.
    destruct (raw_loader_setup_bsp _) as [k' r2]. destruct B as [[Hr Hk]|(-> & B1 & B2 & B3 & Rg)].
    + rewrite (proj2 (Z.ltb_lt _ _) Hr) in Eg. injection Eg as Eg ->. rewrite (proj2 (Z.ltb_lt _ _) Hr).
      right. split; [done|]. auto.
    + injection Eg as Eg ->. left. rewrite Eg. cbn [g_mem g_cpu]. split; [done|]. split; [done|].
      do 5 (split; [first [done|by rewrite Rg]|]).
      eexists _, _. split; [exact Ob|]. split; [exact Ei|done].
  - rewrite (proj2 (Z.ltb_lt _ _) Hr) in Eg. injection Eg as _ ->. rewrite (proj2 (Z.ltb_lt _ _) Hr). right. auto.
Qed.

End Images.
End Loader.

(** ** Examples *)

#[local] Existing Instance linux_errors.

Definition example_state : booting := mk_boot (mk_guest ∅ example_cpu) (ResPool.mk_pool 1 [] false) ∅.

Lemma example_pool : pool_ready example_state (Some 0x9000).
Proof. split_and!; [split; constructor|done|]. intros a _. apply not_elem_of_nil. Qed.




(** A program of three bytes: a jump to itself, and a halt. *)
Definition example_program : FILE := mk_file [0xeb; 0xfe; 0xf4] 3 (fun _ => None) false.
Definition example_open (path : str) : FILE + Z := if bool_decide (path = [98]) then inl example_program else inr 2.

Lemma example_open_ok : files_ok example_open.
Proof. split; [intros path e|intros path f i e]; unfold example_open; case_bool_decide; intros; by simplify_eq. Qed.

Lemma raw_boot_spec_witness :
  let r := pc_boot (loader_descs example_guest example_open (fun _ => true)) true example_state
    (Some name_raw) (Some [98]) (Some 0x9000) (Some 0xa000) in
  r.2 = 0 ∧ ∃ f hva, example_open [98] = inl f ∧ mem_map_range example_guest 0 (file_length f) true = Some hva ∧
    hm_read (g_mem (b_guest r.1)) hva (file_length f) = contents f.
Proof.
  intros r. assert (E : r.2 = 0) by (vm_compute; reflexivity). split; [exact E|].
  pose proof (raw_boot_spec example_guest example_open (fun _ => true) example_state [98]
    (Some 0x9000) (Some 0xa000) example_guest_inv example_open_ok) as S. fold r in S.
  destruct r as [s' ret]. cbn [fst snd] in *. subst ret.
  destruct S as [(_ & H & _)|[H _]]; [|exact example_pool|exact I|exact H|lia].
  intros path f. unfold example_open. case_bool_decide; intros [= <-]. split; [|reflexivity].
  apply (bool_decide_unpack _). vm_compute. exact I.
Defined.

End Boot.
