(* ===== verification/Main.v ===== *)
(** * The program (src/main.c)

    The command line is read into the configuration of a machine, creating the
    backends it names on the way; then the machine is built, run and destroyed,
    and the backends are released.  What the other parts answer are parameters:
    the registries with the constructors of the backends, the allocator, and the
    results of [vm_init] and [vm_run]. *)

From S2P Require Import Prelude ResPool Cmdline Registry Host Log.

Module Main.
Import Cmdline Reg.
#[local] Abbreviation bytes := Log.bytes.

Definition MAX_DRIVES_SUPPORTED : Z := 4.
Definition MAX_NETS_SUPPORTED : Z := 4.
Definition EXIT_SUCCESS : Z := 0.
Definition EXIT_FAILURE : Z := 1.
Definition UINT_MAX : Z := 2 ^ 32 - 1.
Definition ULLONG_MAX : Z := 2 ^ 64 - 1.

(** ** Numbers *)

Definition isdigit (c : Z) : bool := (48 <=? c) && (c <=? 57).

(** The digits at the start of a string, as a number, and the rest. *)
Fixpoint scan_digits (acc : Z) (s : str) : Z * str :=
  match s with
  | c :: s' => if isdigit c then scan_digits (10 * acc + (c - 48)) s' else (acc, s)
  | [] => (acc, [])
  end.

(** [strtoull] in base 10 on a string that starts with a digit: the value, the
    rest, and whether [errno] is set. *)
Definition strtoull (s : str) : Z * str * bool :=
  let '(n, rest) := scan_digits 0 s in
  if ULLONG_MAX <? n then (ULLONG_MAX, rest, true) else (n, rest, false).

Definition positive_number (s : str) (limit : Z) : option Z :=
  match s with
  | [] => None
  | c :: _ =>
      if (c <? 48) || (57 <? c) then None
      else
        let '(n, rest, errno) := strtoull s in
        if errno || negb (bool_decide (rest = [])) || (n =? 0) || (limit <? n) then None else Some n
  end.

(** ** The command line *)

(** struct vm_config; backends are known by their addresses, and the board by
    its name until it is looked up. *)
Record vm_config : Type := mk_cfg {
  accel_name : str;
  ram_size : Z;
  nr_vcpus : Z;
  loader_name : str;
  loader_opts : option str;
  board_name : str;
  drives : list Z;
  nets : list Z;
}.

Definition eta_cfg (c : vm_config) : vm_config :=
  mk_cfg (accel_name c) (ram_size c) (nr_vcpus c) (loader_name c) (loader_opts c) (board_name c) (drives c) (nets c).
#[export] Instance set_accel_name : Setter accel_name := ltac:(derive_setter eta_cfg).
#[export] Instance set_ram_size : Setter ram_size := ltac:(derive_setter eta_cfg).
#[export] Instance set_nr_vcpus : Setter nr_vcpus := ltac:(derive_setter eta_cfg).
#[export] Instance set_loader_name : Setter loader_name := ltac:(derive_setter eta_cfg).
#[export] Instance set_loader_opts : Setter loader_opts := ltac:(derive_setter eta_cfg).
#[export] Instance set_board_name : Setter board_name := ltac:(derive_setter eta_cfg).
#[export] Instance set_drives : Setter drives := ltac:(derive_setter eta_cfg).
#[export] Instance set_nets : Setter nets := ltac:(derive_setter eta_cfg).

Definition default_config : vm_config :=
  mk_cfg (bytes "kvm") (16 * 1024 * 1024) 1 (bytes "raw-x86") None (bytes "pc") [] [].

Inductive kind : Type := BlockKind | NetKind | CharKind.

(** What happens, in order: backends come and go, and so does the machine. *)
Inductive step : Type :=
| Backend (e : event)
| VmInit (c : vm_config) (console : Z) (ret : Z)
| VmRun (ret : Z)
| VmDestroy.

(** [backends] is the pool, [calls] counts the backends asked for so far. *)
Record state : Type := mk_state {
  cfg : vm_config;
  backends : ResPool.res_pool (Fn := cleanup);
  calls : nat;
  trace : list step;
}.

(** The answers: the registry of each kind, with what its constructors return to
    the call with a number; the allocator's answer to the cleanup action of that
    call, and whether the driver's name can be copied; the boards; the results of
    building and running the machine. *)
Record answers : Type := mk_answers {
  table : kind → nat → list (desc (option constructor));
  a_node : nat → option Z;
  a_copy : nat → bool;
  boards : list (desc bool);
  a_init : Z;
  a_run : Z;
}.

Section Main.
Variable a : answers.

(** [block_create], [net_create] and [char_create] on the pool. *)
Definition make (k : kind) (name : str) (opts : option str) (s : state) : state * err_ptr Z :=
  let '(owner, r, t) := create_backend (table a k (calls s)) (Some (backends s)) (Some name) opts (a_node a (calls s)) in
  (mk_state (cfg s) (default (backends s) owner) (S (calls s)) (trace s ++ (Backend <$> t)), r).

(** -drive and -net: the backend the option asks for, or [None]. *)
Definition make_option (k : kind) (opts : str) (s : state) : state * option Z :=
  match cmdline_extract_opt (Some opts) (Some (bytes "driver")) (a_copy a (calls s)) with
  | Some (Ptr drv_name) =>
      match make k drv_name (Some opts) s with
      | (s, Ptr b) => (s, Some b)
      | (s, ERR_PTR _) => (s, None)
      end
  | _ => (s, None)
  end.

Definition with_cfg (s : state) (c : vm_config) : state := mk_state c (backends s) (calls s) (trace s).

(** The loop over the arguments: the exit code, if it leaves for the cleanup. *)
Fixpoint parse_args (args : list str) (s : state) : state * option Z :=
  match args with
  | [] => (s, None)
  | arg :: rest =>
      if bool_decide (arg = bytes "-h") then (s, Some EXIT_SUCCESS)
      else
        match rest with
        | [] => (s, Some EXIT_FAILURE)
        | v :: rest =>
            let c := cfg s in
            if bool_decide (arg = bytes "-board") then parse_args rest (with_cfg s (c <| board_name := v |>))
            else if bool_decide (arg = bytes "-m") then
              match positive_number v (SIZE_MAX / (1024 * 1024)) with
              | None => (s, Some EXIT_FAILURE)
              | Some number => parse_args rest (with_cfg s (c <| ram_size := u64 (number * 1024 * 1024) |>))
              end
            else if bool_decide (arg = bytes "-smp") then
              match positive_number v UINT_MAX with
              | None => (s, Some EXIT_FAILURE)
              | Some number => parse_args rest (with_cfg s (c <| nr_vcpus := u32 number |>))
              end
            else if bool_decide (arg = bytes "-accel") then parse_args rest (with_cfg s (c <| accel_name := v |>))
            else if bool_decide (arg = bytes "-loader") then parse_args rest (with_cfg s (c <| loader_name := v |>))
            else if bool_decide (arg = bytes "-loader-opts") then
              parse_args rest (with_cfg s (c <| loader_opts := Some v |>))
            else if bool_decide (arg = bytes "-drive") then
              if MAX_DRIVES_SUPPORTED <=? Z.of_nat (length (drives c)) then (s, Some EXIT_FAILURE)
              else
                match make_option BlockKind v s with
                | (s, None) => (s, Some EXIT_FAILURE)
                | (s, Some b) => parse_args rest (with_cfg s (cfg s <| drives := drives (cfg s) ++ [b] |>))
                end
            else if bool_decide (arg = bytes "-net") then
              if MAX_NETS_SUPPORTED <=? Z.of_nat (length (nets c)) then (s, Some EXIT_FAILURE)
              else
                match make_option NetKind v s with
                | (s, None) => (s, Some EXIT_FAILURE)
                | (s, Some b) => parse_args rest (with_cfg s (cfg s <| nets := nets (cfg s) ++ [b] |>))
                end
            else (s, Some EXIT_FAILURE)
        end
  end.

(** ** The machine *)

Definition log (s : state) (t : list step) : state := mk_state (cfg s) (backends s) (calls s) (trace s ++ t).

(** From the end of the loop to the label out_cleanup_backends. *)
Definition run_machine (s : state) : state * Z :=
  match board_find (boards a) (Some (board_name (cfg s))) with
  | None => (s, EXIT_FAILURE)
  | Some _ =>
      match make CharKind (bytes "posix-stdio") None s with
      | (s, ERR_PTR _) => (s, EXIT_FAILURE)
      | (s, Ptr console) =>
          let s := log s [VmInit (cfg s) console (a_init a)] in
          if a_init a <? 0 then (log s [VmDestroy], EXIT_FAILURE)
          else
            let s := log s [VmRun (a_run a)] in
            if a_run a <? 0 then (log s [VmDestroy], EXIT_FAILURE)
            else (log s [VmDestroy], EXIT_SUCCESS)
      end
  end.

(** What [res_release_all] does to the backends. *)
Definition release (s : state) : option (list step) :=
  match ResPool.res_release_all (fun _ b '(p, t) => (p, t ++ [Backend (Destroyed b)])) (Some (backends s)) (trace s) with
  | Some (ResPool.Released _ t _) => Some t
  | _ => None
  end.

(** The exit code and what happened; [id] is the address of the pool.  [None]
    is a fault in the release. *)
Definition main (id : Z) (argv : list str) : option (Z * list step) :=
  if (length argv =? 1)%nat then Some (EXIT_SUCCESS, [])
  else
    let s := mk_state default_config (ResPool.res_pool_init id) 0 [] in
    let '(s, exit) := parse_args (drop 1 argv) s in
    let '(s, ret) := match exit with Some code => (s, code) | None => run_machine s end in
    t ← release s;
    Some (ret, t).
End Main.

(** ** What numbers are accepted *)

(** The value of decimal digits. *)
Definition value (ds : list Z) : Z := foldl (fun n d => 10 * n + d) 0 ds.
Definition is_digit (d : Z) : Prop := 0 ≤ d ≤ 9.
Definition print_digits (ds : list Z) : str := (fun d => 48 + d) <$> ds.

Lemma isdigit_spec c : isdigit c = true ↔ is_digit (c - 48).
Proof. unfold isdigit, is_digit. rewrite andb_true_iff, !Z.leb_le. lia. Qed.

Lemma scan_digits_print ds : ∀ acc, Forall is_digit ds →
  scan_digits acc (print_digits ds) = (foldl (fun n d => 10 * n + d) acc ds, []).
Proof.
  induction ds as [|d ds IH]; intros acc F; [done|]. apply Forall_cons in F as [Hd F]. cbn [print_digits fmap list_fmap scan_digits foldl].
  rewrite (proj2 (isdigit_spec (48 + d))) by (unfold is_digit in *; lia).
  replace (48 + d - 48) with d by lia. by apply IH.
Qed.

(** A string that is read to its end consists of digits. *)
Lemma scan_digits_all s : ∀ acc n, scan_digits acc s = (n, []) → ∃ ds, s = print_digits ds ∧ Forall is_digit ds.
Proof.
  induction s as [|c s IH]; intros acc n; cbn [scan_digits]; [by exists []|].
  destruct (isdigit c) eqn:Ec; [|done]. intros (ds & -> & F)%IH. exists (c - 48 :: ds). split.
  - cbn. f_equal. lia.
  - constructor; [by apply isdigit_spec|done].
Qed.

(** Numeric arguments: exactly the strings of decimal digits whose value is
    positive and within the limit are accepted, and stand for that value, however
    long they are. *)
Theorem positive_number_spec s limit n :
  limit ≤ ULLONG_MAX →
  (positive_number s limit = Some n ↔
   ∃ ds, ds ≠ [] ∧ s = print_digits ds ∧ Forall is_digit ds ∧ n = value ds ∧ 0 < n ≤ limit).
Proof.
  intros Hl. split.
  - destruct s as [|c s]; [done|]. unfold positive_number, strtoull. destruct (_ || _); [done|].
    destruct (scan_digits 0 (c :: s)) as [m rest] eqn:E. destruct (Z.ltb_spec ULLONG_MAX m); [done|]. cbn [orb].
    destruct (bool_decide_reflect (rest = [])) as [->|]; [|done]. destruct (Z.eqb_spec m 0); [done|].
    destruct (Z.ltb_spec limit m); [done|]. intros [= <-].
    destruct (scan_digits_all _ _ _ E) as (ds & Es & F). rewrite Es, scan_digits_print in E by done. injection E as E.
    exists ds. split_and!; [by intros ->|done|done|done| |lia].
    assert (0 ≤ m); [|lia]. rewrite <- E. clear -F. assert (G : ∀ acc, 0 ≤ acc → 0 ≤ foldl (fun n d => 10 * n + d) acc ds); [|by apply G].
    induction F as [|d ds Hd F IH]; intros acc Ha; [done|]. cbn. apply IH. unfold is_digit in Hd. lia.
  - intros (ds & Hn & -> & F & -> & Hv). destruct ds as [|d ds]; [done|].
    pose proof (scan_digits_print (d :: ds) 0 F) as E. unfold positive_number, strtoull.
    change (print_digits (d :: ds)) with (48 + d :: print_digits ds) in E |- *. rewrite E. fold (value (d :: ds)).
    apply Forall_cons in F as [Hd F]. unfold is_digit in Hd.
    destruct (Z.ltb_spec (48 + d) 48); [lia|]. destruct (Z.ltb_spec 57 (48 + d)); [lia|]. cbn [orb].
    destruct (Z.ltb_spec ULLONG_MAX (value (d :: ds))); [lia|]. cbn [orb]. rewrite bool_decide_true by done.
    destruct (Z.eqb_spec (value (d :: ds)) 0); [lia|]. by destruct (Z.ltb_spec limit (value (d :: ds))); [lia|].
Qed.

(** ** What the options mean *)

(** The options that do not create a backend; numbers as their digits. *)
Inductive flag : Type :=
| FBoard (name : str)
| FMem (ds : list Z)
| FSmp (ds : list Z)
| FAccel (name : str)
| FLoader (name : str)
| FLoaderOpts (opts : str).

Definition flag_args (f : flag) : list str :=
  match f with
  | FBoard n => [bytes "-board"; n]
  | FMem ds => [bytes "-m"; print_digits ds]
  | FSmp ds => [bytes "-smp"; print_digits ds]
  | FAccel n => [bytes "-accel"; n]
  | FLoader n => [bytes "-loader"; n]
  | FLoaderOpts o => [bytes "-loader-opts"; o]
  end.

Definition number_ok (ds : list Z) (limit : Z) : Prop := ds ≠ [] ∧ Forall is_digit ds ∧ 0 < value ds ≤ limit.

Definition flag_ok (f : flag) : Prop :=
  match f with
  | FMem ds => number_ok ds (SIZE_MAX / (1024 * 1024))
  | FSmp ds => number_ok ds UINT_MAX
  | _ => True
  end.

(** The last value given for something, or else the one before. *)
Definition last_of {A} (get : flag → option A) (l : list flag) (d : A) : A := default d (last (omap get l)).

Definition get_board f := match f with FBoard n => Some n | _ => None end.
Definition get_mem f := match f with FMem ds => Some (value ds * 2 ^ 20) | _ => None end.
Definition get_smp f := match f with FSmp ds => Some (value ds) | _ => None end.
Definition get_accel f := match f with FAccel n => Some n | _ => None end.
Definition get_loader f := match f with FLoader n => Some n | _ => None end.
Definition get_loader_opts f := match f with FLoaderOpts o => Some (Some o) | _ => None end.

Definition configured (c : vm_config) (l : list flag) : vm_config :=
  mk_cfg (last_of get_accel l (accel_name c)) (last_of get_mem l (ram_size c)) (last_of get_smp l (nr_vcpus c))
    (last_of get_loader l (loader_name c)) (last_of get_loader_opts l (loader_opts c))
    (last_of get_board l (board_name c)) (drives c) (nets c).

Lemma last_of_cons {A} (get : flag → option A) f l d :
  last_of get (f :: l) d = last_of get l (default d (get f)).
Proof.
  unfold last_of. cbn. destruct (get f) as [x|]; cbn; [|done]. by destruct (omap get l) as [|y k] using rev_ind; [|rewrite app_comm_cons, !last_snoc].
Qed.

(** Which option a name is. *)
Ltac which_option :=
  cbn [parse_args];
  repeat match goal with
  | |- context [bool_decide (Log.bytes ?x = Log.bytes ?y)] =>
      let b := eval vm_compute in (bool_decide (Log.bytes x = Log.bytes y)) in
      change (bool_decide (Log.bytes x = Log.bytes y)) with b; cbv iota
  end.

(** Options in any number and order: the machine is configured with the last
    value of each option, what is not mentioned keeps its value, and the memory is
    the number of megabytes in bytes, which does not overflow. *)
Theorem main_options a s l :
  Forall flag_ok l → parse_args a (l ≫= flag_args) s = (with_cfg s (configured (cfg s) l), None).
Proof.
  intros F. revert s. induction F as [|f l Hf F IH]; intros s; [by destruct s as [[] ? ? ?]|].
  change ((f :: l) ≫= flag_args) with (flag_args f ++ (l ≫= flag_args)).
  assert (Num : ∀ ds limit, limit ≤ ULLONG_MAX → number_ok ds limit → positive_number (print_digits ds) limit = Some (value ds)).
  { intros ds limit Hl (Hn & Hd & Hv). apply positive_number_spec; [done|]. by exists ds. }
  assert (Next : ∀ s', cfg s' = configured (cfg s) [f] → backends s' = backends s → calls s' = calls s → trace s' = trace s →
    parse_args a (l ≫= flag_args) s' = (with_cfg s (configured (cfg s) (f :: l)), None)).
  { intros s' Ec E1 E2 E3. rewrite IH. unfold with_cfg. rewrite E1, E2, E3, Ec. do 2 f_equal.
    unfold configured. cbn [accel_name ram_size nr_vcpus loader_name loader_opts board_name drives nets]. rewrite !last_of_cons. done. }
  destruct f as [n|ds|ds|n|n|o]; cbn [flag_args app]; which_option; try (by apply Next).
  - rewrite Num by (done || vm_compute; congruence). apply Next; try done. destruct Hf as (_ & _ & Hv).
    unfold configured, last_of, update, set_ram_size. cbn. f_equal. unfold SIZE_MAX in Hv. rewrite u64_small; [lia|]. unfold is_u64.
    pose proof (Z.mul_div_le (2 ^ 64 - 1) (1024 * 1024)). lia.
  - rewrite Num by (done || vm_compute; congruence). apply Next; try done. destruct Hf as (_ & _ & Hv).
    unfold configured, last_of, update, set_nr_vcpus. cbn. f_equal. apply u32_small. unfold is_u32, UINT_MAX in *. lia.
Qed.

(** ** Everything is undone *)

Section Unwind.
Variable a : answers.
(** The address of the backend that a call creates. *)
Variable addr : nat → Z.

(** The registries were filled by registering, and all backends live at
    addresses of their own. *)
Record answers_ok : Prop := {
  ok_inj : Inj eq eq addr;
  ok_tables k n : filled MAX_BLOCK_DESCS has_create (table a k n);
  ok_fresh k n d create o b : d ∈ table a k n → d_ops d = Some create → create o = Ptr b → b = addr n;
}.
Hypothesis Ok : answers_ok.

Definition created (bs : list Z) : list step := (fun b => Backend (Created b)) <$> bs.
Definition destroyed (bs : list Z) : list step := (fun b => Backend (Destroyed b)) <$> bs.

(** A backend that is created and, since the pool cannot take it, destroyed. *)
Definition lost (t : list step) : Prop := t = [] ∨ ∃ b, t = [Backend (Created b); Backend (Destroyed b)].

(** The pool owns these backends. *)
Record owns (s : state) (bs : list Z) : Prop := {
  o_inv : ResPool.pool_inv (backends s);
  o_open : ResPool.releasing (backends s) = false;
  o_backends : ResPool.obligations (backends s) = (fun b => (backend_cleanup, b)) <$> bs;
  o_addr : Forall (fun b => ∃ i, (i < calls s)%nat ∧ b = addr i) bs;
  o_nodes : (length (ResPool.resources (backends s)) ≤ calls s)%nat;
}.

Lemma obligation_new bs n : Forall (fun b => ∃ i, (i < n)%nat ∧ b = addr i) bs → addr n ∉ bs.
Proof. intros F Hn. rewrite Forall_forall in F. destruct (F _ Hn) as (i & Hi & E). apply (ok_inj Ok) in E. lia. Qed.

Lemma create_nodes l p name opts alloc :
  let '(owner, _, _) := create_backend l (Some p) name opts alloc in
  ∃ p', owner = Some p' ∧ ResPool.releasing p' = ResPool.releasing p ∧
    (length (ResPool.resources p') ≤ S (length (ResPool.resources p)))%nat.
Proof.
  assert (Same : ∃ p', Some p = Some p' ∧ ResPool.releasing p' = ResPool.releasing p ∧
    (length (ResPool.resources p') ≤ S (length (ResPool.resources p)))%nat) by (exists p; split_and!; [done..|lia]).
  unfold create_backend. destruct name as [n|]; [|done]. destruct (find _ l) as [d|]; [|done].
  destruct (d_ops d) as [create|]; [|done]. destruct (create opts) as [b|e]; [|done].
  unfold ResPool.res_add_action_or_reset, ResPool.res_add_action.
  destruct (ResPool.releasing p) eqn:R; [done|]. destruct (existsb _ _); [done|]. destruct alloc as [x|]; [|done].
  cbn. eexists. split; [reflexivity|]. split; [done|]. cbn. rewrite length_app. cbn. lia.
Qed.

Lemma make_spec k name opts s bs :
  owns s bs →
  let '(s', r) := make a k name opts s in
  cfg s' = cfg s ∧ calls s' = S (calls s) ∧
  match r with
  | Ptr b => owns s' (bs ++ [b]) ∧ trace s' = trace s ++ created [b]
  | ERR_PTR _ => owns s' bs ∧ ∃ t, lost t ∧ trace s' = trace s ++ t
  end.
Proof.
  intros [I R Eo F Hn]. unfold make.
  assert (Fresh : ∀ d create o b, d ∈ table a k (calls s) → d_ops d = Some create → create o = Ptr b →
    (backend_cleanup, b) ∉ ResPool.obligations (backends s)).
  { intros d create o b Hd Ed Eb. rewrite (ok_fresh Ok _ _ _ _ _ _ Hd Ed Eb), Eo.
    intros (b' & [= <-] & Hb)%list_elem_of_fmap. by apply (obligation_new bs (calls s)). }
  pose proof (backend_create_spec MAX_BLOCK_DESCS _ (backends s) (Some name) opts (a_node a (calls s))
    ltac:(vm_compute; congruence) (ok_tables Ok k (calls s)) I R Fresh) as C.
  pose proof (create_nodes (table a k (calls s)) (backends s) (Some name) opts (a_node a (calls s))) as N.
  assert (B : ∀ b, (create_backend (table a k (calls s)) (Some (backends s)) (Some name) opts (a_node a (calls s))).1.2 = Ptr b →
    b = addr (calls s)).
  { clear -Ok. intros b. unfold create_backend. destruct (find _ _) as [d|] eqn:Ef; [|done].
    apply find_Some_elem in Ef as [Hd _]. destruct (d_ops d) as [create|] eqn:Ed; [|done].
    destruct (create opts) as [b'|] eqn:Eb; [|done]. destruct (ResPool.res_add_action_or_reset _ _ _ _) as [[o ret] z].
    destruct (ret <? 0); [done|]. intros [= <-]. by eapply (ok_fresh Ok). }
  destruct (create_backend _ _ _ _ _) as [[owner r] t]. destruct N as (p & -> & Rp & Np). destruct C as [C _]. cbn [default].
  split; [done|]. split; [done|].
  assert (Older : ∀ l, Forall (fun b => ∃ i, (i < calls s)%nat ∧ b = addr i) l → Forall (fun b => ∃ i, (i < S (calls s))%nat ∧ b = addr i) l).
  { intros l Fl. eapply Forall_impl; [exact Fl|]. intros b (i & Hi & E). exists i. split; [lia|done]. }
  destruct r as [b|e].
  - destruct C as (-> & p' & [= <-] & I' & Eo'). split; [|done]. split; cbn; [done|by rewrite Rp| | |lia].
    + rewrite Eo', Eo, fmap_app. done.
    + apply Forall_app. split; [by apply Older|]. apply Forall_singleton. exists (calls s). split; [lia|]. by apply B.
  - destruct C as [[= ->] Ht]. split; [split; cbn; [done..|by apply Older|lia]|]. exists (Backend <$> t). split; [|done].
    destruct Ht as [->|[b ->]]; [by left|right; by exists b].
Qed.

(** What the options can configure. *)
Record cfg_ok (c : vm_config) : Prop := {
  c_drives : (length (drives c) ≤ 4)%nat;
  c_nets : (length (nets c) ≤ 4)%nat;
  c_ram : 0 < ram_size c < 2 ^ 64 ∧ ram_size c mod 2 ^ 20 = 0;
  c_vcpus : 0 < nr_vcpus c ≤ UINT_MAX;
}.

(** While the options are read: the backends are those of the configuration. *)
Record reading (s : state) (bs : list Z) : Prop := {
  r_owns : owns s bs;
  r_trace : trace s = created bs;
  r_backends : drives (cfg s) ++ nets (cfg s) ≡ₚ bs;
  r_calls : calls s = length bs;
  r_cfg : cfg_ok (cfg s);
}.

(** After the loop was left for the cleanup. *)
Definition left_early (s : state) (code : Z) : Prop :=
  ∃ bs t, owns s bs ∧ (calls s ≤ 9)%nat ∧ lost t ∧ trace s = created bs ++ t ∧ (t ≠ [] → code = EXIT_FAILURE).

Lemma reading_few s bs : reading s bs → (length bs ≤ 8)%nat.
Proof.
  intros [_ _ P _ [D N _ _]]. rewrite <- (Permutation_length P), length_app. lia.
Qed.

Lemma reading_left s bs code : reading s bs → left_early s code.
Proof.
  intros R. pose proof (reading_few s bs R). destruct R as [O T _ C _]. exists bs, [].
  rewrite app_nil_r. split_and!; [done|lia|by left|done|done].
Qed.

Lemma reading_cfg s bs c :
  reading s bs → drives c = drives (cfg s) → nets c = nets (cfg s) → cfg_ok c → reading (with_cfg s c) bs.
Proof. intros [[] T P C _] Ed En Hc. split; cbn; [by split|done|by rewrite Ed, En|done|done]. Qed.

(** -drive and -net *)
Lemma make_option_spec k v s bs :
  reading s bs →
  let '(s', r) := make_option a k v s in
  cfg s' = cfg s ∧
  match r with
  | Some b => owns s' (bs ++ [b]) ∧ trace s' = created (bs ++ [b]) ∧ calls s' = length (bs ++ [b])
  | None => left_early s' EXIT_FAILURE
  end.
Proof.
  intros R. unfold make_option. destruct (cmdline_extract_opt _ _ _) as [[drv|e]|];
    [|split; [done|by eapply reading_left]..].
  pose proof (reading_few s bs R). destruct R as [O T P C _]. pose proof (make_spec k drv (Some v) s bs O) as M.
  destruct (make a k drv (Some v) s) as [s' [b|e]]; destruct M as (Ec & En & M); (split; [done|]).
  - destruct M as [O' T']. split; [done|]. split; [by rewrite T', T; unfold created; rewrite fmap_app|].
    rewrite En, C, length_app. cbn. lia.
  - destruct M as (O' & t & L & T'). exists bs, t. split_and!; [done|lia|done|by rewrite T', T|done].
Qed.

Lemma default_reading id : reading (mk_state default_config (ResPool.res_pool_init id) 0 []) [].
Proof.
  split; cbn; try done.
  - split; cbn; try done. split; constructor.
  - split; cbn; try lia; [by split; [lia|vm_compute]|unfold UINT_MAX; lia].
Qed.

Definition outcome (r : state * option Z) : Prop :=
  match r with
  | (s, None) => ∃ bs, reading s bs
  | (s, Some code) => left_early s code
  end.

(** One option, if the rest of the arguments is dealt with. *)
Section Option.
Context (rest : list str) (s : state) (bs : list Z).
Hypothesis Rest : ∀ s bs, reading s bs → outcome (parse_args a rest s).
Hypothesis R : reading s bs.

Lemma option_stops code : outcome (s, Some code).
Proof. by eapply reading_left. Qed.

Lemma option_sets c :
  drives c = drives (cfg s) → nets c = nets (cfg s) → cfg_ok c → outcome (parse_args a rest (with_cfg s c)).
Proof. intros. eapply Rest. by apply reading_cfg. Qed.

Lemma option_makes k v (upd : vm_config → Z → vm_config) :
  (∀ b, cfg_ok (upd (cfg s) b) ∧ drives (upd (cfg s) b) ++ nets (upd (cfg s) b) ≡ₚ (drives (cfg s) ++ nets (cfg s)) ++ [b]) →
  outcome (match make_option a k v s with
           | (s, None) => (s, Some EXIT_FAILURE)
           | (s, Some b) => parse_args a rest (with_cfg s (upd (cfg s) b))
           end).
Proof.
  intros Hu. pose proof (make_option_spec k v s bs R) as M. destruct (make_option a k v s) as [s' [b|]];
    destruct M as [Ec M]; [|done]. destruct M as (O & T & C). apply (Rest _ (bs ++ [b])).
  rewrite Ec. destruct (Hu b) as [Hc Hp]. split; cbn; [by destruct O; split|done| |done|done].
  by rewrite Hp, (r_backends s bs R).
Qed.
End Option.

Lemma parse_args_spec n : ∀ args s bs, (length args ≤ n)%nat → reading s bs → outcome (parse_args a args s).
Proof.
  induction n as [|n IH]; intros [|arg [|v rest]] s bs Hn R; cbn [length] in Hn; try lia; cbn [parse_args];
    [by exists bs|by exists bs|destruct (bool_decide _); by eapply option_stops|].
  assert (Rest : ∀ s bs, reading s bs → outcome (parse_args a rest s)) by (intros; eapply IH; [lia|done]).
  pose proof (option_stops s bs R) as Stop. pose proof (option_sets rest s bs Rest R) as Sets.
  pose proof (option_makes rest s bs Rest R) as Makes. pose proof (r_cfg s bs R) as [Cd Cn Cr Cv].
  destruct (bool_decide _); [apply Stop|]. destruct (bool_decide _); [apply Sets; done|].
  destruct (bool_decide _).
  { destruct (positive_number _ _) as [m|] eqn:E; [|apply Stop].
    apply positive_number_spec in E as (_ & _ & _ & _ & _ & Hm); [|vm_compute; congruence]. apply Sets; [done..|].
    split; [done..| |done]. cbn. unfold SIZE_MAX in Hm. pose proof (Z.mul_div_le (2 ^ 64 - 1) (1024 * 1024)).
    rewrite u64_small by (unfold is_u64; lia). split; [lia|].
    replace (m * 1024 * 1024) with (m * 2 ^ 20) by lia. by apply Z.mod_mul. }
  destruct (bool_decide _).
  { destruct (positive_number _ _) as [m|] eqn:E; [|apply Stop].
    apply positive_number_spec in E as (_ & _ & _ & _ & _ & Hm); [|vm_compute; congruence]. apply Sets; [done..|].
    split; [done..|]. cbn. unfold UINT_MAX in *. rewrite u32_small by (unfold is_u32; lia). lia. }
  do 3 (destruct (bool_decide _); [apply Sets; done|]).
  destruct (bool_decide _).
  { unfold MAX_DRIVES_SUPPORTED. destruct (Z.leb_spec 4 (Z.of_nat (length (drives (cfg s))))); [apply Stop|].
    apply (Makes BlockKind v (fun c b => c <| drives := drives c ++ [b] |>)). intros b. split.
    - split; [cbn; rewrite length_app; cbn; lia|done..].
    - cbn. rewrite <- !app_assoc. f_equiv. apply Permutation_app_comm. }
  destruct (bool_decide _); [|apply Stop].
  unfold MAX_NETS_SUPPORTED. destruct (Z.leb_spec 4 (Z.of_nat (length (nets (cfg s))))); [apply Stop|].
  apply (Makes NetKind v (fun c b => c <| nets := nets c ++ [b] |>)). intros b. split.
  - split; [done|cbn; rewrite length_app; cbn; lia|done..].
  - cbn. by rewrite app_assoc.
Qed.

(** ** A run of the program *)

(** What lies between creating and destroying the backends [bs], and the exit
    code; [help] is whether the user asked only for help. *)
Inductive course (help : Prop) : Z → list Z → list step → Prop :=
| not_started code bs : (code = EXIT_SUCCESS → help) → course help code bs []
| not_created bs b : course help EXIT_FAILURE bs [Backend (Created b); Backend (Destroyed b)]
| not_built c bs console ret :
    cfg_ok c → drives c ++ nets c ≡ₚ bs → ret < 0 →
    course help EXIT_FAILURE (bs ++ [console]) [VmInit c console ret; VmDestroy]
| has_run c bs console ret run :
    cfg_ok c → drives c ++ nets c ≡ₚ bs → 0 ≤ ret →
    course help (if run <? 0 then EXIT_FAILURE else EXIT_SUCCESS) (bs ++ [console]) [VmInit c console ret; VmRun run; VmDestroy].

Definition finished (help : Prop) (s : state) (code : Z) : Prop :=
  ∃ bs mid, owns s bs ∧ (calls s ≤ 9)%nat ∧ trace s = created bs ++ mid ∧ course help code bs mid.

Lemma left_finished (help : Prop) s code : left_early s code → (code = EXIT_SUCCESS → help) → finished help s code.
Proof.
  intros (bs & t & O & C & L & T & Hs) Hc. exists bs, t. split_and!; [done..|]. destruct L as [->|[b ->]]; [by constructor|].
  rewrite Hs by done. constructor.
Qed.

(** The loop is left with success only for -h. *)
Lemma parse_args_help n : ∀ args s s', (length args ≤ n)%nat →
  parse_args a args s = (s', Some EXIT_SUCCESS) → bytes "-h" ∈ args.
Proof.
  induction n as [|n IH]; intros [|arg [|v rest]] s s' Hn; cbn [length] in Hn; try lia; cbn [parse_args]; try done.
  - destruct (bool_decide_reflect (arg = bytes "-h")) as [<-|]; [left|done].
  - destruct (bool_decide_reflect (arg = bytes "-h")) as [<-|]; [left|]. intros E. right. right.
    repeat (case_match; simplify_eq; try done); by (eapply IH; [|done]; lia).
Qed.

Lemma log_twice s t t' : log (log s t) t' = log s (t ++ t').
Proof. unfold log. cbn. by rewrite <- app_assoc. Qed.

Lemma run_machine_spec (help : Prop) s bs : reading s bs → let '(s', code) := run_machine a s in finished help s' code.
Proof.
  intros R. pose proof (reading_few s bs R) as Few. unfold run_machine. destruct (board_find _ _) as [bd|].
  2: { by eapply left_finished; [eapply reading_left, R|]. }
  destruct R as [O T P C Hc]. pose proof (make_spec CharKind (bytes "posix-stdio") None s bs O) as M.
  destruct (make a CharKind _ None s) as [s' [b|e]]; destruct M as (Ec & En & M).
  2: { destruct M as (O' & t & L & T'). apply left_finished; [|done]. exists bs, t.
       split_and!; [done|lia|done|by rewrite T', T|done]. }
  destruct M as [O' T']. rewrite <- Ec in Hc, P.
  assert (Fin : ∀ mid code, course help code (bs ++ [b]) mid → finished help (log s' mid) code).
  { intros mid code Co. exists (bs ++ [b]), mid. split_and!; [by destruct O'; split|cbn; lia| |done].
    cbn. rewrite T', T. unfold created. by rewrite fmap_app. }
  destruct (Z.ltb_spec (a_init a) 0) as [Hi|Hi].
  { rewrite log_twice. apply Fin. by constructor. }
  rewrite !log_twice. pose proof (has_run help (cfg s') bs b (a_init a) (a_run a) Hc P Hi) as Co.
  destruct (a_run a <? 0); by apply Fin.
Qed.

Lemma release_spec s bs : owns s bs → (calls s ≤ 9)%nat → release s = Some (trace s ++ destroyed (reverse bs)).
Proof.
  intros [I R Eo F Hn] C. unfold release.
  rewrite (ResPool.release_order (fun _ b t => t ++ [Backend (Destroyed b)])) by (done || lia).
  rewrite Eo. f_equal. rewrite <- fmap_reverse. generalize (reverse bs). intros l. generalize (trace s).
  induction l as [|b l IH]; intros t; cbn; [by rewrite app_nil_r|]. rewrite IH. by rewrite <- app_assoc.
Qed.

(** C20. The program, for any command line and whatever the rest of it answers:
    it ends without a fault, and what happens is nested.  The backends it created
    are destroyed once each, in the reverse order, after anything else; a machine
    is built only from a valid configuration, with exactly the drives and networks
    that were created (at most four each) and a console, and is destroyed whether
    it could be built and run or not; the exit code is a success only if the user
    asked for help or the machine ran without an error. *)
Theorem main_unwinds id argv :
  ∃ code bs mid, main a id argv = Some (code, created bs ++ mid ++ destroyed (reverse bs)) ∧
    NoDup bs ∧ course (length argv = 1%nat ∨ bytes "-h" ∈ argv) code bs mid.
Proof.
  unfold main. destruct (Nat.eqb_spec (length argv) 1) as [E1|_].
  { exists EXIT_SUCCESS, [], []. split_and!; [done|constructor|]. constructor. auto. }
  set (help := _ ∨ _). pose proof (fun s => parse_args_help _ (drop 1 argv) (mk_state default_config (ResPool.res_pool_init id) 0 []) s (le_n _)) as Hh.
  pose proof (parse_args_spec _ (drop 1 argv) _ _ (le_n _) (default_reading id)) as O.
  destruct (parse_args a (drop 1 argv) _) as [s exit]. cbn in O.
  assert (Fin : let '(s', ret) := match exit with Some code => (s, code) | None => run_machine a s end in finished help s' ret).
  { destruct exit as [code|]; [|destruct O as [bs R]; by eapply run_machine_spec].
    apply left_finished; [done|]. intros ->. right. specialize (Hh s eq_refl). destruct argv; [done|by right]. }
  destruct (match exit with Some code => (s, code) | None => run_machine a s end) as [s' ret].
  destruct Fin as (bs & mid & Ow & C & T & Co). exists ret, bs, mid. rewrite (release_spec s' bs Ow C), T. cbn.
  rewrite <- app_assoc. split_and!; [done| |done].
  apply (NoDup_fmap_1 (fun b => (backend_cleanup, b))). rewrite <- (o_backends _ _ Ow). apply Ow.
Qed.
End Unwind.

(** ** Witnesses *)

(** A disk driver "d", the console, and the board; backends are at multiples of
    4096. *)
Definition example_desc (name : string) (n : nat) : desc (option constructor) :=
  mk_desc (Some (bytes name)) (Some (fun _ => Ptr (4096 * (1 + Z.of_nat n)))).
Definition example_name (k : kind) : string :=
  match k with BlockKind => "d" | NetKind => "n" | CharKind => "posix-stdio" end.
Definition example_answers (run : Z) : answers :=
  mk_answers (fun k n => [example_desc (example_name k) n])
    (fun n => Some (100 + Z.of_nat n)) (fun _ => true) [mk_desc (Some (bytes "pc")) true] 0 run.

Lemma example_main_answers_ok run : answers_ok (example_answers run) (fun n => 4096 * (1 + Z.of_nat n)).
Proof.
  split.
  - intros i j E. lia.
  - intros k n. apply (filled_add _ _ [] (Some (example_desc (example_name k) n)) _ (filled_nil _ _)). by destruct k.
  - intros k n d create o b Hd Ed Eb. apply list_elem_of_singleton in Hd as ->. by simplify_eq/=.
Qed.

(** modvm -m 64 -drive driver=d -smp 2 *)
Definition example_argv : list str :=
  bytes <$> ["modvm"; "-m"; "64"; "-drive"; "driver=d"; "-smp"; "2"]%string.

Lemma main_unwinds_witness :
  ∃ code bs mid, main (example_answers (-5)) 1 example_argv = Some (code, created bs ++ mid ++ destroyed (reverse bs)) ∧
    code = EXIT_FAILURE ∧ NoDup bs ∧ course (length example_argv = 1%nat ∨ bytes "-h" ∈ example_argv) code bs mid ∧
    option_map (fun r => length (snd r)) (main (example_answers (-5)) 1 example_argv) = Some 7%nat.
Proof.
  destruct (main_unwinds (example_answers (-5)) (fun n => 4096 * (1 + Z.of_nat n)) (example_main_answers_ok (-5)) 1 example_argv)
    as (code & bs & mid & E & N & Co).
  exists code, bs, mid. split; [exact E|]. split; [|split; [exact N|split; [exact Co|vm_compute; reflexivity]]].
  apply (f_equal (option_map fst)) in E. vm_compute in E. injection E as <-. reflexivity.
Defined.

(** The configuration of that machine. *)
Lemma main_options_witness :
  parse_args (example_answers 0) ([FMem [6; 4]; FMem [1; 2; 8]; FSmp [2]] ≫= flag_args)
    (mk_state default_config (ResPool.res_pool_init 1) 0 []) =
  (mk_state (mk_cfg (bytes "kvm") (128 * 2 ^ 20) 2 (bytes "raw-x86") None (bytes "pc") [] []) (ResPool.res_pool_init 1) 0 [], None).
Proof.
  rewrite (main_options (example_answers 0) (mk_state default_config (ResPool.res_pool_init 1) 0 []) [FMem [6; 4]; FMem [1; 2; 8]; FSmp [2]]).
  - reflexivity.
  - repeat constructor; try done; vm_compute; congruence.
Defined.

Lemma positive_number_spec_witness : positive_number (print_digits [0; 4; 2]) UINT_MAX = Some 42.
Proof.
  apply (positive_number_spec (print_digits [0; 4; 2]) UINT_MAX 42); [vm_compute; congruence|].
  exists [0; 4; 2]. split_and!; [done|done| |done|done|vm_compute; congruence]. repeat constructor; done.
Defined.
End Main.
